(* ===== verification/_CoqProject ===== *)
-Q . S2P
Prelude.v
GoLib.v
NetHttp.v
GoJson.v
JsonParse.v
JsonDecode.v
KubeTypes.v
Api.v
Interfaces.v
Reference.v
Prog.v
Calls.v
Concurrency.v
Server.v
Ids.v
Jwt.v
Status.v
Reconcile.v
StorageBroker.v
StorageController.v
SafekeeperRes.v
PageserverRes.v
ComputeRes.v
Naming.v
Shard.v
ComputeSpec.v
Requests.v
ControlPlane.v
Listener.v
Serving.v
Middleware.v
Controller.v
ApiServer.v
ClusterController.v
SafekeeperController.v
PageserverController.v
ProjectController.v
BranchController.v
Operator.v
Rbac.v
Registration.v
Main.v
Flags.v
Convergence.v
Settling.v
Effects.v
Places.v
Rounds.v
Passes.v
Fleet.v
Lifecycle.v
Races.v
Memory.v
Copying.v
DeepCopy.v
PatchMemory.v
