(* ===== verification/Prelude.v ===== *)
(** * Verification of the Neon Kubernetes operator

    The operator (Go, under src/) runs Neon on Kubernetes.  Five controllers turn
    custom resources into Deployments, StatefulSets, Services, ConfigMaps and
    Secrets; a small HTTP server, the control plane, hands compute nodes their
    specification and passes notifications of the storage controller on to them.

    ** The parts of the program and their files here

    - src/api/v1alpha1: the custom resources.  [Api]: their records, the universe
      of kinds ([Kind], [obj]) and the status accessors as a class, [StatusObject],
      with an instance per resource.  [DeepCopy]: the generated deep copies, over the
      memory of [Memory] and with the statements and the contract of [Copying].
    - src/utils: [Ids] (ids.go), [Jwt] (jwtmanager.go), [Status] (status.go),
      [Reconcile] (reconcile.go, fieldmanager.go).
    - src/specs: the Kubernetes objects each component needs, as functions of the
      custom resources.  [StorageBroker], [StorageController], [SafekeeperRes],
      [PageserverRes], [ComputeRes] (one Module per Go package, under the package's
      name); [Shard] and [ComputeSpec] (specs/compute/spec.go).
    - src/internal/controller: one file and Module per reconciler,
      [ClusterController], [SafekeeperController], [PageserverController],
      [ProjectController], [BranchController]; [Controller] has what they share.
    - src/internal/controlplane: [ControlPlane] (the routes and handlers of routes.go),
      [Requests] (the documents they read), [Middleware] (response writers, the
      logging middleware, what goes out on a connection), [Listener]
      ([ControlPlane.Start] of server.go as a step relation).
    - src/cmd/controller/main.go: [Main], and its command line [Flags]; the
      [SetupWithManager] methods and the scheme: [Registration]; the kubebuilder:rbac markers and config/rbac: [Rbac].

    Every function keeps its Go name; a method keeps the name of the method and is
    in the Module of its receiver.

    ** The semantic basis

    - [GoLib]: Go errors as values (wrapping with its message, sentinels, faults that
      come from outside), results, panics as an [outcome], the verbs of fmt the
      program uses, hexadecimal and base64.
    - [NetHttp]: the mux of net/http (Go 1.24) around the routes registered on it: the
      cleaning of paths with its redirect, patterns matched on unescaped segments, its
      own answers; and path.Clean, for [Main] too.
    - [GoJson], [JsonParse], [JsonDecode]: encoding/json as the program uses it.  The
      printer escapes as the library does; the scanner is a push-down automaton that
      reads one byte at a time, structurally on the input, so it needs no fuel; the
      typed decoder matches field names, ranges of integers, null and repeated keys
      the way Unmarshal does.  [json_string_body] and [valid_utf8_from] alone take fuel,
      a bound on the bytes left, and are called with the length of the string, which is
      enough as each step consumes a byte.
    - [KubeTypes]: the part of the Kubernetes types the program sets or reads.
    - [Prog]: programs over the API server, HTTP, the clock and the random source.
      A program is a finite tree of calls and continuations, so every program of the
      development ends; [wp] says what its trace and outcome satisfy whatever the
      environment answers to each call, which includes every failure and every
      interleaving with other clients.  [exec] runs a program against a server.
    - [Interfaces]: what the program takes from other libraries, as classes of
      operations and classes of their documented laws: SetStatusCondition, semantic
      equality and derivation, controller references, quantities, keys and PEM,
      tokens, URL checks.  A token takes claims of the types RFC 7519 gives them, shows
      its audience as a list, and is refused outside its [exp], [iat] and [nbf].
    - [Reference]: a concrete function and the proof of the laws for each of them, so
      that no theorem rests on a class nothing inhabits.
    - [Calls]: [rg], a rely/guarantee judgement on the single calls of a program, and
      [Concurrency]: any number of programs over one server, interleaved call by call, as
      a step relation and as executable schedules that are runs of it.
    - [ApiServer]: the servers that keep what is written to them, as a class; the
      specification [maintains] of a step towards an intended state.
    - [Server]: an in-memory API server with sample resources, on which the
      witnesses run whole reconcile passes by computation.

    ** How the parts are put together

    - [Operator]: all controllers and handlers at once over one cluster.
    - [Serving]: the branch controller's Deployment and the control plane's lookup.
    - [Convergence]: the children of each controller are driven into place;
      [Settling] and [Passes]: a whole pass ends in a state from which the next pass
      writes nothing.  [Effects]: what a pass does whatever it finds, early or late.
      [Places]: whose child is at a place, told by its kind and name; [Rounds]: passes
      one after the other, in any schedule, as jobs that build on each other; [Fleet]:
      the five controllers over any number of resources with their identifiers;
      [Lifecycle]: the same from resources that are still to get theirs.  [Races] runs
      the one interleaving that loses an identifier.

    ** What the theorems show

    Specifications are relations between traces and outcomes and theorems show the
    code refines them in every environment: [ssa_run] for one child, call by call and
    message by message, and [upserts] for what its copies have in common (created when
    absent, applied when drifting, otherwise left alone), [runs_in_order] for a
    sequence of steps that stops at the first error, [status_run] for one status
    report, [pass] for children then status, [reconciles] for the read at the start.

    - Reconcile passes ([Reconcile_cluster_pass] and its four companions): each
      controller refines its specification; which objects are written, in which
      order, at most once; what is reported and when the pass is repeated; and where
      it panics (a Cluster that has been deleted, a size that is not a quantity).
    - Settling ([operator_settles]; [Reconcile_cluster_settles] and its companions): on
      a server that keeps what is written an undisturbed pass reaches a state that the
      next pass leaves alone.  For resources that refer to one another, created with or
      without identifiers, passes in any order assign the identifiers, and every
      schedule that has parents before children somewhere in it settles all of them,
      whatever passes come in between, since none writes where another has looked.
    - All programs at once ([statuses_stay_ok], [signing_keys_kept],
      [operator_authorised], [children_watched]): statuses stay well formed and keys
      are never replaced, however the calls interleave and whatever passes are under way;
      the deployed role is the one the calls need, and what is written is what is
      watched.
    - Children and status ([ReconcileSSA_contract], [ensure_equiv_ReconcileSSA],
      [UpdateSTSBackedStatus_reports], [PatchStatus_protocol], [PodNotReadyDetail_first]):
      the contract of one child; around any closure one status patch at most, under the
      version it was decided on; why a Pod is not ready.
    - Memory ([DeepCopyObject_isolated], [UpdateSTSBackedStatus_mem_refines]): a deep
      copy shares nothing with its original, and because of that the status update on
      pointers does what it does on values.  This is why objects can be values in the
      rest of the development.
    - Compute specification ([GenerateComputeSpec_consistent] and the others of
      [ComputeSpec], [compute_spec_served]): a specification belongs to one
      deployment, project, branch and key, those it read; it is pushed with a token the
      public key verifies for an hour; all the shards fall on one key; when the branch
      controller's objects are there a compute node gets its specification.
    - Control plane ([notifyAttach_outcomes], [notifySafekeepers_outcomes],
      [newServer_safe], [served_as_computed], [Start_terminates],
      [Start_never_blocks], [Start_returns]): the status of every answer, redirects of
      the mux included, no write, no panic; what goes out on the connection; the two
      threads of the listener.
    - Start-up ([main_starts_last], [tls_options_isolated], [Parse_settings]).
    - Names and encodings ([service_names_distinct]; [ShardIndex_roundtrip],
      [VerifyToken_GenerateToken], [GenerateNeonID_hex32], [requests_decoded]).
    - As a library: the JSON scanner reads back what the printer writes, children
      converge, selectors and ports agree.

    ** Bounds and fuel

    Programs are finite trees and need no fuel; [json_string_body] and [valid_utf8_from]
    are called with the length of their input; the JSON scanner and the parser of the
    command line recurse on their input.  Integers that Go keeps in a fixed width are checked against it where
    they are read (JSON) and wrap where the code computes with them (shard counts).

    ** What is not modelled

    The log, the duration and the client fields of its lines and the keys it is given
    in contexts (utils/contextkeys.go); the flags of the logger and of the client
    library, which are a parameter of the parser; the generic [decode] of routes.go,
    which nothing calls; CONNECT requests, whose path the mux does not clean, and
    HTTP/1.0.  Of the types of k8s.io only the fields the program sets or reads are there
    (a SecretKeySelector has no [Optional]); copying them is a parameter with its contract
    as a law.  Outside Memory.v and the files built on it objects are
    values; there the program never changes an object another holds, except the
    caller's object in [PatchStatus] and updateTimelineID/updateTenantID, which return
    it as they leave it.

    Settling is shown for passes one after the other on a server nobody else writes to;
    interleaved calls are the subject of [Concurrency], [Operator] and [Races].

    ** Plan

    Next: settling with the passes of several controllers interleaved call by call; the
    remaining closures of status updates in memory. *)

From stdpp Require Export prelude strings list gmap pretty.
From Stdlib Require Export Ascii.

#[global] Open Scope stdpp_scope.
#[global] Open Scope Z_scope.

(** ** Hint databases and closing tactics *)

Create HintDb neon discriminated.

#[export] Set Warnings "-clear-no-such-hyp".

(** [inv_ok H] peels the injective equalities the models produce. *)
Ltac inv_ok H := injection H; clear H; intros; subst.

(** Split every conjunction and existential of the context. *)
Ltac split_hyps :=
  repeat match goal with
  | H : _ ∧ _ |- _ => destruct H
  | H : ∃ _, _ |- _ => destruct H
  end.

(** [cases!] splits the [match] and [if] the goal is stuck on, keeping the equations. *)
Ltac cases_step :=
  match goal with
  | |- context [ match ?x with _ => _ end ] =>
      lazymatch x with context [ match _ with _ => _ end ] => fail | _ => destruct x eqn:? end
  end.
Ltac cases := repeat (cases_step; simplify_eq/=).

(** ** Lists *)

Section lists.
Context {A : Type}.
Implicit Types (l k : list A) (p : A → bool).

(** The first element that satisfies a test. *)
Fixpoint find_first p l : option A :=
  match l with
  | [] => None
  | x :: l => if p x then Some x else find_first p l
  end.

Lemma find_first_app p l k :
  find_first p (l ++ k) = match find_first p l with Some x => Some x | None => find_first p k end.
Proof. induction l as [|x l IH]; simpl; [done|]. by destruct (p x). Qed.

Lemma find_first_Some p l x : find_first p l = Some x → x ∈ l ∧ p x = true.
Proof.
  induction l as [|y l IH]; simpl; [done|].
  destruct (p y) eqn:E; intros H; simplify_eq.
  - split; [left|done].
  - destruct (IH H). split; [by right|done].
Qed.

Lemma find_first_None p l : find_first p l = None ↔ (∀ x, x ∈ l → p x = false).
Proof.
  induction l as [|y l IH]; simpl.
  - split; [intros _ x Hx; by apply elem_of_nil in Hx|done].
  - destruct (p y) eqn:E; split.
    + done.
    + intros H. rewrite H in E; [done|left].
    + intros H x [->|Hx]%elem_of_cons; [done|]. by apply IH.
    + intros H. apply IH. intros x Hx. apply H. by right.
Qed.

Lemma find_first_ext p q l :
  (∀ x, x ∈ l → p x = q x) → find_first p l = find_first q l.
Proof.
  induction l as [|y l IH]; intros H; simpl; [done|].
  rewrite H by left. destruct (q y); [done|]. apply IH. intros x Hx. apply H. by right.
Qed.
End lists.

(** ** Strings as byte sequences *)

Lemma string_app_nil_r (s : string) : s +:+ "" = s.
Proof. induction s as [|c s IH]; [done|]. unfold String.app in *. simpl. by rewrite IH. Qed.

Lemma string_app_nil_l (s : string) : "" +:+ s = s.
Proof. done. Qed.

Lemma string_app_assoc (s t u : string) : (s +:+ t) +:+ u = s +:+ (t +:+ u).
Proof. induction s as [|c s IH]; [done|]. unfold String.app in *. simpl. by rewrite IH. Qed.

Lemma string_app_cons (c : ascii) (s t : string) : String c s +:+ t = String c (s +:+ t).
Proof. done. Qed.

Lemma string_length_app (s t : string) :
  String.length (s +:+ t) = (String.length s + String.length t)%nat.
Proof.
  induction s as [|c s IH]; [done|]. rewrite string_app_cons. simpl. by rewrite IH.
Qed.

Lemma string_app_inj_len (s s' t t' : string) :
  String.length t = String.length t' → s +:+ t = s' +:+ t' → s = s' ∧ t = t'.
Proof.
  revert s'. induction s as [|c s IH]; intros [|c' s'] Hl H.
  - done.
  - exfalso. apply (f_equal String.length) in H.
    rewrite !string_length_app in H. simpl in H. lia.
  - exfalso. apply (f_equal String.length) in H.
    rewrite !string_length_app in H. simpl in H. lia.
  - rewrite !string_app_cons in H. injection H as -> H.
    destruct (IH s' Hl H) as [-> ->]. done.
Qed.

Lemma string_app_inj_r (s s' t : string) : s +:+ t = s' +:+ t → s = s'.
Proof. intros H. by apply string_app_inj_len in H as [? _]. Qed.
Lemma string_app_inj_l (s t t' : string) : s +:+ t = s +:+ t' → t = t'.
Proof. induction s as [|c s IH]; [done|]. rewrite !string_app_cons. intros [= H]. auto. Qed.

(** All the bytes of a string satisfy a test. *)
Fixpoint string_all (p : ascii → bool) (s : string) : bool :=
  match s with
  | EmptyString => true
  | String c s => p c && string_all p s
  end.

Lemma string_all_app p s t : string_all p (s +:+ t) = string_all p s && string_all p t.
Proof.
  induction s as [|c s IH]; [done|]. rewrite string_app_cons. simpl.
  rewrite IH. by rewrite andb_assoc.
Qed.

(** If a separator byte does not occur in either tail, the split at its last
    occurrence is unique. *)
Lemma string_last_split (c : ascii) (a b s t : string) :
  string_all (λ x, negb (Ascii.eqb x c)) s = true →
  string_all (λ x, negb (Ascii.eqb x c)) t = true →
  a +:+ String c s = b +:+ String c t → a = b ∧ s = t.
Proof.
  revert b. induction a as [|x a IH]; intros [|y b] Hs Ht H;
    rewrite ?string_app_nil_l, ?string_app_cons in H.
  - by injection H as ->.
  - injection H as -> ->. rewrite string_all_app in Hs. simpl in Hs.
    by rewrite Ascii.eqb_refl, andb_false_r in Hs.
  - injection H as -> <-. rewrite string_all_app in Ht. simpl in Ht.
    by rewrite Ascii.eqb_refl, andb_false_r in Ht.
  - injection H as -> H. by destruct (IH b Hs Ht H) as [-> ->].
Qed.

Create Rewrite HintDb neon_strings.
#[export] Hint Rewrite string_app_assoc string_app_nil_r string_length_app : neon_strings.
