(* ===== verification/GoLib.v ===== *)
(** * The parts of the Go language and standard library the operator uses

    Go strings and byte slices are sequences of bytes ([string]).  Errors keep
    what the program observes of them: the text, the API-server classification
    and the network classification of the innermost error, and the chain of
    [fmt.Errorf("...: %w", err)] wrappers around it.  [hex], [base64] and the
    verbs [%d], [%02x] and [%q] of [fmt] are executable definitions. *)

From S2P Require Import Prelude.

(** ** Errors *)

(** What the code can observe of an error made outside the repository:
    [Error()], [apierrors.IsNotFound], and the tests of [isConnectionError]. *)
Record fault := Fault {
  fault_msg : string;
  fault_not_found : bool;
  fault_conn_refused : bool;
  fault_conn_reset : bool;
  fault_eof : bool;
  fault_net_timeout : bool;
  fault_dns : bool;
}.

#[export] Instance fault_eq_dec : EqDecision fault.
Proof. solve_decision. Defined.

Inductive error :=
  | Foreign (f : fault)                  (** an error returned by a call that leaves the program *)
  | Sentinel (msg : string)              (** a package-level [errors.New] value, compared by identity *)
  | Errorf (msg : string)                (** [fmt.Errorf] or [errors.New] without a wrapped error *)
  | Wrapf (prefix : string) (e : error). (** [fmt.Errorf(prefix + ": %w", e)] *)

#[export] Instance error_eq_dec : EqDecision error.
Proof. solve_decision. Defined.

(** [err.Error()] *)
Fixpoint Error (e : error) : string :=
  match e with
  | Foreign f => fault_msg f
  | Sentinel m | Errorf m => m
  | Wrapf p e => p +:+ ": " +:+ Error e
  end.

(** The foreign error at the bottom of the [Unwrap] chain, which [errors.As] finds. *)
Fixpoint root (e : error) : option fault :=
  match e with
  | Foreign f => Some f
  | Sentinel _ | Errorf _ => None
  | Wrapf _ e => root e
  end.

Definition observes (p : fault → bool) (e : error) : bool :=
  match root e with Some f => p f | None => false end.

(** [apierrors.IsNotFound], which looks through wrappers. *)
Definition IsNotFound : error → bool := observes fault_not_found.

(** [errors.Is(e, target)] for a sentinel target. *)
Fixpoint errors_Is (e : error) (target : string) : bool :=
  match e with
  | Sentinel m => bool_decide (m = target)
  | Foreign _ | Errorf _ => false
  | Wrapf _ e => errors_Is e target
  end.

Lemma observes_Wrapf p m e : observes p (Wrapf m e) = observes p e.
Proof. done. Qed.

(** An error that is no sentinel and wraps none. *)
Definition unmarked (e : error) : Prop := ∀ target, errors_Is e target = false.

Lemma unmarked_Foreign f : unmarked (Foreign f).
Proof. done. Qed.
Lemma unmarked_Errorf m : unmarked (Errorf m).
Proof. done. Qed.
Lemma unmarked_Wrapf p e : unmarked e → unmarked (Wrapf p e).
Proof. intros H target. apply H. Qed.
Lemma unmarked_root e f : root e = Some f → unmarked e.
Proof. induction e; simpl; intros H target; [done..|]. by apply IHe. Qed.
#[export] Hint Resolve unmarked_Foreign unmarked_Errorf unmarked_Wrapf unmarked_root : neon.

(** The fault of a missing object and of an unclassified failure. *)
Definition not_found_fault (m : string) : fault := Fault m true false false false false false.
Definition plain_fault (m : string) : fault := Fault m false false false false false false.

(** A value or an error.  [result] is a Go pair [(T, error)] whose value is used
    only when the error is nil; [reply] is what a call that leaves the program
    comes back with. *)
Inductive res (E A : Type) :=
  | Ok (a : A)
  | Err (e : E).
Arguments Ok {E A} a.
Arguments Err {E A} e.

Abbreviation result := (res error).
Abbreviation reply := (res fault).

(** The program sees the fault of a reply as a foreign error. *)
Definition from_env {A} (r : reply A) : result A :=
  match r with Ok a => Ok a | Err f => Err (Foreign f) end.

#[export] Instance result_ret : MRet result := λ A a, Ok a.
#[export] Instance result_bind : MBind result :=
  λ A B f r, match r with Ok a => f a | Err e => Err e end.

Definition result_err {A} (r : result A) : option error :=
  match r with Ok _ => None | Err e => Some e end.

(** A pure Go expression that may panic. *)
Inductive outcome (A : Type) :=
  | Returned (a : A)
  | Panicked (why : string).
Arguments Returned {A} a.
Arguments Panicked {A} why.

#[export] Instance outcome_ret : MRet outcome := λ A a, Returned a.
#[export] Instance outcome_bind : MBind outcome :=
  λ A B f r, match r with Returned a => f a | Panicked w => Panicked w end.

Lemma outcome_bind_Returned {A B} (o : outcome A) (f : A → outcome B) b :
  o ≫= f = Returned b → ∃ a, o = Returned a ∧ f a = Returned b.
Proof. destruct o as [a|w]; [|done]. eauto. Qed.

(** Field access through a pointer: a nil pointer panics. *)
Definition deref {A} (p : option A) : outcome A :=
  match p with
  | Some a => Returned a
  | None => Panicked "invalid memory address or nil pointer dereference"
  end.

(** ** [fmt] verbs *)

(** [%d] *)
Definition fmt_d (z : Z) : string := pretty z.

Definition is_digit (c : ascii) : bool :=
  (N_of_ascii "0" <=? N_of_ascii c)%N && (N_of_ascii c <=? N_of_ascii "9")%N.

(** A lower-case hexadecimal digit, [hextable] of encoding/hex. *)
Definition hex_digit (n : N) : ascii :=
  match String.get (N.to_nat n) "0123456789abcdef" with Some c => c | None => "0" end.

Definition hex_byte (b : ascii) (rest : string) : string :=
  String (hex_digit (N_of_ascii b / 16)) (String (hex_digit (N_of_ascii b mod 16)) rest).

(** [%02x] of a [uint8] *)
Definition fmt_02x (b : ascii) : string := hex_byte b "".

(** [%q] of a string: [strconv.Quote].  Bytes from 0x80 on are kept as they are,
    which is what [Quote] does for printable UTF-8. *)
Definition quote_byte (c : ascii) : string :=
  let n := N_of_ascii c in
  if decide (n = 34)%N then "\" +:+ String c ""
  else if decide (n = 92)%N then "\\"
  else if decide (n = 7)%N then "\a"
  else if decide (n = 8)%N then "\b"
  else if decide (n = 12)%N then "\f"
  else if decide (n = 10)%N then "\n"
  else if decide (n = 13)%N then "\r"
  else if decide (n = 9)%N then "\t"
  else if decide (n = 11)%N then "\v"
  else if decide (n < 32)%N then "\x" +:+ fmt_02x c
  else if decide (n = 127)%N then "\x" +:+ fmt_02x c
  else String c "".

Fixpoint quote_body (s : string) : string :=
  match s with
  | EmptyString => ""
  | String c s => quote_byte c +:+ quote_body s
  end.

Definition dquote : string := String (ascii_of_N 34) "".

(** Source text with double quotes, written with a backquote for each of them. *)
Fixpoint dq (s : string) : string :=
  match s with
  | EmptyString => ""
  | String "`" s => String (ascii_of_N 34) (dq s)
  | String c s => String c (dq s)
  end.

Definition fmt_q (s : string) : string := dquote +:+ quote_body s +:+ dquote.

(** ** encoding/hex *)

Fixpoint hex_EncodeToString (s : string) : string :=
  match s with
  | EmptyString => ""
  | String c s => hex_byte c (hex_EncodeToString s)
  end.

(** The value of a hexadecimal digit, either case; [None] is Go's 0xff entry. *)
Definition hex_value (c : ascii) : option N :=
  let n := N_of_ascii c in
  if decide (48 ≤ n ∧ n ≤ 57)%N then Some (n - 48)%N
  else if decide (97 ≤ n ∧ n ≤ 102)%N then Some (n - 87)%N
  else if decide (65 ≤ n ∧ n ≤ 70)%N then Some (n - 55)%N
  else None.

Definition hex_invalid_byte (c : ascii) : error :=
  Errorf ("encoding/hex: invalid byte: " +:+ String c "").
Definition hex_odd_length : error := Errorf "encoding/hex: odd length hex string".

Fixpoint hex_DecodeString (s : string) : result string :=
  match s with
  | EmptyString => Ok ""
  | String a EmptyString =>
      match hex_value a with Some _ => Err hex_odd_length | None => Err (hex_invalid_byte a) end
  | String a (String b s) =>
      match hex_value a, hex_value b with
      | None, _ => Err (hex_invalid_byte a)
      | _, None => Err (hex_invalid_byte b)
      | Some x, Some y =>
          match hex_DecodeString s with
          | Ok r => Ok (String (ascii_of_N (x * 16 + y)) r)
          | Err e => Err e
          end
      end
  end.

Definition is_lower_hex (c : ascii) : bool :=
  is_digit c || (N_of_ascii "a" <=? N_of_ascii c)%N && (N_of_ascii c <=? N_of_ascii "f")%N.

(** Case analysis over the 256 bytes. *)
Ltac byte_cases c := destruct c as [[][][][][][][][]]; vm_compute.

Lemma hex_value_hi c : hex_value (hex_digit (N_of_ascii c / 16)) = Some (N_of_ascii c / 16)%N.
Proof. byte_cases c; reflexivity. Qed.
Lemma hex_value_lo c : hex_value (hex_digit (N_of_ascii c mod 16)) = Some (N_of_ascii c mod 16)%N.
Proof. byte_cases c; reflexivity. Qed.
Lemma hex_byte_value c : ascii_of_N (N_of_ascii c / 16 * 16 + N_of_ascii c mod 16) = c.
Proof. byte_cases c; reflexivity. Qed.
Lemma hex_digit_lower_hi c : is_lower_hex (hex_digit (N_of_ascii c / 16)) = true.
Proof. byte_cases c; reflexivity. Qed.
Lemma hex_digit_lower_lo c : is_lower_hex (hex_digit (N_of_ascii c mod 16)) = true.
Proof. byte_cases c; reflexivity. Qed.

Lemma hex_decode_encode s : hex_DecodeString (hex_EncodeToString s) = Ok s.
Proof.
  induction s as [|c s IH]; [done|].
  cbn [hex_EncodeToString hex_byte hex_DecodeString].
  by rewrite hex_value_hi, hex_value_lo, IH, hex_byte_value.
Qed.

Lemma hex_encode_length s : String.length (hex_EncodeToString s) = (2 * String.length s)%nat.
Proof. induction s as [|c s IH]; [done|]. cbn [hex_EncodeToString hex_byte String.length]. lia. Qed.

Lemma hex_encode_lower s : string_all is_lower_hex (hex_EncodeToString s) = true.
Proof.
  induction s as [|c s IH]; [done|]. cbn [hex_EncodeToString hex_byte string_all].
  by rewrite hex_digit_lower_hi, hex_digit_lower_lo, IH.
Qed.

Lemma hex_encode_inj s t : hex_EncodeToString s = hex_EncodeToString t → s = t.
Proof. intros H. assert (Ok s = Ok t) by by rewrite <-!hex_decode_encode, H. congruence. Qed.

(** ** encoding/base64, [RawURLEncoding] *)

Definition base64url_digit (n : N) : ascii :=
  match String.get (N.to_nat n)
    "ABCDEFGHIJKLMNOPQRSTUVWXYZabcdefghijklmnopqrstuvwxyz0123456789-_" with
  | Some c => c | None => "A" end.

Fixpoint base64_RawURLEncode (s : string) : string :=
  match s with
  | String a (String b (String c s)) =>
      let n := (N_of_ascii a * 65536 + N_of_ascii b * 256 + N_of_ascii c)%N in
      String (base64url_digit (n / 262144))
        (String (base64url_digit ((n / 4096) mod 64))
          (String (base64url_digit ((n / 64) mod 64))
            (String (base64url_digit (n mod 64)) (base64_RawURLEncode s))))
  | String a (String b EmptyString) =>
      let n := (N_of_ascii a * 65536 + N_of_ascii b * 256)%N in
      String (base64url_digit (n / 262144))
        (String (base64url_digit ((n / 4096) mod 64))
          (String (base64url_digit ((n / 64) mod 64)) ""))
  | String a EmptyString =>
      let n := (N_of_ascii a * 65536)%N in
      String (base64url_digit (n / 262144))
        (String (base64url_digit ((n / 4096) mod 64)) "")
  | EmptyString => ""
  end.

(** ** Buffers: [rand.Read] overwrites a zeroed buffer of [n] bytes. *)

Fixpoint fill_buffer (n : nat) (s : string) : string :=
  match n with
  | O => ""
  | S n => match s with
           | EmptyString => String "000" (fill_buffer n "")
           | String c s => String c (fill_buffer n s)
           end
  end.

Lemma fill_buffer_length n s : String.length (fill_buffer n s) = n.
Proof. revert s. induction n as [|n IH]; intros [|c s]; simpl; auto. Qed.

Lemma fill_buffer_exact s : fill_buffer (String.length s) s = s.
Proof. induction s as [|c s IH]; simpl; [done|]. by rewrite IH. Qed.

(** ** Decimal digits *)

Definition all_digits (s : string) : bool := string_all is_digit s.

Lemma pretty_N_char_digit n : is_digit (pretty_N_char n) = true.
Proof. unfold pretty_N_char. by repeat case_match. Qed.

Lemma pretty_N_go_digits n s : all_digits s = true → all_digits (pretty_N_go n s) = true.
Proof.
  revert s. induction (N.lt_wf_0 n) as [n _ IH]; intros s Hs.
  assert (n = 0 ∨ 0 < n)%N as [->|Hn] by lia; [by rewrite pretty_N_go_0|].
  rewrite pretty_N_go_step by done. apply IH; [apply N.div_lt; lia|].
  unfold all_digits in *. simpl. by rewrite pretty_N_char_digit.
Qed.

Lemma fmt_d_digits z : 0 ≤ z → all_digits (fmt_d z) = true.
Proof.
  intros Hz. unfold fmt_d, pretty, pretty_Z. destruct z as [|p|p]; [done| |lia].
  unfold pretty, pretty_positive, pretty, pretty_N. case_decide; [done|].
  by apply pretty_N_go_digits.
Qed.

Lemma fmt_d_inj x y : fmt_d x = fmt_d y → x = y.
Proof. apply pretty_Z_inj. Qed.

Lemma all_digits_no_byte c s :
  is_digit c = false → all_digits s = true → string_all (λ x, negb (Ascii.eqb x c)) s = true.
Proof.
  intros Hc. induction s as [|x s IH]; [done|]. unfold all_digits in *. cbn.
  intros [Hx Hs]%andb_true_iff. rewrite (IH Hs).
  destruct (Ascii.eqb_spec x c) as [->|]; [congruence|done].
Qed.
