(* ===== verification/NetHttp.v ===== *)
(** * net/http, net/url and path: what the mux of the control plane does with a path

    [http.ServeMux] of the standard library (Go 1.24) around the routes that are
    registered on it: the cleaning of the path with its redirect, the matching of
    patterns segment by segment, and the answers that are not a handler's.  [path.Clean]
    is also that of main.go. *)

From S2P Require Import Prelude GoLib.

(** ** [path.Clean] *)

Fixpoint split_path (seg : string) (path : string) : list string :=
  match path with
  | EmptyString => [seg]
  | String "/" path => seg :: split_path "" path
  | String c path => split_path (seg +:+ String c "") path
  end.

(** The elements kept so far, the last one first. *)
Fixpoint clean_elems (rooted : bool) (kept : list string) (elems : list string) : list string :=
  match elems with
  | [] => reverse kept
  | e :: elems =>
      if decide (e = "" ∨ e = ".") then clean_elems rooted kept elems
      else if decide (e = "..") then
        match kept with
        | k :: kept' =>
            if decide (k = "..") then clean_elems rooted (e :: kept) elems
            else clean_elems rooted kept' elems
        | [] => clean_elems rooted (if rooted then [] else [e]) elems
        end
      else clean_elems rooted (e :: kept) elems
  end.

Fixpoint join_elems (elems : list string) : string :=
  match elems with
  | [] => ""
  | [e] => e
  | e :: elems => e +:+ "/" +:+ join_elems elems
  end.

Definition Clean (path : string) : string :=
  match path with
  | EmptyString => "."
  | String "/" _ => "/" +:+ join_elems (clean_elems true [] (split_path "" path))
  | _ =>
      let s := join_elems (clean_elems false [] (split_path "" path)) in
      if decide (s = "") then "." else s
  end.

(** ** Escapes: [url.PathUnescape] and [URL.EscapedPath] *)

Fixpoint PathUnescape (s : string) : option string :=
  match s with
  | EmptyString => Some ""
  | String "%" (String a (String b s)) =>
      match hex_value a, hex_value b with
      | Some x, Some y => String (ascii_of_N (16 * x + y)) <$> PathUnescape s
      | _, _ => None
      end
  | String "%" _ => None
  | String c s => String c <$> PathUnescape s
  end.

(** An invalid escape leaves the text as it is. *)
Definition path_unescape (s : string) : string := default s (PathUnescape s).

Definition upper_hex_digit (n : N) : ascii :=
  match String.get (N.to_nat n) "0123456789ABCDEF" with Some c => c | None => "0"%char end.

(** The bytes a path may hold unescaped: letters, digits, and these. *)
Definition path_byte (c : ascii) : bool :=
  let n := N_of_ascii c in
  is_digit c || (97 <=? n)%N && (n <=? 122)%N || (65 <=? n)%N && (n <=? 90)%N ||
  bool_decide (c ∈ ["-"; "_"; "."; "~"; "$"; "&"; "+"; ","; "/"; ":"; ";"; "="; "@"]%char).

Fixpoint path_escape (s : string) : string :=
  match s with
  | EmptyString => ""
  | String c s =>
      if path_byte c then String c (path_escape s)
      else String "%" (String (upper_hex_digit (N_of_ascii c / 16))
             (String (upper_hex_digit (N_of_ascii c mod 16)) (path_escape s)))
  end.

(** ** Requests *)

(** A request as the mux sees it, of any method but CONNECT (whose path it does not
    clean), over HTTP/1.1 or later: the method, [URL.EscapedPath()] and [URL.RawQuery]. *)
Record Incoming := { in_Method : string; in_Path : string; in_RawQuery : string }.

(** [URL.Path] *)
Definition in_URLPath (rq : Incoming) : string := path_unescape (in_Path rq).

(** ** Cleaning *)

Definition ends_with_slash (p : string) : bool :=
  bool_decide (last (split_path "" p) = Some "").

(** [cleanPath] keeps the trailing slash. *)
Definition cleanPath (p : string) : string :=
  let p := match p with String "/" _ => p | _ => String "/" p end in
  let np := Clean p in
  if ends_with_slash p && negb (bool_decide (np = "/")) then np +:+ "/" else np.

(** ** Patterns

    [mux.Handle(pattern, handler)] for patterns that are a path of literals and of
    wildcards [{name}] for one segment, none of which matches what another matches. *)

Inductive segment := Lit (s : string) | Wild (name : string).

Definition parse_segment (s : string) : segment :=
  match s with
  | String "{" _ => Wild (String.substring 1 (String.length s - 2) s)
  | _ => Lit s
  end.

Definition parse_pattern (pattern : string) : list segment := map parse_segment (tail (split_path "" pattern)).

(** The segments of a clean path, unescaped one by one.  A trailing slash is a segment
    of its own, the slash, which only a pattern that ends in one matches. *)
Definition mux_segments (path : string) : list string :=
  map (λ s, if decide (s = "") then "/" else path_unescape s) (tail (split_path "" path)).

(** The values of the wildcards, by name, if the pattern matches. *)
Fixpoint match_segments (pattern : list segment) (path : list string) : option (list (string * string)) :=
  match pattern, path with
  | [], [] => Some []
  | Lit l :: pattern, s :: path => if decide (s = l) then match_segments pattern path else None
  | Wild name :: pattern, s :: path =>
      if decide (s = "/") then None else ((name, s) ::.) <$> match_segments pattern path
  | _, _ => None
  end.

(** [r.PathValue(name)] *)
Definition PathValue (values : list (string * string)) (name : string) : string :=
  default "" (snd <$> find_first (λ kv, bool_decide (kv.1 = name)) values).

(** ** The mux *)

(** A handler, given the values of the wildcards. *)
Definition routes (H : Type) : Type := list (string * (list (string * string) → H)).

Fixpoint find_route {H} (table : routes H) (path : list string) : option H :=
  match table with
  | [] => None
  | (pattern, h) :: table =>
      match match_segments (parse_pattern pattern) path with
      | Some values => Some (h values)
      | None => find_route table path
      end
  end.

(** What the mux does with a request: refuse the asterisk, redirect to the clean path,
    call a handler, or answer that there is none. *)
Inductive mux_answer (H : Type) :=
  | Refused
  | Moved (path : string)
  | Routed (h : H)
  | Unrouted.
Arguments Refused {H}.
Arguments Moved {H} path.
Arguments Routed {H} h.
Arguments Unrouted {H}.

Definition findHandler {H} (table : routes H) (path : string) : mux_answer H :=
  if decide (path = "*") then Refused
  else if decide (cleanPath path ≠ path) then Moved (cleanPath path)
  else match find_route table (mux_segments path) with Some h => Routed h | None => Unrouted end.

Lemma findHandler_Refused {H} (table : routes H) path : findHandler table path = Refused → path = "*".
Proof. unfold findHandler. case_decide; [done|]. case_decide; [done|]. by destruct (find_route _ _). Qed.
Lemma findHandler_Moved {H} (table : routes H) path to :
  findHandler table path = Moved to → to = cleanPath path ∧ cleanPath path ≠ path.
Proof.
  unfold findHandler. case_decide; [done|]. case_decide; [by intros [= <-]|]. by destruct (find_route _ _).
Qed.
Lemma findHandler_Routed {H} (table : routes H) path h :
  findHandler table path = Routed h → cleanPath path = path ∧ find_route table (mux_segments path) = Some h.
Proof.
  unfold findHandler. case_decide; [done|]. case_decide as Hclean; [done|].
  destruct (find_route _ _); [|done]. intros [= ->]. by split.
Qed.

(** ** The answers of the mux itself *)

Record response := { resp_Status : Z; resp_Headers : list (string * string); resp_Body : string }.

Definition newline : string := String (ascii_of_N 10) "".

(** [http.NotFound] *)
Definition NotFound : response :=
  {| resp_Status := 404;
     resp_Headers := [("Content-Type", "text/plain; charset=utf-8"); ("X-Content-Type-Options", "nosniff")];
     resp_Body := "404 page not found" +:+ newline |}.

Definition BadRequest : response :=
  {| resp_Status := 400; resp_Headers := [("Connection", "close")]; resp_Body := "" |}.

Fixpoint html_escape (s : string) : string :=
  match s with
  | EmptyString => ""
  | String c s =>
      (if decide (c = "&"%char) then "&amp;" else if decide (c = "<"%char) then "&lt;"
       else if decide (c = ">"%char) then "&gt;" else if decide (N_of_ascii c = 34)%N then "&#34;"
       else if decide (N_of_ascii c = 39)%N then "&#39;" else String c "") +:+ html_escape s
  end.

Fixpoint hexEscapeNonASCII (s : string) : string :=
  match s with
  | EmptyString => ""
  | String c s => (if (N_of_ascii c <? 128)%N then String c "" else "%" +:+ fmt_02x c) +:+ hexEscapeNonASCII s
  end.

(** [http.Redirect] to a clean path, which is escaped again, with the query of the
    request and status 301: only a GET gets a body. *)
Definition Redirect (rq : Incoming) (path : string) : response :=
  let url := path_escape path +:+ (if decide (in_RawQuery rq = "") then "" else "?" +:+ in_RawQuery rq) in
  {| resp_Status := 301;
     resp_Headers :=
       ("Location", hexEscapeNonASCII url) ::
       (if decide (in_Method rq = "GET" ∨ in_Method rq = "HEAD")
        then [("Content-Type", "text/html; charset=utf-8")] else []);
     resp_Body :=
       if decide (in_Method rq = "GET")
       then "<a href=" +:+ dquote +:+ html_escape url +:+ dquote +:+ ">Moved Permanently</a>." +:+ newline +:+ newline
       else "" |}.

(** ** Clean paths *)

Definition no_slash (s : string) : bool := string_all (λ c, negb (Ascii.eqb c "/")) s.

Lemma split_path_app seg s t :
  no_slash s = true → split_path seg (s +:+ String "/" t) = (seg +:+ s) :: split_path "" t.
Proof.
  revert seg. induction s as [|c s IH]; intros seg Hs; [by rewrite string_app_nil_r|].
  unfold no_slash in Hs. cbn [string_all] in Hs. apply andb_true_iff in Hs as [Hc Hs].
  rewrite string_app_cons. replace (seg +:+ String c s) with ((seg +:+ String c "") +:+ s)
    by (by rewrite string_app_assoc).
  rewrite <-IH by done. clear IH Hs. destruct c as [[][][][][][][][]]; done.
Qed.

Lemma split_path_end seg s : no_slash s = true → split_path seg s = [seg +:+ s].
Proof.
  revert seg. induction s as [|c s IH]; intros seg Hs; [by rewrite string_app_nil_r|].
  unfold no_slash in Hs. cbn [string_all] in Hs. apply andb_true_iff in Hs as [Hc Hs].
  replace (seg +:+ String c s) with ((seg +:+ String c "") +:+ s) by (by rewrite string_app_assoc).
  rewrite <-IH by done. clear IH Hs. destruct c as [[][][][][][][][]]; done.
Qed.

(** The path with these segments. *)
Fixpoint path_of (segs : list string) : string :=
  match segs with
  | [] => ""
  | s :: segs => "/" +:+ s +:+ path_of segs
  end.

(** A segment that neither cleaning nor unescaping changes. *)
Definition plain_segment (s : string) : bool :=
  negb (bool_decide (s ∈ [""; "."; ".."])) &&
  string_all (λ c, negb (Ascii.eqb c "/") && negb (Ascii.eqb c "%")) s.

Lemma plain_no_slash s : plain_segment s = true → no_slash s = true.
Proof.
  unfold plain_segment, no_slash. intros [_ Hs]%andb_true_iff. induction s as [|c s IH]; [done|].
  cbn [string_all] in *. rewrite !andb_true_iff in *. tauto.
Qed.

Lemma plain_unescape s : plain_segment s = true → path_unescape s = s.
Proof.
  unfold plain_segment, path_unescape. intros [_ Hs]%andb_true_iff.
  assert (PathUnescape s = Some s) as ->; [|done]. induction s as [|c s IH]; [done|].
  cbn [string_all] in Hs. rewrite !andb_true_iff in Hs. destruct Hs as [[_ Hc] Hs].
  specialize (IH Hs). destruct c as [[][][][][][][][]]; cbn [PathUnescape]; try (by rewrite IH). done.
Qed.

Lemma split_path_of s segs :
  plain_segment s = true → Forall (λ s, plain_segment s = true) segs →
  split_path "" (s +:+ path_of segs) = s :: segs.
Proof.
  intros Hs Hsegs. revert s Hs. induction Hsegs as [|s' segs Hs' _ IH]; intros s Hs; cbn [path_of].
  - rewrite string_app_nil_r. apply (split_path_end ""). by apply plain_no_slash.
  - change ("/" +:+ s' +:+ path_of segs) with (String "/" (s' +:+ path_of segs)).
    rewrite split_path_app by (by apply plain_no_slash). f_equal. by apply IH.
Qed.

Lemma split_path_path_of segs :
  segs ≠ [] → Forall (λ s, plain_segment s = true) segs → split_path "" (path_of segs) = "" :: segs.
Proof.
  intros Hne. destruct 1 as [|s segs Hs Hsegs]; [done|]. cbn [path_of].
  change (split_path "" ("/" +:+ s +:+ path_of segs)) with ("" :: split_path "" (s +:+ path_of segs)).
  f_equal. by apply split_path_of.
Qed.

Lemma clean_elems_plain segs kept :
  Forall (λ s, plain_segment s = true) segs → clean_elems true kept segs = reverse kept ++ segs.
Proof.
  intros Hsegs. revert kept. induction Hsegs as [|s segs Hs _ IH]; intros kept; cbn [clean_elems];
    [by rewrite app_nil_r|].
  unfold plain_segment in Hs. apply andb_true_iff in Hs as [Hs _].
  apply negb_true_iff, bool_decide_eq_false in Hs.
  rewrite decide_False by set_solver. rewrite decide_False by set_solver.
  rewrite IH, reverse_cons, <-app_assoc. done.
Qed.

Lemma join_elems_path_of segs : segs ≠ [] → "/" +:+ join_elems segs = path_of segs.
Proof.
  induction segs as [|s segs IH]; intros Hne; [done|]. cbn [join_elems path_of].
  destruct segs as [|s' segs]; [by rewrite string_app_nil_r|]. rewrite <-IH by done. done.
Qed.

(** A path of plain segments is clean, and matched as it is written. *)
Lemma cleanPath_plain segs :
  segs ≠ [] → Forall (λ s, plain_segment s = true) segs → cleanPath (path_of segs) = path_of segs.
Proof.
  intros Hne Hsegs. pose proof (split_path_path_of segs Hne Hsegs) as Hsplit.
  assert (Clean (path_of segs) = path_of segs) as Hclean.
  { rewrite <-(join_elems_path_of segs) at 2 by done.
    destruct segs as [|s segs]; [done|]. unfold Clean. cbn [path_of].
    change ("/" +:+ join_elems (clean_elems true [] (split_path "" (path_of (s :: segs)))) =
            "/" +:+ join_elems (s :: segs)).
    rewrite Hsplit. f_equal. change (clean_elems true [] ("" :: s :: segs)) with (clean_elems true [] (s :: segs)).
    by rewrite (clean_elems_plain (s :: segs) []). }
  assert (ends_with_slash (path_of segs) = false) as Hend.
  { unfold ends_with_slash. rewrite Hsplit. apply bool_decide_eq_false. intros Hlast.
    rewrite last_cons in Hlast. destruct (last segs) as [s|] eqn:Hs; [|by apply last_None in Hs].
    simplify_eq. rewrite Forall_forall in Hsegs. apply last_Some_elem_of in Hs. by apply Hsegs in Hs. }
  unfold cleanPath. destruct segs as [|s segs]; [done|]. cbn [path_of] in *.
  change (match "/" +:+ s +:+ path_of segs with String "/" _ => _ | _ => _ end) with ("/" +:+ s +:+ path_of segs).
  cbv zeta. by rewrite Hend, Hclean.
Qed.

Lemma mux_segments_plain segs :
  segs ≠ [] → Forall (λ s, plain_segment s = true) segs → mux_segments (path_of segs) = segs.
Proof.
  intros Hne Hsegs. unfold mux_segments. rewrite split_path_path_of by done. cbn [tail]. clear Hne.
  induction Hsegs as [|s segs Hs _ IH]; [done|]. cbn [map]. rewrite IH, plain_unescape by done.
  rewrite decide_False; [done|]. by intros ->.
Qed.

Lemma findHandler_plain {H} (table : routes H) segs h :
  segs ≠ [] → Forall (λ s, plain_segment s = true) segs → find_route table segs = Some h →
  findHandler table (path_of segs) = Routed h.
Proof.
  intros Hne Hsegs Hh. unfold findHandler. rewrite cleanPath_plain, mux_segments_plain, Hh by done.
  rewrite (decide_False (P := path_of segs ≠ path_of segs)) by auto.
  rewrite decide_False; [done|]. by destruct segs.
Qed.
