(* ===== verification/GoJson.v ===== *)
(** * encoding/json: printing

    [json.Marshal] of the values the operator sends: a JSON tree, printed without
    spaces, with the string escapes of Go's encoder (HTML escaping on, invalid
    UTF-8 replaced).  Numbers keep their literal. *)

From S2P Require Import Prelude GoLib.

#[warnings="-register-all"]
Inductive json :=
  | JNull
  | JBool (b : bool)
  | JNum (literal : string)
  | JStr (s : string)
  | JArr (l : list json)
  | JObj (fields : list (string * json)).

Definition JInt (z : Z) : json := JNum (fmt_d z).

(** ** Strings *)

(** The length of the UTF-8 sequence at the head of the bytes, and whether it is
    valid: [utf8.DecodeRune], keeping the encoding. *)
Definition byte_in (c : ascii) (lo hi : N) : bool :=
  (lo <=? N_of_ascii c)%N && (N_of_ascii c <=? hi)%N.

Definition cont_byte (c : ascii) : bool := byte_in c 128 191.

(** The range of the second byte for a given first byte of a multi-byte sequence. *)
Definition second_byte (c d : ascii) : bool :=
  let n := N_of_ascii c in
  if decide (n = 224)%N then byte_in d 160 191
  else if decide (n = 237)%N then byte_in d 128 159
  else if decide (n = 240)%N then byte_in d 144 191
  else if decide (n = 244)%N then byte_in d 128 143
  else cont_byte d.

Definition utf8_head (s : string) : option (string * string) :=
  match s with
  | String c (String d r) =>
      if byte_in c 194 223 then
        if cont_byte d then Some (String c (String d ""), r) else None
      else if byte_in c 224 239 then
        match r with
        | String e r' =>
            if second_byte c d && cont_byte e then Some (String c (String d (String e "")), r') else None
        | _ => None
        end
      else if byte_in c 240 244 then
        match r with
        | String e (String f r') =>
            if second_byte c d && cont_byte e && cont_byte f
            then Some (String c (String d (String e (String f ""))), r') else None
        | _ => None
        end
      else None
  | _ => None
  end.

(** [utf8.ValidString]: a string of [n] bytes takes at most [n] steps. *)
Fixpoint valid_utf8_from (fuel : nat) (s : string) : bool :=
  match s, fuel with
  | EmptyString, _ => true
  | _, O => false
  | String c r, S fuel =>
      if byte_in c 0 127 then valid_utf8_from fuel r
      else match utf8_head s with Some (_, r') => valid_utf8_from fuel r' | None => false end
  end.

Definition valid_utf8 (s : string) : bool := valid_utf8_from (String.length s) s.

(** U+2028 and U+2029, which the encoder escapes. *)
Definition line_separator (rune : string) : option string :=
  match rune with
  | String c (String d (String e "")) =>
      if byte_in c 226 226 && byte_in d 128 128 then
        if byte_in e 168 168 then Some "\u2028"
        else if byte_in e 169 169 then Some "\u2029"
        else None
      else None
  | _ => None
  end.

(** The escape of a byte below 0x80. *)
Definition json_ascii (c : ascii) : string :=
  let n := N_of_ascii c in
  if decide (n = 34)%N then dq "\`"
  else if decide (n = 92)%N then "\\"
  else if decide (n = 8)%N then "\b"
  else if decide (n = 12)%N then "\f"
  else if decide (n = 10)%N then "\n"
  else if decide (n = 13)%N then "\r"
  else if decide (n = 9)%N then "\t"
  else if decide (n < 32)%N then "\u00" +:+ fmt_02x c
  else if decide (n = 60 ∨ n = 62 ∨ n = 38)%N then "\u00" +:+ fmt_02x c
  else String c "".

Fixpoint json_string_body (fuel : nat) (s : string) : string :=
  match fuel, s with
  | O, _ => ""
  | _, EmptyString => ""
  | S fuel, String c r =>
      if byte_in c 0 127 then json_ascii c +:+ json_string_body fuel r
      else
        match utf8_head s with
        | Some (rune, r') =>
            (match line_separator rune with Some esc => esc | None => rune end)
              +:+ json_string_body fuel r'
        | None => "\ufffd" +:+ json_string_body fuel r
        end
  end.

(** A string of [n] bytes takes at most [n] steps. *)
Definition json_string (s : string) : string :=
  dquote +:+ json_string_body (String.length s) s +:+ dquote.

(** ** Values *)

Fixpoint join (sep : string) (l : list string) : string :=
  match l with
  | [] => ""
  | [x] => x
  | x :: l => x +:+ sep +:+ join sep l
  end.

Fixpoint json_print (j : json) : string :=
  match j with
  | JNull => "null"
  | JBool true => "true"
  | JBool false => "false"
  | JNum l => l
  | JStr s => json_string s
  | JArr l => "[" +:+ join "," (map json_print l) +:+ "]"
  | JObj fs =>
      "{" +:+ join "," (map (λ '(k, v), json_string k +:+ ":" +:+ json_print v) fs) +:+ "}"
  end.

(** ** Plain strings print as themselves *)

Definition json_plain (c : ascii) : bool :=
  byte_in c 32 126 && negb (byte_in c 34 34) && negb (byte_in c 92 92)
  && negb (byte_in c 60 60) && negb (byte_in c 62 62) && negb (byte_in c 38 38).

Lemma json_plain_ascii c : json_plain c = true → byte_in c 0 127 = true ∧ json_ascii c = String c "".
Proof. destruct c as [[][][][][][][][]]; vm_compute; intros; by split. Qed.

Lemma json_string_body_plain s fuel :
  (String.length s ≤ fuel)%nat → string_all json_plain s = true → json_string_body fuel s = s.
Proof.
  revert fuel. induction s as [|c s IH]; intros [|fuel] Hf Hs; simpl in *; [done|done|lia|].
  apply andb_true_iff in Hs as [Hc Hs]. destruct (json_plain_ascii c Hc) as [-> ->].
  rewrite IH by (done || lia). done.
Qed.

(** A string of printable ASCII without quotes, backslashes or HTML characters
    is printed between quotes, unchanged. *)
Lemma json_string_plain s : string_all json_plain s = true → json_string s = dquote +:+ s +:+ dquote.
Proof. intros Hs. unfold json_string. by rewrite json_string_body_plain. Qed.
