(* ===== verification/JsonParse.v ===== *)
(** * encoding/json: parsing

    [json.Unmarshal] in two parts, as in Go: a push-down scanner that reads one byte
    at a time and accepts or rejects the whole input, and the decoding of the
    resulting tree into typed values (the second half of this file).  The scanner is
    structurally recursive on the input: it needs no fuel and always answers. *)

From S2P Require Import Prelude GoLib GoJson.

(** ** Unquoting *)

Definition is_byte (c : ascii) (n : N) : bool := (N_of_ascii c =? n)%N.

(** [getu4]: four hexadecimal digits. *)
Definition hex4 (a b c d : ascii) : option N :=
  match hex_value a, hex_value b, hex_value c, hex_value d with
  | Some x, Some y, Some z, Some w => Some (x * 4096 + y * 256 + z * 16 + w)%N
  | _, _, _, _ => None
  end.

Definition bytes1 (a : N) : string := String (ascii_of_N a) "".
Definition bytes2 (a b : N) : string := String (ascii_of_N a) (bytes1 b).
Definition bytes3 (a b c : N) : string := String (ascii_of_N a) (bytes2 b c).
Definition bytes4 (a b c d : N) : string := String (ascii_of_N a) (bytes3 b c d).

Definition replacement : string := bytes3 239 191 189.   (** U+FFFD *)

Definition is_surrogate (r : N) : bool := (55296 <=? r)%N && (r <=? 57343)%N.

(** [utf8.EncodeRune] *)
Definition encode_rune (r : N) : string :=
  if (r <? 128)%N then bytes1 r
  else if (r <? 2048)%N then bytes2 (192 + r / 64) (128 + r mod 64)
  else if is_surrogate r then replacement
  else if (r <? 65536)%N then bytes3 (224 + r / 4096) (128 + (r / 64) mod 64) (128 + r mod 64)
  else if (r <? 1114112)%N
  then bytes4 (240 + r / 262144) (128 + (r / 4096) mod 64) (128 + (r / 64) mod 64) (128 + r mod 64)
  else replacement.

(** [utf16.DecodeRune] of a high and a low surrogate. *)
Definition join_surrogates (hi lo : N) : option N :=
  if (55296 <=? hi)%N && (hi <? 56320)%N && (56320 <=? lo)%N && (lo <? 57344)%N
  then Some ((hi - 55296) * 1024 + (lo - 56320) + 65536)%N else None.

(** A one-letter escape. *)
Definition simple_escape (c : ascii) : option string :=
  if is_byte c 34 then Some (bytes1 34)
  else if is_byte c 92 then Some (bytes1 92)
  else if is_byte c 47 then Some (bytes1 47)
  else if is_byte c 98 then Some (bytes1 8)
  else if is_byte c 102 then Some (bytes1 12)
  else if is_byte c 110 then Some (bytes1 10)
  else if is_byte c 114 then Some (bytes1 13)
  else if is_byte c 116 then Some (bytes1 9)
  else None.

(** What a [\u] escape for [r] contributes, given the [\u] escape that follows it,
    and whether the second one is consumed. *)
Definition unicode_escape (r : N) (next : option N) : string * bool :=
  if is_surrogate r then
    match next with
    | Some lo => match join_surrogates r lo with
                 | Some r' => (encode_rune r', true)
                 | None => (replacement, false)
                 end
    | None => (replacement, false)
    end
  else (encode_rune r, false).

(** The [\uXXXX] at the head of the bytes. *)
Definition next_escape (s : string) : option N :=
  match s with
  | String b (String u (String a (String b' (String c (String d _))))) =>
      if is_byte b 92 && is_byte u 117 then hex4 a b' c d else None
  | _ => None
  end.

(** The body of a string literal, with its escapes, to the bytes it denotes.
    [skip] counts the bytes of a low surrogate escape already accounted for. *)
Fixpoint unquote_from (skip : nat) (s : string) : option string :=
  match skip, s with
  | S skip, String _ r => unquote_from skip r
  | S _, EmptyString => Some ""
  | O, EmptyString => Some ""
  | O, String c r =>
      if is_byte c 92 then
        match r with
        | EmptyString => None
        | String e r1 =>
            if is_byte e 117 then
              match r1 with
              | String h1 (String h2 (String h3 (String h4 r2))) =>
                  match hex4 h1 h2 h3 h4 with
                  | None => None
                  | Some u =>
                      let '(out, consumed) := unicode_escape u (next_escape r2) in
                      (λ t, out +:+ t) <$> unquote_from (if consumed then 6 else 0) r2
                  end
              | _ => None
              end
            else
              match simple_escape e with
              | None => None
              | Some out => (λ t, out +:+ t) <$> unquote_from 0 r1
              end
        end
      else if byte_in c 0 127 then (λ t, String c t) <$> unquote_from 0 r
      else
        match utf8_head s with
        | Some (rune, _) => (λ t, rune +:+ t) <$> unquote_from (String.length rune - 1) r
        | None => (λ t, replacement +:+ t) <$> unquote_from 0 r
        end
  end.

Definition unquote (s : string) : option string := unquote_from 0 s.

(** ** The scanner *)

Inductive num_state := NNeg | NZero | NInt | NDot | NFrac | NExp | NExpSign | NExpDigits.

(** Where the next byte of a string literal falls. *)
Inductive str_state := SPlain | SEscape | SUnicode (more : nat).

Inductive mode :=
  | MValue                                        (** a value is expected *)
  | MArrFirst                                     (** after [\[]: a value or [\]] *)
  | MObjFirst                                     (** after [{]: a key or [}] *)
  | MKey                                          (** after [,] in an object *)
  | MColon (key : string)
  | MStr (key : bool) (st : str_state) (raw : string)
  | MNum (st : num_state) (lit : string)
  | MLit (rest : string) (j : json)               (** the rest of [true], [false] or [null] *)
  | MDone (j : json).                             (** a value is complete *)

Inductive frame :=
  | FArr (items : list json)
  | FObj (fields : list (string * json))
  | FMember (fields : list (string * json)) (key : string).

Definition is_space (c : ascii) : bool := is_byte c 32 || is_byte c 9 || is_byte c 10 || is_byte c 13.

Definition snoc (s : string) (c : ascii) : string := s +:+ String c "".

(** [maxNestingDepth] *)
Definition max_depth : N := 10000.

Definition push (f : frame) (m : mode) (stk : list frame) : option (mode * list frame) :=
  if (N.of_nat (length (f :: stk)) <=? max_depth)%N then Some (m, f :: stk) else None.

(** The first byte of a value. *)
Definition begin_value (c : ascii) (stk : list frame) : option (mode * list frame) :=
  if is_byte c 123 then push (FObj []) MObjFirst stk
  else if is_byte c 91 then push (FArr []) MArrFirst stk
  else if is_byte c 34 then Some (MStr false SPlain "", stk)
  else if is_byte c 45 then Some (MNum NNeg (String c ""), stk)
  else if is_byte c 48 then Some (MNum NZero (String c ""), stk)
  else if is_digit c then Some (MNum NInt (String c ""), stk)
  else if is_byte c 116 then Some (MLit "rue" (JBool true), stk)
  else if is_byte c 102 then Some (MLit "alse" (JBool false), stk)
  else if is_byte c 110 then Some (MLit "ull" JNull, stk)
  else None.

(** The byte after a complete value. *)
Definition end_value (c : ascii) (j : json) (stk : list frame) : option (mode * list frame) :=
  if is_space c then Some (MDone j, stk)
  else
    match stk with
    | [] => None
    | FArr items :: stk =>
        if is_byte c 44 then Some (MValue, FArr (items ++ [j]) :: stk)
        else if is_byte c 93 then Some (MDone (JArr (items ++ [j])), stk)
        else None
    | FMember fields key :: stk =>
        if is_byte c 44 then Some (MKey, FObj (fields ++ [(key, j)]) :: stk)
        else if is_byte c 125 then Some (MDone (JObj (fields ++ [(key, j)])), stk)
        else None
    | FObj _ :: _ => None
    end.

(** The transitions of a number that has more bytes; [None]: the number ends here
    (or, in a state that is not final, the input is wrong). *)
Definition num_step (st : num_state) (c : ascii) : option num_state :=
  match st with
  | NNeg => if is_byte c 48 then Some NZero else if is_digit c then Some NInt else None
  | NZero =>
      if is_byte c 46 then Some NDot
      else if is_byte c 101 || is_byte c 69 then Some NExp else None
  | NInt =>
      if is_digit c then Some NInt
      else if is_byte c 46 then Some NDot
      else if is_byte c 101 || is_byte c 69 then Some NExp else None
  | NDot => if is_digit c then Some NFrac else None
  | NFrac =>
      if is_digit c then Some NFrac
      else if is_byte c 101 || is_byte c 69 then Some NExp else None
  | NExp =>
      if is_byte c 43 || is_byte c 45 then Some NExpSign
      else if is_digit c then Some NExpDigits else None
  | NExpSign | NExpDigits => if is_digit c then Some NExpDigits else None
  end.

Definition num_final (st : num_state) : bool :=
  match st with NZero | NInt | NFrac | NExpDigits => true | _ => false end.

(** A byte inside a string literal; [inr] is the closing quote. *)
Definition str_step (st : str_state) (c : ascii) : option (str_state + unit) :=
  match st with
  | SPlain =>
      if is_byte c 34 then Some (inr ())
      else if is_byte c 92 then Some (inl SEscape)
      else if (N_of_ascii c <? 32)%N then None
      else Some (inl SPlain)
  | SEscape =>
      if is_byte c 117 then Some (inl (SUnicode 3))
      else match simple_escape c with Some _ => Some (inl SPlain) | None => None end
  | SUnicode more =>
      match hex_value c with
      | None => None
      | Some _ => Some (inl (match more with O => SPlain | S n => SUnicode n end))
      end
  end.

Definition step (c : ascii) (m : mode) (stk : list frame) : option (mode * list frame) :=
  match m with
  | MValue => if is_space c then Some (m, stk) else begin_value c stk
  | MArrFirst =>
      if is_space c then Some (m, stk)
      else if is_byte c 93 then
        match stk with FArr items :: stk => Some (MDone (JArr items), stk) | _ => None end
      else begin_value c stk
  | MObjFirst =>
      if is_space c then Some (m, stk)
      else if is_byte c 125 then
        match stk with FObj fields :: stk => Some (MDone (JObj fields), stk) | _ => None end
      else if is_byte c 34 then Some (MStr true SPlain "", stk)
      else None
  | MKey =>
      if is_space c then Some (m, stk)
      else if is_byte c 34 then Some (MStr true SPlain "", stk)
      else None
  | MColon key =>
      if is_space c then Some (m, stk)
      else if is_byte c 58 then
        match stk with FObj fields :: stk => Some (MValue, FMember fields key :: stk) | _ => None end
      else None
  | MStr key st raw =>
      match str_step st c with
      | None => None
      | Some (inl st) => Some (MStr key st (snoc raw c), stk)
      | Some (inr _) =>
          match unquote raw with
          | None => None
          | Some s => Some (if key then MColon s else MDone (JStr s), stk)
          end
      end
  | MNum st lit =>
      match num_step st c with
      | Some st => Some (MNum st (snoc lit c), stk)
      | None => if num_final st then end_value c (JNum lit) stk else None
      end
  | MLit (String x rest) j =>
      if Ascii.eqb c x then Some (match rest with EmptyString => MDone j | _ => MLit rest j end, stk)
      else None
  | MLit EmptyString _ => None
  | MDone j => end_value c j stk
  end.

Fixpoint scan (s : string) (m : mode) (stk : list frame) : option json :=
  match s with
  | String c s =>
      match step c m stk with Some (m, stk) => scan s m stk | None => None end
  | EmptyString =>
      match m, stk with
      | MDone j, [] => Some j
      | MNum st lit, [] => if num_final st then Some (JNum lit) else None
      | _, _ => None
      end
  end.

(** The value denoted by a whole input, if it is valid JSON. *)
Definition json_parse (s : string) : option json := scan s MValue [].

(** ** Parsing inverts printing *)

(** The bytes of a literal that the scanner takes without closing the string. *)
Fixpoint str_run (st : str_state) (s : string) : option str_state :=
  match s with
  | EmptyString => Some st
  | String c s =>
      match str_step st c with Some (inl st) => str_run st s | _ => None end
  end.

Lemma snoc_app s c t : snoc s c +:+ t = s +:+ String c t.
Proof. unfold snoc. by rewrite string_app_assoc. Qed.

Lemma str_run_app st s t st1 st2 :
  str_run st s = Some st1 → str_run st1 t = Some st2 → str_run st (s +:+ t) = Some st2.
Proof.
  revert st. induction s as [|c s IH]; intros st Hs Ht; [by simplify_eq/=|].
  rewrite string_app_cons. cbn [str_run] in *. destruct (str_step st c) as [[st'|]|]; [|done..].
  by apply IH.
Qed.

Lemma scan_str key st raw s rest stk st' :
  str_run st s = Some st' →
  scan (s +:+ rest) (MStr key st raw) stk = scan rest (MStr key st' (raw +:+ s)) stk.
Proof.
  revert st raw. induction s as [|c s IH]; intros st raw Hs.
  - simplify_eq/=. by rewrite string_app_nil_l, string_app_nil_r.
  - rewrite string_app_cons. cbn [str_run scan step] in *.
    destruct (str_step st c) as [[st1|]|]; [|done..]. rewrite (IH _ _ Hs). by rewrite snoc_app.
Qed.

Definition ascii7 (c : ascii) : bool := byte_in c 0 127.

Lemma json_ascii_run c : ascii7 c = true → str_run SPlain (json_ascii c) = Some SPlain.
Proof. byte_cases c; intros; by try done. Qed.

Lemma json_ascii_unquote c t :
  ascii7 c = true → unquote_from 0 (json_ascii c +:+ t) = String c <$> unquote_from 0 t.
Proof. destruct c as [[][][][][][][][]]; intros H; try discriminate H; reflexivity. Qed.

Lemma json_body_run s fuel :
  (String.length s ≤ fuel)%nat → string_all ascii7 s = true →
  str_run SPlain (json_string_body fuel s) = Some SPlain.
Proof.
  revert fuel. induction s as [|c s IH]; intros [|fuel] Hf Hs; simpl in *; [done|done|lia|].
  apply andb_true_iff in Hs as [Hc Hs]. unfold ascii7 in Hc. rewrite Hc.
  eapply str_run_app; [by apply json_ascii_run|]. apply IH; [lia|done].
Qed.

Lemma json_body_unquote s fuel :
  (String.length s ≤ fuel)%nat → string_all ascii7 s = true →
  unquote (json_string_body fuel s) = Some s.
Proof.
  unfold unquote. revert fuel. induction s as [|c s IH]; intros [|fuel] Hf Hs; simpl in *; [done|done|lia|].
  apply andb_true_iff in Hs as [Hc Hs]. unfold ascii7 in Hc. rewrite Hc.
  rewrite json_ascii_unquote by done. rewrite IH by (done || lia). done.
Qed.

(** A string literal, from its opening quote on. *)
Lemma scan_string_literal key s rest stk :
  string_all ascii7 s = true →
  scan (json_string_body (String.length s) s +:+ dquote +:+ rest) (MStr key SPlain "") stk =
  scan rest (if key then MColon s else MDone (JStr s)) stk.
Proof.
  intros Hs. rewrite (scan_str _ _ _ _ _ _ SPlain) by by apply json_body_run.
  rewrite string_app_nil_l. change (dquote +:+ rest) with (String (ascii_of_N 34) rest).
  cbn [scan step str_step]. change (is_byte (ascii_of_N 34) 34) with true. cbv iota.
  by rewrite json_body_unquote.
Qed.

(** A number literal: accepted from its first byte on, in a final state. *)
Fixpoint num_run (st : num_state) (s : string) : option num_state :=
  match s with
  | EmptyString => Some st
  | String c s => match num_step st c with Some st => num_run st s | None => None end
  end.

Definition number (lit : string) : bool :=
  match lit with
  | String c s =>
      match (if is_byte c 45 then num_run NNeg s
             else if is_byte c 48 then num_run NZero s
             else if is_digit c then num_run NInt s else None) with
      | Some st => num_final st
      | None => false
      end
  | EmptyString => false
  end.

Lemma scan_num st lit s rest stk st' :
  num_run st s = Some st' → scan (s +:+ rest) (MNum st lit) stk = scan rest (MNum st' (lit +:+ s)) stk.
Proof.
  revert st lit. induction s as [|c s IH]; intros st lit Hs.
  - simplify_eq/=. by rewrite string_app_nil_l, string_app_nil_r.
  - rewrite string_app_cons. cbn [num_run scan step] in *.
    destruct (num_step st c) as [st1|]; [|done]. rewrite (IH _ _ Hs). by rewrite snoc_app.
Qed.

(** What may follow a value. *)
Definition delimiter (c : ascii) : bool := is_byte c 44 || is_byte c 93 || is_byte c 125.
Definition ends (rest : string) : bool :=
  match rest with EmptyString => true | String c _ => delimiter c end.

Lemma num_step_delimiter st c : delimiter c = true → num_step st c = None.
Proof. destruct c as [[][][][][][][][]]; intros H; try discriminate H; by destruct st. Qed.

Lemma scan_num_end st lit rest stk :
  num_final st = true → ends rest = true →
  scan rest (MNum st lit) stk = scan rest (MDone (JNum lit)) stk.
Proof.
  intros Hst Hr. destruct rest as [|c rest]; cbn [scan step].
  - destruct stk; [by rewrite Hst|done].
  - rewrite num_step_delimiter by done. by rewrite Hst.
Qed.

(** The trees whose text is parsed back: strings of ASCII bytes, numbers that are
    literals, nesting within the scanner's bound. *)
Fixpoint json_ok (j : json) : bool :=
  match j with
  | JNull | JBool _ => true
  | JNum lit => number lit
  | JStr s => string_all ascii7 s
  | JArr l => forallb json_ok l
  | JObj fs => forallb (λ '(k, v), string_all ascii7 k && json_ok v) fs
  end.

Fixpoint json_depth (j : json) : nat :=
  match j with
  | JArr l => S (foldr (λ j n, json_depth j `max` n) 0 l)%nat
  | JObj fs => S (foldr (λ '(_, j) n, json_depth j `max` n) 0 fs)%nat
  | _ => 0%nat
  end.

Section json_ind.
Context (P : json → Prop).
Context (Hnull : P JNull) (Hbool : ∀ b, P (JBool b)) (Hnum : ∀ l, P (JNum l)) (Hstr : ∀ s, P (JStr s)).
Context (Harr : ∀ l, Forall P l → P (JArr l)) (Hobj : ∀ fs, Forall (λ f : string * json, P f.2) fs → P (JObj fs)).

(** Induction through the lists of a tree. *)
Fixpoint json_nested_ind (j : json) : P j :=
  match j with
  | JNull => Hnull
  | JBool b => Hbool b
  | JNum l => Hnum l
  | JStr s => Hstr s
  | JArr l => Harr l ((fix go l : Forall P l :=
      match l with [] => List.Forall_nil _ | x :: l => List.Forall_cons _ _ _ (json_nested_ind x) (go l) end) l)
  | JObj fs => Hobj fs ((fix go fs : Forall (λ f : string * json, P f.2) fs :=
      match fs with
      | [] => List.Forall_nil _ | f :: fs => List.Forall_cons _ f _ (json_nested_ind f.2) (go fs) end) fs)
  end.
End json_ind.

(** The text of a value is read back in front of anything that can follow it. *)
Definition reads_back (j : json) : Prop := ∀ rest stk,
  json_ok j = true → ends rest = true → (N.of_nat (json_depth j + length stk) <= max_depth)%N →
  scan (json_print j +:+ rest) MValue stk = scan rest (MDone j) stk.

Lemma join_map_cons {A} (f : A → string) sep x y l :
  join sep (map f (x :: y :: l)) = f x +:+ sep +:+ join sep (map f (y :: l)).
Proof. done. Qed.

Lemma scan_items (l : list json) : Forall reads_back l → ∀ items rest stk,
  l ≠ [] → forallb json_ok l = true →
  Forall (λ j, (N.of_nat (json_depth j + S (length stk)) <= max_depth)%N) l →
  scan (join "," (map json_print l) +:+ "]" +:+ rest) MValue (FArr items :: stk) =
  scan rest (MDone (JArr (items ++ l))) stk.
Proof.
  induction 1 as [|j l Hj Hl IH]; intros items rest stk Hne Hok Hd; [done|].
  cbn [forallb] in Hok. apply andb_true_iff in Hok as [Hok Hoks]. inversion Hd as [|?? Hdj Hdl]; subst.
  destruct l as [|j2 l].
  - cbn [map join]. by rewrite (Hj ("]" +:+ rest) (FArr items :: stk)).
  - rewrite (join_map_cons json_print "," j j2 l). rewrite !string_app_assoc. rewrite (Hj _ (FArr items :: stk)) by done.
    change (scan ("," +:+ ?r) (MDone j) (FArr items :: stk)) with (scan r MValue (FArr (items ++ [j]) :: stk)).
    rewrite (IH (items ++ [j]) rest stk) by done. by rewrite <-(app_assoc items).
Qed.

Definition print_field (f : string * json) : string := json_string f.1 +:+ ":" +:+ json_print f.2.

Lemma scan_fields (fs : list (string * json)) : Forall (λ f, reads_back f.2) fs → ∀ fields rest stk,
  fs ≠ [] → forallb (λ '(k, v), string_all ascii7 k && json_ok v) fs = true →
  Forall (λ f, (N.of_nat (json_depth f.2 + S (length stk)) <= max_depth)%N) fs →
  scan (join "," (map print_field fs) +:+ "}" +:+ rest) MKey (FObj fields :: stk) =
  scan rest (MDone (JObj (fields ++ fs))) stk.
Proof.
  induction 1 as [|[k j] fs Hj Hl IH]; intros fields rest stk Hne Hok Hd; [done|].
  cbn [forallb] in Hok. apply andb_true_iff in Hok as [[Hk Hok]%andb_true_iff Hoks].
  inversion Hd as [|?? Hdj Hdl]; subst. cbn [snd] in *.
  assert (∀ t, ends t = true →
    scan (print_field (k, j) +:+ t) MKey (FObj fields :: stk) = scan t (MDone j) (FMember fields k :: stk)) as Hfield.
  { intros t Ht. unfold print_field, json_string. cbn [fst snd]. rewrite !string_app_assoc.
    change (scan (dquote +:+ ?r) MKey (FObj fields :: stk)) with (scan r (MStr true SPlain "") (FObj fields :: stk)).
    rewrite scan_string_literal by done.
    change (scan (":" +:+ ?r) (MColon k) (FObj fields :: stk)) with (scan r MValue (FMember fields k :: stk)).
    by apply Hj. }
  destruct fs as [|f2 fs].
  - cbn [map join]. by rewrite (Hfield ("}" +:+ rest)).
  - rewrite (join_map_cons print_field "," (k, j) f2 fs). rewrite !string_app_assoc. rewrite Hfield by done.
    change (scan ("," +:+ ?r) (MDone j) (FMember fields k :: stk))
      with (scan r MKey (FObj (fields ++ [(k, j)]) :: stk)).
    rewrite (IH (fields ++ [(k, j)]) rest stk) by done. by rewrite <-(app_assoc fields).
Qed.

Lemma number_scan lit rest stk :
  number lit = true → ends rest = true →
  scan (lit +:+ rest) MValue stk = scan rest (MDone (JNum lit)) stk.
Proof.
  unfold number. destruct lit as [|c s]; [done|]. intros Hn Hr.
  rewrite string_app_cons. cbn [scan step].
  assert (∀ st st', begin_value c stk = Some (MNum st (String c ""), stk) → is_space c = false →
    num_run st s = Some st' → num_final st' = true →
    (match (if is_space c then Some (MValue, stk) else begin_value c stk) with
     | Some (m, stk) => scan (s +:+ rest) m stk | None => None end) =
    scan rest (MDone (JNum (String c s))) stk) as Hgo.
  { intros st st' -> -> Hrun Hfin. rewrite (scan_num _ _ _ _ _ _ Hrun). by apply scan_num_end. }
  destruct (is_byte c 45) eqn:E45; [|destruct (is_byte c 48) eqn:E48; [|destruct (is_digit c) eqn:Ed; [|done]]];
    (destruct (num_run _ s) as [st'|] eqn:Hrun; [|done]);
    eapply Hgo; try done;
    destruct c as [[][][][][][][][]]; vm_compute in E45; try discriminate E45;
    try (vm_compute in E48; discriminate E48); try (vm_compute in Ed; discriminate Ed); reflexivity.
Qed.

(** The first byte of a text is neither a space nor a closing bracket. *)
Lemma print_head j rest stk :
  json_ok j = true →
  scan (json_print j +:+ rest) MArrFirst stk = scan (json_print j +:+ rest) MValue stk.
Proof.
  destruct j as [|[]|lit|s|l|fs]; try done. intros Hok. cbn [json_ok json_print] in *.
  destruct lit as [|c lit]; [done|]. rewrite string_app_cons. cbn [scan step].
  assert (is_space c || is_byte c 93 = false) as [-> ->]%orb_false_iff; [|done].
  revert Hok. unfold number. destruct c as [[][][][][][][][]]; try done; intros Hok; discriminate Hok.
Qed.

Lemma print_fields_eq fs :
  map (λ '(k, v), json_string k +:+ ":" +:+ json_print v) fs = map print_field fs.
Proof. apply map_ext. by intros [k v]. Qed.

Lemma depth_in (l : list json) (n : nat) :
  (N.of_nat (S (foldr (λ j m, json_depth j `max` m) 0 l)%nat + n) <= max_depth)%N →
  Forall (λ j, (N.of_nat (json_depth j + S n) <= max_depth)%N) l.
Proof.
  intros H. induction l as [|j l IH]; constructor; simpl in H; [lia|].
  apply IH. lia.
Qed.

Lemma depth_in_fields (fs : list (string * json)) (n : nat) :
  (N.of_nat (S (foldr (λ '(_, j) m, json_depth j `max` m) 0 fs)%nat + n) <= max_depth)%N →
  Forall (λ f, (N.of_nat (json_depth f.2 + S n) <= max_depth)%N) fs.
Proof.
  intros H. induction fs as [|[k j] fs IH]; constructor; simpl in *; [lia|].
  apply IH. lia.
Qed.

Lemma push_ok f m stk n :
  (N.of_nat (S n + length stk) <= max_depth)%N → push f m stk = Some (m, f :: stk).
Proof. intros H. unfold push. cbn [length]. destruct (N.leb_spec (N.of_nat (S (length stk))) max_depth); [done|lia]. Qed.

Lemma reads_back_arr l : Forall reads_back l → reads_back (JArr l).
Proof.
  intros Hl rest stk Hok Hr Hd. cbn [json_print json_ok json_depth] in *.
  rewrite !string_app_assoc.
  change (scan ("[" +:+ ?r) MValue stk) with
    (match push (FArr []) MArrFirst stk with Some (m, stk) => scan r m stk | None => None end).
  rewrite (push_ok _ _ _ _ Hd). destruct l as [|j l]; [done|].
  assert (json_ok j = true) as Hj by (cbn [forallb] in Hok; by apply andb_true_iff in Hok as [? _]).
  transitivity (scan (join "," (map json_print (j :: l)) +:+ "]" +:+ rest) MValue (FArr [] :: stk)).
  - destruct l as [|j2 l]; [by apply (print_head j)|].
    rewrite (join_map_cons json_print "," j j2 l), !string_app_assoc. by apply print_head.
  - apply (scan_items (j :: l)); [done|done|done|by apply depth_in].
Qed.

Lemma reads_back_obj fs : Forall (λ f, reads_back f.2) fs → reads_back (JObj fs).
Proof.
  intros Hl rest stk Hok Hr Hd. cbn [json_print json_ok json_depth] in *.
  rewrite print_fields_eq, !string_app_assoc.
  change (scan ("{" +:+ ?r) MValue stk) with
    (match push (FObj []) MObjFirst stk with Some (m, stk) => scan r m stk | None => None end).
  rewrite (push_ok _ _ _ _ Hd). destruct fs as [|f fs]; [done|].
  transitivity (scan (join "," (map print_field (f :: fs)) +:+ "}" +:+ rest) MKey (FObj [] :: stk)).
  - by destruct fs as [|f2 fs].
  - apply (scan_fields (f :: fs)); [done|done|done|by apply depth_in_fields].
Qed.

Lemma scan_print j : reads_back j.
Proof.
  induction j as [|b|lit|s|l Hl|fs Hfs] using json_nested_ind.
  - by intros rest stk.
  - by intros rest stk; destruct b.
  - intros rest stk Hok Hr _. by apply number_scan.
  - intros rest stk Hok Hr _. cbn [json_print]. unfold json_string. rewrite !string_app_assoc.
    change (scan (dquote +:+ ?r) MValue stk) with (scan r (MStr false SPlain "") stk).
    by rewrite scan_string_literal.
  - by apply reads_back_arr.
  - by apply reads_back_obj.
Qed.

(** What [json.Marshal] prints, [json.Unmarshal] reads back: for every tree whose
    strings are ASCII (quotes, backslashes, control and HTML characters included),
    whose numbers are literals and which is nested at most 10000 deep, parsing the
    printed text gives the same tree, nothing being lost or merged. *)
Theorem json_parse_print j :
  json_ok j = true → (N.of_nat (json_depth j) <= max_depth)%N → json_parse (json_print j) = Some j.
Proof.
  intros Hok Hd. unfold json_parse. rewrite <-(string_app_nil_r (json_print j)).
  by rewrite scan_print; [|done|done|rewrite Nat.add_0_r].
Qed.

(** A tree with an escape of each kind. *)
Lemma json_parse_print_witness :
  let j := JObj [("a/b", JArr [JNum "1"; JNum "-20.5e+3"; JBool false; JNull; JObj []; JArr []]);
                 ("<key>", JStr (dq "a`b\c" +:+ String (ascii_of_nat 10) "&"))] in
  json_parse (json_print j) = Some j.
Proof. intros j. apply json_parse_print; [vm_compute; reflexivity|vm_compute; congruence]. Defined.
