(* ===== verification/JsonDecode.v ===== *)
(** * encoding/json: decoding into typed values

    The second half of [json.Unmarshal]: a tree is stored into a Go value that
    already has one.  A decoder maps the old value and the tree to the new value;
    [None] is an [UnmarshalTypeError], whose partial result the operator never uses.
    Null leaves a value alone, unknown fields are skipped, field names match up to
    case folding, a repeated field is stored over the earlier one, and a slice keeps
    its backing array, as in Go. *)

From S2P Require Import Prelude GoLib GoJson JsonParse.

Definition decoder (A : Type) := A → json → option A.

(** ** Scalars *)

Definition digit_value (c : ascii) : Z := Z.of_N (N_of_ascii c) - 48.

Fixpoint parse_digits (acc : Z) (s : string) : option Z :=
  match s with
  | EmptyString => Some acc
  | String c s => if is_digit c then parse_digits (acc * 10 + digit_value c) s else None
  end.

(** [strconv.ParseUint(s, 10, w)] *)
Definition ParseUint (w : Z) (s : string) : option Z :=
  match s with
  | EmptyString => None
  | _ =>
      match parse_digits 0 s with
      | Some n => if n <? 2 ^ w then Some n else None
      | None => None
      end
  end.

Definition dec_uint (w : Z) : decoder Z := λ old j,
  match j with
  | JNull => Some old
  | JNum lit => ParseUint w lit
  | _ => None
  end.

Definition dec_string : decoder string := λ old j,
  match j with
  | JNull => Some old
  | JStr s => Some s
  | _ => None
  end.

(** A pointer: null makes it nil, anything else is stored in what it points to. *)
Definition dec_ptr {A} (zero : A) (d : decoder A) : decoder (option A) := λ old j,
  match j with
  | JNull => Some None
  | _ => Some <$> d (default zero old) j
  end.

(** ** Slices *)

(** A slice and the rest of its backing array, which a longer later value exposes. *)
Record slice (A : Type) := Slice { sl_len : nat; sl_backing : list A }.
Arguments Slice {A} _ _.
Arguments sl_len {A} _.
Arguments sl_backing {A} _.

Definition nil_slice {A} : slice A := Slice 0 [].
Definition elements {A} (s : slice A) : list A := take (sl_len s) (sl_backing s).

Fixpoint dec_elements {A} (zero : A) (d : decoder A) (backing : list A) (l : list json) : option (list A) :=
  match l with
  | [] => Some []
  | j :: l =>
      x ← d (default zero (head backing)) j;
      xs ← dec_elements zero d (tail backing) l;
      Some (x :: xs)
  end.

Definition dec_slice {A} (zero : A) (d : decoder A) : decoder (slice A) := λ old j,
  match j with
  | JNull => Some nil_slice
  | JArr [] => Some nil_slice
  | JArr l =>
      xs ← dec_elements zero d (sl_backing old) l;
      Some (Slice (length l) (xs ++ drop (length l) (sl_backing old)))
  | _ => None
  end.

(** ** Structs *)

Definition upper (c : ascii) : ascii :=
  if byte_in c 97 122 then ascii_of_N (N_of_ascii c - 32) else c.

(** [foldName]: ASCII letters in upper case; the Kelvin sign and the long s, the only
    other runes that fold to ASCII, become K and S. *)
Fixpoint fold_name (s : string) : string :=
  match s with
  | String a (String b (String c r as r1) as r2) =>
      if is_byte a 226 && is_byte b 132 && is_byte c 170 then String "K" (fold_name r)
      else if is_byte a 197 && is_byte b 191 then String "S" (fold_name r1)
      else String (upper a) (fold_name r2)
  | String a (String b "" as r) =>
      if is_byte a 197 && is_byte b 191 then "S" else String (upper a) (fold_name r)
  | String a r => String (upper a) (fold_name r)
  | EmptyString => ""
  end.

(** A field of a struct: its name in the tag, and how its value is stored. *)
Record field (S : Type) := Field { fd_name : string; fd_store : S → json → option S }.
Arguments Field {S} _ _.
Arguments fd_name {S} _.
Arguments fd_store {S} _.

Definition find_field {S} (fields : list (field S)) (key : string) : option (field S) :=
  find_first (λ f, bool_decide (fold_name (fd_name f) = fold_name key)) fields.

Fixpoint dec_fields {S} (fields : list (field S)) (old : S) (l : list (string * json)) : option S :=
  match l with
  | [] => Some old
  | (k, j) :: l =>
      match find_field fields k with
      | None => dec_fields fields old l
      | Some f => new ← fd_store f old j; dec_fields fields new l
      end
  end.

Definition dec_struct {S} (fields : list (field S)) : decoder S := λ old j,
  match j with
  | JNull => Some old
  | JObj l => dec_fields fields old l
  | _ => None
  end.

(** ** [json.Unmarshal(data, &v)] for a fresh [v] *)

(** The text of the error is not modelled; the operator only logs or wraps it. *)
Definition json_error : error := Errorf "json: invalid input".

Definition Unmarshal {A} (d : decoder A) (zero : A) (data : string) : result A :=
  match json_parse data with
  | None => Err json_error
  | Some j => match d zero j with Some v => Ok v | None => Err json_error end
  end.

(** ** Numbers printed with [%d] are read back *)

Lemma digit_of_char x : (x < 10)%N → is_digit (pretty_N_char x) = true ∧ digit_value (pretty_N_char x) = Z.of_N x.
Proof.
  intros Hx. replace x with (N.of_nat (N.to_nat x)) by lia.
  assert (N.to_nat x < 10)%nat as Hn by lia. revert Hn. generalize (N.to_nat x). clear x Hx.
  intros n Hn. do 10 (destruct n as [|n]; [by vm_compute|]). lia.
Qed.

Lemma parse_pretty n s : parse_digits 0 (pretty_N_go n s) = parse_digits (Z.of_N n) s.
Proof.
  revert s. induction n as [n IH] using (well_founded_induction N.lt_wf_0). intros s.
  destruct (decide (n = 0)%N) as [->|Hn]; [by rewrite pretty_N_go_0|].
  rewrite pretty_N_go_step by lia. rewrite IH by (apply N.div_lt; lia).
  destruct (digit_of_char (n mod 10)) as [Hd Hv]; [by apply N.mod_lt|].
  cbn [parse_digits]. rewrite Hd, Hv. f_equal. rewrite N2Z.inj_div, N2Z.inj_mod.
  pose proof (Z.div_mod (Z.of_N n) 10). lia.
Qed.

Lemma pretty_N_nonempty (n : N) : pretty n ≠ "".
Proof.
  unfold pretty, pretty_N. case_decide; [done|]. intros Hp0.
  assert (parse_digits 0 (pretty_N_go n "") = parse_digits 0 "") as Hp by by rewrite Hp0.
  rewrite parse_pretty in Hp. cbn [parse_digits] in Hp. injection Hp. lia.
Qed.

Lemma fmt_d_N z : 0 ≤ z → fmt_d z = pretty (Z.to_N z).
Proof. intros Hz. unfold fmt_d. destruct z; [done|done|lia]. Qed.

Lemma parse_digits_pretty z : 0 ≤ z → parse_digits 0 (pretty (Z.to_N z)) = Some z.
Proof.
  intros Hz. unfold pretty, pretty_N. case_decide as H0; [assert (z = 0) as -> by lia; reflexivity|].
  rewrite parse_pretty. cbn [parse_digits]. f_equal. lia.
Qed.

(** [%d] of a [w]-bit unsigned integer is parsed back by [ParseUint]. *)
Lemma ParseUint_fmt_d w z : 0 ≤ z < 2 ^ w → ParseUint w (fmt_d z) = Some z.
Proof.
  intros Hz. rewrite fmt_d_N by lia. unfold ParseUint.
  pose proof (parse_digits_pretty z ltac:(lia)) as Hp.
  rewrite Hp. destruct (pretty (Z.to_N z)) eqn:E; [by apply pretty_N_nonempty in E|].
  destruct (Z.ltb_spec z (2 ^ w)); [done|lia].
Qed.

(** Any other number is refused. *)
Lemma ParseUint_fmt_d_out w z : ¬ 0 ≤ z < 2 ^ w → ParseUint w (fmt_d z) = None.
Proof.
  intros Hz. destruct (decide (0 ≤ z)) as [Hpos|Hneg].
  2:{ destruct z as [|p|p]; [lia|lia|].
      change (fmt_d (Z.neg p)) with (String "-" (pretty (N.pos p))). reflexivity. }
  rewrite fmt_d_N by lia. unfold ParseUint.
  pose proof (parse_digits_pretty z ltac:(lia)) as Hp.
  rewrite Hp. destruct (pretty (Z.to_N z)) eqn:E; [done|]. destruct (Z.ltb_spec z (2 ^ w)); [lia|done].
Qed.

Lemma num_run_digits s : all_digits s = true → num_run NInt s = Some NInt.
Proof.
  unfold all_digits. induction s as [|c s IH]; [done|]. cbn [string_all num_run num_step].
  intros [Hc Hs]%andb_true_iff. rewrite Hc. by apply IH.
Qed.

(** The decimal text of a positive number starts with a digit other than 0. *)
Lemma pretty_head n s : (0 < n)%N → all_digits s = true →
  ∃ c t, pretty_N_go n s = String c t ∧ is_digit c = true ∧ is_byte c 48 = false ∧ all_digits t = true.
Proof.
  revert s. induction n as [n IH] using (well_founded_induction N.lt_wf_0). intros s Hn Hs.
  rewrite pretty_N_go_step by lia.
  destruct (digit_of_char (n mod 10)) as [Hd Hv]; [by apply N.mod_lt|].
  destruct (decide (n / 10 = 0)%N) as [H0|H0].
  - rewrite H0, pretty_N_go_0. do 2 eexists. split_and!; [done|done| |done].
    assert (n mod 10 = n)%N as Hm by (apply N.mod_small; apply N.div_small_iff in H0; lia).
    unfold digit_value in Hv. unfold is_byte. apply N.eqb_neq. lia.
  - apply IH; [apply N.div_lt; lia|by apply N.neq_0_lt_0|]. unfold all_digits in *. simpl. by rewrite Hd.
Qed.

Lemma fmt_d_number z : number (fmt_d z) = true.
Proof.
  destruct (decide (z = 0)) as [->|Hz]; [done|].
  assert (0 < N.of_nat (Z.abs_nat z))%N as Hpos by lia.
  destruct (pretty_head (N.of_nat (Z.abs_nat z)) "" Hpos eq_refl) as (c&t&Heq&Hd&H48&Ht).
  assert (is_byte c 45 = false) as H45.
  { destruct c as [[][][][][][][][]]; try done; discriminate Hd. }
  assert (is_byte c 48 = false ∧ num_run NInt t = Some NInt) as [_ Hrun] by (split; [done|by apply num_run_digits]).
  destruct z as [|p|p]; [done| |].
  - rewrite fmt_d_N by done. unfold pretty, pretty_N. rewrite decide_False by done.
    replace (Z.to_N (Z.pos p)) with (N.of_nat (Z.abs_nat (Z.pos p))) by lia.
    rewrite Heq. unfold number. by rewrite H45, H48, Hd, Hrun.
  - change (fmt_d (Z.neg p)) with ("-" +:+ pretty (N.pos p)).
    unfold pretty, pretty_N. rewrite decide_False by done.
    replace (N.pos p) with (N.of_nat (Z.abs_nat (Z.neg p))) by lia.
    rewrite Heq.
    change (number _) with
      (match num_run NNeg (String c t) with Some st => num_final st | None => false end).
    cbn [num_run num_step]. by rewrite H48, Hd, Hrun.
Qed.
