(* ===== verification/KubeTypes.v ===== *)
(** * The Kubernetes object types the operator reads and writes

    Records for the structs of k8s.io/api and k8s.io/apimachinery, with the
    fields that the code under src/ sets or reads.  They are data only: no
    operation of those packages is defined here.  A Go [map[string]string] is a
    [gmap]; an optional pointer is an [option]; a slice is a [list]. *)

From S2P Require Import Prelude GoLib.

Abbreviation smap := (gmap string string).

(** ** apimachinery: metadata and conditions *)

Record OwnerReference := {
  or_APIVersion : string;
  or_Kind : string;
  or_Name : string;
  or_UID : string;
  or_Controller : option bool;
}.

Record TypeMeta := { tm_APIVersion : string; tm_Kind : string }.

Definition no_TypeMeta : TypeMeta := {| tm_APIVersion := ""; tm_Kind := "" |}.

Record ObjectMeta := {
  om_Name : string;
  om_Namespace : string;
  om_UID : string;
  om_Generation : Z;
  om_ResourceVersion : string;
  om_Labels : smap;
  om_Annotations : smap;
  om_OwnerReferences : list OwnerReference;
  om_ManagedFields : list string;
}.

(** A composite literal [metav1.ObjectMeta{Name, Namespace, Labels, Annotations}]. *)
Definition new_meta (name namespace : string) (labels annotations : smap) : ObjectMeta :=
  {| om_Name := name; om_Namespace := namespace; om_UID := ""; om_Generation := 0;
     om_ResourceVersion := ""; om_Labels := labels; om_Annotations := annotations;
     om_OwnerReferences := []; om_ManagedFields := [] |}.

Definition with_OwnerReferences (m : ObjectMeta) (refs : list OwnerReference) : ObjectMeta :=
  {| om_Name := om_Name m; om_Namespace := om_Namespace m; om_UID := om_UID m;
     om_Generation := om_Generation m; om_ResourceVersion := om_ResourceVersion m;
     om_Labels := om_Labels m; om_Annotations := om_Annotations m;
     om_OwnerReferences := refs; om_ManagedFields := om_ManagedFields m |}.

Definition with_ManagedFields (m : ObjectMeta) (mf : list string) : ObjectMeta :=
  {| om_Name := om_Name m; om_Namespace := om_Namespace m; om_UID := om_UID m;
     om_Generation := om_Generation m; om_ResourceVersion := om_ResourceVersion m;
     om_Labels := om_Labels m; om_Annotations := om_Annotations m;
     om_OwnerReferences := om_OwnerReferences m; om_ManagedFields := mf |}.

Record NamespacedName := { nn_Namespace : string; nn_Name : string }.

Definition key_of (m : ObjectMeta) : NamespacedName :=
  {| nn_Namespace := om_Namespace m; nn_Name := om_Name m |}.

Inductive ConditionStatus := ConditionTrue | ConditionFalse | ConditionUnknown.

Record Condition := {
  cond_Type : string;
  cond_Status : ConditionStatus;
  cond_ObservedGeneration : Z;
  cond_LastTransitionTime : Z;
  cond_Reason : string;
  cond_Message : string;
}.

(** A [resource.Quantity], seen through its canonical string. *)
Record Quantity := MkQuantity { quantity_String : string }.

#[export] Instance OwnerReference_eq_dec : EqDecision OwnerReference.
Proof. solve_decision. Defined.
#[export] Instance TypeMeta_eq_dec : EqDecision TypeMeta.
Proof. solve_decision. Defined.
#[export] Instance ObjectMeta_eq_dec : EqDecision ObjectMeta.
Proof. solve_decision. Defined.
#[export] Instance NamespacedName_eq_dec : EqDecision NamespacedName.
Proof. solve_decision. Defined.
#[export] Instance ConditionStatus_eq_dec : EqDecision ConditionStatus.
Proof. solve_decision. Defined.
#[export] Instance Condition_eq_dec : EqDecision Condition.
Proof. solve_decision. Defined.
#[export] Instance Quantity_eq_dec : EqDecision Quantity.
Proof. solve_decision. Defined.

(** ** core/v1: pods *)

Inductive EnvSource :=
  | EnvValue (value : string)
  | EnvSecretKeyRef (name key : string)
  | EnvConfigMapKeyRef (name key : string).

Record EnvVar := { env_Name : string; env_Source : EnvSource }.

Record ContainerPort := { cp_Name : string; cp_ContainerPort : Z; cp_Protocol : string }.

Record VolumeMount := { vm_Name : string; vm_MountPath : string }.

Record Container := {
  ct_Name : string;
  ct_Image : string;
  ct_ImagePullPolicy : string;
  ct_Command : list string;
  ct_Args : list string;
  ct_Ports : list ContainerPort;
  ct_Env : list EnvVar;
  ct_VolumeMounts : list VolumeMount;
}.

Inductive VolumeSource :=
  | VolumeConfigMap (name : string)
  | VolumeEmptyDir (sizeLimit : option Quantity).

Record Volume := { vol_Name : string; vol_Source : VolumeSource }.

Record PodSecurityContext := {
  psc_RunAsUser : option Z;
  psc_RunAsGroup : option Z;
  psc_FSGroup : option Z;
}.

Record PodSpec := {
  ps_SecurityContext : option PodSecurityContext;
  ps_InitContainers : list Container;
  ps_Containers : list Container;
  ps_Volumes : list Volume;
}.

Record PodTemplateSpec := { pt_Labels : smap; pt_Spec : PodSpec }.

Record ContainerStateWaiting := { csw_Reason : string; csw_Message : string }.
Record ContainerStateTerminated := {
  cst_ExitCode : Z;
  cst_Reason : string;
  cst_Message : string;
}.
Record ContainerStatus := {
  cs_Name : string;
  cs_Waiting : option ContainerStateWaiting;
  cs_Terminated : option ContainerStateTerminated;
}.

Record Pod := {
  pod_Meta : ObjectMeta;
  pod_InitContainerStatuses : list ContainerStatus;
  pod_ContainerStatuses : list ContainerStatus;
}.

(** ** core/v1: services, config maps, secrets *)

Record ServicePort := {
  sp_Name : string;
  sp_Port : Z;
  sp_Protocol : string;
  sp_TargetPort : Z;   (** an [intstr.FromInt]; 0 when unset *)
}.

Record ServiceSpec := {
  ss_ClusterIP : string;
  ss_Selector : smap;
  ss_Ports : list ServicePort;
}.

Record Service := { svc_Type : TypeMeta; svc_Meta : ObjectMeta; svc_Spec : ServiceSpec }.

Record ConfigMap := { cm_Type : TypeMeta; cm_Meta : ObjectMeta; cm_Data : smap }.

(** [Data] maps keys to byte strings. *)
Record Secret := { sec_Meta : ObjectMeta; sec_Data : smap }.

(** ** apps/v1 *)

Record PersistentVolumeClaim := {
  pvc_Name : string;
  pvc_Labels : smap;
  pvc_AccessModes : list string;
  pvc_StorageRequest : Quantity;
  pvc_StorageClassName : option string;
}.

Record DeploymentSpec := {
  ds_Replicas : option Z;
  ds_Strategy : string;
  ds_Selector : smap;
  ds_Template : PodTemplateSpec;
}.

Record DeploymentCondition := { dc_Type : string; dc_Status : ConditionStatus }.

Record Deployment := {
  dep_Type : TypeMeta;
  dep_Meta : ObjectMeta;
  dep_Spec : DeploymentSpec;
  dep_Conditions : list DeploymentCondition;
}.

Record StatefulSetSpec := {
  sts_Replicas : option Z;
  sts_ServiceName : string;
  sts_Selector : smap;
  sts_Template : PodTemplateSpec;
  sts_VolumeClaimTemplates : list PersistentVolumeClaim;
}.

Record StatefulSet := {
  sts_Type : TypeMeta;
  sts_Meta : ObjectMeta;
  sts_Spec : StatefulSetSpec;
  sts_ObservedGeneration : Z;
  sts_ReadyReplicas : Z;
}.

Record SecretReference := { sr_Name : string; sr_Namespace : string }.
Record SecretKeySelector := { sks_Name : string; sks_Key : string }.

#[export] Instance PodSpec_eq_dec : EqDecision PodSpec.
Proof.
  assert (EqDecision EnvSource) by solve_decision.
  assert (EqDecision EnvVar) by solve_decision.
  assert (EqDecision ContainerPort) by solve_decision.
  assert (EqDecision VolumeMount) by solve_decision.
  assert (EqDecision Container) by solve_decision.
  assert (EqDecision VolumeSource) by solve_decision.
  assert (EqDecision Volume) by solve_decision.
  assert (EqDecision PodSecurityContext) by solve_decision.
  solve_decision.
Defined.
#[export] Instance PodTemplateSpec_eq_dec : EqDecision PodTemplateSpec.
Proof. solve_decision. Defined.
#[export] Instance DeploymentSpec_eq_dec : EqDecision DeploymentSpec.
Proof. solve_decision. Defined.
#[export] Instance PersistentVolumeClaim_eq_dec : EqDecision PersistentVolumeClaim.
Proof. solve_decision. Defined.
#[export] Instance StatefulSetSpec_eq_dec : EqDecision StatefulSetSpec.
Proof. solve_decision. Defined.
#[export] Instance ServicePort_eq_dec : EqDecision ServicePort.
Proof. solve_decision. Defined.
#[export] Instance ServiceSpec_eq_dec : EqDecision ServiceSpec.
Proof. solve_decision. Defined.
