(* ===== verification/Api.v ===== *)
(** * The custom resources: api/v1alpha1

    The five custom resources of the group [neon.oltp.molnett.org/v1alpha1],
    the status accessors of status_funcs.go as an interface ([StatusObject]),
    and the universe of object kinds ([Kind], [obj]) the client moves around. *)

From S2P Require Import Prelude GoLib KubeTypes.

(** ** Specs and statuses *)

Record ClusterSpec := {
  cls_NumSafekeepers : Z;
  cls_DefaultPGVersion : Z;
  cls_NeonImage : string;
  cls_BucketCredentialsSecret : option SecretReference;
  cls_StorageControllerDatabaseSecret : option SecretKeySelector;
}.

Record ProjectSpec := {
  prs_ClusterName : string;
  prs_TenantID : string;
  prs_PGVersion : Z;
}.

Record BranchSpec := {
  brs_TimelineID : string;
  brs_PGVersion : Z;
  brs_ProjectID : string;
}.

Record StorageConfig := {
  stc_StorageClass : option string;
  stc_Size : string;
}.

Record PageserverSpec := {
  pss_ID : Z;
  pss_Cluster : string;
  pss_BucketCredentialsSecret : option SecretReference;
  pss_StorageConfig : StorageConfig;
}.

Record SafekeeperSpec := {
  sfs_ID : Z;
  sfs_Cluster : string;
  sfs_StorageConfig : StorageConfig;
}.

(** The five status structs have the same two fields. *)
Record Status := {
  st_ObservedGeneration : Z;
  st_Conditions : list Condition;
}.

Definition ClusterStatus := Status.
Definition ProjectStatus := Status.
Definition BranchStatus := Status.
Definition PageserverStatus := Status.
Definition SafekeeperStatus := Status.

#[export] Instance Status_eq_dec : EqDecision Status.
Proof. solve_decision. Defined.

(** ** The resources *)

Record Cluster := {
  cl_Type : TypeMeta;
  cl_Meta : ObjectMeta;
  cl_Spec : ClusterSpec;
  cl_Status : ClusterStatus;
}.

Record Project := {
  pr_Type : TypeMeta;
  pr_Meta : ObjectMeta;
  pr_Spec : ProjectSpec;
  pr_Status : ProjectStatus;
}.

Record Branch := {
  br_Type : TypeMeta;
  br_Meta : ObjectMeta;
  br_Spec : BranchSpec;
  br_Status : BranchStatus;
}.

Record Pageserver := {
  pgs_Type : TypeMeta;
  pgs_Meta : ObjectMeta;
  pgs_Spec : PageserverSpec;
  pgs_Status : PageserverStatus;
}.

Record Safekeeper := {
  sk_Type : TypeMeta;
  sk_Meta : ObjectMeta;
  sk_Spec : SafekeeperSpec;
  sk_Status : SafekeeperStatus;
}.

(** [cluster.GetOwnerReference()] *)
Definition GetOwnerReference (cluster : Cluster) : OwnerReference :=
  {| or_APIVersion := tm_APIVersion (cl_Type cluster);
     or_Kind := tm_Kind (cl_Type cluster);
     or_Name := om_Name (cl_Meta cluster);
     or_UID := om_UID (cl_Meta cluster);
     or_Controller := Some true |}.

(** ** Kinds *)

Inductive Kind :=
  | KCluster | KProject | KBranch | KPageserver | KSafekeeper
  | KSecret | KConfigMap | KService | KDeployment | KStatefulSet | KPod.

#[export] Instance Kind_eq_dec : EqDecision Kind.
Proof. solve_decision. Defined.

Definition obj (k : Kind) : Type :=
  match k with
  | KCluster => Cluster
  | KProject => Project
  | KBranch => Branch
  | KPageserver => Pageserver
  | KSafekeeper => Safekeeper
  | KSecret => Secret
  | KConfigMap => ConfigMap
  | KService => Service
  | KDeployment => Deployment
  | KStatefulSet => StatefulSet
  | KPod => Pod
  end.

(** [reflect.TypeOf(obj).Elem().Name()] *)
Definition kind_name (k : Kind) : string :=
  match k with
  | KCluster => "Cluster"
  | KProject => "Project"
  | KBranch => "Branch"
  | KPageserver => "Pageserver"
  | KSafekeeper => "Safekeeper"
  | KSecret => "Secret"
  | KConfigMap => "ConfigMap"
  | KService => "Service"
  | KDeployment => "Deployment"
  | KStatefulSet => "StatefulSet"
  | KPod => "Pod"
  end.

(** The metadata of an object ([metav1.Object] accessors). *)
Definition meta {k : Kind} : obj k → ObjectMeta :=
  match k with
  | KCluster => cl_Meta
  | KProject => pr_Meta
  | KBranch => br_Meta
  | KPageserver => pgs_Meta
  | KSafekeeper => sk_Meta
  | KSecret => sec_Meta
  | KConfigMap => cm_Meta
  | KService => svc_Meta
  | KDeployment => dep_Meta
  | KStatefulSet => sts_Meta
  | KPod => pod_Meta
  end.

Definition set_meta {k : Kind} : obj k → ObjectMeta → obj k :=
  match k with
  | KCluster => λ o m, {| cl_Type := cl_Type o; cl_Meta := m; cl_Spec := cl_Spec o; cl_Status := cl_Status o |}
  | KProject => λ o m, {| pr_Type := pr_Type o; pr_Meta := m; pr_Spec := pr_Spec o; pr_Status := pr_Status o |}
  | KBranch => λ o m, {| br_Type := br_Type o; br_Meta := m; br_Spec := br_Spec o; br_Status := br_Status o |}
  | KPageserver => λ o m, {| pgs_Type := pgs_Type o; pgs_Meta := m; pgs_Spec := pgs_Spec o; pgs_Status := pgs_Status o |}
  | KSafekeeper => λ o m, {| sk_Type := sk_Type o; sk_Meta := m; sk_Spec := sk_Spec o; sk_Status := sk_Status o |}
  | KSecret => λ o m, {| sec_Meta := m; sec_Data := sec_Data o |}
  | KConfigMap => λ o m, {| cm_Type := cm_Type o; cm_Meta := m; cm_Data := cm_Data o |}
  | KService => λ o m, {| svc_Type := svc_Type o; svc_Meta := m; svc_Spec := svc_Spec o |}
  | KDeployment => λ o m, {| dep_Type := dep_Type o; dep_Meta := m; dep_Spec := dep_Spec o; dep_Conditions := dep_Conditions o |}
  | KStatefulSet => λ o m, {| sts_Type := sts_Type o; sts_Meta := m; sts_Spec := sts_Spec o;
                             sts_ObservedGeneration := sts_ObservedGeneration o; sts_ReadyReplicas := sts_ReadyReplicas o |}
  | KPod => λ o m, {| pod_Meta := m; pod_InitContainerStatuses := pod_InitContainerStatuses o;
                      pod_ContainerStatuses := pod_ContainerStatuses o |}
  end.

(** The [apiVersion]/[kind] the object literal carries in its body.  Kinds the
    program never builds with a literal are read from the server untyped. *)
Definition type_meta {k : Kind} : obj k → TypeMeta :=
  match k with
  | KCluster => cl_Type
  | KProject => pr_Type
  | KBranch => br_Type
  | KPageserver => pgs_Type
  | KSafekeeper => sk_Type
  | KConfigMap => cm_Type
  | KService => svc_Type
  | KDeployment => dep_Type
  | KStatefulSet => sts_Type
  | KSecret | KPod => λ _, no_TypeMeta
  end.

Lemma meta_set_meta {k} (o : obj k) m : meta (set_meta o m) = m.
Proof. by destruct k. Qed.
Lemma set_meta_meta {k} (o : obj k) : set_meta o (meta o) = o.
Proof. by destruct k, o. Qed.
Lemma set_meta_set_meta {k} (o : obj k) m m' : set_meta (set_meta o m) m' = set_meta o m'.
Proof. by destruct k. Qed.
Lemma type_meta_set_meta {k} (o : obj k) m : type_meta (set_meta o m) = type_meta o.
Proof. by destruct k. Qed.
Create Rewrite HintDb neon.
#[export] Hint Rewrite @meta_set_meta @set_meta_set_meta @type_meta_set_meta : neon.

(** ** [StatusObject] and [ConditionedStatus]

    The Go interfaces of utils/status.go, implemented once per resource in
    status_funcs.go.  [StatusValue] reads the status, [set_Status] is the
    assignment [o.Status = s] that [AssignStatusFrom], [StatusConditions] and
    [SetObservedGeneration] perform through the pointer. *)

Class StatusObject (k : Kind) := {
  StatusValue : obj k → Status;
  set_Status : obj k → Status → obj k;
  StatusValue_set_Status : ∀ o s, StatusValue (set_Status o s) = s;
  set_Status_set_Status : ∀ o s s', set_Status (set_Status o s) s' = set_Status o s';
  set_Status_StatusValue : ∀ o, set_Status o (StatusValue o) = o;
  meta_set_Status : ∀ o s, meta (set_Status o s) = meta o;
}.
#[export] Hint Rewrite @StatusValue_set_Status @set_Status_set_Status
  @set_Status_StatusValue @meta_set_Status : neon.

#[export, program] Instance Cluster_StatusObject : StatusObject KCluster := {|
  StatusValue := cl_Status;
  set_Status := λ c s, {| cl_Type := cl_Type c; cl_Meta := cl_Meta c; cl_Spec := cl_Spec c; cl_Status := s |}
|}.
Solve All Obligations with by intros []; intros.
#[export, program] Instance Project_StatusObject : StatusObject KProject := {|
  StatusValue := pr_Status;
  set_Status := λ p s, {| pr_Type := pr_Type p; pr_Meta := pr_Meta p; pr_Spec := pr_Spec p; pr_Status := s |}
|}.
Solve All Obligations with by intros []; intros.
#[export, program] Instance Branch_StatusObject : StatusObject KBranch := {|
  StatusValue := br_Status;
  set_Status := λ b s, {| br_Type := br_Type b; br_Meta := br_Meta b; br_Spec := br_Spec b; br_Status := s |}
|}.
Solve All Obligations with by intros []; intros.
#[export, program] Instance Pageserver_StatusObject : StatusObject KPageserver := {|
  StatusValue := pgs_Status;
  set_Status := λ p s, {| pgs_Type := pgs_Type p; pgs_Meta := pgs_Meta p; pgs_Spec := pgs_Spec p; pgs_Status := s |}
|}.
Solve All Obligations with by intros []; intros.
#[export, program] Instance Safekeeper_StatusObject : StatusObject KSafekeeper := {|
  StatusValue := sk_Status;
  set_Status := λ p s, {| sk_Type := sk_Type p; sk_Meta := sk_Meta p; sk_Spec := sk_Spec p; sk_Status := s |}
|}.
Solve All Obligations with by intros []; intros.

Section status_object.
Context {k : Kind} `{StatusObject k}.

(** [o.StatusConditions()] read, and written through the returned pointer. *)
Definition StatusConditions (o : obj k) : list Condition := st_Conditions (StatusValue o).

Definition set_Conditions (o : obj k) (cs : list Condition) : obj k :=
  set_Status o {| st_ObservedGeneration := st_ObservedGeneration (StatusValue o); st_Conditions := cs |}.

Definition SetObservedGeneration (o : obj k) (g : Z) : obj k :=
  set_Status o {| st_ObservedGeneration := g; st_Conditions := st_Conditions (StatusValue o) |}.

(** [o.AssignStatusFrom(other)] for an [other] of the same type. *)
Definition AssignStatusFrom (o other : obj k) : obj k := set_Status o (StatusValue other).

Lemma StatusConditions_set_Conditions o cs : StatusConditions (set_Conditions o cs) = cs.
Proof. unfold StatusConditions, set_Conditions. by autorewrite with neon. Qed.
Lemma meta_set_Conditions o cs : meta (set_Conditions o cs) = meta o.
Proof. unfold set_Conditions. by autorewrite with neon. Qed.
Lemma meta_SetObservedGeneration o g : meta (SetObservedGeneration o g) = meta o.
Proof. unfold SetObservedGeneration. by autorewrite with neon. Qed.
Lemma StatusConditions_SetObservedGeneration o g :
  StatusConditions (SetObservedGeneration o g) = StatusConditions o.
Proof. unfold StatusConditions, SetObservedGeneration. by autorewrite with neon. Qed.
End status_object.
#[export] Hint Rewrite @StatusConditions_set_Conditions @meta_set_Conditions
  @meta_SetObservedGeneration @StatusConditions_SetObservedGeneration using typeclasses eauto : neon.

(** ** Statuses of any kind, and what a status write leaves alone *)

Definition status_of {k : Kind} : obj k → option Status :=
  match k with
  | KCluster => λ o, Some (cl_Status o)
  | KProject => λ o, Some (pr_Status o)
  | KBranch => λ o, Some (br_Status o)
  | KPageserver => λ o, Some (pgs_Status o)
  | KSafekeeper => λ o, Some (sk_Status o)
  | _ => λ _, None
  end.

(** [cur] with the status of [o]. *)
Definition with_status_of {k : Kind} : obj k → obj k → obj k :=
  match k with
  | KCluster => λ cur o, set_Status (k := KCluster) cur (cl_Status o)
  | KProject => λ cur o, set_Status (k := KProject) cur (pr_Status o)
  | KBranch => λ cur o, set_Status (k := KBranch) cur (br_Status o)
  | KPageserver => λ cur o, set_Status (k := KPageserver) cur (pgs_Status o)
  | KSafekeeper => λ cur o, set_Status (k := KSafekeeper) cur (sk_Status o)
  | _ => λ _ o, o
  end.

Lemma status_of_with_status_of {k} (cur o : obj k) : status_of (with_status_of cur o) = status_of o.
Proof. by destruct k. Qed.

(** The metadata but for the server's own bookkeeping. *)
Definition same_identity (m m' : ObjectMeta) : Prop :=
  om_Name m' = om_Name m ∧ om_Namespace m' = om_Namespace m ∧ om_UID m' = om_UID m ∧
  om_Generation m' = om_Generation m ∧ om_Labels m' = om_Labels m ∧
  om_Annotations m' = om_Annotations m ∧ om_OwnerReferences m' = om_OwnerReferences m.

Definition same_but_status {k : Kind} : obj k → obj k → Prop :=
  match k with
  | KCluster => λ o o', same_identity (cl_Meta o) (cl_Meta o') ∧ cl_Spec o' = cl_Spec o
  | KProject => λ o o', same_identity (pr_Meta o) (pr_Meta o') ∧ pr_Spec o' = pr_Spec o
  | KBranch => λ o o', same_identity (br_Meta o) (br_Meta o') ∧ br_Spec o' = br_Spec o
  | KPageserver => λ o o', same_identity (pgs_Meta o) (pgs_Meta o') ∧ pgs_Spec o' = pgs_Spec o
  | KSafekeeper => λ o o', same_identity (sk_Meta o) (sk_Meta o') ∧ sk_Spec o' = sk_Spec o
  | _ => λ _ _, True
  end.

Lemma same_identity_refl m : same_identity m m.
Proof. by unfold same_identity. Qed.

Lemma with_status_of_spec {k} (cur o : obj k) :
  key_of (meta cur) = key_of (meta o) →
  key_of (meta (with_status_of cur o)) = key_of (meta o) ∧ status_of (with_status_of cur o) = status_of o ∧
  same_but_status cur (with_status_of cur o).
Proof. destruct k; intros Hk; repeat split; done. Qed.

(** ** Merge patches

    A JSON merge patch computed from [base] and [updated] carries the fields on which the
    two differ; applied to [cur] it changes these and no others.  The main resource of a
    kind with a status subresource ignores the status. *)

Definition patched {A} `{EqDecision A} (base updated cur : A) : A :=
  if decide (base = updated) then cur else updated.

Definition patched_ProjectSpec (base updated cur : ProjectSpec) : ProjectSpec :=
  {| prs_ClusterName := patched (prs_ClusterName base) (prs_ClusterName updated) (prs_ClusterName cur);
     prs_TenantID := patched (prs_TenantID base) (prs_TenantID updated) (prs_TenantID cur);
     prs_PGVersion := patched (prs_PGVersion base) (prs_PGVersion updated) (prs_PGVersion cur) |}.

Definition patched_BranchSpec (base updated cur : BranchSpec) : BranchSpec :=
  {| brs_TimelineID := patched (brs_TimelineID base) (brs_TimelineID updated) (brs_TimelineID cur);
     brs_PGVersion := patched (brs_PGVersion base) (brs_PGVersion updated) (brs_PGVersion cur);
     brs_ProjectID := patched (brs_ProjectID base) (brs_ProjectID updated) (brs_ProjectID cur) |}.

Definition same_name (m m' : ObjectMeta) : Prop :=
  om_Name m' = om_Name m ∧ om_Namespace m' = om_Namespace m ∧ om_UID m' = om_UID m.

(** What may be found after the patch, for the two kinds the program patches. *)
Definition merged {k : Kind} : obj k → obj k → obj k → obj k → Prop :=
  match k with
  | KProject => λ base updated cur o, same_name (pr_Meta cur) (pr_Meta o) ∧
      pr_Spec o = patched_ProjectSpec (pr_Spec base) (pr_Spec updated) (pr_Spec cur) ∧ pr_Status o = pr_Status cur
  | KBranch => λ base updated cur o, same_name (br_Meta cur) (br_Meta o) ∧
      br_Spec o = patched_BranchSpec (br_Spec base) (br_Spec updated) (br_Spec cur) ∧ br_Status o = br_Status cur
  | _ => λ _ _ _ _, True
  end.

Definition merge_patch {k : Kind} : obj k → obj k → obj k → obj k :=
  match k with
  | KProject => λ base updated cur,
      {| pr_Type := pr_Type cur; pr_Meta := pr_Meta cur;
         pr_Spec := patched_ProjectSpec (pr_Spec base) (pr_Spec updated) (pr_Spec cur); pr_Status := pr_Status cur |}
  | KBranch => λ base updated cur,
      {| br_Type := br_Type cur; br_Meta := br_Meta cur;
         br_Spec := patched_BranchSpec (br_Spec base) (br_Spec updated) (br_Spec cur); br_Status := br_Status cur |}
  | _ => λ _ updated _, updated
  end.

Lemma merge_patch_spec {k} (base updated cur : obj k) :
  key_of (meta cur) = key_of (meta updated) →
  key_of (meta (merge_patch base updated cur)) = key_of (meta updated) ∧ merged base updated cur (merge_patch base updated cur).
Proof. destruct k; intros Hk; repeat split; done. Qed.

Lemma status_merge_patch {k} (base updated cur : obj k) :
  status_of (merge_patch base updated cur) = status_of updated ∨ status_of (merge_patch base updated cur) = status_of cur.
Proof. destruct k; first [by left | by right]. Qed.

Lemma patched_same {A} `{EqDecision A} (x cur : A) : patched x x cur = cur.
Proof. unfold patched. by rewrite decide_True. Qed.
Lemma patched_self {A} `{EqDecision A} (cur updated : A) : patched cur updated cur = updated.
Proof. unfold patched. by case_decide. Qed.
