(* ===== verification/Interfaces.v ===== *)
(** * What the operator relies on outside the repository

    Every function of a third-party package that the source calls for its value
    is an operation of one of these classes, and what its documentation promises
    is a class of laws about it.  Components take the operations as [Context];
    only the theorems that need a law assume it.  [Reference.v] gives an instance
    of every class, so that no set of laws is empty. *)

From S2P Require Import Prelude GoLib GoJson KubeTypes Api.

(** ** apimachinery meta: [meta.SetStatusCondition] *)

(** The condition of a type, as a reader of a status looks it up. *)
Definition find_cond (t : string) (cs : list Condition) : option Condition :=
  find_first (λ c, bool_decide (cond_Type c = t)) cs.

Class ConditionOps := {
  (** [SetStatusCondition] at a given instant of the clock *)
  SetStatusCondition : Z → list Condition → Condition → list Condition;
}.

(** "If the condition of the specified type already exists all fields are updated,
    LastTransitionTime is set to now if the new status differs from the old
    status; otherwise newCondition is appended." *)
Class ConditionLaws `{ConditionOps} := {
  set_cond_same : ∀ now cs c, ∃ t,
    find_cond (cond_Type c) (SetStatusCondition now cs c) =
    Some {| cond_Type := cond_Type c; cond_Status := cond_Status c;
            cond_ObservedGeneration := cond_ObservedGeneration c;
            cond_LastTransitionTime := t;
            cond_Reason := cond_Reason c; cond_Message := cond_Message c |};
  set_cond_other : ∀ now cs c t,
    t ≠ cond_Type c → find_cond t (SetStatusCondition now cs c) = find_cond t cs;
  set_cond_time : ∀ now cs c old,
    find_cond (cond_Type c) cs = Some old → cond_Status old = cond_Status c →
    cond_LastTransitionTime <$> find_cond (cond_Type c) (SetStatusCondition now cs c) =
    Some (cond_LastTransitionTime old);
  set_cond_shape : ∀ now cs c, ∃ c',
    cond_Type c' = cond_Type c ∧ cond_Reason c' = cond_Reason c ∧
    ((find_cond (cond_Type c) cs = None ∧ SetStatusCondition now cs c = cs ++ [c']) ∨
     (∃ pre old post, cs = pre ++ old :: post ∧ cond_Type old = cond_Type c ∧
        Forall (λ x, cond_Type x ≠ cond_Type c) pre ∧
        SetStatusCondition now cs c = pre ++ c' :: post));
}.

(** ** apimachinery equality: [equality.Semantic] *)

Class SemanticDerivative (T : Type) := DeepDerivative : T → T → bool.
Class SemanticDerivativeLaws (T : Type) `{SemanticDerivative T} :=
  DeepDerivative_refl : ∀ x : T, DeepDerivative x x = true.

Class SemanticEqual (T : Type) := DeepEqual : T → T → bool.
Class SemanticEqualLaws (T : Type) `{SemanticEqual T} :=
  DeepEqual_spec : ∀ x y : T, DeepEqual x y = true ↔ x = y.

(** ** controllerutil: [SetControllerReference] *)

(** The new owner references of the controlled object, or why there are none. *)
Class OwnerOps := {
  SetControllerReference : Kind → ObjectMeta → ObjectMeta → reply (list OwnerReference);
}.

Definition controls (k : Kind) (owner : ObjectMeta) (r : OwnerReference) : Prop :=
  or_Kind r = kind_name k ∧ or_Name r = om_Name owner ∧ or_UID r = om_UID owner ∧
  or_Controller r = Some true.

(** "SetControllerReference sets owner as a Controller OwnerReference on
    controlled; it returns an error if there is another controller."  An owner of
    a registered type in the namespace of an object without owners is accepted. *)
Class OwnerLaws `{OwnerOps} := {
  owner_set : ∀ k owner m refs,
    SetControllerReference k owner m = Ok refs → ∃ r, r ∈ refs ∧ controls k owner r;
  owner_fresh : ∀ k owner m,
    om_OwnerReferences m = [] → om_Namespace owner = om_Namespace m →
    ∃ refs, SetControllerReference k owner m = Ok refs;
}.

(** The controlled object with its new owner references. *)
Definition owned {k : Kind} (o : obj k) (refs : list OwnerReference) : obj k :=
  set_meta o (with_OwnerReferences (meta o) refs).

Lemma key_owned {k} (o : obj k) refs : key_of (meta (owned o refs)) = key_of (meta o).
Proof. unfold owned. by rewrite meta_set_meta. Qed.

(** ** apimachinery resource: [resource.ParseQuantity] and [resource.MustParse] *)

Class QuantityOps := ParseQuantity : string → reply Quantity.

(** [MustParse] turns the string into a quantity or panics. *)
Definition MustParse `{QuantityOps} (s : string) : outcome Quantity :=
  match ParseQuantity s with
  | Ok q => Returned q
  | Err e => Panicked ("cannot parse '" +:+ s +:+ "': " +:+ fault_msg e)
  end.

(** The one quantity the program writes itself is well formed. *)
Class QuantityLaws `{QuantityOps} := parse_500Mi : ∃ q, ParseQuantity "500Mi" = Ok q.

(** ** crypto/x509, crypto/ed25519 and encoding/pem *)

(** What [ParsePKCS8PrivateKey] and [ParsePKIXPublicKey] return: an [any]. *)
Inductive AnyKey :=
  | KeyEd25519 (bytes : string)
  | KeyOther.

Class CryptoOps := {
  MarshalPKCS8PrivateKey : string → reply string;
  MarshalPKIXPublicKey : string → reply string;
  ParsePKCS8PrivateKey : string → reply AnyKey;
  ParsePKIXPublicKey : string → reply AnyKey;
  pem_EncodeToMemory : string → string → string;     (** block type, block bytes *)
  pem_Decode : string → option string;               (** block bytes of the first block *)
}.

(** Ed25519 keys are of a supported type, so they marshal, and parsing inverts
    marshalling. *)
Class CryptoLaws `{CryptoOps} := {
  marshal_private : ∀ k, ∃ b, MarshalPKCS8PrivateKey k = Ok b;
  marshal_public : ∀ k, ∃ b, MarshalPKIXPublicKey k = Ok b;
  parse_marshal_private : ∀ k b,
    MarshalPKCS8PrivateKey k = Ok b → ParsePKCS8PrivateKey b = Ok (KeyEd25519 k);
  parse_marshal_public : ∀ k b,
    MarshalPKIXPublicKey k = Ok b → ParsePKIXPublicKey b = Ok (KeyEd25519 k);
  pem_decode_encode : ∀ t b, pem_Decode (pem_EncodeToMemory t b) = Some b;
}.

(** ** github.com/lestrrat-go/jwx: tokens *)

(** The claim values the program sets.  In a time claim an integer is the instant of
    that many seconds. *)
Inductive claim :=
  | ClaimString (s : string)
  | ClaimStrings (l : list string)
  | ClaimInt (z : Z).

#[export] Instance claim_eq_dec : EqDecision claim.
Proof. solve_decision. Defined.

Class JwtOps := {
  Token : Type;
  jwt_New : Token;
  jwt_Set : Token → string → claim → reply Token;
  jwt_Sign : Token → string → reply string;            (** EdDSA with this private key *)
  jwt_Parse : Z → string → string → reply Token;       (** now, the token's text, public key *)
  jwt_claims : Token → gmap string claim;              (** what a reader of the token sees *)
  key_pair : string → string → Prop;                   (** private and public half *)
}.

(** The registered claims have types of their own (RFC 7519, section 4.1): times are
    instants, the audience is a string or several, and issuer, subject and token id are
    strings; any other claim is a JSON value.  Only text that JSON can carry comes back,
    and only integers that a JSON number carries exactly. *)
Definition time_claims : list string := ["exp"; "iat"; "nbf"].
Definition string_claims : list string := ["iss"; "sub"; "jti"].

Definition claim_fits (k : string) (v : claim) : bool :=
  valid_utf8 k &&
  match v with
  | ClaimString s => negb (bool_decide (k ∈ time_claims)) && valid_utf8 s
  | ClaimStrings l =>
      negb (bool_decide (k ∈ time_claims)) && negb (bool_decide (k ∈ string_claims)) &&
      negb (bool_decide (k = "aud" ∧ l = [])) && forallb valid_utf8 l
  | ClaimInt z =>
      negb (bool_decide (k ∈ string_claims)) && negb (bool_decide (k = "aud")) &&
      (0 <=? z) && (z <? 2 ^ 53)
  end.

(** A token always shows its audience as a list. *)
Definition claim_read (k : string) (v : claim) : claim :=
  match v with
  | ClaimString s => if decide (k = "aud") then ClaimStrings [s] else ClaimString s
  | _ => v
  end.

(** The time claims [jwt.Parse] validates unless it is told not to: not expired, not
    issued in the future, not to be used later. *)
Definition valid_at (now : Z) (claims : gmap string claim) : bool :=
  match claims !! "exp" with Some (ClaimInt t) => now <? t | _ => true end &&
  match claims !! "iat" with Some (ClaimInt t) => t <=? now | _ => true end &&
  match claims !! "nbf" with Some (ClaimInt t) => t <=? now | _ => true end.

(** A token takes every claim of a fitting type and shows what was set on it last.  What
    is signed parses back under the matching public key, to a token that shows the same
    claims, if these are valid at the time; if they are not, parsing fails. *)
Class JwtLaws `{JwtOps} := {
  claims_new : jwt_claims jwt_New = ∅;
  claims_set : ∀ t k v, claim_fits k v = true →
    ∃ t', jwt_Set t k v = Ok t' ∧ jwt_claims t' = <[k := claim_read k v]> (jwt_claims t);
  parse_sign : ∀ now t priv pub s,
    key_pair priv pub → map_Forall (λ k v, claim_fits k v = true) (jwt_claims t) →
    jwt_Sign t priv = Ok s →
    if valid_at now (jwt_claims t)
    then ∃ t', jwt_Parse now s pub = Ok t' ∧ jwt_claims t' = jwt_claims t
    else ∃ f, jwt_Parse now s pub = Err f;
}.

(** ** net/http: [http.NewRequestWithContext] rejects some URLs *)

Class HttpOps := NewRequest_error : string → string → option fault.   (** method, URL *)
