(* ===== verification/Reference.v ===== *)
(** * Reference instances

    One executable instance of every interface of [Interfaces.v], with the proofs
    of its laws.  They show that the laws are consistent and give the witnesses
    something to compute with; no theorem about the operator uses them. *)

From S2P Require Import Prelude GoLib GoJson KubeTypes Api Interfaces.

(** ** Conditions *)

Definition ref_touch (now : Z) (old new : Condition) : Condition :=
  {| cond_Type := cond_Type new; cond_Status := cond_Status new;
     cond_ObservedGeneration := cond_ObservedGeneration new;
     cond_LastTransitionTime :=
       if decide (cond_Status old = cond_Status new) then cond_LastTransitionTime old else now;
     cond_Reason := cond_Reason new; cond_Message := cond_Message new |}.

Fixpoint ref_SetStatusCondition (now : Z) (cs : list Condition) (c : Condition) : list Condition :=
  match cs with
  | [] => [ {| cond_Type := cond_Type c; cond_Status := cond_Status c;
               cond_ObservedGeneration := cond_ObservedGeneration c;
               cond_LastTransitionTime := now;
               cond_Reason := cond_Reason c; cond_Message := cond_Message c |} ]
  | x :: cs =>
      if decide (cond_Type x = cond_Type c) then ref_touch now x c :: cs
      else x :: ref_SetStatusCondition now cs c
  end.

Definition ref_conditions : ConditionOps := {| SetStatusCondition := ref_SetStatusCondition |}.
#[local] Existing Instance ref_conditions.

Lemma find_cond_cons t x cs :
  find_cond t (x :: cs) = if decide (cond_Type x = t) then Some x else find_cond t cs.
Proof. unfold find_cond. simpl. case_bool_decide; by case_decide. Qed.

Lemma ref_condition_laws : ConditionLaws.
Proof.
  split; cbn [SetStatusCondition ref_conditions].
  - intros now cs c. induction cs as [|x cs [t IH]]; simpl.
    + exists now. rewrite find_cond_cons. by rewrite decide_True.
    + case_decide.
      * eexists. rewrite find_cond_cons. by rewrite decide_True.
      * exists t. rewrite find_cond_cons. by rewrite decide_False.
  - intros now cs c t Ht. induction cs as [|x cs IH]; simpl.
    + rewrite find_cond_cons. by rewrite decide_False.
    + case_decide; rewrite !find_cond_cons; simpl.
      * rewrite !decide_False; congruence.
      * by rewrite IH.
  - intros now cs c old. induction cs as [|x cs IH]; simpl; [done|].
    rewrite find_cond_cons. case_decide; intros Hf Hs.
    + simplify_eq. rewrite find_cond_cons. rewrite decide_True by done. simpl.
      by rewrite decide_True.
    + rewrite find_cond_cons. rewrite decide_False by done. auto.
  - intros now cs c. induction cs as [|x cs (c'&Ht&Hr&IH)]; simpl.
    + eexists. split; [|split; [|left; split; [done|reflexivity]]]; done.
    + case_decide as Hx; [by exists (ref_touch now x c); split_and!; [..|right; exists [], x, cs; repeat split; try constructor]|].
      exists c'. split_and!; [done..|]. rewrite find_cond_cons, decide_False by done.
      destruct IH as [[Hf ->]|(pre&old&post&->&Hold&Hpre&->)]; [by left|right].
      exists (x :: pre), old, post. split_and!; [done|done|by constructor|done].
Qed.

(** ** Equality *)

Definition ref_derivative (T : Type) `{EqDecision T} : SemanticDerivative T :=
  λ x y, bool_decide (x = y).

Lemma ref_derivative_laws (T : Type) `{EqDecision T} :
  @SemanticDerivativeLaws T (ref_derivative T).
Proof. intros x. by apply bool_decide_eq_true. Qed.

Definition ref_equal (T : Type) `{EqDecision T} : SemanticEqual T :=
  λ x y, bool_decide (x = y).

Lemma ref_equal_laws (T : Type) `{EqDecision T} : @SemanticEqualLaws T (ref_equal T).
Proof. intros x y. apply bool_decide_eq_true. Qed.

(** ** Owners *)

Definition ref_is_controller (r : OwnerReference) : bool :=
  bool_decide (or_Controller r = Some true).

Definition ref_owner_ref (k : Kind) (owner : ObjectMeta) : OwnerReference :=
  {| or_APIVersion := "neon.oltp.molnett.org/v1alpha1"; or_Kind := kind_name k;
     or_Name := om_Name owner; or_UID := om_UID owner; or_Controller := Some true |}.

Definition ref_owners : OwnerOps := {|
  SetControllerReference := λ k owner m,
    if decide (om_Namespace owner = om_Namespace m) then
      match find_first ref_is_controller (om_OwnerReferences m) with
      | Some _ => Err (plain_fault "already owned")
      | None => Ok (om_OwnerReferences m ++ [ref_owner_ref k owner])
      end
    else Err (plain_fault "cross-namespace owner references are disallowed")
|}.
#[local] Existing Instance ref_owners.

Lemma ref_owner_laws : OwnerLaws.
Proof.
  split; cbn [SetControllerReference ref_owners].
  - intros k owner m refs. case_decide; [|done]. case_match; [done|].
    intros [= <-]. exists (ref_owner_ref k owner). split; [set_solver|done].
  - intros k owner m Hm Hn. rewrite decide_True by done. rewrite Hm. simpl. eauto.
Qed.

(** ** Quantities, keys and requests *)

Definition ref_quantities : QuantityOps := λ s,
  match s with
  | String c _ => if is_digit c then Ok (MkQuantity s) else Err (plain_fault "quantities must match the regular expression")
  | EmptyString => Err (plain_fault "quantities must match the regular expression")
  end.

Lemma ref_quantity_laws : @QuantityLaws ref_quantities.
Proof. by eexists. Qed.

Definition ref_crypto : CryptoOps := {|
  MarshalPKCS8PrivateKey := λ k, Ok ("s" +:+ k);
  MarshalPKIXPublicKey := λ k, Ok ("p" +:+ k);
  ParsePKCS8PrivateKey := λ b,
    match b with String "s" k => Ok (KeyEd25519 k) | String "r" _ => Ok KeyOther | _ => Err (plain_fault "asn1: structure error") end;
  ParsePKIXPublicKey := λ b,
    match b with String "p" k => Ok (KeyEd25519 k) | String "r" _ => Ok KeyOther | _ => Err (plain_fault "asn1: structure error") end;
  pem_EncodeToMemory := λ t b, "-" +:+ b;
  pem_Decode := λ s, match s with String "-" b => Some b | _ => None end;
|}%char.
#[local] Existing Instance ref_crypto.

Lemma ref_crypto_laws : CryptoLaws.
Proof. split; cbn; intros; simplify_eq; eauto. Qed.

(** Tokens: the claims themselves, signed by writing them in binary before the key. *)

#[export] Instance claim_countable : Countable claim.
Proof.
  refine (inj_countable'
    (λ c, match c with
          | ClaimString s => inl s | ClaimStrings l => inr (inl l) | ClaimInt z => inr (inr z) end)
    (λ x, match x with
          | inl s => ClaimString s | inr (inl l) => ClaimStrings l | inr (inr z) => ClaimInt z end) _).
  by intros [].
Defined.

Fixpoint ref_bits (p : positive) (rest : string) : string :=
  match p with
  | xH => String "." rest
  | xO p => String "0" (ref_bits p rest)
  | xI p => String "1" (ref_bits p rest)
  end%char.

Fixpoint ref_unbits (s : string) : option (positive * string) :=
  match s with
  | String "." rest => Some (xH, rest)
  | String "0" s => (λ '(p, r), (xO p, r)) <$> ref_unbits s
  | String "1" s => (λ '(p, r), (xI p, r)) <$> ref_unbits s
  | _ => None
  end%char.

Lemma ref_unbits_bits p rest : ref_unbits (ref_bits p rest) = Some (p, rest).
Proof. induction p as [p IH|p IH|]; simpl; by rewrite ?IH. Qed.

Definition ref_jwt : JwtOps := {|
  Token := gmap string claim;
  jwt_New := ∅;
  jwt_Set := λ t k v,
    if claim_fits k v then Ok (<[k := claim_read k v]> t) else Err (plain_fault "invalid value for claim");
  jwt_Sign := λ t priv, Ok (ref_bits (encode t) priv);
  jwt_Parse := λ now s pub,
    match ref_unbits s with
    | Some (p, priv) =>
        if decide (priv = pub) then
          match decode p with
          | Some t => if valid_at now t then Ok t else Err (plain_fault "claim is not satisfied")
          | None => Err (plain_fault "invalid payload")
          end
        else Err (plain_fault "could not verify message")
    | None => Err (plain_fault "invalid token")
    end;
  jwt_claims := λ t, t;
  key_pair := eq;
|}.

Lemma ref_jwt_laws : @JwtLaws ref_jwt.
Proof.
  split; cbn [jwt_New jwt_Set jwt_Sign jwt_Parse jwt_claims key_pair Token ref_jwt].
  - done.
  - intros t k v ->. by eexists.
  - intros now t priv pub s <- _ [= <-].
    rewrite ref_unbits_bits, decide_True, decode_encode by done. case_match; by eexists.
Qed.

Definition ref_http : HttpOps := λ _ _, None.
