(* ===== verification/Prog.v ===== *)
(** * Effects: programs, traces, and what holds in every environment

    A piece of the operator is a [prog]: a tree of calls that leave the program
    (Kubernetes client, HTTP, clock, randomness) with a continuation for every
    answer.  The environment is not modelled: [wp p Q] says that [Q] holds of
    the trace of calls and answers and of the outcome of [p] whatever each call
    answers, so that failures, stale caches and interference by other
    controllers between two calls are all covered.  [exec] runs a program
    against a concrete server, for witnesses and for statements that need a
    state on the other side. *)

From S2P Require Import Prelude GoLib KubeTypes Api.

(** ** Calls and answers *)

Record HttpRequest := {
  rq_Method : string;
  rq_URL : string;
  rq_Headers : list (string * string);
  rq_Body : string;
  rq_TimeoutSeconds : Z;
}.

Record HttpResponse := {
  rs_StatusCode : Z;
  rs_Status : string;
  rs_Body : reply string;   (** what [io.ReadAll(resp.Body)] gives *)
}.

(** An Ed25519 key pair as the byte strings [GenerateKey] returns. *)
Record KeyPair := { kp_public : string; kp_private : string }.

Inductive call :=
  | CGet (k : Kind) (key : NamespacedName)
  | CList (k : Kind) (labels : list (string * string))
  | CCreate (k : Kind) (o : obj k) (fieldManager : option string)
  | CApply (k : Kind) (o : obj k) (force : bool) (fieldManager : string)
      (** [Patch(o, client.Apply)] *)
  | CMergePatch (k : Kind) (base updated : obj k) (fieldManager : string)
      (** [Patch(updated, client.MergeFrom(base))] *)
  | CStatusPatch (k : Kind) (base updated : obj k)
      (** [Status().Patch(updated, MergeFromWithOptimisticLock(base))] *)
  | CHttp (rq : HttpRequest)
  | CRand (n : nat)
  | CGenerateKey
  | CNow.

(** What each call comes back with.  The object returned by a write is what the
    client leaves in the argument. *)
Definition answer (c : call) : Type :=
  match c with
  | CGet k _ => reply (obj k)
  | CList k _ => reply (list (obj k))
  | CCreate k _ _ => reply (obj k)
  | CApply k _ _ _ => reply (obj k)
  | CMergePatch k _ _ _ => reply (obj k)
  | CStatusPatch k _ _ => reply (obj k)
  | CHttp _ => reply HttpResponse
  | CRand _ => string
  | CGenerateKey => reply KeyPair
  | CNow => Z
  end.

(** The same, as the Go caller receives it. *)
Definition received (c : call) : Type :=
  match c with
  | CGet k _ => result (obj k)
  | CList k _ => result (list (obj k))
  | CCreate k _ _ => result (obj k)
  | CApply k _ _ _ => result (obj k)
  | CMergePatch k _ _ _ => result (obj k)
  | CStatusPatch k _ _ => result (obj k)
  | CHttp _ => result HttpResponse
  | CRand _ => string
  | CGenerateKey => result KeyPair
  | CNow => Z
  end.

Definition receive (c : call) : answer c → received c :=
  match c with
  | CGet _ _ => from_env
  | CList _ _ => from_env
  | CCreate _ _ _ => from_env
  | CApply _ _ _ _ => from_env
  | CMergePatch _ _ _ _ => from_env
  | CStatusPatch _ _ _ => from_env
  | CHttp _ => from_env
  | CRand _ => λ s, s
  | CGenerateKey => from_env
  | CNow => λ t, t
  end.

Record event := Ev { ev_call : call; ev_answer : answer ev_call }.
Abbreviation trace := (list event).

(** A call that changes the cluster. *)
Definition is_write (c : call) : bool :=
  match c with
  | CCreate _ _ _ | CApply _ _ _ _ | CMergePatch _ _ _ _ | CStatusPatch _ _ _ => true
  | _ => false
  end.

(** The writes of a trace, in order. *)
Fixpoint writes (tr : trace) : list call :=
  match tr with
  | [] => []
  | e :: tr => if is_write (ev_call e) then ev_call e :: writes tr else writes tr
  end.

Lemma writes_app tr tr' : writes (tr ++ tr') = writes tr ++ writes tr'.
Proof. induction tr as [|e tr IH]; [done|]. simpl. rewrite IH. by destruct (is_write _). Qed.
#[export] Hint Rewrite writes_app : neon.

(** The HTTP requests of a trace, in order. *)
Fixpoint requests (tr : trace) : list HttpRequest :=
  match tr with
  | [] => []
  | e :: tr => match ev_call e with CHttp rq => rq :: requests tr | _ => requests tr end
  end.

Lemma requests_app tr tr' : requests (tr ++ tr') = requests tr ++ requests tr'.
Proof. induction tr as [|[c a] tr IH]; [done|]. simpl. rewrite IH. by destruct c. Qed.
#[export] Hint Rewrite requests_app : neon.

(** ** Programs *)

Inductive prog (A : Type) :=
  | Ret (a : A)
  | Panic (why : string)
  | Vis (c : call) (k : answer c → prog A).
Arguments Ret {A} a.
Arguments Panic {A} why.
Arguments Vis {A} c k.

#[export] Instance prog_ret : MRet prog := @Ret.

Fixpoint prog_bind_def {A B} (f : A → prog B) (p : prog A) : prog B :=
  match p with
  | Ret a => f a
  | Panic w => Panic w
  | Vis c k => Vis c (λ r, prog_bind_def f (k r))
  end.
#[export] Instance prog_bind : MBind prog := @prog_bind_def.

Definition perform (c : call) : prog (received c) := Vis c (λ r, Ret (receive c r)).

Definition lift_outcome {A} (o : outcome A) : prog A :=
  match o with Returned a => Ret a | Panicked w => Panic w end.

(** Typed front ends of the calls. *)
Abbreviation Get k key := (perform (CGet k key)).
Abbreviation List_ k labels := (perform (CList k labels)).
Abbreviation Create k o fm := (perform (CCreate k o fm)).
Abbreviation Apply k o force fm := (perform (CApply k o force fm)).
Abbreviation MergePatch k base updated fm := (perform (CMergePatch k base updated fm)).
Abbreviation StatusPatch k base updated := (perform (CStatusPatch k base updated)).
Abbreviation Http rq := (perform (CHttp rq)).
Abbreviation Rand n := (perform (CRand n)).
Abbreviation GenerateKey := (perform CGenerateKey).
Abbreviation Now := (perform CNow).

(** [if err := p; err != nil { return r }] followed by the rest of the body. *)
Notation "'if_err' e := p 'return' r ; q" :=
  (mbind (λ o : option error, match o with Some e => r | None => q end) p)
  (at level 100, e name, p at level 99, r at level 99, q at level 200, right associativity,
   format "'[v' if_err  e  :=  p  return  r ; '/' q ']'").

(** [x, err := p; if err != nil { return r }] *)
Notation "'let_ok' x := p 'or' e 'return' r ; q" :=
  (mbind (λ o : result _, match o with Ok x => q | Err e => r end) p)
  (at level 100, x name, e name, p at level 99, r at level 99, q at level 200, right associativity,
   format "'[v' let_ok  x  :=  p  or  e  return  r ; '/' q ']'").

(** ** What holds in every environment *)

Fixpoint wp {A} (p : prog A) (Q : trace → outcome A → Prop) : Prop :=
  match p with
  | Ret a => Q [] (Returned a)
  | Panic w => Q [] (Panicked w)
  | Vis c k => ∀ r : answer c, wp (k r) (λ tr o, Q (Ev c r :: tr) o)
  end.

Lemma wp_mono {A} (p : prog A) (P Q : trace → outcome A → Prop) :
  (∀ tr o, P tr o → Q tr o) → wp p P → wp p Q.
Proof.
  revert P Q. induction p as [a|w|c k IH]; intros P Q HPQ; simpl; [auto|auto|].
  intros H r. by eapply IH; [|apply H]; eauto.
Qed.

Lemma wp_and {A} (p : prog A) (P Q : trace → outcome A → Prop) :
  wp p P → wp p Q → wp p (λ tr o, P tr o ∧ Q tr o).
Proof.
  revert P Q. induction p as [a|w|c k IH]; intros P Q; simpl; [auto|auto|].
  intros HP HQ r. apply (IH r (λ tr o, P (Ev c r :: tr) o)); auto.
Qed.

(** The continuation of a panic is not run. *)
Definition wp_seq {A B} (f : A → prog B) (Q : trace → outcome B → Prop)
    (tr : trace) (o : outcome A) : Prop :=
  match o with
  | Returned a => wp (f a) (λ tr' o', Q (tr ++ tr') o')
  | Panicked w => Q tr (Panicked w)
  end.

Lemma wp_bind {A B} (p : prog A) (f : A → prog B) Q :
  wp (p ≫= f) Q ↔ wp p (wp_seq f Q).
Proof.
  revert Q. induction p as [a|w|c k IH]; intros Q; simpl; [done|done|].
  split; intros H r; apply (IH r (λ tr o, Q (Ev c r :: tr) o)), H.
Qed.

Lemma wp_bind_mono {A B} (p : prog A) (f : A → prog B) (P : trace → outcome A → Prop) Q :
  wp p P →
  (∀ tr a, P tr (Returned a) → wp (f a) (λ tr' o, Q (tr ++ tr') o)) →
  (∀ tr w, P tr (Panicked w) → Q tr (Panicked w)) →
  wp (p ≫= f) Q.
Proof.
  intros Hp Hret Hpanic. apply wp_bind. eapply wp_mono; [|exact Hp].
  intros tr [a|w]; simpl; auto.
Qed.

(** One rule per shape of the next step. *)
Lemma wp_ret {A} (a : A) Q : Q [] (Returned a) → wp (Ret a) Q.
Proof. done. Qed.
Lemma wp_panic {A} w (Q : trace → outcome A → Prop) : Q [] (Panicked w) → wp (Panic w) Q.
Proof. done. Qed.
Lemma wp_perform c (Q : trace → outcome (received c) → Prop) :
  (∀ r, Q [Ev c r] (Returned (receive c r))) → wp (perform c) Q.
Proof. done. Qed.
Lemma wp_bind_ret {A B} (a : A) (f : A → prog B) Q : wp (f a) Q → wp (Ret a ≫= f) Q.
Proof. done. Qed.
Lemma wp_bind_panic {A B} w (f : A → prog B) (Q : trace → outcome B → Prop) :
  Q [] (Panicked w) → wp (Panic w ≫= f) Q.
Proof. done. Qed.
Lemma wp_bind_perform {B} c (f : received c → prog B) Q :
  (∀ r, wp (f (receive c r)) (λ tr o, Q (Ev c r :: tr) o)) → wp (perform c ≫= f) Q.
Proof. done. Qed.
Lemma wp_bind_assoc {A B C} (p : prog A) (f : A → prog B) (g : B → prog C) Q :
  wp (p ≫= λ a, f a ≫= g) Q → wp ((p ≫= f) ≫= g) Q.
Proof.
  revert Q. induction p as [a|w|c k IH]; intros Q; [done|done|].
  intros H r. apply (IH r (λ tr o, Q (Ev c r :: tr) o)), H.
Qed.

(** What is assumed may be assumed of the program. *)
Lemma wp_assume {A} (P : Prop) (p : prog A) (Q : trace → outcome A → Prop) :
  (P → wp p Q) → wp p (λ tr out, P → Q tr out).
Proof.
  revert Q. induction p as [a|w|c k IH]; intros Q H; [exact H|exact H|].
  intros r. apply IH. intros HP. by apply H.
Qed.

Lemma wp_true {A} (p : prog A) : wp p (λ _ _, True).
Proof. induction p; simpl; auto. Qed.

#[export] Instance wp_proper {A} (p : prog A) :
  Proper (pointwise_relation _ (pointwise_relation _ impl) ==> impl) (wp p).
Proof. intros P Q HPQ H. eapply wp_mono; [apply HPQ|exact H]. Qed.

(** ** Running a program against a server *)

Record server (S : Type) := Server {
  handle : S → ∀ c : call, S * answer c;
}.
Arguments handle {S} _ _ _.
Arguments Server {S} _.

Fixpoint exec {S A} (h : server S) (s : S) (p : prog A) : S * trace * outcome A :=
  match p with
  | Ret a => (s, [], Returned a)
  | Panic w => (s, [], Panicked w)
  | Vis c k =>
      let '(s1, r) := handle h s c in
      let '(s2, tr, o) := exec h s1 (k r) in
      (s2, Ev c r :: tr, o)
  end.

(** What holds in every environment holds of every run. *)
Lemma wp_exec {S A} (h : server S) (s : S) (p : prog A) Q :
  wp p Q → let '(_, tr, o) := exec h s p in Q tr o.
Proof.
  revert s Q. induction p as [a|w|c k IH]; intros s Q H; simpl in *; [done|done|].
  destruct (handle h s c) as [s1 r]. specialize (IH r s1 _ (H r)).
  by destruct (exec h s1 (k r)) as [[s2 tr] o].
Qed.

Lemma exec_bind {S A B} (h : server S) (s : S) (p : prog A) (f : A → prog B) :
  exec h s (p ≫= f) =
  (let '(s1, tr, o) := exec h s p in
   match o with
   | Returned a => let '(s2, tr', o') := exec h s1 (f a) in (s2, tr ++ tr', o')
   | Panicked w => (s1, tr, Panicked w)
   end).
Proof.
  revert s. induction p as [a|w|c k IH]; intros s; simpl.
  - by destruct (exec h s (f a)) as [[s2 tr'] o'].
  - done.
  - destruct (handle h s c) as [s1 r]. change (prog_bind_def f (k r)) with (k r ≫= f).
    rewrite IH. destruct (exec h s1 (k r)) as [[s2 tr] [a|w]]; [|done].
    by destruct (exec h s2 (f a)) as [[s3 tr'] o'].
Qed.

(** ** Proof steps *)

(** One step of the program in the goal. *)
Ltac wp_one :=
  lazymatch goal with
  | |- wp (mbind _ (mbind _ _)) _ => apply wp_bind_assoc
  | |- wp (mbind _ (Ret _)) _ => apply wp_bind_ret
  | |- wp (mbind _ (Panic _)) _ => apply wp_bind_panic
  | |- wp (mbind _ (perform _)) _ => apply wp_bind_perform; intro
  | |- wp (Ret _) _ => apply wp_ret
  | |- wp (Panic _) _ => apply wp_panic
  | |- wp (perform _) _ => apply wp_perform; intro
  | |- wp (lift_outcome (Returned _)) _ => apply wp_ret
  | |- wp (lift_outcome (Panicked _)) _ => apply wp_panic
  | |- wp (mbind _ (lift_outcome (Returned _))) _ => apply wp_bind_ret
  | |- wp (mbind _ (lift_outcome (Panicked _))) _ => apply wp_bind_panic
  end; cbv beta.

(** All the steps up to and including the next call. *)
Ltac wp_call r :=
  cbn [receive from_env];
  lazymatch goal with
  | |- wp (mbind _ (perform _)) _ => apply wp_bind_perform; intros r; cbv beta; cbn [receive]
  | |- wp (perform _) _ => apply wp_perform; intros r; cbv beta; cbn [receive]
  | |- _ => wp_one; wp_call r
  end.

(** All the steps that are not calls. *)
Ltac wp_steps :=
  cbn [receive from_env];
  repeat (lazymatch goal with
  | |- wp (mbind _ (perform _)) _ => fail
  | |- wp (perform _) _ => fail
  | |- wp _ _ => wp_one
  end; cbn [receive from_env]).

(** Use a lemma about the first program of a sequence. *)
Ltac wp_use H :=
  cbn [receive from_env];
  lazymatch goal with
  | |- wp (mbind _ (mbind _ _)) _ => apply wp_bind_assoc; cbv beta; wp_use H
  | |- wp (mbind _ (Ret _)) _ => apply wp_bind_ret; cbv beta; wp_use H
  | |- wp (mbind _ _) _ => eapply wp_bind_mono; [eapply H| |]; cbv beta
  | |- wp _ _ => eapply wp_mono; [|eapply H]; cbv beta
  end.

(** Compute the writes and requests of a trace, using what is known of its parts. *)
Ltac trace_simpl :=
  repeat first
    [ progress cbn [writes requests is_write ev_call app]
    | rewrite writes_app | rewrite requests_app
    | match goal with
      | H : writes ?tr = _ |- context [writes ?tr] => rewrite H
      | H : requests ?tr = _ |- context [requests ?tr] => rewrite H
      end
    | rewrite app_nil_r ].
