(* ===== verification/Calls.v ===== *)
(** * The calls of a program: guarantees and reliances

    [rg R G p Q] says of a program that every call it makes satisfies the guarantee [G]
    and every result it returns satisfies [Q], as long as every answer it gets satisfies
    the reliance [R].  Each call is judged by itself, so what is proved of a program
    this way holds of it in any company (Concurrency.v).  [calls_only] is the case
    without reliance or result. *)

From S2P Require Import Prelude GoLib KubeTypes Api Prog.

Section rg.
Context (R : ∀ c, answer c → Prop) (G : call → Prop).

Fixpoint rg {A} (p : prog A) (Q : A → Prop) : Prop :=
  match p with
  | Ret a => Q a
  | Panic _ => True
  | Vis c k => G c ∧ ∀ r : answer c, R c r → rg (k r) Q
  end.

Lemma rg_mono {A} (p : prog A) (P Q : A → Prop) : (∀ a, P a → Q a) → rg p P → rg p Q.
Proof.
  intros HPQ. induction p as [a|w|c k IH]; simpl; [auto|done|].
  intros [Hc Hk]. split; [done|]. intros r Hr. by apply IH, Hk.
Qed.

Lemma rg_bind {A B} (p : prog A) (f : A → prog B) (P : A → Prop) Q :
  rg p P → (∀ a, P a → rg (f a) Q) → rg (p ≫= f) Q.
Proof.
  intros Hp Hf. induction p as [a|w|c k IH]; [by apply Hf|done|].
  destruct Hp as [Hc Hk]. split; [done|]. intros r Hr. by apply IH, Hk.
Qed.
Lemma rg_ret {A} (a : A) (Q : A → Prop) : Q a → rg (Ret a) Q.
Proof. done. Qed.
Lemma rg_panic {A} w (Q : A → Prop) : rg (Panic w) Q.
Proof. done. Qed.
Lemma rg_perform c (Q : received c → Prop) :
  G c → (∀ r, R c r → Q (receive c r)) → rg (perform c) Q.
Proof. by split. Qed.
Lemma rg_lift {A} (o : outcome A) (Q : A → Prop) : (∀ a, o = Returned a → Q a) → rg (lift_outcome o) Q.
Proof. destruct o as [a|w]; [|done]. intros H. by apply H. Qed.
Lemma rg_bind_assoc {A B C} (p : prog A) (f : A → prog B) (g : B → prog C) Q :
  rg (p ≫= λ a, f a ≫= g) Q → rg ((p ≫= f) ≫= g) Q.
Proof.
  induction p as [a|w|c k IH]; [done|done|]. intros [Hc Hk]. split; [done|].
  intros r Hr. by apply IH, Hk.
Qed.
Lemma rg_bind_perform {B} c (f : received c → prog B) Q :
  G c → (∀ r, R c r → rg (f (receive c r)) Q) → rg (perform c ≫= f) Q.
Proof. by split. Qed.
Lemma rg_bind_lift {A B} (o : outcome A) (f : A → prog B) Q :
  (∀ a, o = Returned a → rg (f a) Q) → rg (lift_outcome o ≫= f) Q.
Proof. destruct o as [a|w]; [|done]. intros H. by apply H. Qed.
End rg.

(** Weaker guarantees, stronger reliance. *)
Lemma rg_impl (R R' : ∀ c, answer c → Prop) (G G' : call → Prop) {A} (p : prog A) Q :
  (∀ c, G c → G' c) → (∀ c r, R' c r → R c r) → rg R G p Q → rg R' G' p Q.
Proof.
  intros HG HR. induction p as [a|w|c k IH]; [done|done|]. intros [Hc Hk].
  split; [by apply HG|]. intros r Hr. by apply IH, Hk, HR.
Qed.

#[export] Instance rg_proper R G {A} (p : prog A) :
  Proper (pointwise_relation _ impl ==> impl) (rg R G p).
Proof. intros P Q HPQ H. eapply rg_mono; [apply HPQ|exact H]. Qed.

(** The calls alone, whatever is answered. *)
Abbreviation calls_only P p := (rg (λ _ _, True) P p (λ _, True)).

Section calls_only.
Context (P : call → Prop).

Lemma calls_only_bind {A B} (p : prog A) (f : A → prog B) :
  calls_only P p → (∀ a, calls_only P (f a)) → calls_only P (p ≫= f).
Proof. intros Hp Hf. by eapply rg_bind. Qed.
Lemma calls_only_perform c : P c → calls_only P (perform c).
Proof. by split. Qed.

Lemma calls_only_wp {A} (p : prog A) :
  calls_only P p → wp p (λ tr _, Forall (λ e, P (ev_call e)) tr).
Proof.
  induction p as [a|w|c k IH]; simpl; [constructor|constructor|].
  intros [Hc Hk] r. eapply wp_mono; [|by apply IH, Hk]. by constructor.
Qed.
End calls_only.

(** Walk through a program, up to the calls it makes and the programs it uses. *)
Ltac calls_step :=
  lazymatch goal with
  | |- calls_only _ (mbind _ (lift_outcome _)) => apply rg_bind_lift; intros ? ?
  | |- calls_only _ (mbind _ _) => apply calls_only_bind; [|intros ?]
  | |- calls_only _ (Ret _) => exact I
  | |- calls_only _ (mret _) => exact I
  | |- calls_only _ (Panic _) => exact I
  | |- calls_only _ (lift_outcome _) => by apply rg_lift
  | |- calls_only _ (perform _) => apply calls_only_perform
  | |- calls_only _ (match ?x with _ => _ end) => destruct x eqn:?
  | |- calls_only _ (let _ := _ in _) => cbv zeta
  end.
Ltac walk := repeat (calls_step; cbv beta).
