(* ===== verification/Concurrency.v ===== *)
(** * Many programs over one server

    The five controllers and the handlers of the control plane run at the same time, and
    so do the users of the cluster.  [pool_step] interleaves them call by call, in any
    order: a call of one program, a new program that begins, a change by somebody else.
    A state of the server that every call keeps, under what each program guarantees
    while it relies on the answers such a state gives, holds for ever. *)

From S2P Require Import Prelude GoLib KubeTypes Api Prog Calls.
From stdpp Require Import relations.

(** A program under way, of any result type. *)
Inductive thread : Type :=
  | Thread {A : Type} (p : prog A).

Definition guarded (R : ∀ c, answer c → Prop) (G : call → Prop) (t : thread) : Prop :=
  match t with Thread p => rg R G p (λ _, True) end.

Section pool.
Context {S : Type} (h : server S).
Context (entry : thread → Prop) (external : S → S → Prop).

Record pool := Pool { pl_state : S; pl_threads : list thread }.

Inductive pool_step : pool → pool → Prop :=
  | pool_call s s' A c (k : answer c → prog A) r pre post :
      handle h s c = (s', r) →
      pool_step (Pool s (pre ++ Thread (Vis c k) :: post)) (Pool s' (pre ++ Thread (k r) :: post))
  | pool_begin s t ts : entry t → pool_step (Pool s ts) (Pool s (t :: ts))
  | pool_external s s' ts : external s s' → pool_step (Pool s ts) (Pool s' ts).

(** A program of the pool may run to its end without an interruption. *)
Lemma pool_exec {A} (p : prog A) : ∀ s ts,
  ∃ t, rtc pool_step (Pool s (Thread p :: ts)) (Pool (exec h s p).1.1 (t :: ts)).
Proof.
  induction p as [a|w|c k IH]; intros s ts; cbn [exec]; [by exists (Thread (Ret a))|by exists (Thread (Panic (A := A) w))|].
  destruct (handle h s c) as [s1 r] eqn:Hh. destruct (IH r s1 ts) as [t Ht].
  exists t. destruct (exec h s1 (k r)) as [[s2 tr] o]. cbn [fst] in *.
  eapply rtc_l; [|exact Ht]. apply (pool_call s s1 A c k r [] ts Hh).
Qed.

Lemma pool_runs {A} (p : prog A) s : entry (Thread p) →
  ∃ ts, rtc pool_step (Pool s []) (Pool (exec h s p).1.1 ts).
Proof.
  intros He. destruct (pool_exec p s []) as [t Ht]. exists [t].
  eapply rtc_l; [by apply pool_begin|exact Ht].
Qed.

(** *** Executable schedules

    The next call of one program, and of the programs of a pool in a given order. *)
Definition first_call {A} (s : S) (p : prog A) : S * prog A :=
  match p with
  | Vis c k => let '(s', r) := handle h s c in (s', k r)
  | _ => (s, p)
  end.

Definition thread_call (s : S) (t : thread) : S * thread :=
  match t with Thread p => let '(s', p') := first_call s p in (s', Thread p') end.

Definition call_of (i : nat) (x : pool) : pool :=
  match pl_threads x !! i with
  | Some t => let '(s', t') := thread_call (pl_state x) t in Pool s' (<[i := t']> (pl_threads x))
  | None => x
  end.

Definition run_schedule (schedule : list nat) (x : pool) : pool := foldl (λ x i, call_of i x) x schedule.

Lemma pool_thread_call s t pre post :
  rtc pool_step (Pool s (pre ++ t :: post))
    (Pool (thread_call s t).1 (pre ++ (thread_call s t).2 :: post)).
Proof.
  destruct t as [A [a|w|c k]]; [done|done|]. cbn [thread_call first_call].
  destruct (handle h s c) as [s' r] eqn:Hh. by apply rtc_once, pool_call.
Qed.

Lemma call_of_steps i x : rtc pool_step x (call_of i x).
Proof.
  destruct x as [s ts]. unfold call_of. cbn [pl_threads pl_state].
  destruct (ts !! i) as [t|] eqn:Ht; [|done].
  pose proof (pool_thread_call s t (take i ts) (drop (Datatypes.S i) ts)) as Hstep.
  rewrite (take_drop_middle ts i t Ht) in Hstep. destruct (thread_call s t) as [s' t'].
  cbn [fst snd] in Hstep. by rewrite insert_take_drop by (by eapply lookup_lt_Some).
Qed.

Lemma run_schedule_steps schedule x : rtc pool_step x (run_schedule schedule x).
Proof.
  revert x. induction schedule as [|i schedule IH]; intros x; cbn [run_schedule foldl]; [done|].
  etrans; [apply call_of_steps|apply IH].
Qed.

Context (Inv : S → Prop) (R : ∀ c, answer c → Prop) (G : call → Prop).

(** What a call of a program that keeps its guarantee does to the invariant. *)
Definition kept : Prop :=
  ∀ s c s' r, Inv s → G c → handle h s c = (s', r) → Inv s' ∧ R c r.

Definition pool_inv (x : pool) : Prop :=
  Inv (pl_state x) ∧ Forall (guarded R G) (pl_threads x).

Lemma pool_inv_step x y :
  kept → (∀ t, entry t → guarded R G t) → (∀ s s', Inv s → external s s' → Inv s') →
  pool_inv x → pool_step x y → pool_inv y.
Proof.
  intros Hkept Hentry Hext [Hs Hts] Hstep. destruct Hstep as [s s' A c k r pre post Hh|s t ts Ht|s s' ts He];
    unfold pool_inv in *; cbn [pl_state pl_threads] in *.
  - apply Forall_app in Hts as [Hpre [[Hc Hk] Hpost]%Forall_cons].
    destruct (Hkept s c s' r Hs Hc Hh) as [Hs' Hr]. split; [done|].
    apply Forall_app. split; [done|]. constructor; [by apply Hk|done].
  - split; [done|]. constructor; auto.
  - split; [by eapply Hext|done].
Qed.

(** Reachable states. *)
Lemma pool_inv_rtc x y :
  kept → (∀ t, entry t → guarded R G t) → (∀ s s', Inv s → external s s' → Inv s') →
  pool_inv x → rtc pool_step x y → pool_inv y.
Proof.
  intros Hkept Hentry Hext Hx Hrun. revert Hx.
  induction Hrun as [x|x1 x2 x3 Hstep _ IH]; [done|]. intros Hx. apply IH. by eapply pool_inv_step.
Qed.

Lemma pool_inv_reachable s y :
  kept → (∀ t, entry t → guarded R G t) → (∀ s s', Inv s → external s s' → Inv s') →
  Inv s → rtc pool_step (Pool s []) y → Inv (pl_state y).
Proof.
  intros Hkept Hentry Hext Hs Hrun. eapply (pool_inv_rtc (Pool s []) y); [done..| |done]. by split.
Qed.
End pool.
