(* ===== verification/Server.v ===== *)
(** * An in-memory environment

    A small API server, storage controller and clock to run programs against with
    [exec].  It is not a model of Kubernetes: it is one environment among those
    [wp] quantifies over, and gives the witnesses concrete runs. *)

From S2P Require Import Prelude GoLib KubeTypes Api Interfaces Reference Prog.

Record item := Item { it_kind : Kind; it_obj : obj it_kind }.

Record world := World {
  w_items : list item;
  w_clock : Z;
  w_http : HttpRequest → reply HttpResponse;
}.

(** An item as an object of a given kind. *)
Definition as_kind (k : Kind) (i : item) : option (obj k) :=
  match decide (it_kind i = k) with
  | left H => Some (eq_rect _ obj (it_obj i) k H)
  | right _ => None
  end.

Fixpoint find_item (k : Kind) (key : NamespacedName) (l : list item) : option (obj k) :=
  match l with
  | [] => None
  | i :: l =>
      match as_kind k i with
      | Some o => if decide (key_of (meta o) = key) then Some o else find_item k key l
      | None => find_item k key l
      end
  end.

Fixpoint put_item (k : Kind) (o : obj k) (l : list item) : list item :=
  match l with
  | [] => [Item k o]
  | i :: l =>
      match as_kind k i with
      | Some x => if decide (key_of (meta x) = key_of (meta o)) then Item k o :: l else i :: put_item k o l
      | None => i :: put_item k o l
      end
  end.

Definition list_items (k : Kind) (labels : list (string * string)) (l : list item) : list (obj k) :=
  filter (λ o, Forall (λ kv, om_Labels (meta o) !! kv.1 = Some kv.2) labels) (omap (as_kind k) l).

Definition put (w : world) (k : Kind) (o : obj k) : world :=
  World (put_item k o (w_items w)) (w_clock w) (w_http w).

Definition tick (w : world) : world := World (w_items w) (w_clock w + 1) (w_http w).

(** Reads find what was written, a second creation of the same key is refused, a
    status patch is refused when the object has moved on. *)
Definition world_handle (w : world) (c : call) : world * answer c :=
  match c return world * answer c with
  | CGet k key =>
      (w, match find_item k key (w_items w) with
          | Some o => Ok o | None => Err (not_found_fault "not found") end)
  | CList k labels => (w, Ok (list_items k labels (w_items w)))
  | CCreate k o _ =>
      match find_item k (key_of (meta o)) (w_items w) with
      | Some _ => (w, Err (plain_fault "already exists"))
      | None => (put w k o, Ok o)
      end
  | CApply k o _ _ => (put w k o, Ok o)
  | CMergePatch k base o _ =>
      match find_item k (key_of (meta o)) (w_items w) with
      | Some cur => (put w k (merge_patch base o cur), Ok (merge_patch base o cur))
      | None => (w, Err (not_found_fault "not found"))
      end
  | CStatusPatch k base o =>
      match find_item k (key_of (meta o)) (w_items w) with
      | Some cur =>
          if decide (om_ResourceVersion (meta cur) = om_ResourceVersion (meta base))
          then (put w k (with_status_of cur o), Ok (with_status_of cur o)) else (w, Err (plain_fault "conflict"))
      | None => (w, Err (not_found_fault "not found"))
      end
  | CHttp rq => (w, w_http w rq)
  | CRand n => (tick w, fill_buffer n (fmt_d (w_clock w)))
  | CGenerateKey => (tick w, let key := "key-" +:+ fmt_d (w_clock w) in Ok {| kp_public := key; kp_private := key |})
  | CNow => (tick w, w_clock w)
  end.

Definition world_server : server world := Server world_handle.

(** A storage controller that answers every request with one status code. *)
Definition http_status (code : Z) (status : string) : HttpRequest → reply HttpResponse :=
  λ _, Ok {| rs_StatusCode := code; rs_Status := status; rs_Body := Ok "" |}.

(** The trace and the outcome of a run. *)
Definition run {A} (w : world) (p : prog A) : trace * outcome A :=
  let '(_, tr, out) := exec world_server w p in (tr, out).

Lemma run_wp {A} (w : world) (p : prog A) Q : wp p Q → Q (run w p).1 (run w p).2.
Proof.
  intros H. pose proof (wp_exec world_server w p Q H) as He. unfold run.
  by destruct (exec world_server w p) as [[w' tr] out].
Qed.

(** The world after a run, to run something else in. *)
Definition after {A} (w : world) (p : prog A) : world := (exec world_server w p).1.1.

(** ** Sample objects *)

Module Samples.

Definition named (name : string) : ObjectMeta :=
  {| om_Name := name; om_Namespace := "neon"; om_UID := "uid-" +:+ name; om_Generation := 3;
     om_ResourceVersion := "7"; om_Labels := ∅; om_Annotations := ∅; om_OwnerReferences := [];
     om_ManagedFields := ["kubectl"] |}.

Definition fresh : Status := {| st_ObservedGeneration := 0; st_Conditions := [] |}.

Definition cr (kind : string) : TypeMeta :=
  {| tm_APIVersion := "neon.oltp.molnett.org/v1alpha1"; tm_Kind := kind |}.

Definition cluster : Cluster :=
  {| cl_Type := cr "Cluster"; cl_Meta := named "prod";
     cl_Spec := {| cls_NumSafekeepers := 3; cls_DefaultPGVersion := 17; cls_NeonImage := "neon:1";
                   cls_BucketCredentialsSecret := Some {| sr_Name := "bucket"; sr_Namespace := "neon" |};
                   cls_StorageControllerDatabaseSecret := Some {| sks_Name := "db"; sks_Key := "uri" |} |};
     cl_Status := fresh |}.

Definition project_with (tenantID : string) : Project :=
  {| pr_Type := cr "Project"; pr_Meta := named "shop";
     pr_Spec := {| prs_ClusterName := "prod"; prs_TenantID := tenantID; prs_PGVersion := 17 |};
     pr_Status := fresh |}.

Definition branch_with (timelineID : string) : Branch :=
  {| br_Type := cr "Branch"; br_Meta := named "main";
     br_Spec := {| brs_TimelineID := timelineID; brs_PGVersion := 17; brs_ProjectID := "shop" |};
     br_Status := fresh |}.

Definition storage (size : string) : StorageConfig :=
  {| stc_StorageClass := None; stc_Size := size |}.

Definition pageserver : Pageserver :=
  {| pgs_Type := cr "Pageserver"; pgs_Meta := named "ps-1";
     pgs_Spec := {| pss_ID := 1; pss_Cluster := "prod";
                    pss_BucketCredentialsSecret := Some {| sr_Name := "bucket"; sr_Namespace := "neon" |};
                    pss_StorageConfig := storage "10Gi" |};
     pgs_Status := fresh |}.

Definition safekeeper_with (size : string) : Safekeeper :=
  {| sk_Type := cr "Safekeeper"; sk_Meta := named "sk-1";
     sk_Spec := {| sfs_ID := 1; sfs_Cluster := "prod"; sfs_StorageConfig := storage size |};
     sk_Status := fresh |}.

Definition bucket : Secret :=
  {| sec_Meta := named "bucket";
     sec_Data := {[ "BUCKET_NAME" := "pages"; "AWS_REGION" := "eu"; "AWS_ENDPOINT_URL" := "http://s3" ]} |}.

(** A namespace with one of each, nothing reconciled yet. *)
Definition items : list item :=
  [ Item KCluster cluster; Item KProject (project_with "0badcafe"); Item KBranch (branch_with "0badbeef");
    Item KPageserver pageserver; Item KSafekeeper (safekeeper_with "10Gi"); Item KSecret bucket ].

Definition start : world := World items 1000 (http_status 200 "200 OK").

Definition request (name : string) : NamespacedName := {| nn_Namespace := "neon"; nn_Name := name |}.

End Samples.

(** ** Reference instances, for the examples of each component *)

Module RefInstances.
#[export] Existing Instance ref_conditions.
#[export] Existing Instance ref_condition_laws.
#[export] Existing Instance ref_owners.
#[export] Existing Instance ref_owner_laws.
#[export] Existing Instance ref_quantities.
#[export] Existing Instance ref_quantity_laws.
#[export] Existing Instance ref_crypto.
#[export] Existing Instance ref_crypto_laws.
#[export] Existing Instance ref_jwt.
#[export] Existing Instance ref_jwt_laws.
#[export] Existing Instance ref_http.
#[export] Instance status_equal : SemanticEqual Status := ref_equal Status.
#[export] Instance deployment_derivative : SemanticDerivative DeploymentSpec := ref_derivative _.
#[export] Instance statefulset_derivative : SemanticDerivative StatefulSetSpec := ref_derivative _.
#[export] Instance service_derivative : SemanticDerivative ServiceSpec := ref_derivative _.
#[export] Instance smap_derivative : SemanticDerivative smap := ref_derivative _.
End RefInstances.
