(* ===== verification/Ids.v ===== *)
(** * Identifiers: utils/ids.go

    [GenerateNeonID] draws 16 random bytes and prints them in hexadecimal; tenant
    and timeline identifiers are made this way. *)

From S2P Require Import Prelude GoLib KubeTypes Api Interfaces Reference Prog.

Definition GenerateNeonID : prog string :=
  s ← Rand 16;
  let bytes := fill_buffer 16 s in
  Ret (hex_EncodeToString bytes).

(** What the comment promises: a 32 character hexadecimal string. *)
Definition neon_id (s : string) : Prop :=
  String.length s = 32%nat ∧ string_all is_lower_hex s = true.

Lemma neon_id_nonempty s : neon_id s → s ≠ "".
Proof. by intros [Hl _] ->. Qed.

(** The exact behaviour, used by the callers: one call, then the printed buffer. *)
Lemma wp_GenerateNeonID (Q : trace → outcome string → Prop) :
  (∀ s, neon_id (hex_EncodeToString (fill_buffer 16 s)) →
    Q [Ev (CRand 16) s] (Returned (hex_EncodeToString (fill_buffer 16 s)))) →
  wp GenerateNeonID Q.
Proof.
  intros H s. apply (H s). split.
  - by rewrite hex_encode_length, fill_buffer_length.
  - apply hex_encode_lower.
Qed.

(** Two full reads of the random source give the same identifier only if they
    gave the same bytes. *)
Lemma neon_id_bytes_inj (s t : string) :
  String.length s = 16%nat → String.length t = 16%nat →
  hex_EncodeToString (fill_buffer 16 s) = hex_EncodeToString (fill_buffer 16 t) → s = t.
Proof.
  intros Hs Ht H%hex_encode_inj. revert H. rewrite <-Hs at 1. rewrite <-Ht.
  by rewrite !fill_buffer_exact.
Qed.

(** C39. [GenerateNeonID] never fails, and in every environment returns a string of
    exactly 32 lower-case hexadecimal digits that determines the 16 random bytes:
    decoding it gives them back. *)
Theorem GenerateNeonID_hex32 :
  wp GenerateNeonID (λ tr o, ∃ s id,
    tr = [Ev (CRand 16) s] ∧ o = Returned id ∧ neon_id id ∧
    hex_DecodeString id = Ok (fill_buffer 16 s)).
Proof.
  apply wp_GenerateNeonID. intros s Hid. do 2 eexists.
  split_and!; [done|done|done|]. apply hex_decode_encode.
Qed.
