(* ===== verification/Jwt.v ===== *)
(** * Signing keys: utils/jwtmanager.go

    A [JWTManager] is an Ed25519 key pair read from a secret.  Keys travel from
    the cluster controller, which generates them, through the secret to the
    compute specification, which publishes the public half as a JWK. *)

From S2P Require Import Prelude GoLib GoJson KubeTypes Api Interfaces Reference Prog Server.

Record JWTManager := {
  privateKey : string;
  publicKey : string;
}.

Record JWK := {
  jwk_Use : string;
  jwk_KeyOps : list string;
  jwk_Alg : string;
  jwk_Kid : string;
  jwk_Kty : string;
  jwk_Crv : string;
  jwk_X : string;
}.

Record JWKResponse := { Keys : list JWK }.

Definition JWK_json (k : JWK) : json :=
  JObj [("use", JStr (jwk_Use k)); ("key_ops", JArr (map JStr (jwk_KeyOps k)));
        ("alg", JStr (jwk_Alg k)); ("kid", JStr (jwk_Kid k)); ("kty", JStr (jwk_Kty k));
        ("crv", JStr (jwk_Crv k)); ("x", JStr (jwk_X k))].

Definition JWKResponse_json (r : JWKResponse) : json :=
  JObj [("keys", JArr (map JWK_json (Keys r)))].

Section manager.
Context `{CryptoOps}.

Definition NewJWTManagerFromSecret (secret : Secret) : result JWTManager :=
  match sec_Data secret !! "private.pem" with
  | None => Err (Errorf "private.pem not found in secret")
  | Some privKeyPEM =>
  match sec_Data secret !! "public.pem" with
  | None => Err (Errorf "public.pem not found in secret")
  | Some pubKeyPEM =>
  match pem_Decode privKeyPEM with
  | None => Err (Errorf "failed to decode private key PEM")
  | Some privBlock =>
  match ParsePKCS8PrivateKey privBlock with
  | Err err => Err (Wrapf "failed to parse private key" (Foreign err))
  | Ok KeyOther => Err (Errorf "private key is not Ed25519")
  | Ok (KeyEd25519 priv) =>
  match pem_Decode pubKeyPEM with
  | None => Err (Errorf "failed to decode public key PEM")
  | Some pubBlock =>
  match ParsePKIXPublicKey pubBlock with
  | Err err => Err (Wrapf "failed to parse public key" (Foreign err))
  | Ok KeyOther => Err (Errorf "public key is not Ed25519")
  | Ok (KeyEd25519 pub) => Ok {| privateKey := priv; publicKey := pub |}
  end end end end end end.

Definition ToJWK (jm : JWTManager) : JWK :=
  {| jwk_Use := "sig"; jwk_KeyOps := ["verify"]; jwk_Alg := "EdDSA"; jwk_Kid := "neon-operator";
     jwk_Kty := "OKP"; jwk_Crv := "Ed25519"; jwk_X := base64_RawURLEncode (publicKey jm) |}.

(** Every failure to read a manager is made on the spot or comes from a parser. *)
Lemma NewJWTManagerFromSecret_unmarked secret e :
  NewJWTManagerFromSecret secret = Err e → unmarked e.
Proof.
  unfold NewJWTManagerFromSecret. intros He. repeat case_match; simplify_eq; auto with neon.
Qed.

(** ** Tokens *)

Section token.
Context `{JwtOps}.

(** [for key, value := range claims]: [claims] lists the map in the order the
    iteration happens to take. *)
Fixpoint set_claims (token : Token) (claims : list (string * claim)) : result Token :=
  match claims with
  | [] => Ok token
  | (key, value) :: claims =>
      match jwt_Set token key value with
      | Err err => Err (Wrapf ("failed to set claim " +:+ key) (Foreign err))
      | Ok token => set_claims token claims
      end
  end.

Definition GenerateToken (jm : JWTManager) (claims : list (string * claim)) : result string :=
  match set_claims jwt_New claims with
  | Err err => Err err
  | Ok token =>
      match jwt_Sign token (privateKey jm) with
      | Err err => Err (Wrapf "failed to sign token" (Foreign err))
      | Ok signed => Ok signed
      end
  end.

(** [jwt.Parse] reads the clock to validate the token. *)
Definition VerifyToken (jm : JWTManager) (tokenString : string) : prog (result Token) :=
  now ← Now;
  Ret (from_env (jwt_Parse now tokenString (publicKey jm))).

(** *** What the claims set on a token become *)

Definition fitting (claims : list (string * claim)) : Prop := Forall (λ kv, claim_fits kv.1 kv.2 = true) claims.

Definition add_claim (m : gmap string claim) (kv : string * claim) : gmap string claim :=
  <[kv.1 := claim_read kv.1 kv.2]> m.

(** Claims that fit are all accepted, one after the other. *)
Lemma set_claims_map `{!JwtLaws} token claims :
  fitting claims →
  ∃ token', set_claims token claims = Ok token' ∧
    jwt_claims token' = foldl add_claim (jwt_claims token) claims.
Proof.
  intros Hfit. revert token. induction Hfit as [|[k v] claims Hkv _ IH]; intros token; [by exists token|].
  cbn [set_claims foldl fst snd] in *. destruct (claims_set token k v Hkv) as (t&->&Ht).
  destruct (IH t) as (t'&->&Ht'). exists t'. split; [done|]. by rewrite Ht', Ht.
Qed.

Lemma claim_fits_read k v : claim_fits k v = true → claim_fits k (claim_read k v) = true.
Proof.
  intros Hfit. destruct v as [s| |]; cbn [claim_read]; [|exact Hfit..].
  case_decide as Hk; [|exact Hfit]. subst k.
  unfold claim_fits in *. cbn [forallb]. rewrite andb_true_r, !andb_true_iff in *. tauto.
Qed.

(** What a reader sees of distinct claims, whatever the order they were set in. *)
Definition shows (claims : list (string * claim)) (m : gmap string claim) : Prop :=
  ∀ k v, m !! k = Some v ↔ ∃ v0, (k, v0) ∈ claims ∧ v = claim_read k v0.

Lemma add_claims_notin claims m k : k ∉ claims.*1 → foldl add_claim m claims !! k = m !! k.
Proof.
  revert m. induction claims as [|[k' v'] claims IH]; intros m Hk; [done|].
  rewrite fmap_cons, not_elem_of_cons in Hk. destruct Hk as [Hne Hk]. cbn [foldl fst] in *.
  rewrite IH by done. unfold add_claim. by rewrite lookup_insert_ne.
Qed.

Lemma add_claims_shows claims : NoDup claims.*1 → shows claims (foldl add_claim ∅ claims).
Proof.
  assert (∀ m, NoDup claims.*1 → ∀ k v, foldl add_claim m claims !! k = Some v ↔
    (∃ v0, (k, v0) ∈ claims ∧ v = claim_read k v0) ∨ ((k ∉ claims.*1) ∧ m !! k = Some v)) as Hgo.
  { induction claims as [|[k' v'] claims IH]; intros m Hnd k v.
    - cbn [foldl]. set_solver.
    - rewrite fmap_cons, NoDup_cons in Hnd. destruct Hnd as [Hnin Hnd]. cbn [foldl fst] in *.
      rewrite IH by done. unfold add_claim. cbn [fst snd]. rewrite fmap_cons, not_elem_of_cons. cbn [fst].
      setoid_rewrite elem_of_cons. destruct (decide (k = k')) as [->|Hne].
      + rewrite lookup_insert_eq. split.
        * intros [(v0&Hin&->)|[_ [= <-]]]; left; eexists; eauto.
        * intros [(v0&[[= ->]|Hin]&->)|[[] _]]; [by right|left; eauto|done].
      + rewrite lookup_insert_ne by done. split.
        * intros [(v0&Hin&->)|[? ?]]; [left; eauto|by right].
        * intros [(v0&[[= -> ->]|Hin]&->)|[[_ ?] ?]]; [done|left; eauto|by right]. }
  intros Hnd k v. rewrite Hgo by done. rewrite lookup_empty. naive_solver.
Qed.

Lemma shows_fitting claims m :
  fitting claims → shows claims m → map_Forall (λ k v, claim_fits k v = true) m.
Proof.
  intros Hfit Hm k v (v0&Hin&->)%Hm. apply claim_fits_read.
  unfold fitting in Hfit. rewrite Forall_forall in Hfit. exact (Hfit _ Hin).
Qed.

(** The claims allow their use at [now]. *)
Definition live (now : Z) (claims : list (string * claim)) : Prop :=
  (∀ t, ("exp", ClaimInt t) ∈ claims → now < t) ∧
  (∀ t, ("iat", ClaimInt t) ∈ claims → t ≤ now) ∧
  (∀ t, ("nbf", ClaimInt t) ∈ claims → t ≤ now).

Lemma shows_time claims m k (P : Z → Prop) (f : Z → bool) :
  shows claims m → (∀ t, f t = true ↔ P t) →
  match m !! k with Some (ClaimInt t) => f t | _ => true end = true ↔
  ∀ t, (k, ClaimInt t) ∈ claims → P t.
Proof.
  intros Hm Hf. split.
  - intros Hb t Hin. assert (m !! k = Some (ClaimInt t)) as Hk by (apply Hm; by eexists).
    rewrite Hk in Hb. by apply Hf.
  - intros Hall. destruct (m !! k) as [v|] eqn:Hk; [|done]. apply Hm in Hk as (v0&Hin&->).
    destruct v0; cbn [claim_read]; [by case_decide|done|]. apply Hf, Hall, Hin.
Qed.

Lemma shows_valid claims m now : shows claims m → valid_at now m = true ↔ live now claims.
Proof.
  intros Hm. unfold valid_at, live. rewrite !andb_true_iff.
  rewrite (shows_time claims m "exp" (λ t, now < t)), (shows_time claims m "iat" (λ t, t ≤ now)),
    (shows_time claims m "nbf" (λ t, t ≤ now)) by (first [exact Hm | intros t; lia]).
  tauto.
Qed.

(** Parsing what a manager generated, under the public half of its key. *)
Lemma parse_generated `{!JwtLaws} jm pub claims s now :
  key_pair (privateKey jm) pub → NoDup claims.*1 → fitting claims → GenerateToken jm claims = Ok s →
  (live now claims ∧ ∃ token, jwt_Parse now s pub = Ok token ∧ shows claims (jwt_claims token)) ∨
  (¬ live now claims ∧ ∃ f, jwt_Parse now s pub = Err f).
Proof.
  intros Hpair Hnd Hfit. unfold GenerateToken.
  destruct (set_claims_map jwt_New claims Hfit) as (token&->&Htok). rewrite claims_new in Htok.
  destruct (jwt_Sign token _) as [s'|] eqn:Hsign; [|done]. intros [= <-].
  assert (shows claims (jwt_claims token)) as Hshows by (rewrite Htok; by apply add_claims_shows).
  pose proof (parse_sign now token _ _ s' Hpair (shows_fitting _ _ Hfit Hshows) Hsign) as Hp.
  pose proof (shows_valid claims _ now Hshows) as Hv.
  destruct (valid_at now (jwt_claims token)).
  - left. split; [by apply Hv|]. destruct Hp as (t'&Hp&Hc). exists t'. by rewrite Hc.
  - right. split; [|done]. by intros Hl%Hv.
Qed.
End token.

(** The two PEM entries a key pair is stored under. *)
Definition key_secret_data (privPEM pubPEM : string) : smap :=
  {[ "private.pem" := privPEM; "public.pem" := pubPEM ]}.

(** Reading back a secret made of marshalled keys gives the keys. *)
Lemma manager_of_marshalled `{!CryptoLaws} (kp : KeyPair) privDER pubDER m :
  MarshalPKCS8PrivateKey (kp_private kp) = Ok privDER →
  MarshalPKIXPublicKey (kp_public kp) = Ok pubDER →
  NewJWTManagerFromSecret
    {| sec_Meta := m;
       sec_Data := key_secret_data (pem_EncodeToMemory "PRIVATE KEY" privDER)
                                   (pem_EncodeToMemory "PUBLIC KEY" pubDER) |} =
  Ok {| privateKey := kp_private kp; publicKey := kp_public kp |}.
Proof.
  intros Hpriv Hpub. unfold NewJWTManagerFromSecret, key_secret_data. cbn [sec_Data].
  rewrite lookup_insert_eq, lookup_insert_ne, lookup_singleton_eq by done.
  rewrite !pem_decode_encode.
  by rewrite (parse_marshal_private _ _ Hpriv), (parse_marshal_public _ _ Hpub).
Qed.

(** C38. Keys travel through a Secret and claims through a token.  Take a Secret that holds
    the two PEM entries of a marshalled Ed25519 pair, which is how the Cluster controller
    stores the pair it generates.  Every reader of it gets the same manager, and a token
    the manager makes of distinct claims of fitting types, in whatever order they were
    set, is judged by every reader with one look at the clock.  While the claims allow it
    ([exp], [iat] and [nbf]) the token is accepted and shows every claim given to it, and
    no other: as it was given, except that an audience shows as a list.  Before or after
    that time it is refused. *)
Theorem VerifyToken_GenerateToken `{!CryptoLaws} `{JwtOps} `{!JwtLaws} (kp : KeyPair) privDER pubDER m claims s :
  key_pair (kp_private kp) (kp_public kp) →
  MarshalPKCS8PrivateKey (kp_private kp) = Ok privDER → MarshalPKIXPublicKey (kp_public kp) = Ok pubDER →
  NoDup claims.*1 → fitting claims →
  let secret := {| sec_Meta := m;
                   sec_Data := key_secret_data (pem_EncodeToMemory "PRIVATE KEY" privDER)
                                               (pem_EncodeToMemory "PUBLIC KEY" pubDER) |} in
  ∃ jm, NewJWTManagerFromSecret secret = Ok jm ∧
    (GenerateToken jm claims = Ok s →
     wp (VerifyToken jm s) (λ tr out, ∃ now r, tr = [Ev CNow now] ∧ out = Returned r ∧
       ((live now claims ∧ ∃ token, r = Ok token ∧ shows claims (jwt_claims token)) ∨
        (¬ live now claims ∧ ∃ e, r = Err e)))).
Proof.
  intros Hpair Hpriv Hpub Hnd Hfit secret. eexists. split; [by apply (manager_of_marshalled kp)|].
  intros Hgen. unfold VerifyToken. wp_call now. wp_steps. exists now. eexists. split_and!; [done|done|].
  destruct (parse_generated {| privateKey := kp_private kp; publicKey := kp_public kp |} (kp_public kp)
    claims s now Hpair Hnd Hfit Hgen) as [[Hl (token&Hp&Hs)]|[Hl [f Hp]]]; cbn [publicKey]; rewrite Hp; [left|right].
  - split; [done|]. by exists token.
  - split; [done|]. by eexists.
Qed.
End manager.

(** ** Examples *)

Section examples.
#[local] Existing Instance ref_crypto.
#[local] Existing Instance ref_crypto_laws.
#[local] Existing Instance ref_jwt.
#[local] Existing Instance ref_jwt_laws.

Definition sample_keys : KeyPair := {| kp_public := "k"; kp_private := "k" |}.
Definition sample_claims : list (string * claim) :=
  [("sub", ClaimString "main"); ("aud", ClaimString "compute"); ("exp", ClaimInt 4600); ("iat", ClaimInt 1000);
   ("nbf", ClaimInt 1000)].
Definition sample_manager : JWTManager := {| privateKey := "k"; publicKey := "k" |}.
Definition sample_token : string := match GenerateToken sample_manager sample_claims with Ok s => s | Err _ => "" end.

(** What is read of one claim of the sample token by a clock that shows [now]. *)
Definition read_at (now : Z) (k : string) : option claim :=
  match run (World [] now (http_status 200 "200 OK")) (VerifyToken sample_manager sample_token) with
  | (_, Returned (Ok t)) => jwt_claims t !! k
  | _ => None
  end.

(** The sample token is accepted at 1000 and refused at 999 and at 4600. *)
Lemma VerifyToken_GenerateToken_witness :
  read_at 1000 "sub" = Some (ClaimString "main") ∧ read_at 1000 "aud" = Some (ClaimStrings ["compute"]) ∧
  read_at 999 "sub" = None ∧ read_at 4600 "sub" = None ∧
  let secret := {| sec_Meta := new_meta "keys" "neon" ∅ ∅;
                   sec_Data := key_secret_data (pem_EncodeToMemory "PRIVATE KEY" "sk")
                                               (pem_EncodeToMemory "PUBLIC KEY" "pk") |} in
  ∃ jm, NewJWTManagerFromSecret secret = Ok jm ∧
    (GenerateToken jm sample_claims = Ok sample_token →
     wp (VerifyToken jm sample_token) (λ tr out, ∃ now r, tr = [Ev CNow now] ∧ out = Returned r ∧
       ((live now sample_claims ∧ ∃ token, r = Ok token ∧ shows sample_claims (jwt_claims token)) ∨
        (¬ live now sample_claims ∧ ∃ e, r = Err e)))).
Proof.
  do 4 (split; [vm_compute; reflexivity|]).
  refine (VerifyToken_GenerateToken sample_keys "sk" "pk" (new_meta "keys" "neon" ∅ ∅) sample_claims sample_token
    eq_refl eq_refl eq_refl _ _).
  - apply (bool_decide_unpack _). vm_compute. exact I.
  - apply (bool_decide_unpack _). vm_compute. exact I.
Defined.
End examples.
