(* ===== verification/Status.v ===== *)
(** * Status reporting: utils/status.go

    [SetCondition], [PatchStatus] (read, mutate a copy, compare, patch under an
    optimistic lock), [UpdateSTSBackedStatus] for the two StatefulSet-backed
    resources, and the readiness tests on StatefulSets, Deployments and Pods. *)

From S2P Require Import Prelude GoLib KubeTypes Api Interfaces Reference Prog Calls Server.

(** ** Condition types and reasons *)

Definition ConditionAvailable : string := "Available".
Definition ConditionProgressing : string := "Progressing".
Definition ConditionStorageControllerAvailable : string := "StorageControllerAvailable".
Definition ConditionStorageBrokerAvailable : string := "StorageBrokerAvailable".
Definition ConditionTenantIDAssigned : string := "TenantIDAssigned".
Definition ConditionAttached : string := "Attached".
Definition ConditionTimelineIDAssigned : string := "TimelineIDAssigned".
Definition ConditionTimelineCreated : string := "TimelineCreated".
Definition ConditionComputeReady : string := "ComputeReady".
Definition ConditionResourcesReady : string := "ResourcesReady".

Definition ReasonAsExpected : string := "AsExpected".
Definition ReasonReconciling : string := "Reconciling".
Definition ReasonChildPodNotReady : string := "ChildPodNotReady".
Definition ReasonChildDeploymentNotAvailable : string := "ChildDeploymentNotAvailable".
Definition ReasonChildResourceMissing : string := "ChildResourceMissing".
Definition ReasonResourceCreateFailed : string := "ResourceCreateFailed".
Definition ReasonStorageControllerUnreachable : string := "StorageControllerUnreachable".
Definition ReasonAttachFailed : string := "AttachFailed".
Definition ReasonTenantIDPending : string := "TenantIDPending".
Definition ReasonTimelineIDPending : string := "TimelineIDPending".
Definition ReasonTimelineCreationFailed : string := "TimelineCreationFailed".

(** ** Readiness tests *)

Definition IsStatefulSetReady (sts : option StatefulSet) : bool :=
  match sts with
  | None => false
  | Some sts =>
      let desired := match sts_Replicas (sts_Spec sts) with Some r => r | None => 1 end in
      (om_Generation (sts_Meta sts) <=? sts_ObservedGeneration sts) &&
      (desired <=? sts_ReadyReplicas sts)
  end.

(** The two tests of the inner loop: what one container status says, if anything. *)
Definition waiting_detail (cs : ContainerStatus) : option (string * string) :=
  match cs_Waiting cs with
  | Some w =>
      if decide (csw_Reason w ≠ "") then
        let msg := if decide (csw_Message w = "")
                   then "container " +:+ fmt_q (cs_Name cs) +:+ " is " +:+ csw_Reason w
                   else csw_Message w in
        Some (csw_Reason w, msg)
      else None
  | None => None
  end.

Definition terminated_detail (cs : ContainerStatus) : option (string * string) :=
  match cs_Terminated cs with
  | Some t =>
      if decide (cst_ExitCode t ≠ 0) then
        let reason := if decide (cst_Reason t = "") then "ContainerTerminated" else cst_Reason t in
        let msg := if decide (cst_Message t = "")
                   then "container " +:+ fmt_q (cs_Name cs) +:+ " exited with code " +:+ fmt_d (cst_ExitCode t)
                   else cst_Message t in
        Some (reason, msg)
      else None
  | None => None
  end.

(** The loop over one list of container statuses, with its early return. *)
Fixpoint statuses_detail (l : list ContainerStatus) : option (string * string) :=
  match l with
  | [] => None
  | cs :: l =>
      match waiting_detail cs with
      | Some d => Some d
      | None =>
          match terminated_detail cs with
          | Some d => Some d
          | None => statuses_detail l
          end
      end
  end.

(** The outer loop runs over the init containers, then the main containers. *)
Definition PodNotReadyDetail (pod : option Pod) : string * string :=
  match pod with
  | None => ("", "")
  | Some pod =>
      match statuses_detail (pod_InitContainerStatuses pod) with
      | Some d => d
      | None =>
          match statuses_detail (pod_ContainerStatuses pod) with
          | Some d => d
          | None => ("", "")
          end
      end
  end.

Definition DeploymentAvailable : string := "Available".

Fixpoint available_condition (cs : list DeploymentCondition) : bool :=
  match cs with
  | [] => false
  | c :: cs =>
      if decide (dc_Type c = DeploymentAvailable)
      then bool_decide (dc_Status c = ConditionTrue)
      else available_condition cs
  end.

Definition IsDeploymentAvailable (dep : option Deployment) : bool :=
  match dep with
  | None => false
  | Some dep => available_condition (dep_Conditions dep)
  end.

(** ** Writing conditions *)

Section conditions.
Context `{ConditionOps}.

(** [utils.SetCondition(obj, conds, t, status, reason, message)] *)
Definition SetCondition {k} (o : obj k) (conds : list Condition) (t : string)
    (status : ConditionStatus) (reason message : string) : prog (list Condition) :=
  now ← Now;
  Ret (SetStatusCondition now conds
    {| cond_Type := t; cond_Status := status; cond_ObservedGeneration := om_Generation (meta o);
       cond_LastTransitionTime := 0; cond_Reason := reason; cond_Message := message |}).
End conditions.

(** ** Patching a status *)

Section patch_status.
Context `{SemanticEqual Status} {k : Kind} `{StatusObject k}.

(** [utils.PatchStatus(ctx, c, obj, mutate)]: the object as it is left, and the error. *)
Definition PatchStatus (o : obj k) (mutate : obj k → prog (obj k)) : prog (obj k * option error) :=
  let_ok current := Get k (key_of (meta o)) or e return Ret (o, Some e);
  updated ← mutate current;
  if DeepEqual (StatusValue current) (StatusValue updated) then Ret (o, None)
  else
    let_ok written := StatusPatch k current updated or e return Ret (o, Some e);
    Ret (AssignStatusFrom o written, None).
End patch_status.

(** ** Resources backed by one StatefulSet *)

Section sts_backed.
Context `{ConditionOps} `{SemanticEqual Status} {k : Kind} `{StatusObject k}.

(** The default branch: ask the first Pod why it is not ready. *)
Definition sts_not_ready_detail (ns stsName label : string) : prog (string * string) :=
  podr ← Get KPod {| nn_Namespace := ns; nn_Name := stsName +:+ "-0" |};
  let '(reason, message) :=
    match podr with Ok pod => PodNotReadyDetail (Some pod) | Err _ => ("", "") end in
  if decide (reason = "")
  then Ret (ReasonChildPodNotReady, label +:+ " StatefulSet is not Ready")
  else Ret (reason, message).

(** The closure passed to [PatchStatus]. *)
Definition sts_status (ns stsName label : string) (reconcileErr : option error)
    (stsr : result StatefulSet) (o : obj k) : prog (obj k) :=
  let o := SetObservedGeneration o (om_Generation (meta o)) in
  let conds := StatusConditions o in
  match reconcileErr with
  | Some err =>
      let msg := Error err in
      conds ← SetCondition o conds ConditionResourcesReady ConditionFalse ReasonResourceCreateFailed msg;
      conds ← SetCondition o conds ConditionAvailable ConditionFalse ReasonResourceCreateFailed msg;
      conds ← SetCondition o conds ConditionProgressing ConditionTrue ReasonReconciling
        "Retrying after resource creation failure";
      Ret (set_Conditions o conds)
  | None =>
      conds ← SetCondition o conds ConditionResourcesReady ConditionTrue ReasonAsExpected
        "Child resources reconciled";
      match stsr with
      | Err e =>
          if IsNotFound e then
            conds ← SetCondition o conds ConditionAvailable ConditionFalse ReasonChildResourceMissing
              (label +:+ " StatefulSet has not been observed yet");
            conds ← SetCondition o conds ConditionProgressing ConditionTrue ReasonReconciling
              "Waiting for child StatefulSet to appear";
            Ret (set_Conditions o conds)
          else
            conds ← SetCondition o conds ConditionAvailable ConditionUnknown ReasonChildResourceMissing (Error e);
            conds ← SetCondition o conds ConditionProgressing ConditionTrue ReasonReconciling
              "Could not read child StatefulSet";
            Ret (set_Conditions o conds)
      | Ok sts =>
          if IsStatefulSetReady (Some sts) then
            conds ← SetCondition o conds ConditionAvailable ConditionTrue ReasonAsExpected
              (label +:+ " StatefulSet is Ready");
            conds ← SetCondition o conds ConditionProgressing ConditionFalse ReasonAsExpected
              (label +:+ " is at desired state");
            Ret (set_Conditions o conds)
          else
            d ← sts_not_ready_detail ns stsName label;
            let '(reason, message) := d in
            conds ← SetCondition o conds ConditionAvailable ConditionFalse reason message;
            conds ← SetCondition o conds ConditionProgressing ConditionTrue ReasonReconciling
              ("Waiting for " +:+ label +:+ " StatefulSet readiness");
            Ret (set_Conditions o conds)
      end
  end.

Definition UpdateSTSBackedStatus (o : obj k) (stsName label : string)
    (reconcileErr : option error) : prog (obj k * option error) :=
  let ns := om_Namespace (meta o) in
  stsr ← Get KStatefulSet {| nn_Namespace := ns; nn_Name := stsName |};
  PatchStatus o (sts_status ns stsName label reconcileErr stsr).
End sts_backed.

(** The calls of a status update, for a test that allows the clock. *)
Section status_calls.
Context `{ConditionOps} `{SemanticEqual Status} {k : Kind} `{StatusObject k}.
Context (P : call → Prop) (HNow : P CNow).

Lemma calls_SetCondition {k'} (o : obj k') conds t status reason message :
  calls_only P (SetCondition o conds t status reason message).
Proof. by split. Qed.

Lemma calls_PatchStatus (o : obj k) mutate :
  P (CGet k (key_of (meta o))) → (∀ base updated, P (CStatusPatch k base updated)) →
  (∀ o, calls_only P (mutate o)) → calls_only P (PatchStatus o mutate).
Proof. intros ? ? ?. unfold PatchStatus. by walk. Qed.

Lemma calls_UpdateSTSBackedStatus (o : obj k) stsName label reconcileErr :
  P (CGet k (key_of (meta o))) → (∀ base updated, P (CStatusPatch k base updated)) →
  (∀ key, P (CGet KStatefulSet key)) → (∀ key, P (CGet KPod key)) →
  calls_only P (UpdateSTSBackedStatus o stsName label reconcileErr).
Proof.
  intros ? ? ? ?. unfold UpdateSTSBackedStatus. walk; [done|].
  apply calls_PatchStatus; [done..|]. intros o'. unfold sts_status, sts_not_ready_detail.
  walk; auto using calls_SetCondition.
Qed.
End status_calls.

(** ** Reading conditions back *)

(** What a reader of the status sees of the condition of type [t]. *)
Record report := Report {
  rep_status : ConditionStatus;
  rep_reason : string;
  rep_message : string;
  rep_generation : Z;
}.

Definition reported (t : string) (cs : list Condition) : option report :=
  (λ c, Report (cond_Status c) (cond_Reason c) (cond_Message c) (cond_ObservedGeneration c))
    <$> find_cond t cs.

Section reports.
Context `{ConditionLaws}.

Lemma reported_set t now cs c :
  reported t (SetStatusCondition now cs c) =
  if decide (t = cond_Type c)
  then Some (Report (cond_Status c) (cond_Reason c) (cond_Message c) (cond_ObservedGeneration c))
  else reported t cs.
Proof.
  unfold reported. case_decide as Ht.
  - subst t. by destruct (set_cond_same now cs c) as [t ->].
  - by rewrite set_cond_other.
Qed.
End reports.

(** Compute what a chain of [SetStatusCondition] reports for literal types. *)
Ltac solve_reported :=
  repeat (rewrite reported_set;
          cbn [cond_Type cond_Status cond_Reason cond_Message cond_ObservedGeneration];
          first [rewrite decide_True by done | rewrite decide_False by done]);
  try done.

(** ** Rules for [PatchStatus] *)

Section patch_rules.
Context `{SemanticEqual Status} {k : Kind} `{StatusObject k}.

Lemma wp_PatchStatus (o : obj k) mutate (P : obj k → trace → outcome (obj k) → Prop) Q :
  (∀ cur, wp (mutate cur) (P cur)) →
  (∀ f, Q [Ev (CGet k (key_of (meta o))) (Err f)] (Returned (o, Some (Foreign f)))) →
  (∀ cur tr w, P cur tr (Panicked w) →
     Q (Ev (CGet k (key_of (meta o))) (Ok cur) :: tr) (Panicked w)) →
  (∀ cur tr upd, P cur tr (Returned upd) → DeepEqual (StatusValue cur) (StatusValue upd) = true →
     Q (Ev (CGet k (key_of (meta o))) (Ok cur) :: tr) (Returned (o, None))) →
  (∀ cur tr upd r, P cur tr (Returned upd) → DeepEqual (StatusValue cur) (StatusValue upd) = false →
     Q (Ev (CGet k (key_of (meta o))) (Ok cur) :: tr ++ [Ev (CStatusPatch k cur upd) r])
       (Returned (match r with Ok w => (AssignStatusFrom o w, None) | Err f => (o, Some (Foreign f)) end))) →
  wp (PatchStatus o mutate) Q.
Proof.
  intros Hm Hget Hpanic Hsame Hdiff. unfold PatchStatus.
  wp_call r. destruct r as [cur|e]; [|apply Hget].
  wp_use Hm; [|auto]. intros tr upd HP.
  destruct (DeepEqual _ _) eqn:E.
  - wp_steps. rewrite app_nil_r. eauto.
  - wp_call r. specialize (Hdiff cur tr upd r HP E). by destruct r.
Qed.

(** C20. [PatchStatus] around any closure: whatever calls the closure makes, and
    whatever [P cur] is known of its run on a copy of the object read, the run of
    [PatchStatus] is one of these.  The object is read once, first, under its own
    name and namespace.  A failed read is returned, with nothing else done.
    Otherwise the closure runs on the object just read; if it panics so does
    [PatchStatus], having written nothing of its own.  If the status it leaves is
    equal to the one read, nothing more is called.  If it differs, exactly one call
    follows, a status patch from the object read (so that the optimistic lock
    compares the version the decision was made on) to what the closure made of it;
    its failure is returned and leaves the caller's object alone, and its success
    copies the status the server answered into the caller's object. *)
Theorem PatchStatus_protocol (o : obj k) mutate (P : obj k → trace → outcome (obj k) → Prop)
    (Hm : ∀ cur, wp (mutate cur) (P cur)) :
  wp (PatchStatus o mutate) (λ tr out,
    (∃ f, tr = [Ev (CGet k (key_of (meta o))) (Err f)] ∧ out = Returned (o, Some (Foreign f))) ∨
    (∃ cur trm outm, P cur trm outm ∧
      match outm with
      | Panicked w => tr = Ev (CGet k (key_of (meta o))) (Ok cur) :: trm ∧ out = Panicked w
      | Returned upd =>
          if DeepEqual (StatusValue cur) (StatusValue upd)
          then tr = Ev (CGet k (key_of (meta o))) (Ok cur) :: trm ∧ out = Returned (o, None)
          else ∃ r, tr = Ev (CGet k (key_of (meta o))) (Ok cur) :: trm ++ [Ev (CStatusPatch k cur upd) r] ∧
                 out = Returned (match r with
                                 | Ok w => (set_Status o (StatusValue w), None)
                                 | Err f => (o, Some (Foreign f)) end)
      end)).
Proof.
  apply wp_PatchStatus with (P := P); [done| | | |].
  - intros f. left. eauto.
  - intros cur tr w HP. right. by exists cur, tr, (Panicked w).
  - intros cur tr upd HP E. right. exists cur, tr, (Returned upd). by rewrite E.
  - intros cur tr upd r HP E. right. exists cur, tr, (Returned upd). rewrite E. eauto.
Qed.
End patch_rules.

(** ** Status functions that refresh the generation and the conditions

    Every [updateStatus] of the operator sets [ObservedGeneration] from the object
    it has just read, rewrites conditions, and touches nothing else. *)

Section refreshed.
Context `{SemanticEqual Status} {k : Kind} `{StatusObject k}.

Definition refreshed (o : obj k) (cs : list Condition) : obj k :=
  set_Conditions (SetObservedGeneration o (om_Generation (meta o))) cs.

Lemma meta_refreshed o cs : meta (refreshed o cs) = meta o.
Proof. unfold refreshed. by rewrite meta_set_Conditions, meta_SetObservedGeneration. Qed.
Lemma StatusValue_refreshed o cs :
  StatusValue (refreshed o cs) =
  {| st_ObservedGeneration := om_Generation (meta o); st_Conditions := cs |}.
Proof. unfold refreshed, set_Conditions, SetObservedGeneration. by rewrite !StatusValue_set_Status. Qed.

(** The closure only reads, and ends with a refreshed object whose conditions satisfy [R]. *)
Definition refreshes (R : list Condition → Prop) (o : obj k) (tr : trace) (out : outcome (obj k)) : Prop :=
  writes tr = [] ∧ requests tr = [] ∧ ∃ cs, out = Returned (refreshed o cs) ∧ R cs.

(** The contract of a status update of the object at [key]: read it; write
    nothing if the refreshed status equals the one read; otherwise patch the object
    read.  The conditions of a refreshed status satisfy [R].  The second index is
    the failure, if any. *)
Inductive status_run (key : NamespacedName) (R : obj k → list Condition → Prop) :
    trace → option fault → Prop :=
  | status_unread f :
      status_run key R [Ev (CGet k key) (Err f)] (Some f)
  | status_unchanged cur cs tr :
      writes tr = [] → requests tr = [] → R cur cs →
      DeepEqual (StatusValue cur) (StatusValue (refreshed cur cs)) = true →
      status_run key R (Ev (CGet k key) (Ok cur) :: tr) None
  | status_patched cur cs tr w :
      writes tr = [] → requests tr = [] → R cur cs →
      DeepEqual (StatusValue cur) (StatusValue (refreshed cur cs)) = false →
      status_run key R
        (Ev (CGet k key) (Ok cur) :: tr ++ [Ev (CStatusPatch k cur (refreshed cur cs)) (Ok w)]) None
  | status_unpatched cur cs tr f :
      writes tr = [] → requests tr = [] → R cur cs →
      DeepEqual (StatusValue cur) (StatusValue (refreshed cur cs)) = false →
      status_run key R
        (Ev (CGet k key) (Ok cur) :: tr ++ [Ev (CStatusPatch k cur (refreshed cur cs)) (Err f)]) (Some f).

Definition status_runs (key : NamespacedName) (R : obj k → list Condition → Prop)
    (tr : trace) (out : outcome (obj k * option error)) : Prop :=
  ∃ o f, out = Returned (o, Foreign <$> f) ∧ status_run key R tr f.

Lemma wp_PatchStatus_refreshes (o : obj k) mutate (R : obj k → list Condition → Prop) :
  (∀ cur, wp (mutate cur) (refreshes (R cur) cur)) →
  wp (PatchStatus o mutate) (status_runs (key_of (meta o)) R).
Proof.
  intros Hm. eapply (wp_PatchStatus o mutate (λ cur, refreshes (R cur) cur)); [done| | | |].
  - intros f. exists o, (Some f). split; [done|constructor].
  - by intros cur tr w (_&_&?&?&_).
  - intros cur tr upd (Hw&Hr&cs&[= ->]&HR) E. exists o, None. split; [done|].
    by eapply status_unchanged.
  - intros cur tr upd [w|f] (Hw&Hr&cs&[= ->]&HR) E.
    + exists (AssignStatusFrom o w), None. split; [done|]. by constructor.
    + exists o, (Some f). split; [done|]. by constructor.
Qed.

Lemma status_run_requests key R tr f : status_run key R tr f → requests tr = [].
Proof. by intros []; trace_simpl. Qed.

Lemma status_run_mono key (R R' : obj k → list Condition → Prop) tr f :
  (∀ o cs, R o cs → R' o cs) → status_run key R tr f → status_run key R' tr f.
Proof.
  intros HR []; [apply status_unread|eapply status_unchanged|eapply status_patched
    |eapply status_unpatched]; eauto.
Qed.
End refreshed.

(** Close a status function at its end. *)
Ltac refreshes_done :=
  wp_steps; trace_simpl; split_and!; [done|done|eexists; split; [done|]].

(** ** Why a Pod is not ready *)

(** The two states the loop looks for, as the comment of [PodNotReadyDetail] names them. *)
Definition informative (cs : ContainerStatus) : Prop :=
  (∃ w, cs_Waiting cs = Some w ∧ csw_Reason w ≠ "") ∨
  (∃ t, cs_Terminated cs = Some t ∧ cst_ExitCode t ≠ 0).

Definition verdict (cs : ContainerStatus) : option (string * string) :=
  match waiting_detail cs with Some d => Some d | None => terminated_detail cs end.

Lemma statuses_detail_cons cs l :
  statuses_detail (cs :: l) = match verdict cs with Some d => Some d | None => statuses_detail l end.
Proof. unfold verdict. simpl. by destruct (waiting_detail cs). Qed.

Lemma statuses_detail_app l l' :
  statuses_detail (l ++ l') =
  match statuses_detail l with Some d => Some d | None => statuses_detail l' end.
Proof.
  induction l as [|cs l IH]; [done|].
  rewrite <-app_comm_cons, !statuses_detail_cons, IH. by destruct (verdict cs).
Qed.

Lemma verdict_None cs : verdict cs = None ↔ ¬ informative cs.
Proof.
  unfold verdict, waiting_detail, terminated_detail, informative.
  destruct (cs_Waiting cs) as [w|], (cs_Terminated cs) as [t|]; simpl;
    repeat case_decide; firstorder congruence.
Qed.

Lemma verdict_nonempty cs r m : verdict cs = Some (r, m) → r ≠ "" ∧ m ≠ "".
Proof.
  unfold verdict, waiting_detail, terminated_detail.
  destruct (cs_Waiting cs) as [w|], (cs_Terminated cs) as [t|]; simpl;
    repeat case_decide; intros; simplify_eq; done.
Qed.

Lemma statuses_detail_spec l :
  match statuses_detail l with
  | Some (r, m) => r ≠ "" ∧ m ≠ "" ∧ ∃ pre cs post,
      l = pre ++ cs :: post ∧ Forall (λ c, ¬ informative c) pre ∧ informative cs ∧
      verdict cs = Some (r, m)
  | None => Forall (λ c, ¬ informative c) l
  end.
Proof.
  induction l as [|cs l IH]; [by constructor|].
  rewrite statuses_detail_cons. destruct (verdict cs) as [[r m]|] eqn:E.
  - destruct (verdict_nonempty _ _ _ E). split_and!; [done|done|].
    exists [], cs, l. split_and!; [done|constructor| |done].
    unfold verdict, waiting_detail, terminated_detail, informative in *.
    destruct (cs_Waiting cs) as [w|], (cs_Terminated cs) as [t|]; simpl in *;
      repeat case_decide; simplify_eq; eauto.
  - apply verdict_None in E. destruct (statuses_detail l) as [[r m]|].
    + destruct IH as (?&?&pre&c&post&->&?&?&?). split_and!; [done|done|].
      exists (cs :: pre), c, post. split_and!; [done|by constructor|done|done].
    + by constructor.
Qed.

(** C31. [PodNotReadyDetail] describes the first container, init containers before
    main containers, that is waiting with a reason or terminated with a non-zero
    exit code; its reason and message are then both non-empty.  It returns the
    pair of empty strings exactly when there is no such container. *)
Theorem PodNotReadyDetail_first (pod : Pod) :
  let all := pod_InitContainerStatuses pod ++ pod_ContainerStatuses pod in
  (∃ pre cs post r m,
     all = pre ++ cs :: post ∧ Forall (λ c, ¬ informative c) pre ∧ informative cs ∧
     verdict cs = Some (r, m) ∧ PodNotReadyDetail (Some pod) = (r, m) ∧ r ≠ "" ∧ m ≠ "") ∨
  (Forall (λ c, ¬ informative c) all ∧ PodNotReadyDetail (Some pod) = ("", "")).
Proof.
  intros all. pose proof (statuses_detail_spec all) as H. unfold all in *.
  rewrite statuses_detail_app in H. unfold PodNotReadyDetail.
  destruct (statuses_detail (pod_InitContainerStatuses pod)) as [[r m]|].
  - destruct H as (?&?&pre&cs&post&->&?&?&?). left. by exists pre, cs, post, r, m.
  - destruct (statuses_detail (pod_ContainerStatuses pod)) as [[r m]|]; [|by right].
    destruct H as (?&?&pre&cs&post&->&?&?&?). left. by exists pre, cs, post, r, m.
Qed.

(** ** What a StatefulSet-backed resource reports *)

Definition sts_available (reconcileErr : option error) (stsr : result StatefulSet) : ConditionStatus :=
  match reconcileErr, stsr with
  | Some _, _ => ConditionFalse
  | None, Err e => if IsNotFound e then ConditionFalse else ConditionUnknown
  | None, Ok sts => if IsStatefulSetReady (Some sts) then ConditionTrue else ConditionFalse
  end.

Definition negate (s : ConditionStatus) : ConditionStatus :=
  match s with ConditionTrue => ConditionFalse | _ => ConditionTrue end.

(** The three conditions of a StatefulSet-backed resource after one pass. *)
Definition sts_reports (reconcileErr : option error) (stsr : result StatefulSet)
    (gen : Z) (cs : list Condition) : Prop :=
  (∃ r m, reported ConditionAvailable cs = Some (Report (sts_available reconcileErr stsr) r m gen) ∧ r ≠ "" ∧
          (∀ e, reconcileErr = Some e → m = Error e)) ∧
  (∃ r m, reported ConditionProgressing cs = Some (Report (negate (sts_available reconcileErr stsr)) r m gen)) ∧
  (∃ r m, reported ConditionResourcesReady cs =
     Some (Report (match reconcileErr with Some _ => ConditionFalse | None => ConditionTrue end) r m gen)).

Section sts_reports.
Context `{ConditionLaws} `{SemanticEqual Status} {k : Kind} `{StatusObject k}.

Lemma wp_sts_not_ready_detail ns stsName label :
  wp (sts_not_ready_detail ns stsName label)
    (λ tr out, writes tr = [] ∧ requests tr = [] ∧ ∃ r m, out = Returned (r, m) ∧ r ≠ "").
Proof.
  unfold sts_not_ready_detail. wp_call podr. cbv zeta.
  match goal with |- context [let (_, _) := ?x in _] => destruct x as [r m] end.
  case_decide; wp_steps; (split_and!; [done|done|]); eauto.
Qed.

Lemma wp_sts_status ns stsName label reconcileErr stsr (o : obj k) :
  wp (sts_status ns stsName label reconcileErr stsr o)
    (refreshes (sts_reports reconcileErr stsr (om_Generation (meta o))) o).
Proof.
  unfold sts_status, SetCondition, sts_reports, sts_available, refreshes.
  rewrite meta_SetObservedGeneration.
  destruct reconcileErr as [err|]; [|wp_call t1; destruct stsr as [sts|e]].
  - wp_call t1. wp_call t2. wp_call t3. refreshes_done.
    split_and!; do 2 eexists; solve_reported; naive_solver.
  - destruct (IsStatefulSetReady (Some sts)).
    + wp_call t2. wp_call t3. refreshes_done.
      split_and!; do 2 eexists; solve_reported.
    + wp_use (wp_sts_not_ready_detail ns stsName label); [|intros ?? (_&_&?&?&?&_); done].
      intros tr [r m] (Hw&Hq&?&?&[= <- <-]&Hr). wp_call t2. wp_call t3. wp_steps.
      trace_simpl. split_and!; [done|done|].
      eexists; split; [done|]. split_and!; do 2 eexists; solve_reported.
  - destruct (IsNotFound e); wp_call t2; wp_call t3; refreshes_done;
      (split_and!; do 2 eexists; solve_reported).
Qed.

Lemma wp_UpdateSTSBackedStatus (o : obj k) stsName label reconcileErr :
  wp (UpdateSTSBackedStatus o stsName label reconcileErr) (λ tr out, ∃ stsr rest,
    tr = Ev (CGet KStatefulSet {| nn_Namespace := om_Namespace (meta o); nn_Name := stsName |}) stsr :: rest ∧
    status_runs (key_of (meta o))
      (λ base, sts_reports reconcileErr (from_env stsr) (om_Generation (meta base))) rest out).
Proof.
  unfold UpdateSTSBackedStatus. wp_call stsr.
  eapply wp_mono; [|apply wp_PatchStatus_refreshes; intros cur; apply wp_sts_status].
  intros tr out Hrun. by exists stsr, tr.
Qed.

(** C17. Whatever the API server answers, [UpdateSTSBackedStatus] reads the child
    StatefulSet first and then runs one status update of its object ([status_run]):
    it reads the object again under its own key, computes the status of the object
    it has just read, writes nothing if that status is the one read, and otherwise
    patches exactly the object read; it returns the failure of the second read or
    of the patch, and no other.  The reported status carries the generation of the
    object read; [Available] is True only if reconciliation succeeded and the
    StatefulSet read is ready, Unknown only if the StatefulSet could not be read,
    False otherwise, and its reason is never empty; [Progressing] is the negation of
    [Available]; [ResourcesReady] says whether reconciliation succeeded, and a
    reconciliation error is the message of [Available]. *)
Theorem UpdateSTSBackedStatus_reports (o : obj k) stsName label reconcileErr :
  wp (UpdateSTSBackedStatus o stsName label reconcileErr) (λ tr out, ∃ stsr rest o' f,
    tr = Ev (CGet KStatefulSet {| nn_Namespace := om_Namespace (meta o); nn_Name := stsName |}) stsr :: rest ∧
    status_run (key_of (meta o))
      (λ base, sts_reports reconcileErr (from_env stsr) (om_Generation (meta base))) rest f ∧
    requests tr = [] ∧ out = Returned (o', Foreign <$> f)).
Proof.
  eapply wp_mono; [|apply wp_UpdateSTSBackedStatus].
  intros tr out (stsr&rest&->&o'&f&->&Hrun). exists stsr, rest, o', f.
  split_and!; [done|done|exact (status_run_requests _ _ _ _ Hrun)|done].
Qed.
End sts_reports.

(** ** Examples *)

Section examples.
Import RefInstances.

(** A pageserver whose StatefulSet is missing: one status patch. *)
Lemma UpdateSTSBackedStatus_reports_witness :
  let p := UpdateSTSBackedStatus (k := KPageserver) Samples.pageserver "prod-pageserver-1" "Pageserver" None in
  let '(tr, out) := run Samples.start p in
  length (writes tr) = 1%nat ∧ ∃ stsr rest o' f,
    tr = Ev (CGet KStatefulSet {| nn_Namespace := "neon"; nn_Name := "prod-pageserver-1" |}) stsr :: rest ∧
    status_run (k := KPageserver) (key_of (pgs_Meta Samples.pageserver))
      (λ base, sts_reports None (from_env stsr) (om_Generation (pgs_Meta base))) rest f ∧
    requests tr = [] ∧ out = Returned (o', Foreign <$> f).
Proof.
  split; [vm_compute; reflexivity|].
  exact (run_wp Samples.start _ _
    (UpdateSTSBackedStatus_reports (k := KPageserver) Samples.pageserver "prod-pageserver-1" "Pageserver" None)).
Defined.

(** [PatchStatus] with the closure of [UpdateSTSBackedStatus]: the same pageserver,
    whose StatefulSet could not be found; the closure reads the clock three times. *)
Lemma PatchStatus_protocol_witness :
  let mutate := sts_status (k := KPageserver) "neon" "prod-pageserver-1" "Pageserver" None
    (Err (Foreign (not_found_fault "statefulsets.apps not found"))) in
  let '(tr, out) := run Samples.start (PatchStatus (k := KPageserver) Samples.pageserver mutate) in
  length tr = 5%nat ∧ length (writes tr) = 1%nat ∧
  ((∃ f, tr = [Ev (CGet KPageserver (key_of (pgs_Meta Samples.pageserver))) (Err f)] ∧
         out = Returned (Samples.pageserver, Some (Foreign f))) ∨
   (∃ cur trm outm, refreshes (k := KPageserver)
       (sts_reports None (Err (Foreign (not_found_fault "statefulsets.apps not found"))) (om_Generation (pgs_Meta cur)))
       cur trm outm ∧
     match outm with
     | Panicked w => tr = Ev (CGet KPageserver (key_of (pgs_Meta Samples.pageserver))) (Ok cur) :: trm ∧
                     out = Panicked w
     | Returned upd =>
         if DeepEqual (StatusValue (k := KPageserver) cur) (StatusValue (k := KPageserver) upd)
         then tr = Ev (CGet KPageserver (key_of (pgs_Meta Samples.pageserver))) (Ok cur) :: trm ∧
              out = Returned (Samples.pageserver, None)
         else ∃ r, tr = Ev (CGet KPageserver (key_of (pgs_Meta Samples.pageserver))) (Ok cur) :: trm ++
                        [Ev (CStatusPatch KPageserver cur upd) r] ∧
                out = Returned (match r with
                                | Ok w => (set_Status (k := KPageserver) Samples.pageserver
                                             (StatusValue (k := KPageserver) w), None)
                                | Err f => (Samples.pageserver, Some (Foreign f)) end)
     end)).
Proof.
  intros mutate.
  split; [vm_compute; reflexivity|]. split; [vm_compute; reflexivity|].
  exact (run_wp Samples.start _ _
    (PatchStatus_protocol (k := KPageserver) Samples.pageserver mutate _
       (wp_sts_status "neon" "prod-pageserver-1" "Pageserver" None _))).
Defined.
End examples.
