(* ===== verification/Reconcile.v ===== *)
(** * Create-or-apply: utils/reconcile.go and utils/fieldmanager.go

    [ReconcileSSA] and the contract it implements.  [upserts] is the abstract
    specification of "bring one child object to its intended state"; the branch
    controller implements the same contract with hand-written copies.  [runs_in_order]
    is the abstract specification of a sequence of such steps that stops at the
    first error, which is what every [createXResources] promises. *)

From S2P Require Import Prelude GoLib KubeTypes Api Interfaces Reference Prog Calls Server.

Definition FieldManager : string := "neon-operator".

(** ** What a write touches *)

Definition target (c : call) : option (Kind * NamespacedName) :=
  match c with
  | CCreate k o _ | CApply k o _ _ | CMergePatch k _ o _ | CStatusPatch k _ o =>
      Some (k, key_of (meta o))
  | _ => None
  end.

Definition targets (tr : trace) : list (Kind * NamespacedName) := omap target (writes tr).

Lemma targets_app tr tr' : targets (tr ++ tr') = targets tr ++ targets tr'.
Proof. unfold targets. by rewrite writes_app, omap_app. Qed.

Lemma targets_nil tr : writes tr = [] → targets tr = [].
Proof. unfold targets. by intros ->. Qed.

(** ** The contract of one step *)

Section upserts.
Context `{OwnerOps}.

(** A run that ensures [intended], owned by [owner], exists and does not drift:
    it reads the object, and creates it if it is absent, applies it if it drifts,
    and leaves it alone if it does not.  It fails before writing when the owner
    reference is refused or the read fails for another reason than absence. *)
Inductive upserts {ok k : Kind} (owner : obj ok) (intended : obj k) (drift : obj k → bool) :
    trace → option error → Prop :=
  | upserts_refused tr f e :
      SetControllerReference ok (meta owner) (meta intended) = Err f →
      writes tr = [] → requests tr = [] → root e = Some f →
      upserts owner intended drift tr (Some e)
  | upserts_unread f e :
      fault_not_found f = false → root e = Some f →
      upserts owner intended drift [Ev (CGet k (key_of (meta intended))) (Err f)] (Some e)
  | upserts_in_sync cur :
      drift cur = false →
      upserts owner intended drift [Ev (CGet k (key_of (meta intended))) (Ok cur)] None
  | upserts_created refs e r err :
      SetControllerReference ok (meta owner) (meta intended) = Ok refs → fault_not_found e = true →
      (match r with Ok _ => err = None | Err f => ∃ p, err = Some (Wrapf p (Foreign f)) end) →
      upserts owner intended drift
        [Ev (CGet k (key_of (meta intended))) (Err e);
         Ev (CCreate k (owned intended refs) (Some FieldManager)) r] err
  | upserts_applied refs cur r err :
      SetControllerReference ok (meta owner) (meta intended) = Ok refs → drift cur = true →
      (match r with Ok _ => err = None | Err f => ∃ p, err = Some (Wrapf p (Foreign f)) end) →
      upserts owner intended drift
        [Ev (CGet k (key_of (meta intended))) (Ok cur);
         Ev (CApply k (owned intended refs) true FieldManager) r] err.

Lemma upserts_targets {ok k} (owner : obj ok) (intended : obj k) drift tr err :
  upserts owner intended drift tr err →
  targets tr `sublist_of` [(k, key_of (meta intended))].
Proof.
  intros [tr' f e _ Hw| | | |].
  - rewrite targets_nil by done. apply sublist_nil_l.
  - apply sublist_nil_l.
  - apply sublist_nil_l.
  - unfold targets. simpl. by rewrite key_owned.
  - unfold targets. simpl. by rewrite key_owned.
Qed.

Lemma upserts_requests {ok k} (owner : obj ok) (intended : obj k) drift tr err :
  upserts owner intended drift tr err → requests tr = [].
Proof. by intros []. Qed.

Lemma upserts_unmarked {ok k} (owner : obj ok) (intended : obj k) drift tr e :
  upserts owner intended drift tr (Some e) → unmarked e.
Proof.
  intros Hu. remember (Some e) as err eqn:He. destruct Hu; simplify_eq; [eauto with neon..| |];
    case_match; split_hyps; simplify_eq; auto with neon.
Qed.

(** A successful step that wrote nothing found the object in sync. *)
Lemma upserts_quiet {ok k} (owner : obj ok) (intended : obj k) drift tr :
  upserts owner intended drift tr None → writes tr = [] →
  ∃ cur, tr = [Ev (CGet k (key_of (meta intended))) (Ok cur)] ∧ drift cur = false.
Proof. inversion 1; intros Hw; simplify_eq/=; eauto. Qed.
End upserts.

(** ** Sequences of steps *)

Inductive runs_in_order : list (trace → option error → Prop) → trace → option error → Prop :=
  | runs_nil : runs_in_order [] [] None
  | runs_fail (P : trace → option error → Prop) Ps tr e :
      P tr (Some e) → runs_in_order (P :: Ps) tr (Some e)
  | runs_cons (P : trace → option error → Prop) Ps tr tr' err :
      P tr None → runs_in_order Ps tr' err → runs_in_order (P :: Ps) (tr ++ tr') err.

(** A successful sequence ran every step successfully, in order. *)
Lemma runs_in_order_ok Ps tr :
  runs_in_order Ps tr None → ∃ trs, tr = concat trs ∧ Forall2 (λ P t, P t None) Ps trs.
Proof.
  intros H. remember None as err. induction H as [|P Ps tr e HP|P Ps tr tr' err HP _ IH]; subst.
  - by exists [].
  - done.
  - destruct IH as (trs&->&HF); [done|]. exists (tr :: trs). split; [done|by constructor].
Qed.

(** A failed sequence succeeded up to a step, failed there, and ran nothing after. *)
Lemma runs_in_order_fail Ps tr e :
  runs_in_order Ps tr (Some e) → ∃ pre P post trs t,
    Ps = pre ++ P :: post ∧ tr = concat trs ++ t ∧ Forall2 (λ P t, P t None) pre trs ∧ P t (Some e).
Proof.
  intros H. remember (Some e) as err. induction H as [|P Ps tr e' HP|P Ps tr tr' err HP _ IH]; subst.
  - done.
  - simplify_eq. by exists [], P, Ps, [], tr.
  - destruct IH as (pre&P'&post&trs&t&->&->&HF&Ht); [done|].
    exists (P :: pre), P', post, (tr :: trs), t. split_and!; [done| |by constructor|done].
    simpl. by rewrite app_assoc.
Qed.

(** Each step touches a sublist of its own targets; so does the sequence. *)
Lemma runs_in_order_targets Ps ls tr err :
  Forall2 (λ P l, ∀ t e, P t e → targets t `sublist_of` l) Ps ls →
  runs_in_order Ps tr err → targets tr `sublist_of` concat ls.
Proof.
  intros HF H. revert ls HF. induction H as [|P Ps tr e HP|P Ps tr tr' err HP _ IH];
    intros ls HF; inversion HF as [|? l ? ls' Hl HF']; subst; simpl.
  - constructor.
  - rewrite <-(app_nil_r (targets tr)). apply sublist_app; [eauto|apply sublist_nil_l].
  - rewrite targets_app. apply sublist_app; eauto.
Qed.

(** What the steps never return, the sequence never returns. *)
Lemma runs_in_order_unmarked Ps tr e :
  Forall (λ P : trace → option error → Prop, ∀ t e, P t (Some e) → unmarked e) Ps →
  runs_in_order Ps tr (Some e) → unmarked e.
Proof.
  intros HF H. destruct (runs_in_order_fail _ _ _ H) as (pre&P&post&?&?&->&_&_&HP).
  apply Forall_app in HF as [_ HF]. inversion HF; eauto.
Qed.

(** A step that first reads an object it depends on. *)
Inductive with_read {k : Kind} (key : NamespacedName) (P : obj k → trace → option error → Prop) :
    trace → option error → Prop :=
  | with_read_failed f e :
      root e = Some f → with_read key P [Ev (CGet k key) (Err f)] (Some e)
  | with_read_ok o tr err :
      P o tr err → with_read key P (Ev (CGet k key) (Ok o) :: tr) err.

Lemma with_read_targets {k} key (P : obj k → trace → option error → Prop) l tr err :
  (∀ o t e, P o t e → targets t `sublist_of` l) →
  with_read key P tr err → targets tr `sublist_of` l.
Proof. intros HP [f e _|o tr' err' H]; [apply sublist_nil_l|by apply HP in H]. Qed.

Lemma with_read_unmarked {k} key (P : obj k → trace → option error → Prop) tr e :
  (∀ o t e, P o t (Some e) → unmarked e) → with_read key P tr (Some e) → unmarked e.
Proof. intros HP. inversion 1; simplify_eq; eauto with neon. Qed.

(** The program of a sequence: [if err := step; err != nil { return err }], and so on. *)
Definition runs (P : trace → option error → Prop) (tr : trace) (out : outcome (option error)) : Prop :=
  match out with Returned err => P tr err | Panicked _ => False end.

Lemma wp_runs_cons (P : trace → option error → Prop) Ps (p q : prog (option error)) :
  wp p (runs P) → wp q (runs (runs_in_order Ps)) →
  wp (if_err e := p return Ret (Some e); q) (runs (runs_in_order (P :: Ps))).
Proof.
  intros Hp Hq. eapply wp_bind_mono; [exact Hp| |done].
  intros tr [e|] HP; [apply wp_ret; rewrite app_nil_r; by apply runs_fail|].
  eapply wp_mono; [|exact Hq]. intros tr' [err|w]; [|done]. by apply runs_cons.
Qed.

(** Sequences compose. *)
Lemma runs_in_order_app Ps Qs tr tr' err :
  runs_in_order Ps tr None → runs_in_order Qs tr' err → runs_in_order (Ps ++ Qs) (tr ++ tr') err.
Proof.
  intros H HQ. remember None as e. induction H as [|P Ps tr e' HP|P Ps tr1 tr2 e' HP _ IH]; subst.
  - done.
  - done.
  - rewrite <-app_assoc. simpl. apply runs_cons; auto.
Qed.

Lemma runs_in_order_app_fail Ps Qs tr e :
  runs_in_order Ps tr (Some e) → runs_in_order (Ps ++ Qs) tr (Some e).
Proof.
  intros H. remember (Some e) as err. induction H as [|P Ps tr e' HP|P Ps tr1 tr2 e' HP _ IH]; subst.
  - done.
  - by apply runs_fail.
  - simpl. apply runs_cons; auto.
Qed.

Lemma wp_runs_app Ps Qs (p q : prog (option error)) :
  wp p (runs (runs_in_order Ps)) → wp q (runs (runs_in_order Qs)) →
  wp (if_err e := p return Ret (Some e); q) (runs (runs_in_order (Ps ++ Qs))).
Proof.
  intros Hp Hq. eapply wp_bind_mono; [exact Hp| |done].
  intros tr [e|] HP; [apply wp_ret; rewrite app_nil_r; by apply runs_in_order_app_fail|].
  eapply wp_mono; [|exact Hq]. intros tr' [err|w]; [|done]. by apply runs_in_order_app.
Qed.

Lemma wp_runs_last (P : trace → option error → Prop) (p : prog (option error)) :
  wp p (runs P) → wp p (runs (runs_in_order [P])).
Proof.
  apply wp_mono. intros tr [[e|]|w]; simpl; [|intros HP|done].
  - apply runs_fail.
  - rewrite <-(app_nil_r tr). apply runs_cons; [done|constructor].
Qed.

(** The failure of a call, wrapped by [fmt.Errorf("…: %w", err)]. *)
Definition wrapped_failure {A} (msg : string) (r : reply A) : option error :=
  match r with Ok _ => None | Err f => Some (Wrapf msg (Foreign f)) end.

(** ** [ReconcileSSA] *)

Section ReconcileSSA.
Context `{OwnerOps}.

Definition ReconcileSSA {ok k : Kind} (owner : obj ok) (intended : obj k) (drift : obj k → bool) :
    prog (option error) :=
  let kind := kind_name k in
  let name := om_Name (meta intended) in
  match SetControllerReference ok (meta owner) (meta intended) with
  | Err err => Ret (Some (Wrapf ("set controller reference for " +:+ kind +:+ " " +:+ fmt_q name) (Foreign err)))
  | Ok refs =>
      let intended := owned intended refs in
      getr ← Get k {| nn_Namespace := om_Namespace (meta intended); nn_Name := name |};
      match getr with
      | Err getErr =>
          if negb (IsNotFound getErr) then
            Ret (Some (Wrapf ("get " +:+ kind +:+ " " +:+ fmt_q name) getErr))
          else
            let_ok _ := Create k intended (Some FieldManager)
              or err return Ret (Some (Wrapf ("create " +:+ kind +:+ " " +:+ fmt_q name) err));
            Ret None
      | Ok current =>
          if negb (drift current) then Ret None
          else
            let_ok _ := Apply k intended true FieldManager
              or err return Ret (Some (Wrapf ("patch " +:+ kind +:+ " " +:+ fmt_q name) err));
            Ret None
      end
  end.

(** The calls of one child: its read, and a write of the owned object. *)
Lemma calls_ReconcileSSA (P : call → Prop) {ok k} (owner : obj ok) (intended : obj k) drift :
  P (CGet k (key_of (meta intended))) →
  (∀ refs, SetControllerReference ok (meta owner) (meta intended) = Ok refs →
     P (CCreate k (owned intended refs) (Some FieldManager)) ∧
     P (CApply k (owned intended refs) true FieldManager)) →
  calls_only P (ReconcileSSA owner intended drift).
Proof.
  intros Hget Hwrite. unfold ReconcileSSA. walk; try (by eapply Hwrite).
  unfold owned. by rewrite !meta_set_meta.
Qed.

(** What one run does, call by call and message by message: the exact trace and
    the exact error of each of the seven ways through the body. *)
Inductive ssa_run {ok k : Kind} (owner : obj ok) (intended : obj k) (drift : obj k → bool) :
    trace → option error → Prop :=
  | ssa_refused f :
      SetControllerReference ok (meta owner) (meta intended) = Err f →
      ssa_run owner intended drift []
        (Some (Wrapf ("set controller reference for " +:+ kind_name k +:+ " " +:+ fmt_q (om_Name (meta intended))) (Foreign f)))
  | ssa_unread refs f :
      SetControllerReference ok (meta owner) (meta intended) = Ok refs → fault_not_found f = false →
      ssa_run owner intended drift [Ev (CGet k (key_of (meta intended))) (Err f)]
        (Some (Wrapf ("get " +:+ kind_name k +:+ " " +:+ fmt_q (om_Name (meta intended))) (Foreign f)))
  | ssa_in_sync refs cur :
      SetControllerReference ok (meta owner) (meta intended) = Ok refs → drift cur = false →
      ssa_run owner intended drift [Ev (CGet k (key_of (meta intended))) (Ok cur)] None
  | ssa_created refs e r :
      SetControllerReference ok (meta owner) (meta intended) = Ok refs → fault_not_found e = true →
      ssa_run owner intended drift
        [Ev (CGet k (key_of (meta intended))) (Err e);
         Ev (CCreate k (owned intended refs) (Some FieldManager)) r]
        (wrapped_failure ("create " +:+ kind_name k +:+ " " +:+ fmt_q (om_Name (meta intended))) r)
  | ssa_applied refs cur r :
      SetControllerReference ok (meta owner) (meta intended) = Ok refs → drift cur = true →
      ssa_run owner intended drift
        [Ev (CGet k (key_of (meta intended))) (Ok cur);
         Ev (CApply k (owned intended refs) true FieldManager) r]
        (wrapped_failure ("patch " +:+ kind_name k +:+ " " +:+ fmt_q (om_Name (meta intended))) r).

(** Every run of the code is such a run. *)
Lemma ReconcileSSA_runs {ok k} (owner : obj ok) (intended : obj k) drift :
  wp (ReconcileSSA owner intended drift) (runs (ssa_run owner intended drift)).
Proof.
  unfold ReconcileSSA.
  destruct (SetControllerReference _ _ _) as [refs|err] eqn:Hrefs; [|by apply ssa_refused].
  unfold owned at 1 3. rewrite !meta_set_meta. cbn [om_Namespace om_Name].
  change {| nn_Namespace := om_Namespace (meta intended); nn_Name := om_Name (meta intended) |}
    with (key_of (meta intended)).
  wp_call getr. destruct getr as [cur|e]; cbn [from_env].
  - destruct (drift cur) eqn:Hd; cbn [negb].
    + wp_call r. destruct r as [w|f]; wp_steps.
      * by apply (ssa_applied owner intended drift refs cur (Ok w)).
      * by apply (ssa_applied owner intended drift refs cur (Err f)).
    + wp_steps. by eapply ssa_in_sync.
  - change (IsNotFound (Foreign e)) with (fault_not_found e).
    destruct (fault_not_found e) eqn:He; cbn [negb].
    + wp_call r. destruct r as [w|f]; wp_steps.
      * by apply (ssa_created owner intended drift refs e (Ok w)).
      * by apply (ssa_created owner intended drift refs e (Err f)).
    + wp_steps. by eapply ssa_unread.
Qed.

(** The exact runs are runs of the contract that every controller's steps share. *)
Lemma ssa_run_upserts {ok k} (owner : obj ok) (intended : obj k) drift tr err :
  ssa_run owner intended drift tr err → upserts owner intended drift tr err.
Proof.
  intros [f|refs f|refs cur|refs e [w|f]|refs cur [w|f]]; cbn [wrapped_failure].
  - by eapply upserts_refused.
  - by apply upserts_unread.
  - by apply upserts_in_sync.
  - by apply upserts_created.
  - eapply upserts_created; eauto.
  - by apply upserts_applied.
  - eapply upserts_applied; eauto.
Qed.

(** [ReconcileSSA] implements [upserts]. *)
Lemma ReconcileSSA_upserts {ok k} (owner : obj ok) (intended : obj k) drift :
  wp (ReconcileSSA owner intended drift) (runs (upserts owner intended drift)).
Proof.
  eapply wp_mono; [|apply ReconcileSSA_runs]. intros tr [err|w]; [|done]. apply ssa_run_upserts.
Qed.

(** C15. [ReconcileSSA] never panics, and [ssa_run] gives the exact trace and the
    exact error of every run, whatever the API server answers.  A refused owner
    stops it before any call, with the refusal wrapped; otherwise it reads the child
    exactly once, under its own key.  An unreadable child is returned wrapped with
    nothing written; an absent one is created; one that drifts is force-applied; one
    in sync is left alone.  What is written is the intended object with the owner's
    controller reference, under the operator's field manager, and a failed write is
    returned wrapped with the verb, the kind and the name.  Hence at most one write,
    to the child's own key, no HTTP request, and no error that asks for a requeue. *)
Theorem ReconcileSSA_contract {ok k} (owner : obj ok) (intended : obj k) drift :
  wp (ReconcileSSA owner intended drift) (λ tr out, ∃ err,
    out = Returned err ∧ ssa_run owner intended drift tr err ∧
    targets tr `sublist_of` [(k, key_of (meta intended))] ∧ requests tr = [] ∧
    (∀ e, err = Some e → unmarked e)).
Proof.
  eapply wp_mono; [|apply ReconcileSSA_runs].
  intros tr [err|w] Hrun; [|done]. cbn [runs] in Hrun.
  pose proof (ssa_run_upserts _ _ _ _ _ Hrun) as Hup. exists err. split_and!.
  - done.
  - done.
  - by eapply upserts_targets.
  - by eapply upserts_requests.
  - intros e ->. exact (upserts_unmarked _ _ _ _ _ Hup).
Qed.
End ReconcileSSA.
