(* ===== verification/StorageBroker.v ===== *)
(** * The storage broker's children: specs/storagebroker *)

From S2P Require Import Prelude GoLib KubeTypes Api.

Module storagebroker.

Definition Port : Z := 50051.

Definition Name (clusterName : string) : string := clusterName +:+ "-storage-broker".

Definition URL (clusterName : string) : string :=
  "http://" +:+ Name clusterName +:+ ":" +:+ fmt_d Port.

Definition Deployment (cluster : Cluster) : KubeTypes.Deployment :=
  let storageBrokerName := Name (om_Name (cl_Meta cluster)) in
  {| dep_Type := {| tm_APIVersion := "apps/v1"; tm_Kind := "Deployment" |};
     dep_Meta := new_meta storageBrokerName (om_Namespace (cl_Meta cluster)) ∅ ∅;
     dep_Spec :=
       {| ds_Replicas := Some 1;
          ds_Strategy := "RollingUpdate";
          ds_Selector := {[ "app.kubernetes.io/name" := storageBrokerName ]};
          ds_Template :=
            {| pt_Labels := {[ "app.kubernetes.io/name" := storageBrokerName ]};
               pt_Spec :=
                 {| ps_SecurityContext := None;
                    ps_InitContainers := [];
                    ps_Containers :=
                      [ {| ct_Name := "storage-broker";
                           ct_Image := cls_NeonImage (cl_Spec cluster);
                           ct_ImagePullPolicy := "IfNotPresent";
                           ct_Command := ["storage_broker"];
                           ct_Args := ["--listen-addr"; "0.0.0.0:" +:+ fmt_d Port];
                           ct_Ports := [ {| cp_Name := "http"; cp_ContainerPort := Port; cp_Protocol := "" |} ];
                           ct_Env := [];
                           ct_VolumeMounts := [] |} ];
                    ps_Volumes := [] |} |} |};
     dep_Conditions := [] |}.

(** The literal sets no [TypeMeta]. *)
Definition Service (cluster : Cluster) : KubeTypes.Service :=
  let name := Name (om_Name (cl_Meta cluster)) in
  {| svc_Type := no_TypeMeta;
     svc_Meta := new_meta name (om_Namespace (cl_Meta cluster)) {[ "app.kubernetes.io/name" := name ]} ∅;
     svc_Spec :=
       {| ss_ClusterIP := "";
          ss_Selector := {[ "app.kubernetes.io/name" := name ]};
          ss_Ports := [ {| sp_Name := "http"; sp_Port := Port; sp_Protocol := ""; sp_TargetPort := Port |} ] |} |}.

End storagebroker.
