(* ===== verification/StorageController.v ===== *)
(** * The storage controller's children: specs/storagecontroller *)

From S2P Require Import Prelude GoLib KubeTypes Api.

Module storagecontroller.

Definition Port : Z := 8080.

Definition Name (clusterName : string) : string := clusterName +:+ "-storage-controller".

Definition URL (clusterName : string) : string :=
  "http://" +:+ Name clusterName +:+ ":" +:+ fmt_d Port.

(** [cluster.Spec.StorageControllerDatabaseSecret] is a pointer: the literal
    panics when it is nil. *)
Definition Deployment (cluster : Cluster) : outcome KubeTypes.Deployment :=
  let storageControllerName := Name (om_Name (cl_Meta cluster)) in
  secret ← deref (cls_StorageControllerDatabaseSecret (cl_Spec cluster));
  Returned
  {| dep_Type := {| tm_APIVersion := "apps/v1"; tm_Kind := "Deployment" |};
     dep_Meta := new_meta storageControllerName (om_Namespace (cl_Meta cluster)) ∅ ∅;
     dep_Spec :=
       {| ds_Replicas := Some 1;
          ds_Strategy := "RollingUpdate";
          ds_Selector := {[ "app.kubernetes.io/name" := storageControllerName ]};
          ds_Template :=
            {| pt_Labels := {[ "app.kubernetes.io/name" := storageControllerName ]};
               pt_Spec :=
                 {| ps_SecurityContext := None;
                    ps_InitContainers := [];
                    ps_Containers :=
                      [ {| ct_Name := "storage-controller";
                           ct_Image := cls_NeonImage (cl_Spec cluster);
                           ct_ImagePullPolicy := "IfNotPresent";
                           ct_Command := ["storage_controller"];
                           ct_Args := ["--dev"; "-l"; "0.0.0.0:" +:+ fmt_d Port;
                                       "--control-plane-url"; "http://neon-controlplane:8081";
                                       "--initial-split-shards"; "0"];
                           ct_Ports := [ {| cp_Name := "http"; cp_ContainerPort := Port; cp_Protocol := "" |} ];
                           ct_Env := [ {| env_Name := "DATABASE_URL";
                                          env_Source := EnvSecretKeyRef (sks_Name secret) (sks_Key secret) |} ];
                           ct_VolumeMounts := [] |} ];
                    ps_Volumes := [] |} |} |};
     dep_Conditions := [] |}.

(** The literal sets no [TypeMeta]. *)
Definition Service (cluster : Cluster) : KubeTypes.Service :=
  let name := Name (om_Name (cl_Meta cluster)) in
  {| svc_Type := no_TypeMeta;
     svc_Meta := new_meta name (om_Namespace (cl_Meta cluster)) {[ "app.kubernetes.io/name" := name ]} ∅;
     svc_Spec :=
       {| ss_ClusterIP := "";
          ss_Selector := {[ "app.kubernetes.io/name" := name ]};
          ss_Ports := [ {| sp_Name := "http"; sp_Port := Port; sp_Protocol := ""; sp_TargetPort := Port |} ] |} |}.

End storagecontroller.
