(* ===== verification/SafekeeperRes.v ===== *)
(** * A safekeeper's children: specs/safekeeper *)

From S2P Require Import Prelude GoLib KubeTypes Api Interfaces StorageBroker.

Module safekeeper.

Definition labels (sk : Safekeeper) : smap :=
  {[ "molnett.org/cluster" := sfs_Cluster (sk_Spec sk);
     "molnett.org/component" := "safekeeper";
     "molnett.org/safekeeper" := om_Name (sk_Meta sk) ]}.

Definition selectorLabels (sk : Safekeeper) : smap :=
  {[ "molnett.org/safekeeper" := om_Name (sk_Meta sk) ]}.

Definition Name (sk : Safekeeper) : string :=
  sfs_Cluster (sk_Spec sk) +:+ "-safekeeper-" +:+ fmt_d (sfs_ID (sk_Spec sk)).

Definition HeadlessName (sk : Safekeeper) : string := Name sk +:+ "-headless".

Definition service (sk : Safekeeper) (name clusterIP : string) : KubeTypes.Service :=
  {| svc_Type := {| tm_APIVersion := "v1"; tm_Kind := "Service" |};
     svc_Meta := new_meta name (om_Namespace (sk_Meta sk)) (labels sk) ∅;
     svc_Spec :=
       {| ss_ClusterIP := clusterIP;
          ss_Selector := selectorLabels sk;
          ss_Ports :=
            [ {| sp_Name := "pg"; sp_Port := 5454; sp_Protocol := "TCP"; sp_TargetPort := 0 |};
              {| sp_Name := "http"; sp_Port := 7676; sp_Protocol := "TCP"; sp_TargetPort := 0 |} ] |} |}.

Definition Service (sk : Safekeeper) : KubeTypes.Service := service sk (Name sk) "".

Definition HeadlessService (sk : Safekeeper) : KubeTypes.Service :=
  service sk (HeadlessName sk) "None".

Definition storageVolumeName : string := "safekeeper-storage".

Definition podSpec (sk : Safekeeper) (image serviceName : string) : PodSpec :=
  {| ps_SecurityContext :=
       Some {| psc_RunAsUser := Some 1000; psc_RunAsGroup := Some 1000; psc_FSGroup := Some 1000 |};
     ps_InitContainers := [];
     ps_Containers :=
       [ {| ct_Name := "safekeeper";
            ct_Image := image;
            ct_ImagePullPolicy := "";
            ct_Command := ["/usr/local/bin/safekeeper"];
            ct_Args :=
              ["--id=" +:+ fmt_d (sfs_ID (sk_Spec sk));
               "--broker-endpoint=" +:+ storagebroker.URL (sfs_Cluster (sk_Spec sk));
               "--listen-pg=0.0.0.0:5454";
               "--listen-http=0.0.0.0:7676";
               "--advertise-pg=" +:+ serviceName +:+ ":5454";
               "--datadir"; "/data"];
            ct_Ports :=
              [ {| cp_Name := ""; cp_ContainerPort := 5454; cp_Protocol := "" |};
                {| cp_Name := ""; cp_ContainerPort := 7676; cp_Protocol := "" |} ];
            ct_Env := [];
            ct_VolumeMounts := [ {| vm_Name := storageVolumeName; vm_MountPath := "/data" |} ] |} ];
     ps_Volumes := [] |}.

Section statefulset.
Context `{QuantityOps}.

(** [resource.MustParse] panics on a size that is not a quantity. *)
Definition StatefulSet (sk : Safekeeper) (image : string) : outcome KubeTypes.StatefulSet :=
  let name := Name sk in
  let lbls := labels sk in
  size ← MustParse (stc_Size (sfs_StorageConfig (sk_Spec sk)));
  let pvc :=
    {| pvc_Name := storageVolumeName;
       pvc_Labels := lbls;
       pvc_AccessModes := ["ReadWriteOnce"];
       pvc_StorageRequest := size;
       pvc_StorageClassName := stc_StorageClass (sfs_StorageConfig (sk_Spec sk)) |} in
  Returned
  {| sts_Type := {| tm_APIVersion := "apps/v1"; tm_Kind := "StatefulSet" |};
     sts_Meta := new_meta name (om_Namespace (sk_Meta sk)) lbls ∅;
     sts_Spec :=
       {| sts_Replicas := Some 1;
          sts_ServiceName := HeadlessName sk;
          sts_Selector := selectorLabels sk;
          sts_Template := {| pt_Labels := lbls; pt_Spec := podSpec sk image name |};
          sts_VolumeClaimTemplates := [pvc] |};
     sts_ObservedGeneration := 0;
     sts_ReadyReplicas := 0 |}.
End statefulset.

End safekeeper.
