(* ===== verification/PageserverRes.v ===== *)
(** * A pageserver's children: specs/pageserver *)

From S2P Require Import Prelude GoLib KubeTypes Api Interfaces StorageBroker StorageController.

Module pageserver.

Definition labels (ps : Pageserver) : smap :=
  {[ "molnett.org/cluster" := pss_Cluster (pgs_Spec ps);
     "molnett.org/component" := "pageserver";
     "molnett.org/pageserver" := om_Name (pgs_Meta ps) ]}.

Definition selectorLabels (ps : Pageserver) : smap :=
  {[ "molnett.org/pageserver" := om_Name (pgs_Meta ps) ]}.

Definition Name (ps : Pageserver) : string :=
  pss_Cluster (pgs_Spec ps) +:+ "-pageserver-" +:+ fmt_d (pss_ID (pgs_Spec ps)).

Definition HeadlessName (ps : Pageserver) : string := Name ps +:+ "-headless".

Definition service (ps : Pageserver) (name clusterIP : string) : KubeTypes.Service :=
  {| svc_Type := {| tm_APIVersion := "v1"; tm_Kind := "Service" |};
     svc_Meta := new_meta name (om_Namespace (pgs_Meta ps)) (labels ps) ∅;
     svc_Spec :=
       {| ss_ClusterIP := clusterIP;
          ss_Selector := selectorLabels ps;
          ss_Ports :=
            [ {| sp_Name := "pg"; sp_Port := 6400; sp_Protocol := "TCP"; sp_TargetPort := 0 |};
              {| sp_Name := "http"; sp_Port := 9898; sp_Protocol := "TCP"; sp_TargetPort := 0 |} ] |} |}.

Definition Service (ps : Pageserver) : KubeTypes.Service := service ps (Name ps) "".

Definition HeadlessService (ps : Pageserver) : KubeTypes.Service :=
  service ps (HeadlessName ps) "None".

(** A key of a secret's data, as a string; a missing key reads as empty. *)
Definition secret_string (s : Secret) (key : string) : string := default "" (sec_Data s !! key).

(** [compute]: the body of pageserver.toml *)
Definition pageserverToml (ps : Pageserver) (bucketSecret : Secret) : string :=
  dq "
control_plane_api = `" +:+ storagecontroller.URL (pss_Cluster (pgs_Spec ps)) +:+ dq "/upcall/v1/`
listen_pg_addr = `0.0.0.0:6400`
listen_http_addr = `0.0.0.0:9898`
broker_endpoint = `" +:+ storagebroker.URL (pss_Cluster (pgs_Spec ps)) +:+ dq "`
pg_distrib_dir='/usr/local/'
[remote_storage]
bucket_name = `" +:+ secret_string bucketSecret "BUCKET_NAME" +:+ dq "`
bucket_region = `" +:+ secret_string bucketSecret "AWS_REGION" +:+ dq "`
prefix_in_bucket = `pageserver`
endpoint = `" +:+ secret_string bucketSecret "AWS_ENDPOINT_URL" +:+ dq "`
".

Definition ConfigMap (ps : Pageserver) (bucketSecret : Secret) : KubeTypes.ConfigMap :=
  {| cm_Type := {| tm_APIVersion := "v1"; tm_Kind := "ConfigMap" |};
     cm_Meta := new_meta (Name ps) (om_Namespace (pgs_Meta ps)) (labels ps) ∅;
     cm_Data := {[ "pageserver.toml" := pageserverToml ps bucketSecret ]} |}.

Definition storageVolumeName : string := "pageserver-storage".

(** [fmt.Sprintf(initScript, id, serviceName, namespace, serviceName, namespace)] *)
Definition initScript (id : Z) (serviceName namespace : string) : string :=
  dq "echo `id=" +:+ fmt_d id +:+ dq "` > /config/identity.toml

echo `{\`host\`:\`" +:+ serviceName +:+ "." +:+ namespace +:+ dq "\`,` \
     `\`http_host\`:\`" +:+ serviceName +:+ "." +:+ namespace +:+ dq "\`,` \
     `\`http_port\`:9898,\`port\`:6400,` \
     `\`availability_zone_id\`:\`se-ume\`}` > /config/metadata.json

cp /configmap/pageserver.toml /config/pageserver.toml
".

(** [ps.Spec.BucketCredentialsSecret] is a pointer: a nil one panics. *)
Definition bucketEnv (key : string) (ps : Pageserver) : outcome EnvVar :=
  secret ← deref (pss_BucketCredentialsSecret (pgs_Spec ps));
  Returned {| env_Name := key; env_Source := EnvSecretKeyRef (sr_Name secret) key |}.

Definition podSpec (ps : Pageserver) (image serviceName : string) : outcome PodSpec :=
  e1 ← bucketEnv "AWS_ACCESS_KEY_ID" ps;
  e2 ← bucketEnv "AWS_SECRET_ACCESS_KEY" ps;
  e3 ← bucketEnv "AWS_REGION" ps;
  e4 ← bucketEnv "BUCKET_NAME" ps;
  e5 ← bucketEnv "AWS_ENDPOINT_URL" ps;
  Returned
  {| ps_SecurityContext :=
       Some {| psc_RunAsUser := Some 1000; psc_RunAsGroup := Some 1000; psc_FSGroup := Some 1000 |};
     ps_InitContainers :=
       [ {| ct_Name := "setup-config";
            ct_Image := "busybox:latest";
            ct_ImagePullPolicy := "";
            ct_Command := ["/bin/sh"; "-c"];
            ct_Args := [initScript (pss_ID (pgs_Spec ps)) serviceName (om_Namespace (pgs_Meta ps))];
            ct_Ports := [];
            ct_Env := [];
            ct_VolumeMounts :=
              [ {| vm_Name := "pageserver-config"; vm_MountPath := "/configmap" |};
                {| vm_Name := "config"; vm_MountPath := "/config" |} ] |} ];
     ps_Containers :=
       [ {| ct_Name := "pageserver";
            ct_Image := image;
            ct_ImagePullPolicy := "Always";
            ct_Command := ["/usr/local/bin/pageserver"];
            ct_Args := [];
            ct_Ports :=
              [ {| cp_Name := ""; cp_ContainerPort := 6400; cp_Protocol := "" |};
                {| cp_Name := ""; cp_ContainerPort := 9898; cp_Protocol := "" |} ];
            ct_Env :=
              [ {| env_Name := "RUST_LOG"; env_Source := EnvValue "debug" |};
                {| env_Name := "DEFAULT_PG_VERSION"; env_Source := EnvValue "16" |};
                e1; e2; e3; e4; e5 ];
            ct_VolumeMounts :=
              [ {| vm_Name := storageVolumeName; vm_MountPath := "/data/.neon/tenants" |};
                {| vm_Name := "config"; vm_MountPath := "/data/.neon" |} ] |} ];
     ps_Volumes :=
       [ {| vol_Name := "pageserver-config"; vol_Source := VolumeConfigMap serviceName |};
         {| vol_Name := "config"; vol_Source := VolumeEmptyDir None |} ] |}.

Section statefulset.
Context `{QuantityOps}.

(** [resource.MustParse] panics on a size that is not a quantity. *)
Definition StatefulSet (ps : Pageserver) (image : string) : outcome KubeTypes.StatefulSet :=
  let name := Name ps in
  let lbls := labels ps in
  size ← MustParse (stc_Size (pss_StorageConfig (pgs_Spec ps)));
  let pvc :=
    {| pvc_Name := storageVolumeName;
       pvc_Labels := lbls;
       pvc_AccessModes := ["ReadWriteOnce"];
       pvc_StorageRequest := size;
       pvc_StorageClassName := stc_StorageClass (pss_StorageConfig (pgs_Spec ps)) |} in
  pod ← podSpec ps image name;
  Returned
  {| sts_Type := {| tm_APIVersion := "apps/v1"; tm_Kind := "StatefulSet" |};
     sts_Meta := new_meta name (om_Namespace (pgs_Meta ps)) lbls ∅;
     sts_Spec :=
       {| sts_Replicas := Some 1;
          sts_ServiceName := HeadlessName ps;
          sts_Selector := selectorLabels ps;
          sts_Template := {| pt_Labels := lbls; pt_Spec := pod |};
          sts_VolumeClaimTemplates := [pvc] |};
     sts_ObservedGeneration := 0;
     sts_ReadyReplicas := 0 |}.
End statefulset.

End pageserver.
