(* ===== verification/ComputeRes.v ===== *)
(** * A branch's children: specs/compute/{configmap,deployment,service}.go *)

From S2P Require Import Prelude GoLib GoJson KubeTypes Api Interfaces Reference Prog Jwt.

Module compute.

Section configmap.
Context `{CryptoOps}.

(** [json.Marshal(spec)] of the two-field local struct *)
Definition specJSON (jwk : JWK) : string :=
  json_print
    (JObj [("format_version", JStr "1.0");
           ("compute_ctl_config", JObj [("jwks", JWKResponse_json {| Keys := [jwk] |})])]).

Definition ConfigMap (branch : Branch) (project : Project) (jwtSecret : Secret) :
    result KubeTypes.ConfigMap :=
  jwtManager ← NewJWTManagerFromSecret jwtSecret;
  let jwk := ToJWK jwtManager in
  Ok {| cm_Type := {| tm_APIVersion := "v1"; tm_Kind := "ConfigMap" |};
        cm_Meta :=
          new_meta (om_Name (br_Meta branch) +:+ "-compute-spec") (om_Namespace (br_Meta branch))
            {[ "molnett.org/cluster" := prs_ClusterName (pr_Spec project);
               "molnett.org/component" := "compute";
               "molnett.org/branch" := om_Name (br_Meta branch) ]} ∅;
        cm_Data := {[ "spec.json" := specJSON jwk ]} |}.

Lemma ConfigMap_key branch project jwtSecret cm :
  ConfigMap branch project jwtSecret = Ok cm →
  key_of (cm_Meta cm) = {| nn_Namespace := om_Namespace (br_Meta branch);
                           nn_Name := om_Name (br_Meta branch) +:+ "-compute-spec" |}.
Proof.
  unfold ConfigMap. destruct (NewJWTManagerFromSecret _); [|done]. by intros [= <-].
Qed.

Lemma ConfigMap_unmarked branch project jwtSecret e :
  ConfigMap branch project jwtSecret = Err e → unmarked e.
Proof.
  unfold ConfigMap. destruct (NewJWTManagerFromSecret _) as [m|e'] eqn:He; [done|].
  intros [= <-]. by eapply NewJWTManagerFromSecret_unmarked.
Qed.
End configmap.

Section deployment.
Context `{QuantityOps}.

Definition Deployment (branch : Branch) (project : Project) : outcome KubeTypes.Deployment :=
  let name := om_Name (br_Meta branch) in
  let deploymentName := name +:+ "-compute-node" in
  let labels : smap :=
    {[ "app" := deploymentName;
       "molnett.org/cluster" := prs_ClusterName (pr_Spec project);
       "molnett.org/component" := "compute";
       "molnett.org/branch" := name;
       "neon.tenant_id" := prs_TenantID (pr_Spec project);
       "neon.timeline_id" := brs_TimelineID (br_Spec branch) ]} in
  let annotations : smap :=
    {[ "neon.compute_id" := name;
       "neon.cluster_name" := prs_ClusterName (pr_Spec project) ]} in
  limit ← MustParse "500Mi";
  Returned
  {| dep_Type := {| tm_APIVersion := "apps/v1"; tm_Kind := "Deployment" |};
     dep_Meta := new_meta deploymentName (om_Namespace (br_Meta branch)) labels annotations;
     dep_Spec :=
       {| ds_Replicas := Some 1;
          ds_Strategy := "";
          ds_Selector := labels;
          ds_Template :=
            {| pt_Labels := labels;
               pt_Spec :=
                 {| ps_SecurityContext :=
                      Some {| psc_RunAsUser := Some 1000; psc_RunAsGroup := None; psc_FSGroup := Some 1000 |};
                    ps_InitContainers := [];
                    ps_Containers :=
                      [ {| ct_Name := "compute-node";
                           ct_Image := "neondatabase/compute-node-v" +:+ fmt_d (brs_PGVersion (br_Spec branch));
                           ct_ImagePullPolicy := "";
                           ct_Command :=
                             ["bash"; "-c";
                              dq "echo `$INITIAL_SPEC_JSON` > /var/spec.json && " +:+
                              "/usr/local/bin/compute_ctl --pgdata /.neon/data/pgdata " +:+
                              "--connstr=postgresql://cloud_admin:@0.0.0.0:55433/postgres " +:+
                              "--compute-id " +:+ name +:+ " -p http://neon-controlplane.neon:8081 " +:+
                              "--pgbin /usr/local/bin/postgres"];
                           ct_Args := [];
                           ct_Ports := [ {| cp_Name := ""; cp_ContainerPort := 55433; cp_Protocol := "TCP" |} ];
                           ct_Env :=
                             [ {| env_Name := "OTEL_SDK_DISABLED"; env_Source := EnvValue "true" |};
                               {| env_Name := "INITIAL_SPEC_JSON";
                                  env_Source := EnvConfigMapKeyRef (name +:+ "-compute-spec") "spec.json" |} ];
                           ct_VolumeMounts :=
                             [ {| vm_Name := "spec-volume"; vm_MountPath := "/var" |};
                               {| vm_Name := "pgdata"; vm_MountPath := "/.neon/data" |} ] |} ];
                    ps_Volumes :=
                      [ {| vol_Name := "spec-volume"; vol_Source := VolumeEmptyDir None |};
                        {| vol_Name := "pgdata"; vol_Source := VolumeEmptyDir (Some limit) |} ] |} |} |};
     dep_Conditions := [] |}.

Lemma Deployment_returns `{!QuantityLaws} branch project :
  ∃ d, Deployment branch project = Returned d ∧
    key_of (dep_Meta d) = {| nn_Namespace := om_Namespace (br_Meta branch);
                             nn_Name := om_Name (br_Meta branch) +:+ "-compute-node" |}.
Proof.
  destruct parse_500Mi as [q Hq]. unfold Deployment, MustParse. rewrite Hq. by eexists.
Qed.
End deployment.

Record ServiceConfig := {
  Suffix : string;
  Component : string;
  PortName : string;
  Port : Z;
}.

Definition createService (branch : Branch) (project : Project) (config : ServiceConfig) :
    KubeTypes.Service :=
  let name := om_Name (br_Meta branch) in
  let serviceName := name +:+ "-" +:+ Suffix config in
  let labels : smap :=
    {[ "molnett.org/cluster" := prs_ClusterName (pr_Spec project);
       "molnett.org/component" := Component config;
       "molnett.org/branch" := name;
       "neon.timeline_id" := brs_TimelineID (br_Spec branch);
       "neon.tenant_id" := prs_TenantID (pr_Spec project) ]} in
  {| svc_Type := {| tm_APIVersion := "v1"; tm_Kind := "Service" |};
     svc_Meta := new_meta serviceName (om_Namespace (br_Meta branch)) labels ∅;
     svc_Spec :=
       {| ss_ClusterIP := "";
          ss_Selector := {[ "app" := name +:+ "-compute-node" ]};
          ss_Ports :=
            [ {| sp_Name := PortName config; sp_Port := Port config; sp_Protocol := "TCP";
                 sp_TargetPort := Port config |} ] |} |}.

Definition AdminService (branch : Branch) (project : Project) : KubeTypes.Service :=
  createService branch project
    {| Suffix := "admin"; Component := "compute-admin"; PortName := "admin"; Port := 3080 |}.

Definition PostgresService (branch : Branch) (project : Project) : KubeTypes.Service :=
  createService branch project
    {| Suffix := "postgres"; Component := "compute-postgres"; PortName := "postgres"; Port := 55433 |}.

End compute.
