(* ===== verification/Naming.v ===== *)
(** * The names of the Services

    Every Service the operator creates, in one table, with the proof that the names
    computed in specs/ never collide: a Service belongs to one component of one
    cluster, or to one branch. *)

From S2P Require Import Prelude GoLib KubeTypes Api Interfaces StorageBroker StorageController.
From S2P Require Import Server SafekeeperRes PageserverRes ComputeRes.

(** Who a Service belongs to. *)
Inductive exposed :=
  | ExSafekeeper (cluster : string) (id : Z)
  | ExSafekeeperHeadless (cluster : string) (id : Z)
  | ExPageserver (cluster : string) (id : Z)
  | ExPageserverHeadless (cluster : string) (id : Z)
  | ExBroker (cluster : string)
  | ExController (cluster : string)
  | ExAdmin (branch : string)
  | ExPostgres (branch : string).

(** The Services of each resource, by owner. *)
Definition safekeeper_services (sk : Safekeeper) : list (exposed * Service) :=
  let c := sfs_Cluster (sk_Spec sk) in
  let id := sfs_ID (sk_Spec sk) in
  [ (ExSafekeeper c id, safekeeper.Service sk); (ExSafekeeperHeadless c id, safekeeper.HeadlessService sk) ].
Definition pageserver_services (ps : Pageserver) : list (exposed * Service) :=
  let c := pss_Cluster (pgs_Spec ps) in
  let id := pss_ID (pgs_Spec ps) in
  [ (ExPageserver c id, pageserver.Service ps); (ExPageserverHeadless c id, pageserver.HeadlessService ps) ].
Definition cluster_services (cl : Cluster) : list (exposed * Service) :=
  [ (ExBroker (om_Name (cl_Meta cl)), storagebroker.Service cl);
    (ExController (om_Name (cl_Meta cl)), storagecontroller.Service cl) ].
Definition branch_services (b : Branch) (p : Project) : list (exposed * Service) :=
  [ (ExAdmin (om_Name (br_Meta b)), compute.AdminService b p);
    (ExPostgres (om_Name (br_Meta b)), compute.PostgresService b p) ].

(** What an owner is made of that the API bounds: an unsigned id. *)
Definition exposed_ok (e : exposed) : Prop :=
  match e with
  | ExSafekeeper _ id | ExSafekeeperHeadless _ id | ExPageserver _ id | ExPageserverHeadless _ id => 0 ≤ id
  | _ => True
  end.

(** A name, cut at its last dash. *)
Definition stem (e : exposed) : string :=
  match e with
  | ExSafekeeper c _ => c +:+ "-safekeeper"
  | ExSafekeeperHeadless c id => c +:+ "-safekeeper-" +:+ fmt_d id
  | ExPageserver c _ => c +:+ "-pageserver"
  | ExPageserverHeadless c id => c +:+ "-pageserver-" +:+ fmt_d id
  | ExBroker c | ExController c => c +:+ "-storage"
  | ExAdmin b | ExPostgres b => b
  end.

Definition last_piece (e : exposed) : string :=
  match e with
  | ExSafekeeper _ id | ExPageserver _ id => fmt_d id
  | ExSafekeeperHeadless _ _ | ExPageserverHeadless _ _ => "headless"
  | ExBroker _ => "broker"
  | ExController _ => "controller"
  | ExAdmin _ => "admin"
  | ExPostgres _ => "postgres"
  end.

Definition exposed_name (e : exposed) : string := stem e +:+ String "-" (last_piece e).

Lemma last_piece_no_dash e :
  exposed_ok e → string_all (λ x, negb (Ascii.eqb x "-")) (last_piece e) = true.
Proof.
  destruct e; intros Hok; try done; apply all_digits_no_byte; try done; by apply fmt_d_digits.
Qed.

Lemma fmt_d_not_word z w : 0 ≤ z → fmt_d z = w → all_digits w = false → False.
Proof. intros Hz Heq Hw. rewrite <-Heq, fmt_d_digits in Hw; done. Qed.

(** Stems with different last pieces cannot be equal: the suffixes disagree. *)
Lemma stem_suffix_ne (a b s t : string) :
  String.length s = String.length t → s ≠ t → a +:+ s ≠ b +:+ t.
Proof. intros Hl Hne Heq. by apply (string_app_inj_len _ _ _ _ Hl) in Heq as [_ ?]. Qed.

Lemma id_stem_inj (w w' c c' : string) (id id' : Z) :
  0 ≤ id → 0 ≤ id' →
  c +:+ w +:+ String "-" (fmt_d id) = c' +:+ w' +:+ String "-" (fmt_d id') →
  c +:+ w = c' +:+ w' ∧ id = id'.
Proof.
  intros Hid Hid' Heq. rewrite <-!string_app_assoc in Heq.
  apply string_last_split in Heq as [Hs Hd].
  - split; [done|by apply fmt_d_inj].
  - by apply all_digits_no_byte, fmt_d_digits.
  - by apply all_digits_no_byte, fmt_d_digits.
Qed.

(** Two decimal ids under two words of the same length: words and ids agree. *)
Lemma headless_stem_inj w c c' id id' :
  0 ≤ id → 0 ≤ id' → c +:+ w +:+ "-" +:+ fmt_d id = c' +:+ w +:+ "-" +:+ fmt_d id' → c = c' ∧ id = id'.
Proof.
  intros Hid Hid' Heq. apply (id_stem_inj w w) in Heq as [Hs ->]; [|done..].
  by apply string_app_inj_r in Hs as ->.
Qed.

Lemma exposed_name_inj e e' :
  exposed_ok e → exposed_ok e' → exposed_name e = exposed_name e' → e = e'.
Proof.
  intros He He' Heq. unfold exposed_name in Heq.
  apply string_last_split in Heq as [Hs Hl]; [|by apply last_piece_no_dash..].
  destruct e, e'; cbn [stem last_piece exposed_ok] in *;
    try (exfalso; exact (fmt_d_not_word _ _ He Hl eq_refl));
    try (exfalso; exact (fmt_d_not_word _ _ He' (eq_sym Hl) eq_refl));
    try discriminate Hl;
    try (by apply stem_suffix_ne in Hs);
    try (apply string_app_inj_r in Hs as ->; by rewrite ?(fmt_d_inj _ _ Hl));
    try (by subst).
  - by apply (headless_stem_inj "-safekeeper") in Hs as [-> ->].
  - exfalso. apply (id_stem_inj "-safekeeper" "-pageserver") in Hs as [Hs _]; [|done..].
    by apply stem_suffix_ne in Hs.
  - exfalso. apply (id_stem_inj "-pageserver" "-safekeeper") in Hs as [Hs _]; [|done..].
    by apply stem_suffix_ne in Hs.
  - by apply (headless_stem_inj "-pageserver") in Hs as [-> ->].
Qed.

(** ** Services and the Pods behind them *)

(** A selector selects a Pod template when the template has all of its labels. *)
Definition selects (sel : smap) (t : PodTemplateSpec) : Prop := sel ⊆ pt_Labels t.

(** The port of the Pod a Service port leads to. *)
Definition target_port (p : ServicePort) : Z :=
  if decide (sp_TargetPort p = 0) then sp_Port p else sp_TargetPort p.

Definition container_ports (p : PodSpec) : list Z :=
  c ← ps_Containers p; map cp_ContainerPort (ct_Ports c).

(** Every port of the Service leads to a port a container of the Pod declares. *)
Definition reaches (svc : Service) (t : PodTemplateSpec) : Prop :=
  selects (ss_Selector (svc_Spec svc)) t ∧
  Forall (λ p, target_port p ∈ container_ports (pt_Spec t)) (ss_Ports (svc_Spec svc)).

(** Every mount names a volume of the Pod or a claim of the StatefulSet. *)
Definition mounted (p : PodSpec) (claims : list string) : Prop :=
  Forall (λ c, Forall (λ m, vm_Name m ∈ map vol_Name (ps_Volumes p) ++ claims) (ct_VolumeMounts c))
    (ps_InitContainers p ++ ps_Containers p).

(** What the API server and the kubelet need of a StatefulSet and its Services. *)
Definition sts_wired (sts : StatefulSet) (services : list (exposed * Service)) : Prop :=
  let t := sts_Template (sts_Spec sts) in
  selects (sts_Selector (sts_Spec sts)) t ∧
  Forall (λ es, om_Name (svc_Meta es.2) = exposed_name es.1 ∧
                om_Namespace (svc_Meta es.2) = om_Namespace (sts_Meta sts) ∧ reaches es.2 t) services ∧
  (∃ es, es ∈ services ∧ om_Name (svc_Meta es.2) = sts_ServiceName (sts_Spec sts) ∧
         ss_ClusterIP (svc_Spec es.2) = "None") ∧
  mounted (pt_Spec t) (map pvc_Name (sts_VolumeClaimTemplates (sts_Spec sts))).

(** The names computed in specs/ are those of the table. *)
Lemma safekeeper_name sk :
  safekeeper.Name sk = exposed_name (ExSafekeeper (sfs_Cluster (sk_Spec sk)) (sfs_ID (sk_Spec sk))).
Proof. unfold exposed_name. cbn [stem last_piece]. by rewrite string_app_assoc. Qed.
Lemma safekeeper_headless_name sk :
  safekeeper.HeadlessName sk = exposed_name (ExSafekeeperHeadless (sfs_Cluster (sk_Spec sk)) (sfs_ID (sk_Spec sk))).
Proof. done. Qed.
Lemma pageserver_name ps :
  pageserver.Name ps = exposed_name (ExPageserver (pss_Cluster (pgs_Spec ps)) (pss_ID (pgs_Spec ps))).
Proof. unfold exposed_name. cbn [stem last_piece]. by rewrite string_app_assoc. Qed.
Lemma pageserver_headless_name ps :
  pageserver.HeadlessName ps = exposed_name (ExPageserverHeadless (pss_Cluster (pgs_Spec ps)) (pss_ID (pgs_Spec ps))).
Proof. done. Qed.
Lemma broker_name c : storagebroker.Name c = exposed_name (ExBroker c).
Proof. unfold exposed_name. cbn [stem last_piece]. by rewrite string_app_assoc. Qed.
Lemma controller_name c : storagecontroller.Name c = exposed_name (ExController c).
Proof. unfold exposed_name. cbn [stem last_piece]. by rewrite string_app_assoc. Qed.
(** A Service the operator builds, and whose it is. *)
Definition builds (e : exposed) (svc : Service) : Prop :=
  (∃ sk, 0 ≤ sfs_ID (sk_Spec sk) ∧ (e, svc) ∈ safekeeper_services sk) ∨
  (∃ ps, 0 ≤ pss_ID (pgs_Spec ps) ∧ (e, svc) ∈ pageserver_services ps) ∨
  (∃ cl, (e, svc) ∈ cluster_services cl) ∨
  (∃ b p, (e, svc) ∈ branch_services b p).

Lemma builds_name e svc : builds e svc → exposed_ok e ∧ om_Name (svc_Meta svc) = exposed_name e.
Proof.
  intros [(sk&Hid&Hin)|[(ps&Hid&Hin)|[(cl&Hin)|(b&p&Hin)]]];
    repeat (apply elem_of_cons in Hin as [[= -> ->]|Hin]); try (by apply elem_of_nil in Hin);
    (split; [done|]).
  - apply safekeeper_name.
  - done.
  - apply pageserver_name.
  - done.
  - apply broker_name.
  - apply controller_name.
  - done.
  - done.
Qed.

(** C35. The name of a Service tells whose it is: no two Services of different owners
    (components of different kinds, different clusters, different ids, plain and
    headless, different branches) share a name, whatever the names of the clusters
    and branches are, dashes and digits included. *)
Theorem service_names_distinct e svc e' svc' :
  builds e svc → builds e' svc' → om_Name (svc_Meta svc) = om_Name (svc_Meta svc') → e = e'.
Proof.
  intros [Hok Hn]%builds_name [Hok' Hn']%builds_name Heq.
  apply exposed_name_inj; [done|done|]. by rewrite <-Hn, <-Hn'.
Qed.

Ltac select_labels := apply map_singleton_subseteq_l; by simplify_map_eq.
Ltac member := repeat first [left; done | right].
(** The clause of one Service: its name, its namespace, its selector and its ports. *)
Ltac one_service ports :=
  split_and!;
  [ first [ apply safekeeper_name | apply safekeeper_headless_name | apply pageserver_name
          | apply pageserver_headless_name | apply broker_name | apply controller_name | done ]
  | done
  | select_labels
  | change (container_ports _) with ports; apply List.Forall_forall; intros p Hp; cbn in Hp;
    destruct_or! Hp; subst p; member ].

(** A Deployment and a Service in front of it. *)
Definition dep_wired (d : Deployment) (es : exposed * Service) : Prop :=
  let t := ds_Template (dep_Spec d) in
  selects (ds_Selector (dep_Spec d)) t ∧
  om_Name (svc_Meta es.2) = exposed_name es.1 ∧
  om_Namespace (svc_Meta es.2) = om_Namespace (dep_Meta d) ∧ reaches es.2 t ∧
  mounted (pt_Spec t) [].

Ltac one_deployment ports :=
  unfold dep_wired, reaches, mounted, selects;
  cbn [dep_Spec ds_Template ds_Selector dep_Meta pt_Labels pt_Spec];
  split_and!;
  [ reflexivity
  | first [ apply broker_name | apply controller_name | done ]
  | done
  | select_labels
  | change (container_ports _) with ports; apply List.Forall_forall; intros q Hq; cbn in Hq;
    destruct_or! Hq; subst q; member
  | repeat constructor; member ].

Section wiring.
Context `{QuantityOps}.

(** The children of a Safekeeper fit together: the StatefulSet selects the Pods it
    makes, both Services select them too, carry the names of the naming table in the
    namespace of the StatefulSet and lead to declared ports, the governing Service
    the StatefulSet names is the headless one, and every mounted volume exists. *)
Theorem safekeeper_wired sk image sts :
  safekeeper.StatefulSet sk image = Returned sts → sts_wired sts (safekeeper_services sk).
Proof.
  unfold safekeeper.StatefulSet. destruct (MustParse _) as [size|]; [|done]. intros [= <-].
  unfold sts_wired, reaches, mounted, selects.
  cbn [sts_Spec sts_Template sts_Selector sts_ServiceName sts_VolumeClaimTemplates sts_Meta pt_Labels pt_Spec].
  split_and!.
  - select_labels.
  - apply List.Forall_cons; [|apply List.Forall_cons; [|apply List.Forall_nil]]; one_service [5454; 7676].
  - exists (ExSafekeeperHeadless (sfs_Cluster (sk_Spec sk)) (sfs_ID (sk_Spec sk)), safekeeper.HeadlessService sk).
    split_and!; [member|done|done].
  - repeat constructor; member.
Qed.

(** The same for a Pageserver, whose Pod also mounts its ConfigMap. *)
Theorem pageserver_wired ps image sts :
  pageserver.StatefulSet ps image = Returned sts → sts_wired sts (pageserver_services ps).
Proof.
  unfold pageserver.StatefulSet, pageserver.podSpec, pageserver.bucketEnv.
  destruct (MustParse _) as [size|]; [|done]. cbn [mbind outcome_bind].
  destruct (pss_BucketCredentialsSecret _) as [ref|]; [|done]. intros [= <-].
  unfold sts_wired, reaches, mounted, selects.
  cbn [sts_Spec sts_Template sts_Selector sts_ServiceName sts_VolumeClaimTemplates sts_Meta pt_Labels pt_Spec].
  split_and!.
  - select_labels.
  - apply List.Forall_cons; [|apply List.Forall_cons; [|apply List.Forall_nil]]; one_service [6400; 9898].
  - exists (ExPageserverHeadless (pss_Cluster (pgs_Spec ps)) (pss_ID (pgs_Spec ps)), pageserver.HeadlessService ps).
    split_and!; [member|done|done].
  - repeat constructor; member.
Qed.

(** The storage broker and the storage controller are each behind the Service of the
    same name, which selects their Pods, and so is a compute node behind the postgres
    Service of its branch; its admin Service selects it too (its port 3080 is not
    declared by the container). *)
Theorem cluster_and_branch_wired cl b p scDep dep :
  storagecontroller.Deployment cl = Returned scDep → compute.Deployment b p = Returned dep →
  dep_wired (storagebroker.Deployment cl) (ExBroker (om_Name (cl_Meta cl)), storagebroker.Service cl) ∧
  dep_wired scDep (ExController (om_Name (cl_Meta cl)), storagecontroller.Service cl) ∧
  dep_wired dep (ExPostgres (om_Name (br_Meta b)), compute.PostgresService b p) ∧
  om_Name (svc_Meta (compute.AdminService b p)) = exposed_name (ExAdmin (om_Name (br_Meta b))) ∧
  selects (ss_Selector (svc_Spec (compute.AdminService b p))) (ds_Template (dep_Spec dep)).
Proof.
  unfold storagecontroller.Deployment, compute.Deployment.
  destruct (cls_StorageControllerDatabaseSecret _) as [s|]; [|done]. intros [= <-].
  destruct (MustParse _) as [size|]; [|done]. intros [= <-].
  split_and!.
  - one_deployment [50051].
  - one_deployment [8080].
  - one_deployment [55433].
  - done.
  - select_labels.
Qed.
End wiring.

(** ** Examples *)

Section examples.
Import RefInstances.

Lemma service_names_distinct_witness :
  let sk := Samples.safekeeper_with "10Gi" in
  om_Name (svc_Meta (safekeeper.Service sk)) ≠ om_Name (svc_Meta (pageserver.Service Samples.pageserver)).
Proof.
  intros sk H.
  apply (service_names_distinct (ExSafekeeper "prod" 1) (safekeeper.Service sk)
    (ExPageserver "prod" 1) (pageserver.Service Samples.pageserver)) in H.
  - discriminate H.
  - left. exists sk. split; [vm_compute; congruence|by left].
  - right; left. exists Samples.pageserver. split; [vm_compute; congruence|by left].
Defined.

Lemma safekeeper_wired_witness :
  ∃ sts, safekeeper.StatefulSet (Samples.safekeeper_with "10Gi") "neon:1" = Returned sts ∧
    sts_wired sts (safekeeper_services (Samples.safekeeper_with "10Gi")).
Proof.
  eexists. split; [reflexivity|].
  exact (safekeeper_wired (Samples.safekeeper_with "10Gi") "neon:1" _ eq_refl).
Defined.

Lemma pageserver_wired_witness :
  ∃ sts, pageserver.StatefulSet Samples.pageserver "neon:1" = Returned sts ∧
    sts_wired sts (pageserver_services Samples.pageserver).
Proof.
  eexists. split; [reflexivity|]. exact (pageserver_wired Samples.pageserver "neon:1" _ eq_refl).
Defined.

Lemma cluster_and_branch_wired_witness :
  let b := Samples.branch_with "0badbeef" in
  let p := Samples.project_with "0badcafe" in
  ∃ scDep dep,
    dep_wired (storagebroker.Deployment Samples.cluster) (ExBroker "prod", storagebroker.Service Samples.cluster) ∧
    dep_wired scDep (ExController "prod", storagecontroller.Service Samples.cluster) ∧
    dep_wired dep (ExPostgres "main", compute.PostgresService b p) ∧
    om_Name (svc_Meta (compute.AdminService b p)) = exposed_name (ExAdmin "main") ∧
    selects (ss_Selector (svc_Spec (compute.AdminService b p))) (ds_Template (dep_Spec dep)).
Proof.
  do 2 eexists.
  exact (cluster_and_branch_wired Samples.cluster (Samples.branch_with "0badbeef")
    (Samples.project_with "0badcafe") _ _ eq_refl eq_refl).
Defined.
End examples.
