(* ===== verification/Shard.v ===== *)
(** * Shard indices: the first part of specs/compute/spec.go

    A shard number and a shard count, both [uint8], written as four hexadecimal
    digits; the codec is used as a JSON string and as a map key. *)

From S2P Require Import Prelude GoLib GoJson JsonParse JsonDecode.

Record ShardIndex := { ShardNumber : Z; ShardCount : Z }.

#[export] Instance ShardIndex_eq_dec : EqDecision ShardIndex.
Proof. solve_decision. Defined.

(** The fields are [uint8]. *)
Definition uint8 (z : Z) : Prop := 0 ≤ z < 256.
Definition shard_ok (s : ShardIndex) : Prop := uint8 (ShardNumber s) ∧ uint8 (ShardCount s).

(** Conversion to [uint8] keeps the low byte. *)
Definition to_uint8 (z : Z) : Z := z mod 256.

Definition uint8_byte (z : Z) : ascii := ascii_of_N (Z.to_N z).
Definition byte_uint8 (c : ascii) : Z := Z.of_N (N_of_ascii c).

(** [fmt.Sprintf("%02x%02x", s.ShardNumber, s.ShardCount)] *)
Definition ShardIndex_String (s : ShardIndex) : string :=
  fmt_02x (uint8_byte (ShardNumber s)) +:+ fmt_02x (uint8_byte (ShardCount s)).

Definition ShardIndex_MarshalJSON (s : ShardIndex) : string :=
  json_print (JStr (ShardIndex_String s)).

(** The new value of the receiver.  Indexing the decoded bytes panics when they are
    too few. *)
Definition ShardIndex_UnmarshalJSON (data : string) : outcome (result ShardIndex) :=
  match Unmarshal dec_string "" data with
  | Err err => Returned (Err err)
  | Ok str =>
      if decide (String.length str ≠ 4%nat)
      then Returned (Err (Errorf ("invalid shard index string length: " +:+
                                  fmt_d (Z.of_nat (String.length str)))))
      else
        match hex_DecodeString str with
        | Err err => Returned (Err err)
        | Ok (String a (String b _)) =>
            Returned (Ok {| ShardNumber := byte_uint8 a; ShardCount := byte_uint8 b |})
        | Ok _ => Panicked "index out of range"
        end
  end.

(** The text is put between quotes as it is. *)
Definition ParseShardIndex (s : string) : outcome (result ShardIndex) :=
  ShardIndex_UnmarshalJSON (dquote +:+ s +:+ dquote).

(** ** Properties *)

Lemma byte_uint8_byte z : uint8 z → byte_uint8 (uint8_byte z) = z.
Proof.
  intros Hz. unfold byte_uint8, uint8_byte. rewrite N_ascii_embedding; unfold uint8 in *; lia.
Qed.

Lemma ShardIndex_String_hex s :
  ShardIndex_String s =
  hex_EncodeToString (String (uint8_byte (ShardNumber s)) (String (uint8_byte (ShardCount s)) "")).
Proof. done. Qed.

Lemma lower_hex_ascii7 c : is_lower_hex c = true → ascii7 c = true.
Proof. destruct c as [[][][][][][][][]]; intros H; try discriminate H; reflexivity. Qed.

Lemma lower_hex_plain c : is_lower_hex c = true → json_plain c = true.
Proof. destruct c as [[][][][][][][][]]; intros H; try discriminate H; reflexivity. Qed.

Lemma string_all_impl (p q : ascii → bool) s :
  (∀ c, p c = true → q c = true) → string_all p s = true → string_all q s = true.
Proof.
  intros Hpq. induction s as [|c s IH]; [done|]. cbn. intros [Hc Hs]%andb_true_iff.
  by rewrite (Hpq _ Hc), IH.
Qed.

Lemma Unmarshal_string s :
  string_all ascii7 s = true → Unmarshal dec_string "" (json_print (JStr s)) = Ok s.
Proof.
  intros Hs. unfold Unmarshal, json_parse. rewrite <-(string_app_nil_r (json_print _)).
  by rewrite (scan_print (JStr s)).
Qed.

Lemma UnmarshalJSON_hex s :
  shard_ok s → ShardIndex_UnmarshalJSON (json_print (JStr (ShardIndex_String s))) = Returned (Ok s).
Proof.
  intros [Hn Hc]. unfold ShardIndex_UnmarshalJSON.
  rewrite Unmarshal_string
    by (eapply string_all_impl; [apply lower_hex_ascii7|rewrite ShardIndex_String_hex; apply hex_encode_lower]).
  rewrite decide_False by (rewrite ShardIndex_String_hex, hex_encode_length; by intros []).
  rewrite ShardIndex_String_hex, hex_decode_encode, !byte_uint8_byte by done. by destruct s.
Qed.

(** C36. A shard index survives both of its codecs: the JSON it marshals to unmarshals to
    it, and the text [String] prints parses to it. *)
Theorem ShardIndex_roundtrip s :
  shard_ok s →
  ShardIndex_UnmarshalJSON (ShardIndex_MarshalJSON s) = Returned (Ok s) ∧
  ParseShardIndex (ShardIndex_String s) = Returned (Ok s).
Proof.
  intros Hs. split; [by apply UnmarshalJSON_hex|].
  unfold ParseShardIndex. rewrite <-(UnmarshalJSON_hex s Hs). cbn [json_print].
  rewrite json_string_plain; [done|].
  eapply string_all_impl; [apply lower_hex_plain|rewrite ShardIndex_String_hex; apply hex_encode_lower].
Qed.

Lemma ShardIndex_roundtrip_witness :
  let s := {| ShardNumber := 10; ShardCount := 255 |} in
  ShardIndex_String s = "0aff" ∧ ShardIndex_UnmarshalJSON (ShardIndex_MarshalJSON s) = Returned (Ok s) ∧
  ParseShardIndex (ShardIndex_String s) = Returned (Ok s).
Proof.
  split; [reflexivity|]. apply (ShardIndex_roundtrip {| ShardNumber := 10; ShardCount := 255 |}).
  split; split; vm_compute; congruence.
Defined.

Lemma hex_decode_length s r : hex_DecodeString s = Ok r → String.length s = (2 * String.length r)%nat.
Proof.
  revert r. induction s as [s IH] using (induction_ltof1 _ String.length); unfold ltof in IH.
  intros r. destruct s as [|a [|b s]]; cbn [hex_DecodeString].
  - by intros [= <-].
  - by destruct (hex_value a).
  - destruct (hex_value a) as [x|]; [|done]. destruct (hex_value b) as [y|]; [|done].
    destruct (hex_DecodeString s) as [r'|] eqn:Hr; [|done]. intros [= <-].
    cbn [String.length]. rewrite (IH s) with (r := r') by (done || simpl; lia). lia.
Qed.

(** C37. Whatever the bytes, [UnmarshalJSON] and [ParseShardIndex] return: the two index
    expressions are in range, a result has both fields in [uint8], and only a JSON
    string of four hexadecimal digits (of either case) gives one. *)
Theorem ShardIndex_UnmarshalJSON_total data :
  (∃ e, ShardIndex_UnmarshalJSON data = Returned (Err e)) ∨
  (∃ s str r, ShardIndex_UnmarshalJSON data = Returned (Ok s) ∧ shard_ok s ∧
     json_parse data = Some (JStr str) ∧ String.length str = 4%nat ∧
     hex_DecodeString str = Ok r ∧ hex_DecodeString (ShardIndex_String s) = Ok r).
Proof.
  unfold ShardIndex_UnmarshalJSON, Unmarshal.
  destruct (json_parse data) as [j|]; [|left; by eexists].
  destruct (dec_string "" j) as [str|] eqn:Hdec; [|left; by eexists].
  case_decide as Hlen; [left; by eexists|].
  destruct (decide (String.length str = 4%nat)) as [Hl|]; [|done]. clear Hlen.
  destruct (hex_DecodeString str) as [r|] eqn:Hr; [|left; by eexists].
  pose proof (hex_decode_length _ _ Hr) as Hrl. rewrite Hl in Hrl.
  destruct r as [|a [|b [|c r]]]; cbn [String.length] in Hrl; try lia.
  right. eexists _, str, _. split; [done|].
  assert (∀ x : ascii, uint8 (byte_uint8 x)) as Hu8.
  { intros x. unfold uint8, byte_uint8. pose proof (N_ascii_bounded x). lia. }
  assert (∀ x, uint8_byte (byte_uint8 x) = x) as Hb.
  { intros x. unfold uint8_byte, byte_uint8. by rewrite N2Z.id, ascii_N_embedding. }
  split_and!; [split; apply Hu8| |done|done|].
  - destruct j; simpl in Hdec; simplify_eq; simpl in Hl; try lia. done.
  - rewrite ShardIndex_String_hex. cbn [ShardNumber ShardCount]. rewrite !Hb. apply hex_decode_encode.
Qed.
