(* ===== verification/ComputeSpec.v ===== *)
(** * Compute specifications: specs/compute/spec.go

    The document a compute node is configured with, how it is generated from what
    the cluster holds, and how it is pushed to a running compute node. *)

From stdpp Require Import sorting.
From S2P Require Import Prelude GoLib GoJson JsonParse JsonDecode KubeTypes Api Interfaces.
From S2P Require Import Reference Prog Server Jwt Reconcile StorageBroker StorageController.
From S2P Require Import SafekeeperRes PageserverRes ComputeRes Shard.

Module spec.

(** ** The documents *)

Record PageserverShardConnectionInfo := {
  pc_ID : option Z;
  pc_LibpqURL : option string;
  pc_GrpcURL : option string;
}.

Record PageserverShardInfo := { Pageservers : list PageserverShardConnectionInfo }.

Record ComputeHookNotifyRequestShard := { hs_NodeID : Z; hs_ShardNumber : Z }.

Record ComputeHookNotifyRequest := {
  hr_TenantID : string;
  hr_StripeSize : option Z;
  hr_Shards : list ComputeHookNotifyRequestShard;
}.

Record NotifySafekeepersSafekeeper := { ns_ID : Z; ns_Hostname : option string }.

Record NotifySafekeepersRequest := {
  nr_TenantID : string;
  nr_TimelineID : string;
  nr_Generation : Z;
  nr_Safekeepers : list NotifySafekeepersSafekeeper;
}.

Record Role := { role_Name : string; role_EncryptedPassword : string; role_Options : json }.

Record SettingsEntry := { se_Name : string; se_Value : string; se_Vartype : string }.

Record ClusterConfig := {
  cc_ClusterID : string;
  cc_Name : string;
  cc_Roles : list Role;
  cc_Databases : list json;
  cc_Settings : list SettingsEntry;
}.

Record PageserverConnectionInfo := {
  pci_ShardCount : Z;
  pci_Shards : gmap string PageserverShardInfo;
}.

Record ComputeCtlConfig := { JWKS : JWKResponse }.

Record ComputeSpec := {
  FormatVersion : string;   (** a [float64], as its JSON literal *)
  SuspendTimeoutSeconds : Z;
  Cluster : ClusterConfig;
  DeltaOperations : list json;
  SafekeepersGeneration : option Z;
  SafekeeperConnstrings : list string;
  PageserverConnection : PageserverConnectionInfo;
}.

Record ComputeSpecResponse := {
  Spec : ComputeSpec;
  ComputeCtl : ComputeCtlConfig;
  rsp_Status : string;
}.

(** *** Their JSON *)

(** An [omitempty] pointer field. *)
Definition omitempty {A} (name : string) (f : A → json) (x : option A) : list (string * json) :=
  match x with Some x => [(name, f x)] | None => [] end.

Definition connection_json (c : PageserverShardConnectionInfo) : json :=
  JObj (omitempty "id" JInt (pc_ID c) ++ omitempty "libpq_url" JStr (pc_LibpqURL c)
        ++ omitempty "grpc_url" JStr (pc_GrpcURL c)).

Definition shard_json (s : PageserverShardInfo) : json :=
  JObj [("pageservers", JArr (map connection_json (Pageservers s)))].

(** [json.Marshal] writes a map with its keys sorted. *)
Definition key_le {A} (x y : string * A) : Prop := is_true (String.leb x.1 y.1).
#[export] Instance key_le_dec {A} : RelDecision (@key_le A).
Proof. intros x y. apply decide. unfold key_le, is_true. apply _. Defined.

Definition map_json {A} (f : A → json) (m : gmap string A) : json :=
  JObj (map (λ '(k, v), (k, f v)) (merge_sort key_le (map_to_list m))).

Definition role_json (r : Role) : json :=
  JObj [("name", JStr (role_Name r)); ("encrypted_password", JStr (role_EncryptedPassword r));
        ("options", role_Options r)].

Definition settings_json (s : SettingsEntry) : json :=
  JObj [("name", JStr (se_Name s)); ("value", JStr (se_Value s)); ("vartype", JStr (se_Vartype s))].

Definition cluster_json (c : ClusterConfig) : json :=
  JObj [("cluster_id", JStr (cc_ClusterID c)); ("name", JStr (cc_Name c));
        ("roles", JArr (map role_json (cc_Roles c))); ("databases", JArr (cc_Databases c));
        ("settings", JArr (map settings_json (cc_Settings c)))].

Definition pageserver_connection_json (p : PageserverConnectionInfo) : json :=
  JObj [("shard_count", JInt (pci_ShardCount p)); ("shards", map_json shard_json (pci_Shards p))].

Definition ComputeSpec_json (s : ComputeSpec) : json :=
  JObj ([("format_version", JNum (FormatVersion s));
         ("suspend_timeout_seconds", JInt (SuspendTimeoutSeconds s));
         ("cluster", cluster_json (Cluster s));
         ("delta_operations", JArr (DeltaOperations s))] ++
        omitempty "safekeepers_generation" JInt (SafekeepersGeneration s) ++
        [("safekeeper_connstrings", JArr (map JStr (SafekeeperConnstrings s)));
         ("pageserver_connection_info", pageserver_connection_json (PageserverConnection s))]).

Definition ComputeSpecResponse_json (r : ComputeSpecResponse) : json :=
  JObj [("spec", ComputeSpec_json (Spec r));
        ("compute_ctl_config", JObj [("jwks", JWKResponse_json (JWKS (ComputeCtl r)))]);
        ("status", JStr (rsp_Status r))].

(** *** Decoding of what comes in *)

Definition uint32_field {S} (name : string) (get : S → Z) (set : S → Z → S) : field S :=
  Field name (λ s j, set s <$> dec_uint 32 (get s) j).
Definition uint64_field {S} (name : string) (get : S → Z) (set : S → Z → S) : field S :=
  Field name (λ s j, set s <$> dec_uint 64 (get s) j).
Definition string_field {S} (name : string) (get : S → string) (set : S → string → S) : field S :=
  Field name (λ s j, set s <$> dec_string (get s) j).

Definition zero_hook_shard : ComputeHookNotifyRequestShard := {| hs_NodeID := 0; hs_ShardNumber := 0 |}.

Definition dec_hook_shard : decoder ComputeHookNotifyRequestShard := dec_struct
  [ uint64_field "node_id" hs_NodeID (λ s v, {| hs_NodeID := v; hs_ShardNumber := hs_ShardNumber s |});
    uint32_field "shard_number" hs_ShardNumber (λ s v, {| hs_NodeID := hs_NodeID s; hs_ShardNumber := v |}) ].

(** A request while it is decoded: its slice still has a backing array. *)
Record hook_building := {
  hb_TenantID : string;
  hb_StripeSize : option Z;
  hb_Shards : slice ComputeHookNotifyRequestShard;
}.

Definition dec_hook : decoder hook_building := dec_struct
  [ string_field "tenant_id" hb_TenantID
      (λ s v, {| hb_TenantID := v; hb_StripeSize := hb_StripeSize s; hb_Shards := hb_Shards s |});
    Field "stripe_size" (λ s j,
      (λ v, {| hb_TenantID := hb_TenantID s; hb_StripeSize := v; hb_Shards := hb_Shards s |})
        <$> dec_ptr 0 (dec_uint 32) (hb_StripeSize s) j);
    Field "shards" (λ s j,
      (λ v, {| hb_TenantID := hb_TenantID s; hb_StripeSize := hb_StripeSize s; hb_Shards := v |})
        <$> dec_slice zero_hook_shard dec_hook_shard (hb_Shards s) j) ].

Definition decode_hook_request (body : string) : result ComputeHookNotifyRequest :=
  match Unmarshal dec_hook {| hb_TenantID := ""; hb_StripeSize := None; hb_Shards := nil_slice |} body with
  | Err e => Err e
  | Ok b => Ok {| hr_TenantID := hb_TenantID b; hr_StripeSize := hb_StripeSize b;
                  hr_Shards := elements (hb_Shards b) |}
  end.

Definition zero_safekeeper : NotifySafekeepersSafekeeper := {| ns_ID := 0; ns_Hostname := None |}.

Definition dec_safekeeper : decoder NotifySafekeepersSafekeeper := dec_struct
  [ uint64_field "id" ns_ID (λ s v, {| ns_ID := v; ns_Hostname := ns_Hostname s |});
    Field "hostname" (λ s j,
      (λ v, {| ns_ID := ns_ID s; ns_Hostname := v |}) <$> dec_ptr "" dec_string (ns_Hostname s) j) ].

Record safekeepers_building := {
  nb_TenantID : string;
  nb_TimelineID : string;
  nb_Generation : Z;
  nb_Safekeepers : slice NotifySafekeepersSafekeeper;
}.

Definition dec_safekeepers : decoder safekeepers_building := dec_struct
  [ string_field "tenant_id" nb_TenantID
      (λ s v, {| nb_TenantID := v; nb_TimelineID := nb_TimelineID s;
                 nb_Generation := nb_Generation s; nb_Safekeepers := nb_Safekeepers s |});
    string_field "timeline_id" nb_TimelineID
      (λ s v, {| nb_TenantID := nb_TenantID s; nb_TimelineID := v;
                 nb_Generation := nb_Generation s; nb_Safekeepers := nb_Safekeepers s |});
    uint32_field "generation" nb_Generation
      (λ s v, {| nb_TenantID := nb_TenantID s; nb_TimelineID := nb_TimelineID s;
                 nb_Generation := v; nb_Safekeepers := nb_Safekeepers s |});
    Field "safekeepers" (λ s j,
      (λ v, {| nb_TenantID := nb_TenantID s; nb_TimelineID := nb_TimelineID s;
               nb_Generation := nb_Generation s; nb_Safekeepers := v |})
        <$> dec_slice zero_safekeeper dec_safekeeper (nb_Safekeepers s) j) ].

Definition decode_safekeepers_request (body : string) : result NotifySafekeepersRequest :=
  match Unmarshal dec_safekeepers
          {| nb_TenantID := ""; nb_TimelineID := ""; nb_Generation := 0; nb_Safekeepers := nil_slice |} body with
  | Err e => Err e
  | Ok b => Ok {| nr_TenantID := nb_TenantID b; nr_TimelineID := nb_TimelineID b;
                  nr_Generation := nb_Generation b; nr_Safekeepers := elements (nb_Safekeepers b) |}
  end.

(** ** The storage controller's client *)

Record ShardInfo := { NodeAttached : Z }.
Record TenantInfo := { ti_TenantID : string; ti_StripeSize : Z; ti_Shards : list ShardInfo }.

Record tenant_building := { tb_TenantID : string; tb_StripeSize : Z; tb_Shards : slice ShardInfo }.

Definition dec_shard_info : decoder ShardInfo := dec_struct
  [ uint64_field "node_attached" NodeAttached (λ _ v, {| NodeAttached := v |}) ].

Definition dec_tenant : decoder tenant_building := dec_struct
  [ string_field "tenant_id" tb_TenantID
      (λ s v, {| tb_TenantID := v; tb_StripeSize := tb_StripeSize s; tb_Shards := tb_Shards s |});
    uint32_field "stripe_size" tb_StripeSize
      (λ s v, {| tb_TenantID := tb_TenantID s; tb_StripeSize := v; tb_Shards := tb_Shards s |});
    Field "shards" (λ s j,
      (λ v, {| tb_TenantID := tb_TenantID s; tb_StripeSize := tb_StripeSize s; tb_Shards := v |})
        <$> dec_slice {| NodeAttached := 0 |} dec_shard_info (tb_Shards s) j) ].

Definition decode_tenant_info (body : string) : result TenantInfo :=
  match Unmarshal dec_tenant {| tb_TenantID := ""; tb_StripeSize := 0; tb_Shards := nil_slice |} body with
  | Err e => Err e
  | Ok b => Ok {| ti_TenantID := tb_TenantID b; ti_StripeSize := tb_StripeSize b;
                  ti_Shards := elements (tb_Shards b) |}
  end.

Definition tenant_request (clusterName tenantID : string) : HttpRequest :=
  {| rq_Method := "GET";
     rq_URL := storagecontroller.URL clusterName +:+ "/control/v1/tenant/" +:+ tenantID;
     rq_Headers := [];
     rq_Body := "";
     rq_TimeoutSeconds := 10 |}.

Definition GetTenantInfo (clusterName tenantID : string) : prog (result TenantInfo) :=
  let_ok resp := Http (tenant_request clusterName tenantID)
    or err return Ret (Err (Wrapf "failed to get tenant info" err));
  if decide (rs_StatusCode resp ≠ 200)
  then Ret (Err (Errorf ("storage controller returned status " +:+ fmt_d (rs_StatusCode resp))))
  else
    match rs_Body resp with
    | Err f => Ret (Err (Wrapf "failed to read response body" (Foreign f)))
    | Ok body =>
        match decode_tenant_info body with
        | Err err => Ret (Err (Wrapf "failed to decode tenant info" err))
        | Ok info => Ret (Ok info)
        end
    end.

(** ** Looking things up *)

Definition extractComputeID (deployment : Deployment) : result string :=
  match om_Annotations (dep_Meta deployment) !! "neon.compute_id" with
  | Some id => Ok id
  | None => Err (Errorf "failed to extract compute ID from annotations")
  end.

Definition extractClusterName (deployment : Deployment) : result string :=
  match om_Annotations (dep_Meta deployment) !! "neon.cluster_name" with
  | Some clusterName => Ok clusterName
  | None =>
      match om_Labels (dep_Meta deployment) !! "molnett.org/cluster" with
      | Some clusterName => Ok clusterName
      | None => Err (Errorf "cluster name not found in deployment metadata")
      end
  end.

Definition has_compute_id (computeID : string) (deployment : Deployment) : bool :=
  bool_decide (om_Annotations (dep_Meta deployment) !! "neon.compute_id" = Some computeID).

(** All namespaces are searched. *)
Definition findComputeDeployment (computeID : string) : prog (result Deployment) :=
  let_ok items := List_ KDeployment [("molnett.org/component", "compute")]
    or err return Ret (Err (Wrapf "failed to list deployments" err));
  match find_first (has_compute_id computeID) items with
  | Some deployment => Ret (Ok deployment)
  | None => Ret (Err (Errorf ("deployment with compute_id " +:+ computeID +:+ " not found")))
  end.

Definition is_project (tenantID : string) (p : Project) : bool :=
  bool_decide (prs_TenantID (pr_Spec p) = tenantID).
Definition is_branch (timelineID : string) (project : Project) (b : Branch) : bool :=
  bool_decide (brs_TimelineID (br_Spec b) = timelineID ∧ brs_ProjectID (br_Spec b) = om_Name (pr_Meta project)).

Definition findProjectAndBranch (tenantID timelineID : string) : prog (result (Project * Branch)) :=
  let_ok projects := List_ KProject [] or err return Ret (Err (Wrapf "failed to list projects" err));
  match find_first (is_project tenantID) projects with
  | None => Ret (Err (Errorf ("project with tenant_id " +:+ tenantID +:+ " not found")))
  | Some project =>
      let_ok branches := List_ KBranch [] or err return Ret (Err (Wrapf "failed to list branches" err));
      match find_first (is_branch timelineID project) branches with
      | None => Ret (Err (Errorf ("branch with timeline_id " +:+ timelineID +:+ " not found")))
      | Some branch => Ret (Ok (project, branch))
      end
  end.

Definition jwt_secret_name (clusterName : string) : string := "cluster-" +:+ clusterName +:+ "-jwt".
Definition jwt_secret_key (clusterName : string) : NamespacedName :=
  {| nn_Namespace := "neon"; nn_Name := jwt_secret_name clusterName |}.

Definition FindTenantDeployments (tenantID : string) : prog (result (list Deployment)) :=
  let_ok items := List_ KDeployment [("neon.tenant_id", tenantID)]
    or err return Ret (Err (Wrapf "failed to list deployments" err));
  match items with
  | [] => Ret (Err (Errorf ("no deployment available with the tenantID " +:+ tenantID)))
  | _ => Ret (Ok items)
  end.

Definition FindTenantTimelineDeployments (tenantID timelineID : string) : prog (result (list Deployment)) :=
  let_ok items := List_ KDeployment [("neon.tenant_id", tenantID); ("neon.timeline_id", timelineID)]
    or err return Ret (Err (Wrapf "failed to list deployments" err));
  Ret (Ok items).

(** ** Generating a specification *)

(** The annotations and labels the specification is generated from. *)
Definition tenant_label (d : Deployment) : option string := om_Labels (dep_Meta d) !! "neon.tenant_id".
Definition timeline_label (d : Deployment) : option string := om_Labels (dep_Meta d) !! "neon.timeline_id".

Definition buildPostgresSettings (clusterName tenantID timelineID : string) : list SettingsEntry :=
  let entry n v t := {| se_Name := n; se_Value := v; se_Vartype := t |} in
  [ entry "fsync" "off" "bool";
    entry "wal_level" "logical" "enum";
    entry "wal_log_hints" "on" "bool";
    entry "log_connections" "on" "bool";
    entry "port" "55433" "integer";
    entry "shared_buffers" "1MB" "string";
    entry "max_connections" "100" "integer";
    entry "listen_addresses" "0.0.0.0" "string";
    entry "max_wal_senders" "10" "integer";
    entry "max_replication_slots" "10" "integer";
    entry "wal_sender_timeout" "5s" "string";
    entry "wal_keep_size" "0" "integer";
    entry "password_encryption" "md5" "enum";
    entry "restart_after_crash" "off" "bool";
    entry "synchronous_standby_names" "walproposer" "string";
    entry "shared_preload_libraries" "neon" "string";
    entry "neon.safekeepers"
      (clusterName +:+ "-safekeeper-0.neon:5454," +:+ clusterName +:+ "-safekeeper-1.neon:5454,"
       +:+ clusterName +:+ "-safekeeper-2.neon:5454") "string";
    entry "neon.timeline_id" timelineID "string";
    entry "neon.tenant_id" tenantID "string";
    entry "neon.max_file_cache_size" "1GB" "string" ].

Definition safekeeper_connstring (clusterName : string) (id : Z) (namespace : string) : string :=
  "postgresql://postgres:@" +:+ clusterName +:+ "-safekeeper-" +:+ fmt_d id +:+ "." +:+ namespace +:+ ":5454".

Definition shard_info (clusterName : string) (shard : ComputeHookNotifyRequestShard) : PageserverShardInfo :=
  {| Pageservers :=
       [ {| pc_ID := Some (hs_NodeID shard);
            pc_LibpqURL := Some ("postgres://no_user@" +:+ clusterName +:+ "-pageserver-" +:+
                                 fmt_d (hs_NodeID shard) +:+ ".neon:6400");
            pc_GrpcURL := None |} ] |}.

(** The loop over the shards: the key does not depend on the shard. *)
Definition build_shards (clusterName : string) (shards : list ComputeHookNotifyRequestShard) :
    gmap string PageserverShardInfo :=
  let shardIndex := {| ShardNumber := 0; ShardCount := to_uint8 (Z.of_nat (length shards)) |} in
  foldl (λ m shard, <[ShardIndex_String shardIndex := shard_info clusterName shard]> m) ∅ shards.

(** The request made up from the storage controller's answer. *)
Definition fallback_request (info : TenantInfo) : ComputeHookNotifyRequest :=
  {| hr_TenantID := ti_TenantID info;
     hr_StripeSize := Some (ti_StripeSize info);
     hr_Shards := imap (λ i shard, {| hs_NodeID := NodeAttached shard;
                                      hs_ShardNumber := Z.of_nat i mod 2 ^ 32 |}) (ti_Shards info) |}.

Definition compute_spec (clusterName : string) (project : Project) (branch : Branch)
    (jwks : JWKResponse) (shards : gmap string PageserverShardInfo) : ComputeSpecResponse :=
  {| Spec :=
       {| FormatVersion := "1";
          SuspendTimeoutSeconds := -1;
          Cluster :=
            {| cc_ClusterID := prs_TenantID (pr_Spec project);
               cc_Name := om_Name (pr_Meta project);
               cc_Roles := [ {| role_Name := "postgres";
                                role_EncryptedPassword := "b093c0d3b281ba6da1eacc608620abd8";
                                role_Options := JNull |} ];
               cc_Databases := [];
               cc_Settings := buildPostgresSettings clusterName (prs_TenantID (pr_Spec project))
                                (brs_TimelineID (br_Spec branch)) |};
          DeltaOperations := [];
          SafekeepersGeneration := None;
          SafekeeperConnstrings := map (λ i, safekeeper_connstring clusterName i "neon") [0; 1; 2];
          PageserverConnection :=
            {| pci_ShardCount := Z.of_nat (size shards); pci_Shards := shards |} |};
     ComputeCtl := {| JWKS := jwks |};
     rsp_Status := "attached" |}.

Section generate.
Context `{CryptoOps}.

Definition getJWTKeysFromSecret (clusterName : string) : prog (result JWKResponse) :=
  let_ok secret := Get KSecret (jwt_secret_key clusterName)
    or err return Ret (Err (Wrapf ("failed to get JWT secret " +:+ jwt_secret_name clusterName) err));
  match NewJWTManagerFromSecret secret with
  | Err err => Ret (Err (Wrapf "failed to create JWT manager from secret" err))
  | Ok jwtManager => Ret (Ok {| Keys := [ToJWK jwtManager] |})
  end.

(** The request used: the caller's, or one made from the storage controller's answer. *)
Definition actual_request (request : option ComputeHookNotifyRequest) (clusterName tenantID : string) :
    prog (result ComputeHookNotifyRequest) :=
  match request with
  | Some request => Ret (Ok request)
  | None =>
      let_ok tenantInfo := GetTenantInfo clusterName tenantID or err return Ret (Err err);
      Ret (Ok (fallback_request tenantInfo))
  end.

Definition GenerateComputeSpec (request : option ComputeHookNotifyRequest) (computeID : string) :
    prog (result ComputeSpecResponse) :=
  let_ok deployment := findComputeDeployment computeID or err return Ret (Err err);
  match extractClusterName deployment with
  | Err err => Ret (Err err)
  | Ok clusterName =>
  match tenant_label deployment with
  | None => Ret (Err (Errorf "deployment missing neon.tenant_id label"))
  | Some tenantID =>
  match timeline_label deployment with
  | None => Ret (Err (Errorf "deployment missing neon.timeline_id label"))
  | Some timelineID =>
      let_ok pb := findProjectAndBranch tenantID timelineID or err return Ret (Err err);
      let_ok jwks := getJWTKeysFromSecret clusterName or err return Ret (Err err);
      let_ok req := actual_request request clusterName tenantID or err return Ret (Err err);
      Ret (Ok (compute_spec clusterName pb.1 pb.2 jwks (build_shards clusterName (hr_Shards req))))
  end end end.
End generate.

(** ** Pushing it to a compute node *)

Section push.
Context `{CryptoOps} `{JwtOps} `{HttpOps}.
Context (computeBaseURL : string).

(** The claims, in the order of the literal. *)
Definition compute_claims (computeId : string) (now : Z) : list (string * claim) :=
  [ ("compute_id", ClaimString computeId);
    ("aud", ClaimString "compute");
    ("roles", ClaimStrings ["compute_ctl:admin"]);
    ("exp", ClaimInt (now + 3600));
    ("iat", ClaimInt now);
    ("iss", ClaimString "neon-operator");
    ("sub", ClaimString computeId) ].

Definition admin_service_key (deployment : Deployment) (computeId : string) : NamespacedName :=
  {| nn_Namespace := om_Namespace (dep_Meta deployment); nn_Name := computeId +:+ "-admin" |}.

Definition configure_url (computeId : string) (adminService : Service) : string :=
  if decide (computeBaseURL ≠ "") then computeBaseURL +:+ "/configure"
  else "http://" +:+ computeId +:+ "-admin." +:+ om_Namespace (svc_Meta adminService) +:+ ":3080/configure".

Definition configure_request (url token : string) (sp : ComputeSpecResponse) : HttpRequest :=
  {| rq_Method := "POST";
     rq_URL := url;
     rq_Headers := [("Authorization", "Bearer " +:+ token); ("Content-Type", "application/json")];
     rq_Body := json_print (ComputeSpecResponse_json sp);
     rq_TimeoutSeconds := 2 |}.

(** [types.NamespacedName.String()] *)
Definition key_string (k : NamespacedName) : string := nn_Namespace k +:+ "/" +:+ nn_Name k.

Definition postComputeSpec (sp : ComputeSpecResponse) (deployment : Deployment)
    (computeId clusterName : string) : prog (option error) :=
  let_ok secret := Get KSecret (jwt_secret_key clusterName)
    or err return Ret (Some (Wrapf ("failed to get JWT secret " +:+ jwt_secret_name clusterName) err));
  match NewJWTManagerFromSecret secret with
  | Err err => Ret (Some (Wrapf "failed to create JWT manager from secret" err))
  | Ok jwtManager =>
      now ← Now;
      match GenerateToken jwtManager (compute_claims computeId now) with
      | Err err => Ret (Some (Wrapf "failed to generate JWT token" err))
      | Ok tokenString =>
          let adminServiceName := computeId +:+ "-admin" in
          let adminServiceKey := admin_service_key deployment computeId in
          let_ok adminService := Get KService adminServiceKey
            or err return Ret (Some (Wrapf ("failed to get admin service " +:+ key_string adminServiceKey) err));
          let url := configure_url computeId adminService in
          match NewRequest_error "POST" url with
          | Some f => Ret (Some (Wrapf ("failed to create request for service " +:+ adminServiceName) (Foreign f)))
          | None =>
              let_ok resp := Http (configure_request url tokenString sp)
                or err return Ret (Some (Wrapf ("failed to call /configure for service " +:+ adminServiceName) err));
              if (rs_StatusCode resp <? 200) || (300 <=? rs_StatusCode resp)
              then Ret (Some (Errorf ("failed to call /configure for service " +:+ adminServiceName +:+ ": "
                                      +:+ rs_Status resp)))
              else Ret None
          end
      end
  end.

Definition RefreshConfiguration (request : ComputeHookNotifyRequest) (deployment : Deployment) :
    prog (option error) :=
  match extractComputeID deployment with
  | Err err => Ret (Some err)
  | Ok computeId =>
  match extractClusterName deployment with
  | Err err => Ret (Some (Wrapf "failed to extract clustername from deployment" err))
  | Ok clusterName =>
      let_ok sp := GenerateComputeSpec (Some request) computeId
        or err return Ret (Some (Wrapf "failed to generate compute spec" err));
      postComputeSpec sp deployment computeId clusterName
  end end.

(** The specification with the safekeepers of a request. *)
Definition with_safekeepers (sp : ComputeSpecResponse) (connstrings : list string) (generation : Z) :
    ComputeSpecResponse :=
  {| Spec :=
       {| FormatVersion := FormatVersion (Spec sp);
          SuspendTimeoutSeconds := SuspendTimeoutSeconds (Spec sp);
          Cluster := Cluster (Spec sp);
          DeltaOperations := DeltaOperations (Spec sp);
          SafekeepersGeneration := Some generation;
          SafekeeperConnstrings := connstrings;
          PageserverConnection := PageserverConnection (Spec sp) |};
     ComputeCtl := ComputeCtl sp;
     rsp_Status := rsp_Status sp |}.

Definition request_connstrings (clusterName namespace : string) (req : NotifySafekeepersRequest) : list string :=
  map (λ sk, safekeeper_connstring clusterName (ns_ID sk) namespace) (nr_Safekeepers req).

Definition RefreshSafekeepersConfiguration (req : NotifySafekeepersRequest) (deployment : Deployment) :
    prog (option error) :=
  match extractComputeID deployment with
  | Err err => Ret (Some err)
  | Ok computeId =>
  match extractClusterName deployment with
  | Err err => Ret (Some (Wrapf "failed to extract clustername from deployment" err))
  | Ok clusterName =>
      let_ok sp := GenerateComputeSpec None computeId
        or err return Ret (Some (Wrapf "failed to generate compute spec" err));
      let connstrings := request_connstrings clusterName (om_Namespace (dep_Meta deployment)) req in
      postComputeSpec (with_safekeepers sp connstrings (nr_Generation req)) deployment computeId clusterName
  end end.
End push.

(** ** Properties of the generated specification *)

Lemma build_shards_spec clusterName shards :
  build_shards clusterName shards =
  match last shards with
  | None => ∅
  | Some shard =>
      {[ ShardIndex_String {| ShardNumber := 0; ShardCount := to_uint8 (Z.of_nat (length shards)) |} :=
           shard_info clusterName shard ]}
  end.
Proof.
  unfold build_shards. generalize (ShardIndex_String
    {| ShardNumber := 0; ShardCount := to_uint8 (Z.of_nat (length shards)) |}). intros key.
  assert (∀ m : gmap string PageserverShardInfo, dom m ⊆ {[key]} →
    foldl (λ m shard, <[key := shard_info clusterName shard]> m) m shards =
    match last shards with None => m | Some shard => {[ key := shard_info clusterName shard ]} end) as Hgo.
  { induction shards as [|sh shards IH]; intros m Hm; [done|]. cbn [foldl].
    rewrite IH by set_solver. destruct shards as [|sh2 shards].
    2:{ change (last (sh :: sh2 :: shards)) with (last (sh2 :: shards)).
        destruct (last (sh2 :: shards)) eqn:E; [done|by apply last_None in E]. }
    cbn [last].
    apply map_eq. intros k. destruct (decide (k = key)) as [->|Hk].
    - by rewrite lookup_insert_eq, lookup_singleton_eq.
    - rewrite lookup_insert_ne, lookup_singleton_ne by done.
      apply not_elem_of_dom. set_solver. }
  rewrite Hgo by set_solver. done.
Qed.

(** C34. The shard map of a specification never describes more than one shard: whatever
    the shards of the request, all of them are stored under the same key (shard
    number 0, the shard count cut to eight bits), so the last one wins, and the
    [shard_count] sent to the compute node is 1 (0 without shards), not the number of
    shards of the tenant. *)
Theorem build_shards_collapse clusterName shards :
  let m := build_shards clusterName shards in
  (shards = [] → m = ∅) ∧
  (∀ shard, last shards = Some shard →
     let key := ShardIndex_String {| ShardNumber := 0; ShardCount := Z.of_nat (length shards) mod 256 |} in
     m = {[ key := shard_info clusterName shard ]} ∧ size m = 1%nat) ∧
  (size m ≤ 1)%nat.
Proof.
  rewrite build_shards_spec. cbv zeta. split_and!.
  - by intros ->.
  - intros shard ->. split; [done|]. apply map_size_singleton.
  - destruct (last shards); [by rewrite map_size_singleton|]. rewrite map_size_empty. lia.
Qed.

Section generated.
Context `{CryptoOps}.

(** Where the shards come from. *)
Inductive request_source (clusterName tenantID : string) :
    option ComputeHookNotifyRequest → trace → ComputeHookNotifyRequest → Prop :=
  | source_given req : request_source clusterName tenantID (Some req) [] req
  | source_asked resp body info :
      rs_StatusCode resp = 200 → rs_Body resp = Ok body → decode_tenant_info body = Ok info →
      request_source clusterName tenantID None
        [Ev (CHttp (tenant_request clusterName tenantID)) (Ok resp)] (fallback_request info).

(** How a specification comes about: three lists, a secret, and the source of the
    shards; the deployment is the first one of the list with the compute id, the
    project the first one with its tenant, the branch the first one of the project
    with its timeline. *)
Inductive generates (request : option ComputeHookNotifyRequest) (computeID : string) :
    trace → ComputeSpecResponse → Prop :=
  | generates_from deps dep clusterName tenantID timelineID projects project branches branch secret jm req rest :
      find_first (has_compute_id computeID) deps = Some dep →
      extractClusterName dep = Ok clusterName →
      tenant_label dep = Some tenantID → timeline_label dep = Some timelineID →
      find_first (is_project tenantID) projects = Some project →
      find_first (is_branch timelineID project) branches = Some branch →
      NewJWTManagerFromSecret secret = Ok jm →
      request_source clusterName tenantID request rest req →
      generates request computeID
        (Ev (CList KDeployment [("molnett.org/component", "compute")]) (Ok deps) ::
         Ev (CList KProject []) (Ok projects) :: Ev (CList KBranch []) (Ok branches) ::
         Ev (CGet KSecret (jwt_secret_key clusterName)) (Ok secret) :: rest)
        (compute_spec clusterName project branch {| Keys := [ToJWK jm] |}
           (build_shards clusterName (hr_Shards req))).

(** A run of the generator: it only reads, and what it returns comes about as above. *)
Definition generate_run (request : option ComputeHookNotifyRequest) (computeID : string)
    (tr : trace) (out : outcome (result ComputeSpecResponse)) : Prop :=
  ∃ r, out = Returned r ∧ writes tr = [] ∧
    (requests tr = [] ∨ request = None ∧ ∃ c t, requests tr = [tenant_request c t]) ∧
    (∀ sp, r = Ok sp → generates request computeID tr sp).

Ltac fails := wp_steps; eexists; split_and!; [done|done|by left|done].

Lemma wp_actual_request clusterName tenantID request :
  wp (actual_request request clusterName tenantID) (λ tr out, ∃ r, out = Returned r ∧ writes tr = [] ∧
    (requests tr = [] ∨ request = None ∧ requests tr = [tenant_request clusterName tenantID]) ∧
    (∀ req, r = Ok req → request_source clusterName tenantID request tr req)).
Proof.
  unfold actual_request. destruct request as [req|].
  { wp_steps. eexists. split_and!; [done|done|by left|]. intros ? [= <-]. constructor. }
  unfold GetTenantInfo. wp_call hr. destruct hr as [resp|f]; cbn [from_env].
  2:{ wp_steps. eexists. split_and!; [done|done|by right|done]. }
  case_decide as Hcode; [wp_steps; eexists; split_and!; [done|done|by right|done]|].
  destruct (rs_Body resp) as [body|f] eqn:Hbody; [|wp_steps; eexists; split_and!; [done|done|by right|done]].
  destruct (decode_tenant_info body) as [info|e] eqn:Hinfo;
    wp_steps; eexists; (split_and!; [done|done|by right|]); [|done].
  intros ? [= <-]. eapply source_asked; [|done|done]. destruct (decide (rs_StatusCode resp = 200)); [done|].
  by destruct Hcode.
Qed.

Lemma wp_GenerateComputeSpec request computeID :
  wp (GenerateComputeSpec request computeID) (generate_run request computeID).
Proof.
  unfold GenerateComputeSpec, findComputeDeployment.
  wp_call depr. destruct depr as [deps|f]; cbn [from_env]; [|fails].
  destruct (find_first (has_compute_id computeID) deps) as [dep|] eqn:Hdep; [|fails]. wp_steps.
  destruct (extractClusterName dep) as [clusterName|] eqn:Hcl; [|fails].
  destruct (tenant_label dep) as [tenantID|] eqn:Hten; [|fails].
  destruct (timeline_label dep) as [timelineID|] eqn:Htim; [|fails].
  unfold findProjectAndBranch. wp_call prr. destruct prr as [projects|f]; cbn [from_env]; [|fails].
  destruct (find_first (is_project tenantID) projects) as [project|] eqn:Hpr; [|fails].
  wp_call brr. destruct brr as [branches|f]; cbn [from_env]; [|fails].
  destruct (find_first (is_branch timelineID project) branches) as [branch|] eqn:Hbr; [|fails]. wp_steps.
  unfold getJWTKeysFromSecret. wp_call secr. destruct secr as [secret|f]; cbn [from_env]; [|fails].
  destruct (NewJWTManagerFromSecret secret) as [jm|] eqn:Hjm; [|fails]. wp_steps.
  wp_use (wp_actual_request clusterName tenantID request); [|by intros ?? (?&?&_)].
  intros tr ? (r&[= ->]&Hw&Hr&Hreq). destruct r as [req|e]; wp_steps; rewrite app_nil_r.
  - eexists. split_and!; [done|by trace_simpl| |].
    + destruct Hr as [Hr|[-> Hr]]; [left; by trace_simpl|right]. split; [done|]. by do 2 eexists.
    + intros ? [= <-]. eapply generates_from; eauto.
  - eexists. split_and!; [done|by trace_simpl| |done].
    destruct Hr as [Hr|[-> Hr]]; [left; by trace_simpl|right]. split; [done|]. by do 2 eexists.
Qed.

(** C21. [GenerateComputeSpec], in every environment: it never panics, changes nothing,
    and sends one request at most, to the storage controller, only when it was given
    no shards.  A specification it returns was made of what it read, call by call: the
    first Deployment of the list that is annotated with the compute id, the first
    Project of its tenant label, the first Branch of that very project with its
    timeline label, the signing key in the Secret of the cluster the Deployment names,
    and the shards it was given or those the storage controller of that cluster
    described for that tenant.  Its cluster id and its [neon.tenant_id] and
    [neon.timeline_id] settings are the Deployment's two labels, its name is the
    project's, its shard map is that of the shards, and its keys are the public half of
    the signing key. *)
Theorem GenerateComputeSpec_consistent request computeID :
  wp (GenerateComputeSpec request computeID) (λ tr out, ∃ r, out = Returned r ∧ writes tr = [] ∧
    (requests tr = [] ∨ request = None ∧ ∃ c t, requests tr = [tenant_request c t]) ∧
    ∀ sp, r = Ok sp → ∃ deps dep clusterName projects project branches branch secret jm req rest,
      let tenantID := prs_TenantID (pr_Spec project) in
      let timelineID := brs_TimelineID (br_Spec branch) in
      tr = Ev (CList KDeployment [("molnett.org/component", "compute")]) (Ok deps) ::
           Ev (CList KProject []) (Ok projects) :: Ev (CList KBranch []) (Ok branches) ::
           Ev (CGet KSecret (jwt_secret_key clusterName)) (Ok secret) :: rest ∧
      find_first (has_compute_id computeID) deps = Some dep ∧
      find_first (is_project tenantID) projects = Some project ∧
      find_first (is_branch timelineID project) branches = Some branch ∧
      NewJWTManagerFromSecret secret = Ok jm ∧ request_source clusterName tenantID request rest req ∧
      om_Annotations (dep_Meta dep) !! "neon.compute_id" = Some computeID ∧
      extractClusterName dep = Ok clusterName ∧
      tenant_label dep = Some tenantID ∧ timeline_label dep = Some timelineID ∧
      brs_ProjectID (br_Spec branch) = om_Name (pr_Meta project) ∧
      cc_ClusterID (Cluster (Spec sp)) = tenantID ∧ cc_Name (Cluster (Spec sp)) = om_Name (pr_Meta project) ∧
      {| se_Name := "neon.tenant_id"; se_Value := tenantID; se_Vartype := "string" |}
        ∈ cc_Settings (Cluster (Spec sp)) ∧
      {| se_Name := "neon.timeline_id"; se_Value := timelineID; se_Vartype := "string" |}
        ∈ cc_Settings (Cluster (Spec sp)) ∧
      pci_Shards (PageserverConnection (Spec sp)) = build_shards clusterName (hr_Shards req) ∧
      JWKS (ComputeCtl sp) = {| Keys := [ToJWK jm] |}).
Proof.
  eapply wp_mono; [|apply wp_GenerateComputeSpec].
  intros tr out (r&->&Hw&Hr&Hok). exists r. split_and!; [done..|]. intros sp Hsp.
  destruct (Hok sp Hsp) as [deps dep clusterName tenantID timelineID projects project branches branch
    secret jm req rest Hdep Hcl Hten Htim Hpr Hbr Hjm Hreq].
  pose proof Hdep as [_ Hdep'%bool_decide_eq_true]%find_first_Some.
  pose proof Hpr as [_ <-%bool_decide_eq_true]%find_first_Some.
  pose proof Hbr as [_ [<- Hproj]%bool_decide_eq_true]%find_first_Some.
  exists deps, dep, clusterName, projects, project, branches, branch, secret, jm, req, rest.
  cbn [compute_spec Spec Cluster cc_ClusterID cc_Name cc_Settings ComputeCtl JWKS PageserverConnection pci_Shards].
  split_and!; try done; unfold buildPostgresSettings; cbv zeta; repeat first [left; done | right].
Qed.
End generated.

(** ** Properties of the push *)

Section pushed.
Context `{CryptoOps} `{JwtOps} `{HttpOps}.
Context (computeBaseURL : string).

(** A push that got as far as sending: the four calls, and what was sent. *)
Inductive pushes (sp : ComputeSpecResponse) (deployment : Deployment) (computeId clusterName : string) :
    trace → option error → Prop :=
  | pushes_sent secret jm now token svc r err :
      NewJWTManagerFromSecret secret = Ok jm →
      GenerateToken jm (compute_claims computeId now) = Ok token →
      (err = None ↔ ∃ resp, r = Ok resp ∧ 200 ≤ rs_StatusCode resp < 300) →
      pushes sp deployment computeId clusterName
        [Ev (CGet KSecret (jwt_secret_key clusterName)) (Ok secret); Ev CNow now;
         Ev (CGet KService (admin_service_key deployment computeId)) (Ok svc);
         Ev (CHttp (configure_request (configure_url computeBaseURL computeId svc) token sp)) r] err
  | pushes_failed tr e :
      writes tr = [] → requests tr = [] → pushes sp deployment computeId clusterName tr (Some e).

Lemma wp_postComputeSpec sp deployment computeId clusterName :
  wp (postComputeSpec computeBaseURL sp deployment computeId clusterName)
    (λ tr out, ∃ err, out = Returned err ∧ pushes sp deployment computeId clusterName tr err).
Proof.
  unfold postComputeSpec.
  assert (∀ tr e, writes tr = [] → requests tr = [] → ∃ err, Returned (Some e) = Returned err ∧
    pushes sp deployment computeId clusterName tr err) as Hfail
    by (intros tr e Hw Hr; eexists; split; [done|by apply pushes_failed]).
  wp_call secr. destruct secr as [secret|f]; cbn [from_env]; [|wp_steps; by apply Hfail].
  destruct (NewJWTManagerFromSecret secret) as [jm|] eqn:Hjm; [|wp_steps; by apply Hfail].
  wp_call now. destruct (GenerateToken jm _) as [token|] eqn:Htok; [|wp_steps; by apply Hfail].
  cbv zeta. wp_call svcr. destruct svcr as [svc|f]; cbn [from_env]; [|wp_steps; by apply Hfail].
  destruct (NewRequest_error _ _) as [f|]; [wp_steps; by apply Hfail|].
  wp_call r. destruct r as [resp|f]; cbn [from_env].
  - destruct (Z.ltb_spec (rs_StatusCode resp) 200), (Z.leb_spec 300 (rs_StatusCode resp));
      cbn [orb]; wp_steps; eexists; (split; [done|]); eapply pushes_sent; try done;
      (split; [intros|intros (?&[= <-]&?)]); try done; try lia. by eexists.
  - wp_steps. eexists. split; [done|]. eapply pushes_sent; [done|done|].
    split; [done|]. by intros (?&?&_).
Qed.

(** The claims of a push fit a token, and allow its use for an hour. *)
Lemma compute_claims_fitting computeId now :
  valid_utf8 computeId = true → 0 ≤ now < 2 ^ 52 → fitting (compute_claims computeId now).
Proof.
  intros Hid Hnow. unfold fitting, compute_claims, claim_fits.
  repeat (apply List.Forall_cons; [cbn [fst snd]|]); [..|apply List.Forall_nil];
    rewrite !andb_true_iff; split_and?; first [exact Hid | apply Z.leb_le; lia | apply Z.ltb_lt; lia | by vm_compute].
Qed.

Lemma compute_claims_live computeId now t :
  live t (compute_claims computeId now) ↔ now ≤ t < now + 3600.
Proof.
  unfold live, compute_claims. split.
  - intros (Hexp&Hiat&_). split; [apply Hiat; by do 4 right; left|apply Hexp; by do 3 right; left].
  - intros Ht. split_and!; intros t' Hin;
      repeat (apply elem_of_cons in Hin as [?|Hin]; [simplify_eq; lia|]); by apply elem_of_nil in Hin.
Qed.

(** C22. [postComputeSpec], in every environment: it never panics and changes nothing in
    the cluster.  Either it fails without sending anything, or its calls are exactly
    these four: the cluster's Secret, the clock, the admin Service of the compute node,
    and a POST of the printed specification to that service; it returns nil exactly when
    the POST is answered with a 2xx status.  The request carries a bearer token made
    with the key of the Secret it read: for an hour from the instant it read the clock,
    and at no other time, whoever holds the public half accepts it, and reads in it the
    compute id, the audience [compute] and the admin role. *)
Theorem postComputeSpec_authenticated `{!JwtLaws} sp deployment computeId clusterName :
  wp (postComputeSpec computeBaseURL sp deployment computeId clusterName) (λ tr out,
    ∃ err, out = Returned err ∧ writes tr = [] ∧
    (requests tr = [] ∧ err ≠ None ∨
     ∃ secret jm now token svc a,
       tr = [Ev (CGet KSecret (jwt_secret_key clusterName)) (Ok secret); Ev CNow now;
             Ev (CGet KService (admin_service_key deployment computeId)) (Ok svc);
             Ev (CHttp (configure_request (configure_url computeBaseURL computeId svc) token sp)) a] ∧
       NewJWTManagerFromSecret secret = Ok jm ∧ GenerateToken jm (compute_claims computeId now) = Ok token ∧
       (err = None ↔ ∃ resp, a = Ok resp ∧ 200 ≤ rs_StatusCode resp < 300) ∧
       (valid_utf8 computeId = true → 0 ≤ now < 2 ^ 52 → ∀ pub t, key_pair (privateKey jm) pub →
          if decide (now ≤ t < now + 3600)
          then ∃ tok, jwt_Parse t token pub = Ok tok ∧
                 jwt_claims tok !! "compute_id" = Some (ClaimString computeId) ∧
                 jwt_claims tok !! "sub" = Some (ClaimString computeId) ∧
                 jwt_claims tok !! "aud" = Some (ClaimStrings ["compute"]) ∧
                 jwt_claims tok !! "roles" = Some (ClaimStrings ["compute_ctl:admin"])
          else ∃ f, jwt_Parse t token pub = Err f))).
Proof.
  eapply wp_mono; [|apply wp_postComputeSpec].
  intros tr out (err&->&Hrun). exists err. split; [done|].
  destruct Hrun as [secret jm now token svc r err Hjm Htok Herr|tr e Hw Hr]; [|by split; [|left]].
  split; [done|]. right. exists secret, jm, now, token, svc, r. split_and!; [done..|].
  intros Hid Hnow pub t Hpair. pose proof (compute_claims_live computeId now t) as Hlive.
  edestruct (parse_generated jm pub (compute_claims computeId now) token t Hpair)
    as [[Hl (tok&Hp&Hshows)]|[Hl Hf]];
    [change (NoDup ["compute_id"; "aud"; "roles"; "exp"; "iat"; "iss"; "sub"]);
       apply (bool_decide_unpack _); by vm_compute
    |by apply compute_claims_fitting|exact Htok|..].
  - rewrite decide_True by (by apply Hlive). exists tok. split; [done|].
    split_and!; apply Hshows; (eexists; split; [repeat first [by left | right]|done]).
  - by rewrite decide_False by (by intros Ht%Hlive).
Qed.
End pushed.

(** ** Refreshing one deployment *)

Section refresh.
Context `{CryptoOps} `{JwtOps} `{HttpOps}.
Context (computeBaseURL : string).

(** A refresh generates a specification, edits it, and pushes it; any failure on the
    way is its result. *)
Inductive refresh_run (request : option ComputeHookNotifyRequest)
    (edit : string → ComputeSpecResponse → ComputeSpecResponse) (deployment : Deployment) :
    trace → option error → Prop :=
  | refresh_failed tr e :
      writes tr = [] →
      (requests tr = [] ∨ request = None ∧ ∃ c t, requests tr = [tenant_request c t]) →
      refresh_run request edit deployment tr (Some e)
  | refresh_pushed computeId clusterName trg sp trp err :
      extractComputeID deployment = Ok computeId → extractClusterName deployment = Ok clusterName →
      writes trg = [] → generates request computeId trg sp →
      pushes computeBaseURL (edit clusterName sp) deployment computeId clusterName trp err →
      refresh_run request edit deployment (trg ++ trp) err.

Lemma refresh_writes request edit deployment tr err :
  refresh_run request edit deployment tr err → writes tr = [].
Proof.
  intros [tr' e Hw _|? ? trg sp trp err' _ _ Hw _ Hp]; [done|].
  rewrite writes_app, Hw. by destruct Hp.
Qed.

Lemma wp_generate_and_push request edit deployment computeId clusterName :
  extractComputeID deployment = Ok computeId → extractClusterName deployment = Ok clusterName →
  wp (let_ok sp := GenerateComputeSpec request computeId
        or err return Ret (Some (Wrapf "failed to generate compute spec" err));
      postComputeSpec computeBaseURL (edit clusterName sp) deployment computeId clusterName)
    (runs (refresh_run request edit deployment)).
Proof.
  intros Hid Hcl. wp_use (wp_GenerateComputeSpec request computeId); [|by intros ?? (?&?&_)].
  intros trg r (r'&[= ->]&Hw&Hr&Hok). destruct r' as [sp|e].
  - eapply wp_mono; [|apply wp_postComputeSpec]. intros trp out (err&->&Hp).
    eapply refresh_pushed; eauto.
  - wp_steps. rewrite app_nil_r. by apply refresh_failed.
Qed.

Definition no_edit (_ : string) (sp : ComputeSpecResponse) : ComputeSpecResponse := sp.

Lemma wp_RefreshConfiguration request deployment :
  wp (RefreshConfiguration computeBaseURL request deployment)
    (runs (refresh_run (Some request) no_edit deployment)).
Proof.
  unfold RefreshConfiguration.
  destruct (extractComputeID deployment) as [computeId|e] eqn:Hid; [|apply refresh_failed; [done|by left]].
  destruct (extractClusterName deployment) as [clusterName|e] eqn:Hcl; [|apply refresh_failed; [done|by left]].
  by apply (wp_generate_and_push (Some request) no_edit).
Qed.

(** The edit of the safekeepers' refresh. *)
Definition safekeepers_edit (req : NotifySafekeepersRequest) (deployment : Deployment)
    (clusterName : string) (sp : ComputeSpecResponse) : ComputeSpecResponse :=
  with_safekeepers sp (request_connstrings clusterName (om_Namespace (dep_Meta deployment)) req)
    (nr_Generation req).

Lemma wp_RefreshSafekeepersConfiguration req deployment :
  wp (RefreshSafekeepersConfiguration computeBaseURL req deployment)
    (runs (refresh_run None (safekeepers_edit req deployment) deployment)).
Proof.
  unfold RefreshSafekeepersConfiguration.
  destruct (extractComputeID deployment) as [computeId|e] eqn:Hid; [|apply refresh_failed; [done|by left]].
  destruct (extractClusterName deployment) as [clusterName|e] eqn:Hcl; [|apply refresh_failed; [done|by left]].
  by apply (wp_generate_and_push None (safekeepers_edit req deployment)).
Qed.
End refresh.

(** ** How the parts meet *)

Section meeting.
Context `{QuantityOps}.

(** The Deployment the branch controller makes is the one this code looks for: it
    answers to the branch's name as compute id, it carries the component label of the
    list, and what is extracted from it is the project's cluster and tenant and the
    branch's timeline; the admin service looked up under the compute id is the one
    the branch controller makes, and listens on the port of the configure URL. *)
Theorem compute_deployment_found branch project dep :
  compute.Deployment branch project = Returned dep →
  let name := om_Name (br_Meta branch) in
  extractComputeID dep = Ok name ∧ has_compute_id name dep = true ∧
  om_Labels (dep_Meta dep) !! "molnett.org/component" = Some "compute" ∧
  extractClusterName dep = Ok (prs_ClusterName (pr_Spec project)) ∧
  tenant_label dep = Some (prs_TenantID (pr_Spec project)) ∧
  timeline_label dep = Some (brs_TimelineID (br_Spec branch)) ∧
  admin_service_key dep name = key_of (svc_Meta (compute.AdminService branch project)) ∧
  map sp_Port (ss_Ports (svc_Spec (compute.AdminService branch project))) = [3080].
Proof.
  unfold compute.Deployment. destruct (MustParse _) as [size|]; [|done]. intros [= <-]. cbv zeta.
  unfold extractComputeID, extractClusterName, has_compute_id, tenant_label, timeline_label.
  cbn [dep_Meta om_Annotations om_Labels new_meta].
  rewrite bool_decide_eq_true. split_and!; try (by simplify_map_eq);
    first [ by rewrite lookup_insert_eq | by rewrite lookup_insert_ne, lookup_singleton_eq by done | done ].
Qed.

(** The hosts written into a specification are the Services of the cluster: a
    safekeeper connection string names the Service of the Safekeeper with that
    cluster and id and its [pg] port, a shard's URL the Service of the Pageserver
    with the shard's node as id and its [pg] port. *)
Theorem connection_hosts sk ps shard ns :
  hs_NodeID shard = pss_ID (pgs_Spec ps) →
  safekeeper_connstring (sfs_Cluster (sk_Spec sk)) (sfs_ID (sk_Spec sk)) ns =
    "postgresql://postgres:@" +:+ om_Name (svc_Meta (safekeeper.Service sk)) +:+ "." +:+ ns +:+ ":5454" ∧
  5454 ∈ map sp_Port (ss_Ports (svc_Spec (safekeeper.Service sk))) ∧
  map pc_LibpqURL (Pageservers (shard_info (pss_Cluster (pgs_Spec ps)) shard)) =
    [Some ("postgres://no_user@" +:+ om_Name (svc_Meta (pageserver.Service ps)) +:+ ".neon:6400")] ∧
  6400 ∈ map sp_Port (ss_Ports (svc_Spec (pageserver.Service ps))).
Proof.
  intros Hid. split_and!; [|by left| |by left].
  - unfold safekeeper_connstring. cbn [safekeeper.Service safekeeper.service svc_Meta new_meta om_Name].
    unfold safekeeper.Name. by rewrite !string_app_assoc.
  - unfold shard_info. cbn [Pageservers map pc_LibpqURL pageserver.Service pageserver.service svc_Meta new_meta om_Name].
    unfold pageserver.Name. by rewrite Hid, !string_app_assoc.
Qed.
End meeting.

(** ** Examples *)

Section examples.
Import RefInstances.

Lemma build_shards_collapse_witness :
  let s n := {| hs_NodeID := n; hs_ShardNumber := n |} in
  let m := build_shards "prod" [s 1; s 2; s 3] in
  ([s 1; s 2; s 3] = [] → m = ∅) ∧
  (∀ shard, last [s 1; s 2; s 3] = Some shard →
     let key := ShardIndex_String {| ShardNumber := 0; ShardCount := 3 |} in
     m = {[ key := shard_info "prod" shard ]} ∧ size m = 1%nat) ∧ (size m ≤ 1)%nat.
Proof.
  exact (build_shards_collapse "prod" (map (λ n, {| hs_NodeID := n; hs_ShardNumber := n |}) [1; 2; 3])).
Defined.

Definition sample_spec : ComputeSpecResponse :=
  compute_spec "prod" (Samples.project_with "0badcafe") (Samples.branch_with "0badbeef") {| Keys := [] |} ∅.

Definition sample_deployment : Deployment :=
  {| dep_Type := no_TypeMeta; dep_Meta := Samples.named "main-compute-node";
     dep_Spec := dep_Spec (storagebroker.Deployment Samples.cluster); dep_Conditions := [] |}.

(** The world of the samples with a signing key and an admin service. *)
Definition pushable : world :=
  put (put Samples.start KSecret
         {| sec_Meta := Samples.named "cluster-prod-jwt"; sec_Data := key_secret_data "-spriv" "-ppriv" |})
      KService (compute.AdminService (Samples.branch_with "0badbeef") (Samples.project_with "0badcafe")).

Lemma postComputeSpec_authenticated_witness :
  let '(tr, out) := run pushable (postComputeSpec "" sample_spec sample_deployment "main" "prod") in
  out = Returned None ∧ map rq_URL (requests tr) = ["http://main-admin.neon:3080/configure"] ∧
  ∃ err, out = Returned err ∧ writes tr = [] ∧
    (requests tr = [] ∧ err ≠ None ∨
     ∃ secret jm now token svc a,
       tr = [Ev (CGet KSecret (jwt_secret_key "prod")) (Ok secret); Ev CNow now;
             Ev (CGet KService (admin_service_key sample_deployment "main")) (Ok svc);
             Ev (CHttp (configure_request (configure_url "" "main" svc) token sample_spec)) a] ∧
       NewJWTManagerFromSecret secret = Ok jm ∧ GenerateToken jm (compute_claims "main" now) = Ok token ∧
       (err = None ↔ ∃ resp, a = Ok resp ∧ 200 ≤ rs_StatusCode resp < 300) ∧
       (valid_utf8 "main" = true → 0 ≤ now < 2 ^ 52 → ∀ pub t, key_pair (privateKey jm) pub →
          if decide (now ≤ t < now + 3600)
          then ∃ tok, jwt_Parse t token pub = Ok tok ∧
                 jwt_claims tok !! "compute_id" = Some (ClaimString "main") ∧
                 jwt_claims tok !! "sub" = Some (ClaimString "main") ∧
                 jwt_claims tok !! "aud" = Some (ClaimStrings ["compute"]) ∧
                 jwt_claims tok !! "roles" = Some (ClaimStrings ["compute_ctl:admin"])
          else ∃ f, jwt_Parse t token pub = Err f)).
Proof.
  split; [vm_compute; reflexivity|]. split; [vm_compute; reflexivity|].
  exact (run_wp pushable (postComputeSpec "" sample_spec sample_deployment "main" "prod") _
    (postComputeSpec_authenticated "" sample_spec sample_deployment "main" "prod")).
Defined.

Lemma compute_deployment_found_witness :
  let branch := Samples.branch_with "0badbeef" in
  let project := Samples.project_with "0badcafe" in
  ∃ dep, compute.Deployment branch project = Returned dep ∧
    extractComputeID dep = Ok "main" ∧ has_compute_id "main" dep = true ∧
    om_Labels (dep_Meta dep) !! "molnett.org/component" = Some "compute" ∧
    extractClusterName dep = Ok "prod" ∧
    tenant_label dep = Some "0badcafe" ∧ timeline_label dep = Some "0badbeef" ∧
    admin_service_key dep "main" = key_of (svc_Meta (compute.AdminService branch project)) ∧
    map sp_Port (ss_Ports (svc_Spec (compute.AdminService branch project))) = [3080].
Proof.
  eexists. split; [reflexivity|].
  exact (compute_deployment_found (Samples.branch_with "0badbeef") (Samples.project_with "0badcafe") _ eq_refl).
Defined.

Lemma connection_hosts_witness :
  let sk := Samples.safekeeper_with "10Gi" in
  let ps := Samples.pageserver in
  let shard := {| hs_NodeID := 1; hs_ShardNumber := 0 |} in
  safekeeper_connstring "prod" 1 "neon" =
    "postgresql://postgres:@" +:+ om_Name (svc_Meta (safekeeper.Service sk)) +:+ "." +:+ "neon" +:+ ":5454" ∧
  5454 ∈ map sp_Port (ss_Ports (svc_Spec (safekeeper.Service sk))) ∧
  map pc_LibpqURL (Pageservers (shard_info "prod" shard)) =
    [Some ("postgres://no_user@" +:+ om_Name (svc_Meta (pageserver.Service ps)) +:+ ".neon:6400")] ∧
  6400 ∈ map sp_Port (ss_Ports (svc_Spec (pageserver.Service ps))).
Proof.
  exact (connection_hosts (Samples.safekeeper_with "10Gi") Samples.pageserver
    {| hs_NodeID := 1; hs_ShardNumber := 0 |} "neon" eq_refl).
Defined.
End examples.

End spec.
