(* ===== verification/Requests.v ===== *)
(** * What the control plane reads: the notifications and the tenant description

    The three documents that come in are decoded into structs whose tags also say how
    they are printed.  A document printed that way, with any fields the program does not
    know added by a newer storage controller, is read back as it was. *)

From S2P Require Import Prelude GoLib GoJson JsonParse JsonDecode Shard ComputeSpec.

Import spec.

(** ** Printing, by the tags *)

Definition hook_shard_json (s : ComputeHookNotifyRequestShard) : json :=
  JObj [("node_id", JInt (hs_NodeID s)); ("shard_number", JInt (hs_ShardNumber s))].

Definition hook_fields (r : ComputeHookNotifyRequest) : list (string * json) :=
  [("tenant_id", JStr (hr_TenantID r))] ++ omitempty "stripe_size" JInt (hr_StripeSize r) ++
  [("shards", JArr (map hook_shard_json (hr_Shards r)))].

Definition safekeeper_json (s : NotifySafekeepersSafekeeper) : json :=
  JObj (("id", JInt (ns_ID s)) :: omitempty "hostname" JStr (ns_Hostname s)).

Definition safekeepers_fields (r : NotifySafekeepersRequest) : list (string * json) :=
  [ ("tenant_id", JStr (nr_TenantID r)); ("timeline_id", JStr (nr_TimelineID r));
    ("generation", JInt (nr_Generation r));
    ("safekeepers", JArr (map safekeeper_json (nr_Safekeepers r))) ].

Definition tenant_fields (i : TenantInfo) : list (string * json) :=
  [ ("tenant_id", JStr (ti_TenantID i)); ("stripe_size", JInt (ti_StripeSize i));
    ("shards", JArr (map (λ s, JObj [("node_attached", JInt (NodeAttached s))]) (ti_Shards i))) ].

(** ** The values the types hold *)

Definition uint (w : Z) (z : Z) : Prop := 0 ≤ z < 2 ^ w.
Definition text (s : string) : Prop := string_all ascii7 s = true.

Definition hook_ok (r : ComputeHookNotifyRequest) : Prop :=
  text (hr_TenantID r) ∧ (∀ z, hr_StripeSize r = Some z → uint 32 z) ∧
  Forall (λ s, uint 64 (hs_NodeID s) ∧ uint 32 (hs_ShardNumber s)) (hr_Shards r).

Definition safekeepers_ok (r : NotifySafekeepersRequest) : Prop :=
  text (nr_TenantID r) ∧ text (nr_TimelineID r) ∧ uint 32 (nr_Generation r) ∧
  Forall (λ s, uint 64 (ns_ID s) ∧ ∀ h, ns_Hostname s = Some h → text h) (nr_Safekeepers r).

Definition tenant_ok (i : TenantInfo) : Prop :=
  text (ti_TenantID i) ∧ uint 32 (ti_StripeSize i) ∧ Forall (λ s, uint 64 (NodeAttached s)) (ti_Shards i).

(** Fields whose names match none of a struct's, whatever the case of their letters, with
    values that can be printed. *)
Definition unknown (names : list string) (extra : list (string * json)) : Prop :=
  Forall (λ f, Forall (λ name, fold_name name ≠ fold_name f.1) names ∧ text f.1 ∧
               json_ok f.2 = true ∧ (N.of_nat (json_depth f.2) < max_depth)%N) extra.

(** ** Decoders *)

Lemma dec_uint_JInt w old z : uint w z → dec_uint w old (JInt z) = Some z.
Proof. intros Hz. cbn [dec_uint JInt]. by apply ParseUint_fmt_d. Qed.

Lemma dec_uint_JInt_out w old z : ¬ uint w z → dec_uint w old (JInt z) = None.
Proof. intros Hz. cbn [dec_uint JInt]. by apply ParseUint_fmt_d_out. Qed.

Lemma dec_ptr_JInt w old z : uint w z → dec_ptr 0 (dec_uint w) old (JInt z) = Some (Some z).
Proof.
  intros Hz. change (Some <$> dec_uint w (default 0 old) (JInt z) = Some (Some z)). by rewrite dec_uint_JInt.
Qed.

Lemma dec_elements_map {A} zero (d : decoder A) (f : A → json) l :
  Forall (λ x, d zero (f x) = Some x) l → dec_elements zero d [] (map f l) = Some l.
Proof. induction 1 as [|x l Hx _ IH]; [done|]. cbn [map dec_elements head tail default]. by rewrite Hx, IH. Qed.

Lemma dec_slice_map {A} zero (d : decoder A) (f : A → json) l :
  Forall (λ x, d zero (f x) = Some x) l →
  ∃ s, dec_slice zero d nil_slice (JArr (map f l)) = Some s ∧ elements s = l.
Proof.
  intros Hl. destruct l as [|x l]; [by eexists|]. cbn [dec_slice map].
  change (f x :: map f l) with (map f (x :: l)). cbn [nil_slice sl_backing].
  rewrite (dec_elements_map zero d f _ Hl). eexists. split; [reflexivity|].
  unfold elements. cbn [sl_len sl_backing]. rewrite drop_nil, app_nil_r, length_map. apply firstn_all.
Qed.

Lemma find_field_unknown {S} (fields : list (field S)) key :
  Forall (λ name, fold_name name ≠ fold_name key) (map fd_name fields) → find_field fields key = None.
Proof.
  intros Hnames. apply find_first_None. intros f Hf. apply bool_decide_eq_false.
  rewrite Forall_map, Forall_forall in Hnames. by apply Hnames.
Qed.

Lemma dec_fields_unknown {S} (fields : list (field S)) old l extra :
  unknown (map fd_name fields) extra → dec_fields fields old (l ++ extra) = dec_fields fields old l.
Proof.
  intros Hextra. revert old. induction l as [|[k j] l IH]; intros old.
  - simpl. induction Hextra as [|[k j] extra [Hk _] _ IH]; [done|].
    cbn [dec_fields]. by rewrite (find_field_unknown fields k Hk).
  - cbn [app dec_fields]. destruct (find_field fields k) as [f|]; [|done].
    destruct (fd_store f old j) as [new|]; [apply IH|done].
Qed.

(** A printed document is decoded as its tree is. *)
Lemma Unmarshal_print {A} (d : decoder A) zero j v :
  json_ok j = true → (N.of_nat (json_depth j) <= max_depth)%N → d zero j = Some v →
  Unmarshal d zero (json_print j) = Ok v.
Proof. intros Hok Hdepth Hd. unfold Unmarshal. by rewrite json_parse_print, Hd. Qed.

(** Trees no deeper than [n] that can be printed. *)
Definition printable (n : nat) (j : json) : Prop := json_ok j = true ∧ (json_depth j ≤ n)%nat.

Lemma printable_JInt n z : printable n (JInt z).
Proof. split; [apply fmt_d_number|simpl; lia]. Qed.

Lemma printable_JStr n s : text s → printable n (JStr s).
Proof. by split; [|simpl; lia]. Qed.

Lemma printable_JArr n l : Forall (printable n) l → printable (S n) (JArr l).
Proof.
  unfold printable. cbn [json_ok json_depth]. induction 1 as [|j l [Hok Hd] _ [IHok IHd]]; [by split; [|simpl; lia]|].
  cbn [forallb foldr]. rewrite Hok. split; [done|lia].
Qed.

Lemma printable_JObj n fs : Forall (λ f, text f.1 ∧ printable n f.2) fs → printable (S n) (JObj fs).
Proof.
  unfold printable. cbn [json_ok json_depth]. induction 1 as [|[k j] l (Hk&Hok&Hd) _ [IHok IHd]]; [by split; [|simpl; lia]|].
  cbn [forallb foldr]. simpl in Hk, Hok, Hd. rewrite Hk, Hok. split; [done|lia].
Qed.

Lemma printable_map {A} n (f : A → json) (P : A → Prop) l :
  (∀ x, P x → printable n (f x)) → Forall P l → printable (S n) (JArr (map f l)).
Proof. intros Hf Hl. apply printable_JArr, Forall_map. by eapply Forall_impl. Qed.

Lemma printable_document fs extra names :
  Forall (λ f, text f.1 ∧ printable 2 f.2) fs → unknown names extra →
  json_ok (JObj (fs ++ extra)) = true ∧ (N.of_nat (json_depth (JObj (fs ++ extra))) <= max_depth)%N.
Proof.
  intros Hfs Hextra. assert (printable (N.to_nat max_depth) (JObj (fs ++ extra))) as [Hok Hdepth]; [|split; [done|lia]].
  replace (N.to_nat max_depth) with (S (N.to_nat max_depth - 1)) by (unfold max_depth; lia).
  apply printable_JObj, Forall_app. split; eapply Forall_impl; try done.
  - intros f [Hk [Hok Hd]]. split; [done|split; [done|unfold max_depth; lia]].
  - intros f (_&Hk&Hok&Hd). split; [done|split; [done|lia]].
Qed.

Lemma Unmarshal_fields {S} (fields : list (field S)) zero fs extra v :
  Forall (λ f, text f.1 ∧ printable 2 f.2) fs → unknown (map fd_name fields) extra → dec_fields fields zero fs = Some v →
  Unmarshal (dec_struct fields) zero (json_print (JObj (fs ++ extra))) = Ok v.
Proof.
  intros Hfs Hextra Hv. destruct (printable_document fs extra (map fd_name fields) Hfs Hextra) as [Hok Hdepth].
  apply Unmarshal_print; [done..|]. cbn [dec_struct]. by rewrite dec_fields_unknown.
Qed.

Lemma Unmarshal_fields_refused {S} (fields : list (field S)) zero fs extra :
  Forall (λ f, text f.1 ∧ printable 2 f.2) fs → unknown (map fd_name fields) extra → dec_fields fields zero fs = None →
  Unmarshal (dec_struct fields) zero (json_print (JObj (fs ++ extra))) = Err json_error.
Proof.
  intros Hfs Hextra Hv. destruct (printable_document fs extra (map fd_name fields) Hfs Hextra) as [Hok Hdepth].
  unfold Unmarshal. rewrite json_parse_print by done. cbn [dec_struct]. by rewrite dec_fields_unknown, Hv.
Qed.

(** ** The three documents *)

Definition hook_names : list string := ["tenant_id"; "stripe_size"; "shards"].
Definition safekeepers_names : list string := ["tenant_id"; "timeline_id"; "generation"; "safekeepers"].
Definition tenant_names : list string := ["tenant_id"; "stripe_size"; "shards"].

Lemma dec_fields_known {S} (fields : list (field S)) old k j l f new :
  find_field fields k = Some f → fd_store f old j = Some new →
  dec_fields fields old ((k, j) :: l) = dec_fields fields new l.
Proof. intros Hf Hnew. cbn [dec_fields]. by rewrite Hf, Hnew. Qed.

Lemma dec_fields_refused {S} (fields : list (field S)) old k j l f :
  find_field fields k = Some f → fd_store f old j = None → dec_fields fields old ((k, j) :: l) = None.
Proof. intros Hf Hnew. cbn [dec_fields]. by rewrite Hf, Hnew. Qed.

(** One field of a document: the tag is looked up and the value decoded by rewriting. *)
Tactic Notation "known_field" "by" tactic3(decode) :=
  erewrite dec_fields_known;
    [|reflexivity|cbn [fd_store uint32_field uint64_field string_field dec_string JInt]; decode; reflexivity].
Tactic Notation "known_uint" ident(H) := known_field by (rewrite (dec_uint_JInt _ _ _ H)).

Lemma dec_hook_shard_json s :
  uint 64 (hs_NodeID s) ∧ uint 32 (hs_ShardNumber s) → dec_hook_shard zero_hook_shard (hook_shard_json s) = Some s.
Proof.
  intros [Hn Hs]. unfold dec_hook_shard, hook_shard_json. cbn [dec_struct].
  known_uint Hn. known_uint Hs. by destruct s.
Qed.

Lemma dec_safekeeper_json s :
  uint 64 (ns_ID s) ∧ (∀ h, ns_Hostname s = Some h → text h) →
  dec_safekeeper zero_safekeeper (safekeeper_json s) = Some s.
Proof.
  intros [Hn _]. unfold dec_safekeeper, safekeeper_json. cbn [dec_struct].
  known_uint Hn. by destruct s as [? []].
Qed.

Lemma dec_shard_info_json s :
  uint 64 (NodeAttached s) → dec_shard_info {| NodeAttached := 0 |} (JObj [("node_attached", JInt (NodeAttached s))]) = Some s.
Proof.
  intros Hn. unfold dec_shard_info. cbn [dec_struct]. known_uint Hn. by destruct s.
Qed.

(** The elements of an array that is a field. *)
Lemma dec_array {A} zero (d : decoder A) (f : A → json) (P : A → Prop) l :
  (∀ x, P x → d zero (f x) = Some x) → Forall P l →
  ∃ s, dec_slice zero d nil_slice (JArr (map f l)) = Some s ∧ elements s = l.
Proof. intros Hd Hl. apply dec_slice_map. by eapply Forall_impl. Qed.

(** The lines of a document that can be printed. *)
Lemma text_field n k j : text k → printable n j → text (k, j).1 ∧ printable n (k, j).2.
Proof. done. Qed.
Ltac printable_lines := repeat first
  [ apply List.Forall_nil | apply List.Forall_cons | apply text_field; [done|]
  | apply printable_JInt | apply printable_JStr; auto | apply Forall_app; split ].

Lemma hook_shard_printable s : uint 64 (hs_NodeID s) ∧ uint 32 (hs_ShardNumber s) → printable 1 (hook_shard_json s).
Proof. intros _. apply printable_JObj. printable_lines. Qed.

Lemma safekeeper_printable s :
  uint 64 (ns_ID s) ∧ (∀ h, ns_Hostname s = Some h → text h) → printable 1 (safekeeper_json s).
Proof. intros [_ Hh]. apply printable_JObj. destruct (ns_Hostname s); printable_lines. Qed.

Lemma shard_info_printable s : uint 64 (NodeAttached s) → printable 1 (JObj [("node_attached", JInt (NodeAttached s))]).
Proof. intros _. apply printable_JObj. printable_lines. Qed.

(** A notify-attach request printed by the tags is decoded as it was, with or without a
    stripe size, whatever unknown fields follow. *)
Lemma hook_request_decoded (r : ComputeHookNotifyRequest) (extra : list (string * json)) :
  hook_ok r → unknown hook_names extra →
  decode_hook_request (json_print (JObj (hook_fields r ++ extra))) = Ok r.
Proof.
  intros (Ht&Hz&Hs) Hextra. destruct (dec_array _ _ _ _ _ dec_hook_shard_json Hs) as (shards&Hd&Hr).
  unfold decode_hook_request, dec_hook.
  rewrite (Unmarshal_fields _ _ _ _ {| hb_TenantID := hr_TenantID r; hb_StripeSize := hr_StripeSize r; hb_Shards := shards |});
    [|..|exact Hextra|]; [cbn; rewrite Hr; by destruct r| |].
  - pose proof (printable_map _ _ _ _ hook_shard_printable Hs). unfold hook_fields.
    destruct (hr_StripeSize r); printable_lines; done.
  - unfold hook_fields. cbn [app]. known_field by idtac. destruct (hr_StripeSize r) as [z|]; cbn [omitempty app].
    + pose proof (Hz z eq_refl) as Hz0. known_field by (rewrite (dec_ptr_JInt _ _ _ Hz0)).
      known_field by (cbn [hb_Shards]; rewrite Hd). done.
    + known_field by (cbn [hb_Shards]; rewrite Hd). done.
Qed.

(** The same of a notify-safekeepers request, with or without the hostnames. *)
Lemma safekeepers_request_decoded (r : NotifySafekeepersRequest) (extra : list (string * json)) :
  safekeepers_ok r → unknown safekeepers_names extra →
  decode_safekeepers_request (json_print (JObj (safekeepers_fields r ++ extra))) = Ok r.
Proof.
  intros (Ht&Htl&Hg&Hs) Hextra. destruct (dec_array _ _ _ _ _ dec_safekeeper_json Hs) as (l&Hd&Hr).
  unfold decode_safekeepers_request, dec_safekeepers.
  rewrite (Unmarshal_fields _ _ _ _ {| nb_TenantID := nr_TenantID r; nb_TimelineID := nr_TimelineID r;
                                       nb_Generation := nr_Generation r; nb_Safekeepers := l |});
    [|..|exact Hextra|]; [cbn; rewrite Hr; by destruct r| |].
  - pose proof (printable_map _ _ _ _ safekeeper_printable Hs). printable_lines; done.
  - unfold safekeepers_fields. known_field by idtac. known_field by idtac. known_uint Hg.
    known_field by (cbn [nb_Safekeepers]; rewrite Hd). done.
Qed.

(** The same of the storage controller's description of a tenant. *)
Lemma tenant_info_decoded (i : TenantInfo) (extra : list (string * json)) :
  tenant_ok i → unknown tenant_names extra →
  decode_tenant_info (json_print (JObj (tenant_fields i ++ extra))) = Ok i.
Proof.
  intros (Ht&Hz&Hs) Hextra. destruct (dec_array _ _ _ _ _ dec_shard_info_json Hs) as (l&Hd&Hr).
  unfold decode_tenant_info, dec_tenant.
  rewrite (Unmarshal_fields _ _ _ _ {| tb_TenantID := ti_TenantID i; tb_StripeSize := ti_StripeSize i; tb_Shards := l |});
    [|..|exact Hextra|]; [cbn; rewrite Hr; by destruct i| |].
  - pose proof (printable_map _ _ _ _ shard_info_printable Hs). printable_lines; done.
  - unfold tenant_fields. known_field by idtac. known_uint Hz.
    known_field by (cbn [tb_Shards]; rewrite Hd). done.
Qed.

(** A request whose generation does not fit is refused, not cut. *)
Definition with_generation (r : NotifySafekeepersRequest) (z : Z) : NotifySafekeepersRequest :=
  {| nr_TenantID := nr_TenantID r; nr_TimelineID := nr_TimelineID r; nr_Generation := z;
     nr_Safekeepers := nr_Safekeepers r |}.

Lemma generation_refused (r : NotifySafekeepersRequest) z (extra : list (string * json)) :
  safekeepers_ok r → unknown safekeepers_names extra → ¬ uint 32 z →
  decode_safekeepers_request (json_print (JObj (safekeepers_fields (with_generation r z) ++ extra))) = Err json_error.
Proof.
  intros (Ht&Htl&_&Hs) Hextra Hz. unfold decode_safekeepers_request, dec_safekeepers.
  rewrite (Unmarshal_fields_refused _ _ _ _); [done| |exact Hextra|].
  - pose proof (printable_map _ _ _ _ safekeeper_printable Hs). printable_lines; done.
  - unfold safekeepers_fields. known_field by idtac. known_field by idtac.
    eapply dec_fields_refused; [reflexivity|]. cbn [fd_store uint32_field]. by rewrite dec_uint_JInt_out.
Qed.

(** C40. What the storage controller sends is read as it was written: a notify-attach
    request (with or without a stripe size), a notify-safekeepers request (with or without
    hostnames) and the description of a tenant, printed under the field names of the
    struct tags, are each decoded to the very value that was printed, whatever fields of
    a newer storage controller follow.  A generation outside 32 bits is refused, not cut. *)
Theorem requests_decoded hook safekeepers info generation (extra : list (string * json)) :
  (hook_ok hook → unknown hook_names extra →
     decode_hook_request (json_print (JObj (hook_fields hook ++ extra))) = Ok hook) ∧
  (safekeepers_ok safekeepers → unknown safekeepers_names extra →
     decode_safekeepers_request (json_print (JObj (safekeepers_fields safekeepers ++ extra))) = Ok safekeepers ∧
     (¬ uint 32 generation →
        decode_safekeepers_request
          (json_print (JObj (safekeepers_fields (with_generation safekeepers generation) ++ extra))) = Err json_error)) ∧
  (tenant_ok info → unknown tenant_names extra →
     decode_tenant_info (json_print (JObj (tenant_fields info ++ extra))) = Ok info).
Proof.
  split_and!; intros Hok Hextra; [by apply hook_request_decoded| |by apply tenant_info_decoded].
  split; [by apply safekeepers_request_decoded|by apply generation_refused].
Qed.

Definition sample_hook : ComputeHookNotifyRequest :=
  {| hr_TenantID := "t"; hr_StripeSize := Some 2048; hr_Shards := [{| hs_NodeID := 7; hs_ShardNumber := 1 |}] |}.
Definition sample_safekeepers : NotifySafekeepersRequest :=
  {| nr_TenantID := "t"; nr_TimelineID := "l"; nr_Generation := 5;
     nr_Safekeepers := [{| ns_ID := 3; ns_Hostname := None |}; {| ns_ID := 4; ns_Hostname := Some "sk-4" |}] |}.
Definition sample_info : TenantInfo :=
  {| ti_TenantID := "t"; ti_StripeSize := 2048; ti_Shards := [{| NodeAttached := 9 |}] |}.
Definition sample_extra : list (string * json) := [("preferred_az", JObj [("id", JNull)])].

(** The documents of the samples, the field names written out. *)
Lemma requests_decoded_witness :
  json_print (JObj (hook_fields sample_hook ++ sample_extra)) =
    dq "{`tenant_id`:`t`,`stripe_size`:2048,`shards`:[{`node_id`:7,`shard_number`:1}],`preferred_az`:{`id`:null}}" ∧
  decode_hook_request (json_print (JObj (hook_fields sample_hook ++ sample_extra))) = Ok sample_hook ∧
  decode_safekeepers_request (json_print (JObj (safekeepers_fields sample_safekeepers ++ sample_extra))) =
    Ok sample_safekeepers ∧
  decode_safekeepers_request
    (json_print (JObj (safekeepers_fields (with_generation sample_safekeepers (2 ^ 32)) ++ sample_extra))) =
    Err json_error ∧
  decode_tenant_info (json_print (JObj (tenant_fields sample_info ++ sample_extra))) = Ok sample_info.
Proof.
  destruct (requests_decoded sample_hook sample_safekeepers sample_info (2 ^ 32) sample_extra) as (Hh&Hs&Hi).
  assert (∀ names, names ∈ [hook_names; safekeepers_names; tenant_names] → unknown names sample_extra) as Hextra.
  { intros names Hn. apply Forall_singleton. split_and!; [|done..].
    repeat (apply elem_of_cons in Hn as [->|Hn]; [apply (bool_decide_unpack _); by vm_compute|]).
    by apply elem_of_nil in Hn. }
  split; [vm_compute; reflexivity|]. split_and!.
  - apply Hh; [|apply Hextra; set_solver]. split_and!; [done|by intros z [= <-]|].
    apply Forall_singleton. by split; split.
  - apply Hs; [|apply Hextra; set_solver]. split_and!; [done..|by split|].
    repeat (apply List.Forall_cons; [split; [by split|by intros h [= <-]]|]). apply List.Forall_nil.
  - apply Hs; [|apply Hextra; set_solver|intros [_ Hlt]; done]. split_and!; [done..|by split|].
    repeat (apply List.Forall_cons; [split; [by split|by intros h [= <-]]|]). apply List.Forall_nil.
  - apply Hi; [|apply Hextra; set_solver]. split_and!; [done|by split|]. apply Forall_singleton. by split.
Defined.
