(* ===== verification/ControlPlane.v ===== *)
(** * The control plane: internal/controlplane/{routes,server}.go

    The HTTP handlers compute nodes and the storage controller call, and the table
    that routes requests to them, registered on the mux of NetHttp.v.  A handler is a
    program from the request's path values and body to the response; the calls it makes
    are those of ComputeSpec.v.  How the response goes out, what is logged of it and what
    an error of the connection does is in Middleware.v. *)

From S2P Require Import Prelude GoLib NetHttp GoJson JsonParse JsonDecode KubeTypes Api Interfaces.
From S2P Require Import Reference Prog Calls Server Jwt Reconcile Shard ComputeSpec.

Module controlplane.

Definition StatusOK : Z := 200.
Definition StatusBadRequest : Z := 400.
Definition StatusNotFound : Z := 404.
Definition StatusInternalServerError : Z := 500.

(** [w.WriteHeader(status)] and nothing else. *)
Definition status_only (status : Z) : response :=
  {| resp_Status := status; resp_Headers := []; resp_Body := "" |}.

(** [encode(w, r, status, v)]: the encoder ends the document with a newline. *)
Definition encode (status : Z) (v : json) : response :=
  {| resp_Status := status;
     resp_Headers := [("Content-Type", "application/json")];
     resp_Body := json_print v +:+ newline |}.

Section handlers.
Context `{CryptoOps} `{JwtOps} `{HttpOps}.
Context (computeBaseURL : string).

Definition handleHealthCheck : prog response := Ret (status_only StatusOK).

Definition handleComputeSpec (computeID : string) : prog response :=
  let_ok sp := spec.GenerateComputeSpec None computeID
    or err return Ret (status_only StatusInternalServerError);
  Ret (encode StatusOK (spec.ComputeSpecResponse_json sp)).

(** The loop over the deployments: every one is refreshed, failures are counted. *)
Fixpoint refresh_all (refresh : Deployment → prog (option error)) (deployments : list Deployment)
    (failcount : Z) : prog Z :=
  match deployments with
  | [] => Ret failcount
  | deployment :: deployments =>
      err ← refresh deployment;
      refresh_all refresh deployments (match err with Some _ => failcount + 1 | None => failcount end)
  end.

(** [body] is what [io.ReadAll(r.Body)] gives. *)
Definition notifyAttach (body : reply string) : prog response :=
  match body with
  | Err _ => Ret (status_only StatusInternalServerError)
  | Ok body =>
  match spec.decode_hook_request body with
  | Err _ => Ret (status_only StatusInternalServerError)
  | Ok actualRequest =>
      let_ok deployments := spec.FindTenantDeployments (spec.hr_TenantID actualRequest)
        or err return Ret (status_only StatusInternalServerError);
      match deployments with
      | [] => Ret (status_only StatusNotFound)
      | _ =>
          failcount ← refresh_all (spec.RefreshConfiguration computeBaseURL actualRequest) deployments 0;
          Ret (status_only (if 0 <? failcount then StatusInternalServerError else StatusOK))
      end
  end end.

Definition notifySafekeepers (body : reply string) : prog response :=
  match body with
  | Err _ => Ret (status_only StatusInternalServerError)
  | Ok body =>
  match spec.decode_safekeepers_request body with
  | Err _ => Ret (status_only StatusBadRequest)
  | Ok req =>
      let_ok deployments := spec.FindTenantTimelineDeployments (spec.nr_TenantID req) (spec.nr_TimelineID req)
        or err return Ret (status_only StatusInternalServerError);
      match deployments with
      | [] => Ret (status_only StatusNotFound)
      | _ =>
          failcount ← refresh_all (spec.RefreshSafekeepersConfiguration computeBaseURL req) deployments 0;
          Ret (status_only (if 0 <? failcount then StatusInternalServerError else StatusOK))
      end
  end end.

(** ** Routing *)

Inductive route :=
  | RouteComputeSpec (compute_id : string)
  | RouteHealth
  | RouteNotifyAttach
  | RouteNotifySafekeepers.

(** The patterns registered on the mux; one without a method matches every method. *)
Definition addRoutes : routes route :=
  [ ("/compute/api/v2/computes/{compute_id}/spec", λ values, RouteComputeSpec (PathValue values "compute_id"));
    ("/healthz", λ _, RouteHealth);
    ("/readyz", λ _, RouteHealth);
    ("/notify-attach", λ _, RouteNotifyAttach);
    ("/notify-safekeepers", λ _, RouteNotifySafekeepers) ].

Example addRoutes_examples :
  map (findHandler addRoutes)
    ["/readyz"; "/%68ealthz"; "/compute/api/v2/computes/main/spec"; "/compute/api/v2/computes/a%2Fb/spec";
     "//healthz"; "/x/../healthz"; ""; "/healthz/"; "/compute/api/v2/computes/%2F/spec"; "*"] =
  [Routed RouteHealth; Routed RouteHealth; Routed (RouteComputeSpec "main"); Routed (RouteComputeSpec "a/b");
   Moved "/healthz"; Moved "/healthz"; Moved "/"; Unrouted; Unrouted; Refused].
Proof. vm_compute. reflexivity. Qed.

(** The handler of [newServer]: the mux with these routes. *)
Definition newServer (rq : Incoming) (body : reply string) : prog response :=
  match findHandler addRoutes (in_Path rq) with
  | Refused => Ret BadRequest
  | Moved path => Ret (Redirect rq path)
  | Routed RouteHealth => handleHealthCheck
  | Routed (RouteComputeSpec compute_id) => handleComputeSpec compute_id
  | Routed RouteNotifyAttach => notifyAttach body
  | Routed RouteNotifySafekeepers => notifySafekeepers body
  | Unrouted => Ret NotFound
  end.
End handlers.

(** ** Properties *)

Section properties.
Context `{CryptoOps} `{JwtOps} `{HttpOps}.
Context (computeBaseURL : string).

Definition failures (errs : list (option error)) : Z :=
  Z.of_nat (length (filter (λ e, e ≠ None) errs)).

Lemma failures_0 errs : failures errs = 0 ↔ Forall (λ e, e = None) errs.
Proof.
  unfold failures. induction errs as [|[e|] errs IH]; [by split|..].
  - rewrite filter_cons_True by done. cbn [length]. split; [lia|]. by inversion 1.
  - rewrite filter_cons_False by naive_solver. rewrite IH. split; [by constructor|by inversion 1].
Qed.

(** The loop refreshes every deployment, in order, whatever happens to the others,
    and counts the failures. *)
Lemma wp_refresh_all (refresh : Deployment → prog (option error)) (R : Deployment → trace → option error → Prop) :
  (∀ d, wp (refresh d) (runs (R d))) → ∀ deployments n,
  wp (refresh_all refresh deployments n) (λ tr out, ∃ trs errs,
    tr = concat trs ∧ Forall3 R deployments trs errs ∧ out = Returned (n + failures errs)).
Proof.
  intros Hrefresh. induction deployments as [|d deployments IH]; intros n; cbn [refresh_all].
  - apply wp_ret. exists [], []. split_and!; [done|constructor|]. f_equal. unfold failures. simpl. lia.
  - wp_use (Hrefresh d); [|done]. intros tr err Hrun. cbn [runs] in Hrun.
    eapply wp_mono; [|apply IH]. intros tr' out (trs&errs&->&HF&->).
    exists (tr :: trs), (err :: errs). split_and!; [done|by constructor|]. f_equal. unfold failures.
    destruct err; [rewrite filter_cons_True by done|rewrite filter_cons_False by naive_solver];
      cbn [length]; lia.
Qed.

(** What a notification handler does with a body: [bad] answers a body that does not
    decode, [empty] an empty list. *)
Inductive notify_run {req : Type} (decode : string → result req) (labels : req → list (string * string))
    (R : req → Deployment → trace → option error → Prop) (bad empty : Z) (body : reply string) :
    trace → response → Prop :=
  | notify_unread f :
      body = Err f → notify_run decode labels R bad empty body [] (status_only StatusInternalServerError)
  | notify_undecoded text e :
      body = Ok text → decode text = Err e → notify_run decode labels R bad empty body [] (status_only bad)
  | notify_unlisted text r f :
      body = Ok text → decode text = Ok r →
      notify_run decode labels R bad empty body
        [Ev (CList KDeployment (labels r)) (Err f)] (status_only StatusInternalServerError)
  | notify_none text r :
      body = Ok text → decode text = Ok r →
      notify_run decode labels R bad empty body [Ev (CList KDeployment (labels r)) (Ok [])] (status_only empty)
  | notify_all text r deployments trs errs :
      body = Ok text → decode text = Ok r → deployments ≠ [] → Forall3 (R r) deployments trs errs →
      notify_run decode labels R bad empty body
        (Ev (CList KDeployment (labels r)) (Ok deployments) :: concat trs)
        (status_only (if decide (Forall (λ e, e = None) errs) then StatusOK else StatusInternalServerError)).

Definition attach_labels (r : spec.ComputeHookNotifyRequest) : list (string * string) :=
  [("neon.tenant_id", spec.hr_TenantID r)].
Definition attach_refresh (r : spec.ComputeHookNotifyRequest) :
    Deployment → trace → option error → Prop :=
  spec.refresh_run computeBaseURL (Some r) spec.no_edit.

Definition attach_run : reply string → trace → response → Prop :=
  notify_run spec.decode_hook_request attach_labels attach_refresh
    StatusInternalServerError StatusInternalServerError.

Definition safekeepers_labels (r : spec.NotifySafekeepersRequest) : list (string * string) :=
  [("neon.tenant_id", spec.nr_TenantID r); ("neon.timeline_id", spec.nr_TimelineID r)].
Definition safekeepers_refresh (r : spec.NotifySafekeepersRequest) (d : Deployment) :
    trace → option error → Prop :=
  spec.refresh_run computeBaseURL None (spec.safekeepers_edit r d) d.

Definition safekeepers_run : reply string → trace → response → Prop :=
  notify_run spec.decode_safekeepers_request safekeepers_labels safekeepers_refresh
    StatusBadRequest StatusNotFound.

Lemma count_status errs :
  (if 0 <? 0 + failures errs then StatusInternalServerError else StatusOK) =
  (if decide (Forall (λ e, e = None) errs) then StatusOK else StatusInternalServerError).
Proof.
  case_decide as HF.
  - apply failures_0 in HF. by rewrite HF.
  - destruct (Z.ltb_spec 0 (0 + failures errs)); [done|]. exfalso. apply HF, failures_0.
    unfold failures in *. lia.
Qed.

Lemma wp_notifyAttach body :
  wp (notifyAttach computeBaseURL body) (λ tr out, ∃ resp, out = Returned resp ∧ attach_run body tr resp).
Proof.
  unfold notifyAttach, spec.FindTenantDeployments.
  destruct body as [text|f]; [|wp_steps; eexists; split; [done|by eapply notify_unread]].
  destruct (spec.decode_hook_request text) as [r|e] eqn:Hr;
    [|wp_steps; eexists; split; [done|by eapply notify_undecoded]].
  wp_call lr. destruct lr as [items|f]; cbn [from_env];
    [|wp_steps; eexists; split; [done|by eapply (notify_unlisted _ attach_labels attach_refresh _ _ _ text r)]].
  destruct items as [|d items]; wp_steps.
  - eexists. split; [done|by eapply (notify_none _ attach_labels attach_refresh _ _ _ text r)].
  - wp_use (wp_refresh_all (spec.RefreshConfiguration computeBaseURL r)
      (attach_refresh r)
      (λ d, spec.wp_RefreshConfiguration computeBaseURL r d) (d :: items) 0);
      [|by intros ?? (?&?&_&_&?)].
    intros tr n (trs&errs&->&HF&[= ->]). wp_steps. rewrite app_nil_r, count_status.
    eexists. split; [done|]. by eapply (notify_all _ attach_labels attach_refresh _ _ _ text r (d :: items)).
Qed.

Lemma wp_notifySafekeepers body :
  wp (notifySafekeepers computeBaseURL body)
    (λ tr out, ∃ resp, out = Returned resp ∧ safekeepers_run body tr resp).
Proof.
  unfold notifySafekeepers, spec.FindTenantTimelineDeployments.
  destruct body as [text|f]; [|wp_steps; eexists; split; [done|by eapply notify_unread]].
  destruct (spec.decode_safekeepers_request text) as [r|e] eqn:Hr;
    [|wp_steps; eexists; split; [done|by eapply notify_undecoded]].
  wp_call lr. destruct lr as [items|f]; cbn [from_env];
    [|wp_steps; eexists; split; [done|by eapply (notify_unlisted _ safekeepers_labels safekeepers_refresh _ _ _ text r)]].
  destruct items as [|d items]; wp_steps.
  - eexists. split; [done|by eapply (notify_none _ safekeepers_labels safekeepers_refresh _ _ _ text r)].
  - wp_use (wp_refresh_all (spec.RefreshSafekeepersConfiguration computeBaseURL r)
      (safekeepers_refresh r)
      (λ d, spec.wp_RefreshSafekeepersConfiguration computeBaseURL r d) (d :: items) 0);
      [|by intros ?? (?&?&_&_&?)].
    intros tr n (trs&errs&->&HF&[= ->]). wp_steps. rewrite app_nil_r, count_status.
    eexists. split; [done|]. by eapply (notify_all _ safekeepers_labels safekeepers_refresh _ _ _ text r (d :: items)).
Qed.

Lemma refreshes_quiet {req} (R : req → Deployment → trace → option error → Prop) r deployments trs errs :
  (∀ d t e, R r d t e → writes t = []) → Forall3 (R r) deployments trs errs → writes (concat trs) = [].
Proof.
  intros HR. induction 1 as [|d t e ds ts es Hd _ IH]; [done|]. cbn [concat].
  rewrite writes_app, IH. by rewrite (HR _ _ _ Hd).
Qed.

Lemma notify_writes {req} decode labels (R : req → Deployment → trace → option error → Prop) bad empty body tr resp :
  (∀ r d t e, R r d t e → writes t = []) →
  notify_run decode labels R bad empty body tr resp → writes tr = [].
Proof.
  intros HR [f ?|text e ? ?|text r f ? ?|text r ? ?|text r ds trs errs ? ? ? HF]; try done.
  cbn [writes is_write ev_call]. eapply refreshes_quiet; [apply HR|exact HF].
Qed.




Lemma wp_handleComputeSpec computeID :
  wp (handleComputeSpec computeID) (λ tr out, ∃ resp, out = Returned resp ∧ writes tr = [] ∧
    (resp = status_only StatusInternalServerError ∨ ∃ sp, spec.generates None computeID tr sp ∧
       resp = encode StatusOK (spec.ComputeSpecResponse_json sp))).
Proof.
  unfold handleComputeSpec. wp_use (spec.wp_GenerateComputeSpec None computeID); [|by intros ?? (?&?&_)].
  intros tr r (r'&[= ->]&Hw&_&Hok). destruct r' as [sp|e]; wp_steps; rewrite app_nil_r;
    (eexists; split_and!; [done|done|]); [right; exists sp|left]; auto.
Qed.

(** The one pattern with a wildcard. *)
Lemma compute_route segs computeID :
  find_route addRoutes segs = Some (RouteComputeSpec computeID) →
  segs = ["compute"; "api"; "v2"; "computes"; computeID; "spec"].
Proof.
  unfold addRoutes, find_route.
  change (parse_pattern "/compute/api/v2/computes/{compute_id}/spec") with
    [Lit "compute"; Lit "api"; Lit "v2"; Lit "computes"; Wild "compute_id"; Lit "spec"].
  change (parse_pattern "/healthz") with [Lit "healthz"].
  change (parse_pattern "/readyz") with [Lit "readyz"].
  change (parse_pattern "/notify-attach") with [Lit "notify-attach"].
  change (parse_pattern "/notify-safekeepers") with [Lit "notify-safekeepers"].
  destruct (match_segments _ segs) as [values|] eqn:Hm;
    [|repeat (destruct (match_segments _ segs); [done|]); done].
  intros [= <-]. clear -Hm.
  do 6 (destruct segs as [|? segs]; cbn [match_segments] in Hm; repeat case_decide; try done).
  destruct segs; cbn [match_segments fmap option_fmap option_map] in Hm; [|done]. by simplify_eq/=.
Qed.

(** C25. The whole server: for every request (of any method but CONNECT) and body, in every
    environment, it answers and never panics, changes nothing in the cluster, and answers
    with one of five statuses.  The asterisk is a 400; a path that is not clean is
    redirected with a 301 to the clean one, whatever it is; a clean path that no pattern
    matches is a 404; health checks are a 200: these four make no call at all.  A compute
    specification is served only in a 200 and only as generated for the compute id of the
    path, unescaped. *)
Theorem newServer_safe rq body :
  wp (newServer computeBaseURL rq body) (λ tr out, ∃ resp, out = Returned resp ∧ writes tr = [] ∧
    resp_Status resp ∈ [200; 301; 400; 404; 500] ∧
    match findHandler addRoutes (in_Path rq) with
    | Refused => tr = [] ∧ in_Path rq = "*" ∧ resp_Status resp = 400
    | Moved path => tr = [] ∧ path = cleanPath (in_Path rq) ∧ path ≠ in_Path rq ∧ resp = Redirect rq path
    | Unrouted => tr = [] ∧ resp_Status resp = 404
    | Routed RouteHealth => tr = [] ∧ resp = status_only 200
    | Routed (RouteComputeSpec computeID) =>
        cleanPath (in_Path rq) = in_Path rq ∧
        mux_segments (in_Path rq) = ["compute"; "api"; "v2"; "computes"; computeID; "spec"] ∧
        (resp = status_only 500 ∨
         ∃ sp, spec.generates None computeID tr sp ∧ resp = encode 200 (spec.ComputeSpecResponse_json sp))
    | Routed RouteNotifyAttach => resp_Status resp ∈ [200; 500]
    | Routed RouteNotifySafekeepers => resp_Status resp ∈ [200; 400; 404; 500]
    end).
Proof.
  unfold newServer. destruct (findHandler addRoutes (in_Path rq)) as [|path|[computeID| | |]|] eqn:Hfind.
  - apply wp_ret. eexists. split_and!; [done|done|by do 2 right; left|done| |done].
    by eapply findHandler_Refused.
  - apply wp_ret. apply findHandler_Moved in Hfind as [-> Hne].
    eexists. split_and!; [done|done|by right; left|done..].
  - eapply wp_mono; [|apply wp_handleComputeSpec]. intros tr out (resp&->&Hw&Hresp).
    apply findHandler_Routed in Hfind as [Hclean Hfind].
    exists resp. split_and!; [done|done| |done|by apply compute_route|done].
    destruct Hresp as [->|(sp&_&->)]; [by do 4 right; left|by left].
  - apply wp_ret. eexists. split_and!; try done. by left.
  - eapply wp_mono; [|apply wp_notifyAttach]. intros tr out (resp&->&Hrun). exists resp.
    assert (resp_Status resp ∈ [200; 500]) as Hs.
    { destruct Hrun; cbn [status_only resp_Status]; try case_decide; set_solver. }
    split_and!; [done| |set_solver|done].
    eapply notify_writes; [|exact Hrun]. intros r d t e. apply spec.refresh_writes.
  - eapply wp_mono; [|apply wp_notifySafekeepers]. intros tr out (resp&->&Hrun). exists resp.
    assert (resp_Status resp ∈ [200; 400; 404; 500]) as Hs.
    { destruct Hrun; cbn [status_only resp_Status]; try case_decide; set_solver. }
    split_and!; [done| |set_solver|done].
    eapply notify_writes; [|exact Hrun]. intros r d t e. apply spec.refresh_writes.
  - apply wp_ret. eexists. split_and!; [done|done|by do 3 right; left|done..].
Qed.

(** ** The calls of the control plane *)

(** Reads of four kinds, requests and the clock: what the handlers need of the outside. *)
Definition reads_only (c : call) : Prop :=
  match c with
  | CGet (KSecret | KService) _ | CList (KDeployment | KProject | KBranch) _ | CHttp _ | CNow => True
  | _ => False
  end.

Lemma GenerateComputeSpec_calls request computeID : calls_only reads_only (spec.GenerateComputeSpec request computeID).
Proof.
  unfold spec.GenerateComputeSpec, spec.findComputeDeployment, spec.findProjectAndBranch,
    spec.getJWTKeysFromSecret, spec.actual_request, spec.GetTenantInfo.
  by walk.
Qed.

Lemma postComputeSpec_calls sp deployment computeId clusterName :
  calls_only reads_only (spec.postComputeSpec computeBaseURL sp deployment computeId clusterName).
Proof. unfold spec.postComputeSpec. by walk. Qed.

Lemma refresh_all_calls refresh deployments n :
  (∀ d, calls_only reads_only (refresh d)) → calls_only reads_only (refresh_all refresh deployments n).
Proof.
  intros Hr. revert n. induction deployments as [|d ds IH]; intros n; simpl; [done|].
  apply calls_only_bind; auto.
Qed.

Lemma newServer_calls rq body : calls_only reads_only (newServer computeBaseURL rq body).
Proof.
  unfold newServer, handleHealthCheck, handleComputeSpec, notifyAttach, notifySafekeepers,
    spec.FindTenantDeployments, spec.FindTenantTimelineDeployments.
  walk; try done; try apply GenerateComputeSpec_calls; apply refresh_all_calls; intros deployment;
    unfold spec.RefreshConfiguration, spec.RefreshSafekeepersConfiguration;
    walk; auto using GenerateComputeSpec_calls, postComputeSpec_calls.
Qed.
End properties.

End controlplane.
