(* ===== verification/Listener.v ===== *)
(** * The listener of the control plane: [ControlPlane.Start] of server.go

    [Start] runs two threads, its own and the goroutine that listens, which share
    the channel [errCh]; the manager cancels the context from outside.  The method is
    a step relation on the state of both threads, the channel and the context: one
    step for each thing that happens, labelled with it, in any order the Go scheduler
    and the network allow. *)

From S2P Require Import Prelude GoLib NetHttp Interfaces Prog Server Reference ControlPlane.
From stdpp Require Import relations.

Module listener.

(** [http.ErrServerClosed] *)
Definition server_closed : string := "http: Server closed".
Definition ErrServerClosed : error := Sentinel server_closed.

(** [10 * time.Second] *)
Definition shutdownTimeout : Z := 10.

Section start.
Context `{CryptoOps} `{JwtOps} `{HttpOps}.
Context {Logger Client : Type}.

Record ControlPlane := {
  Log : option Logger;
  K8sClient : option Client;
  BindAddr : string;
  ComputeBaseURL : string;
}.

(** The fields of [http.Server] the method sets. *)
Record HttpServer := {
  Addr : string;
  Handler : Incoming → reply string → prog response;
  ReadHeaderTimeout : Z;
}.

(** The goroutine: inside [ListenAndServe], at the send [errCh <- err], or over. *)
Inductive goroutine := Serving | Sending (err : error) | Exited.

(** The caller: at the [select], inside [Shutdown], or back with a result. *)
Inductive caller := Selecting | ShuttingDown (timeout : Z) | Back (err : option error).

Record state := State {
  st_server : HttpServer;
  st_goroutine : goroutine;
  st_caller : caller;
  st_errCh : list error;   (** what the buffered channel holds *)
  st_done : bool;          (** [ctx] is cancelled *)
  st_closing : bool;       (** [Shutdown] was called *)
}.

(** [make(chan error, 1)] *)
Definition errCh_capacity : nat := 1.

(** The checks, and the state at the [select]. *)
Definition Start (cp : ControlPlane) : result state :=
  match Log cp with
  | None => Err (Errorf "controlplane: Log is required")
  | Some _ =>
  match K8sClient cp with
  | None => Err (Errorf "controlplane: Client is required")
  | Some _ =>
  if decide (BindAddr cp = "") then Err (Errorf "controlplane: BindAddr is required") else
  Ok {| st_server := {| Addr := BindAddr cp;
                        Handler := controlplane.newServer (ComputeBaseURL cp);
                        ReadHeaderTimeout := 10 |};
        st_goroutine := Serving; st_caller := Selecting; st_errCh := [];
        st_done := false; st_closing := false |}
  end end.

(** [err != nil && !errors.Is(err, http.ErrServerClosed)]: what the goroutine does
    once [ListenAndServe] has returned. *)
Definition after_serve (err : option error) : goroutine :=
  match err with
  | Some e => if errors_Is e server_closed then Exited else Sending e
  | None => Exited
  end.

(** [ListenAndServe] always returns an error, and ErrServerClosed only once the
    server is being shut down. *)
Definition serve_returns (closing : bool) (err : option error) : Prop :=
  ∃ e, err = Some e ∧ (errors_Is e server_closed = true → closing = true).

Inductive event :=
  | Cancelled
  | ServeReturned (err : option error)
  | Sent (err : error)
  | TookDone
  | TookErr (err : error)
  | ShutdownReturned (err : option error).

Inductive step : state → event → state → Prop :=
  | step_cancel srv g c ch cl :
      step (State srv g c ch false cl) Cancelled (State srv g c ch true cl)
  | step_serve srv c ch d cl err :
      serve_returns cl err →
      step (State srv Serving c ch d cl) (ServeReturned err) (State srv (after_serve err) c ch d cl)
  | step_send srv e c ch d cl :
      (length ch < errCh_capacity)%nat →
      step (State srv (Sending e) c ch d cl) (Sent e) (State srv Exited c (ch ++ [e]) d cl)
  | step_select_done srv g ch cl :
      step (State srv g Selecting ch true cl) TookDone (State srv g (ShuttingDown shutdownTimeout) ch true true)
  | step_select_err srv g e ch d cl :
      step (State srv g Selecting (e :: ch) d cl) (TookErr e) (State srv g (Back (Some e)) ch d cl)
  | step_shutdown srv g t ch d cl err :
      step (State srv g (ShuttingDown t) ch d cl) (ShutdownReturned err) (State srv g (Back err) ch d cl).

(** What has happened since [Start] was called, in order. *)
Inductive run (s0 : state) : list event → state → Prop :=
  | run_nil : run s0 [] s0
  | run_snoc tr s e s' : run s0 tr s → step s e s' → run s0 (tr ++ [e]) s'.

(** The steps the caller takes by itself. *)
Definition caller_step (s : state) : Prop :=
  ∃ e s', step s e s' ∧ st_caller s ≠ st_caller s'.

(** ** The invariant of the two threads *)

(** A failure of the listener, as opposed to the end of a shutdown. *)
Definition failed_with (tr : list event) (e : error) : Prop :=
  ServeReturned (Some e) ∈ tr ∧ errors_Is e server_closed = false.

(** The channel is filled by the goroutine alone, once, as it ends. *)
Definition goroutine_inv (tr : list event) (s : state) : Prop :=
  match st_goroutine s with
  | Serving => st_errCh s = []
  | Sending e => st_errCh s = [] ∧ failed_with tr e
  | Exited => st_errCh s = [] ∨ ∃ e, st_errCh s = [e] ∧ failed_with tr e
  end.

Definition caller_inv (tr : list event) (s : state) : Prop :=
  match st_caller s with
  | Selecting => st_closing s = false
  | ShuttingDown t => st_closing s = true ∧ t = shutdownTimeout ∧ Cancelled ∈ tr
  | Back r =>
      (st_closing s = true ∧ Cancelled ∈ tr ∧ ShutdownReturned r ∈ tr) ∨
      (st_closing s = false ∧ st_goroutine s = Exited ∧ ∃ e, r = Some e ∧ failed_with tr e)
  end.

Definition threads_inv (tr : list event) (s : state) : Prop :=
  goroutine_inv tr s ∧ caller_inv tr s ∧ (st_done s = true → Cancelled ∈ tr) ∧
  (st_closing s = true → st_done s = true).

Lemma failed_with_snoc tr e x : failed_with tr e → failed_with (tr ++ [x]) e.
Proof. intros [? ?]. split; [|done]. apply elem_of_app. by left. Qed.
Lemma elem_of_snoc_l (x y : event) tr : x ∈ tr → x ∈ tr ++ [y].
Proof. intros ?. apply elem_of_app. by left. Qed.
Lemma elem_of_snoc_r (x : event) tr : x ∈ tr ++ [x].
Proof. apply elem_of_app. right. by apply list_elem_of_singleton. Qed.
#[local] Hint Resolve failed_with_snoc elem_of_snoc_l elem_of_snoc_r : neon.

Lemma after_serve_inv tr err :
  match after_serve err with
  | Serving => False
  | Sending e => failed_with (tr ++ [ServeReturned err]) e
  | Exited => True
  end.
Proof.
  unfold after_serve. destruct err as [e|]; [|done].
  destruct (errors_Is e server_closed) eqn:E; [done|]. split; [apply elem_of_snoc_r|done].
Qed.

Lemma threads_inv_start cp s : Start cp = Ok s → threads_inv [] s.
Proof.
  unfold Start. destruct (Log cp), (K8sClient cp); try done. case_decide; [done|]. by intros [= <-].
Qed.

(** What has happened stays so. *)
Lemma threads_inv_snoc tr s x : threads_inv tr s → threads_inv (tr ++ [x]) s.
Proof.
  intros (Hg&Hc&Hd&Hcl). unfold threads_inv, goroutine_inv, caller_inv in *.
  split_and!; [| |by auto with neon|done].
  - destruct (st_goroutine s); [done|destruct Hg; split; auto with neon|].
    destruct Hg as [?|(e&?&?)]; [by left|right; exists e; auto with neon].
  - destruct (st_caller s); [done|destruct Hc as (?&?&?); auto with neon|].
    destruct Hc as [(?&?&?)|(?&?&e&?&?)]; [left|right]; split_and!; eauto with neon.
Qed.

Lemma threads_inv_step tr s x s' : threads_inv tr s → step s x s' → threads_inv (tr ++ [x]) s'.
Proof.
  intros Hinv Hstep. apply (threads_inv_snoc _ _ x) in Hinv as (Hg&Hc&Hd&Hcl).
  unfold threads_inv, goroutine_inv, caller_inv in *.
  inversion Hstep; subst; cbn [st_goroutine st_caller st_errCh st_done st_closing] in *.
  - split_and!; [done..| |]; naive_solver eauto with neon.
  - pose proof (after_serve_inv tr err) as Ha.
    split_and!; [destruct (after_serve err)|destruct c|..]; naive_solver.
  - destruct Hg as [-> Hf]. split_and!; [|destruct c|..]; naive_solver.
  - split_and!; naive_solver.
  - destruct g; [naive_solver..|]. destruct Hg as [?|(e'&[= -> ->]&Hf)]; [done|].
    split_and!; naive_solver.
  - split_and!; naive_solver eauto with neon.
Qed.

Lemma run_inv cp s0 tr s : Start cp = Ok s0 → run s0 tr s → threads_inv tr s.
Proof.
  intros Hs. induction 1 as [|tr s x s' _ IH Hstep]; [by eapply threads_inv_start|].
  by eapply threads_inv_step.
Qed.

(** C28. The two threads of [Start], at every moment of every execution, whatever the
    order of events: the channel never holds more than it has room for, and the
    goroutine is never stuck at its send, so it ends even when the caller has already
    gone; the result the caller is back with by the channel means that the goroutine is
    over.  No step but [Shutdown] closes the server, and it runs under the timeout,
    after the context was cancelled. *)
Theorem Start_never_blocks cp s0 tr s :
  Start cp = Ok s0 → run s0 tr s →
  (length (st_errCh s) ≤ errCh_capacity)%nat ∧
  (∀ e, st_goroutine s = Sending e → ∃ s', step s (Sent e) s' ∧ st_goroutine s' = Exited) ∧
  (st_closing s = false → ∀ r, st_caller s = Back r → st_goroutine s = Exited) ∧
  (∀ t, st_caller s = ShuttingDown t → t = shutdownTimeout ∧ st_done s = true) ∧
  (st_closing s = true → st_done s = true).
Proof.
  intros Hs Hrun. destruct (run_inv _ _ _ _ Hs Hrun) as (Hg&Hc&Hd&Hcl).
  unfold goroutine_inv, caller_inv in *. split_and!; [| | | |done].
  - destruct (st_goroutine s); [rewrite Hg; simpl; lia|destruct Hg as [-> _]; simpl; lia|].
    destruct Hg as [->|(e&->&_)]; unfold errCh_capacity; simpl; lia.
  - intros e He. rewrite He in Hg. destruct s as [srv g c ch d cl], Hg as [Hch _]. simpl in *. subst.
    eexists. split; [apply step_send; unfold errCh_capacity; simpl; lia|done].
  - intros Hn r Hr. rewrite Hr in Hc. naive_solver congruence.
  - intros t Ht. rewrite Ht in Hc. naive_solver.
Qed.

(** ** What the method returns *)

(** C29. [Start] fails at once when the log, the client or the address is missing, in
    that order, and starts nothing.  Otherwise it comes back only because the context
    was cancelled, with the answer of [Shutdown], or because the listener failed, with
    that failure and never with ErrServerClosed; so a nil result means it was
    cancelled, and a failure of the listener can only be lost to a cancellation. *)
Theorem Start_returns cp :
  (Start cp = Err (Errorf "controlplane: Log is required") ↔ Log cp = None) ∧
  (Start cp = Err (Errorf "controlplane: Client is required") ↔
     Log cp ≠ None ∧ K8sClient cp = None) ∧
  (Start cp = Err (Errorf "controlplane: BindAddr is required") ↔
     Log cp ≠ None ∧ K8sClient cp ≠ None ∧ BindAddr cp = "") ∧
  ((∃ s0, Start cp = Ok s0) ↔ Log cp ≠ None ∧ K8sClient cp ≠ None ∧ BindAddr cp ≠ "") ∧
  (∀ s0 tr s r, Start cp = Ok s0 → run s0 tr s → st_caller s = Back r →
     (Cancelled ∈ tr ∧ ShutdownReturned r ∈ tr) ∨ (∃ e, r = Some e ∧ failed_with tr e)).
Proof.
  unfold Start at 1 2 3 4. destruct (Log cp), (K8sClient cp); try case_decide;
    (split_and!; [naive_solver..|]); intros s0 tr s r Hs Hrun Hr;
    destruct (run_inv _ _ _ _ Hs Hrun) as (_&Hc&_); unfold caller_inv in Hc; rewrite Hr in Hc;
    naive_solver.
Qed.

(** ** Termination *)

(** The steps left: a cancellation, the two of the goroutine, the two of the caller. *)
Definition steps_left (s : state) : nat :=
  (if st_done s then 0 else 1) +
  match st_goroutine s with Serving => 2 | Sending _ => 1 | Exited => 0 end +
  match st_caller s with Selecting => 2 | ShuttingDown _ => 1 | Back _ => 0 end.

Lemma step_steps_left s x s' : step s x s' → (S (steps_left s') ≤ steps_left s)%nat.
Proof.
  inversion 1; subst; unfold steps_left; simpl; try lia.
  pose proof (after_serve_inv [] err). destruct (after_serve err); [done|lia..].
Qed.

Lemma run_steps_left s0 tr s : run s0 tr s → (length tr + steps_left s ≤ steps_left s0)%nat.
Proof.
  induction 1 as [|tr s x s' _ IH Hstep%step_steps_left]; [simpl; lia|].
  rewrite length_app. simpl. lia.
Qed.

Lemma step_sn s : sn (λ s s', ∃ x, step s x s') s.
Proof.
  remember (steps_left s) as n eqn:Hn. revert s Hn.
  induction (lt_wf n) as [n _ IH]. intros s ->.
  constructor. intros s' [x Hstep%step_steps_left]. by eapply IH.
Qed.

(** The step the caller can take, unless it has to wait. *)
Lemma caller_steps s :
  match st_caller s with
  | Selecting => st_done s = true ∨ st_errCh s ≠ []
  | ShuttingDown _ => True
  | Back _ => False
  end → caller_step s.
Proof.
  destruct s as [srv g [|t|r] ch d cl]; simpl; [| |done].
  - intros [->|Hch]; [by eexists _, _; split; [apply step_select_done|]|].
    destruct ch as [|e ch]; [done|]. by eexists _, _; split; [apply step_select_err|].
  - intros _. by eexists _, _; split; [by apply (step_shutdown _ _ _ _ _ _ None)|].
Qed.

Lemma stuck_over tr s :
  threads_inv tr s → (∀ x s', ¬ step s x s') → st_goroutine s = Exited ∧ ∃ r, st_caller s = Back r.
Proof.
  intros (Hg&_) Hstuck. assert (st_done s = true) as Hd.
  { destruct s as [? ? ? ? [] ?]; [done|]. by edestruct Hstuck; apply step_cancel. }
  split.
  - destruct s as [srv [|e|] c ch d cl]; unfold goroutine_inv in Hg; simpl in *; [..|done].
    + edestruct Hstuck. apply (step_serve _ _ _ _ _ (Some (Foreign (plain_fault "")))).
      eexists. split; [done|]. by intros ?.
    + destruct Hg as [-> _]. edestruct Hstuck. apply step_send. unfold errCh_capacity. simpl. lia.
  - destruct (st_caller s) as [|t|r] eqn:Ec; [| |by eauto];
      destruct (caller_steps s) as (x&s'&Hs&_); rewrite ?Ec; eauto; by edestruct Hstuck.
Qed.

(** C27. Every execution of [Start] is finite, at most five steps after the [select] is
    reached, and one that can go no further has ended both threads: the method has
    returned and the goroutine is not leaked.  Until then the caller waits only at the
    select, and only while the context is not cancelled and the channel is empty. *)
Theorem Start_terminates cp s0 tr s :
  Start cp = Ok s0 → run s0 tr s →
  (length tr ≤ 5)%nat ∧ sn (λ s s', ∃ x, step s x s') s ∧
  ((∀ x s', ¬ step s x s') → st_goroutine s = Exited ∧ ∃ r, st_caller s = Back r) ∧
  (¬ caller_step s → (∀ r, st_caller s ≠ Back r) →
     st_caller s = Selecting ∧ st_done s = false ∧ st_errCh s = []).
Proof.
  intros Hs Hrun. split_and!.
  - assert (steps_left s0 = 5%nat) as H5.
    { revert Hs. unfold Start. destruct (Log cp), (K8sClient cp); try done.
      case_decide; [done|]. by intros [= <-]. }
    apply run_steps_left in Hrun. lia.
  - apply step_sn.
  - intros Hstuck. eapply stuck_over; [by eapply run_inv|done].
  - intros Hwait Hback. pose proof (caller_steps s) as Hc.
    destruct (st_caller s); [|by destruct Hwait; auto|by destruct (Hback err)].
    split_and!; [done|apply not_true_is_false|apply dec_stable]; intros ?; apply Hwait; auto.
Qed.
End start.

(** ** Witnesses *)

Module Examples.
Import RefInstances.

Definition cp : ControlPlane (Logger := ()) (Client := ()) :=
  {| Log := Some (); K8sClient := Some (); BindAddr := ":8082"; ComputeBaseURL := "" |}.

Definition selecting : state :=
  {| st_server := {| Addr := ":8082"; Handler := controlplane.newServer ""; ReadHeaderTimeout := 10 |};
     st_goroutine := Serving; st_caller := Selecting; st_errCh := []; st_done := false; st_closing := false |}.

(** The address is taken, and the manager stops at the same moment. *)
Definition in_use : error := Foreign (plain_fault "listen tcp :8082: bind: address already in use").

Definition sending : state :=
  State (st_server selecting) (Sending in_use) (ShuttingDown shutdownTimeout) [] true true.

Lemma run_sending : run selecting [Cancelled; ServeReturned (Some in_use); TookDone] sending.
Proof.
  apply (run_snoc _ [Cancelled; ServeReturned (Some in_use)]
    (State (st_server selecting) (Sending in_use) Selecting [] true false)); [|apply step_select_done].
  apply (run_snoc _ [Cancelled] (State (st_server selecting) Serving Selecting [] true false)).
  - apply (run_snoc _ [] selecting); [constructor|apply step_cancel].
  - apply (step_serve (st_server selecting) Selecting [] true false (Some in_use)).
    exists in_use. split; [done|]. by intros ?.
Qed.
End Examples.

Lemma Start_never_blocks_witness :
  ∃ s', step Examples.sending (Sent Examples.in_use) s' ∧ st_goroutine s' = Exited.
Proof.
  exact (proj1 (proj2 (Start_never_blocks Examples.cp Examples.selecting _ Examples.sending
    eq_refl Examples.run_sending)) Examples.in_use eq_refl).
Defined.

Lemma Start_terminates_witness :
  sn (λ s s', ∃ x, step s x s') Examples.sending.
Proof.
  exact (proj1 (proj2 (Start_terminates Examples.cp Examples.selecting _ Examples.sending
    eq_refl Examples.run_sending))).
Defined.

(** A listener that fails while the manager runs is reported. *)
Lemma Start_returns_witness :
  ∃ e, Some Examples.in_use = Some e ∧
    failed_with [ServeReturned (Some Examples.in_use); Sent Examples.in_use; TookErr Examples.in_use] e.
Proof.
  edestruct (proj2 (proj2 (proj2 (proj2 (Start_returns Examples.cp)))) Examples.selecting
    [ServeReturned (Some Examples.in_use); Sent Examples.in_use; TookErr Examples.in_use]
    (State (st_server Examples.selecting) Exited (Back (Some Examples.in_use)) [] false false)
    (Some Examples.in_use) eq_refl) as [[Hc _]|He]; [|done| |exact He].
  - apply (run_snoc _ [ServeReturned (Some Examples.in_use); Sent Examples.in_use]
      (State (st_server Examples.selecting) Exited Selecting [Examples.in_use] false false));
      [|apply step_select_err].
    apply (run_snoc _ [ServeReturned (Some Examples.in_use)]
      (State (st_server Examples.selecting) (Sending Examples.in_use) Selecting [] false false));
      [|apply (step_send (st_server Examples.selecting) Examples.in_use Selecting [] false false);
        unfold errCh_capacity; simpl; lia].
    apply (run_snoc _ [] Examples.selecting); [constructor|].
    apply (step_serve (st_server Examples.selecting) Selecting [] false false (Some Examples.in_use)).
    exists Examples.in_use. split; [done|]. by intros ?.
  - exfalso. by repeat (apply elem_of_cons in Hc as [?|Hc]; [done|]); apply elem_of_nil in Hc.
Defined.
End listener.
