(* ===== verification/Serving.v ===== *)
(** * Serving a specification from end to end

    The branch controller makes a Deployment, the control plane is asked for the
    specification of its compute node: the two meet only through labels, annotations
    and lists.  When the objects are there the request is answered. *)

From S2P Require Import Prelude GoLib NetHttp GoJson JsonParse KubeTypes Api Interfaces Reference Prog.
From S2P Require Import Server Jwt Reconcile ComputeRes Shard ComputeSpec ControlPlane.

(** ** Runs that are known call by call *)

Section answers.
Context {S : Type} (h : server S).

(** The program ends in a state with an outcome. *)
Definition ends {A} (s : S) (p : prog A) (s' : S) (o : outcome A) : Prop :=
  ∃ tr, exec h s p = (s', tr, o).

Lemma ends_ret {A} s (a : A) : ends s (Ret a) s (Returned a).
Proof. by eexists. Qed.
Lemma ends_perform {B} s s1 s' c r (f : received c → prog B) o :
  handle h s c = (s1, r) → ends s1 (f (receive c r)) s' o → ends s (perform c ≫= f) s' o.
Proof.
  intros Hh [tr Htr]. exists (Ev c r :: tr).
  change (perform c ≫= f) with (Vis c (λ r, f (receive c r))). cbn [exec]. by rewrite Hh, Htr.
Qed.
Lemma ends_bind {A B} s s1 s' (p : prog A) (f : A → prog B) a o :
  ends s p s1 (Returned a) → ends s1 (f a) s' o → ends s (p ≫= f) s' o.
Proof.
  intros [tr Htr] [tr' Htr']. exists (tr ++ tr'). by rewrite exec_bind, Htr, Htr'.
Qed.
End answers.

(** ** The path of a compute node *)

(** A request for the specification of a compute node; its method and query do not
    matter. *)
Definition spec_request (method id query : string) : Incoming :=
  {| in_Method := method; in_Path := "/compute/api/v2/computes/" +:+ id +:+ "/spec"; in_RawQuery := query |}.

Lemma spec_route id :
  plain_segment id = true →
  findHandler controlplane.addRoutes ("/compute/api/v2/computes/" +:+ id +:+ "/spec") =
  Routed (controlplane.RouteComputeSpec id).
Proof.
  intros Hid.
  change ("/compute/api/v2/computes/" +:+ id +:+ "/spec") with
    (path_of ["compute"; "api"; "v2"; "computes"; id; "spec"]).
  apply findHandler_plain; [done|by repeat constructor|].
  unfold controlplane.addRoutes, find_route.
  change (parse_pattern "/compute/api/v2/computes/{compute_id}/spec") with
    [Lit "compute"; Lit "api"; Lit "v2"; Lit "computes"; Wild "compute_id"; Lit "spec"].
  cbn [match_segments]. rewrite !(decide_True (P := _ = _)) by done. rewrite decide_False; [done|].
  intros ->. done.
Qed.

(** ** The specification of a compute node *)

Section served.
Context `{CryptoOps} `{JwtOps} `{HttpOps} `{QuantityOps}.
Context {S : Type} (h : server S) (s : S).

(** What has to be there for the compute node of a branch: a Deployment with the labels
    and annotations the branch controller gives it, the first of its list with the
    compute id; the project and the branch, the first of theirs with the tenant and the
    timeline; keys in the cluster's Secret; and a storage controller that describes the
    tenant. *)
Record ready (branch : Branch) (project : Project) (jm : JWTManager) (info : spec.TenantInfo) : Prop := {
  rd_deployment : ∃ deps dep d,
    handle h s (CList KDeployment [("molnett.org/component", "compute")]) = (s, Ok deps) ∧
    find_first (spec.has_compute_id (om_Name (br_Meta branch))) deps = Some d ∧
    compute.Deployment branch project = Returned dep ∧
    om_Labels (dep_Meta d) = om_Labels (dep_Meta dep) ∧
    om_Annotations (dep_Meta d) = om_Annotations (dep_Meta dep);
  rd_project : ∃ projects,
    handle h s (CList KProject []) = (s, Ok projects) ∧
    find_first (spec.is_project (prs_TenantID (pr_Spec project))) projects = Some project;
  rd_branch : ∃ branches,
    handle h s (CList KBranch []) = (s, Ok branches) ∧
    find_first (spec.is_branch (brs_TimelineID (br_Spec branch)) project) branches = Some branch;
  rd_keys : ∃ secret,
    handle h s (CGet KSecret (spec.jwt_secret_key (prs_ClusterName (pr_Spec project)))) = (s, Ok secret) ∧
    NewJWTManagerFromSecret secret = Ok jm;
  rd_tenant : ∃ resp body,
    handle h s (CHttp (spec.tenant_request (prs_ClusterName (pr_Spec project)) (prs_TenantID (pr_Spec project)))) =
      (s, Ok resp) ∧
    rs_StatusCode resp = 200 ∧ rs_Body resp = Ok body ∧ spec.decode_tenant_info body = Ok info;
}.

(** Each lookup finds what is there. *)
Lemma findComputeDeployment_ends id deps d :
  handle h s (CList KDeployment [("molnett.org/component", "compute")]) = (s, Ok deps) →
  find_first (spec.has_compute_id id) deps = Some d →
  ends h s (spec.findComputeDeployment id) s (Returned (Ok d)).
Proof.
  intros Hh Hf. eapply ends_perform; [exact Hh|]. cbn [receive from_env]. rewrite Hf. apply ends_ret.
Qed.

Lemma findProjectAndBranch_ends tenantID timelineID projects project branches branch :
  handle h s (CList KProject []) = (s, Ok projects) →
  find_first (spec.is_project tenantID) projects = Some project →
  handle h s (CList KBranch []) = (s, Ok branches) →
  find_first (spec.is_branch timelineID project) branches = Some branch →
  ends h s (spec.findProjectAndBranch tenantID timelineID) s (Returned (Ok (project, branch))).
Proof.
  intros Hp Hfp Hb Hfb. eapply ends_perform; [exact Hp|]. cbn [receive from_env]. rewrite Hfp.
  eapply ends_perform; [exact Hb|]. cbn [receive from_env]. rewrite Hfb. apply ends_ret.
Qed.

Lemma getJWTKeysFromSecret_ends cluster secret jm :
  handle h s (CGet KSecret (spec.jwt_secret_key cluster)) = (s, Ok secret) →
  NewJWTManagerFromSecret secret = Ok jm →
  ends h s (spec.getJWTKeysFromSecret cluster) s (Returned (Ok {| Keys := [ToJWK jm] |})).
Proof.
  intros Hh Hjm. eapply ends_perform; [exact Hh|]. cbn [receive from_env]. rewrite Hjm. apply ends_ret.
Qed.

Lemma actual_request_ends cluster tenantID resp body info :
  handle h s (CHttp (spec.tenant_request cluster tenantID)) = (s, Ok resp) →
  rs_StatusCode resp = 200 → rs_Body resp = Ok body → spec.decode_tenant_info body = Ok info →
  ends h s (spec.actual_request None cluster tenantID) s (Returned (Ok (spec.fallback_request info))).
Proof.
  intros Hh Hcode Hbody Hinfo. eapply (ends_bind _ _ s _ _ _ (Ok info)); [|apply ends_ret].
  eapply ends_perform; [exact Hh|]. cbn [receive from_env].
  rewrite Hcode, decide_False by (by intros []). rewrite Hbody, Hinfo. apply ends_ret.
Qed.

(** C12. What the parts are for: when the Deployment the branch controller makes for a
    branch is in the cluster, with its project, the cluster's keys and an answer of the
    storage controller ([ready]: the Deployment, the project and the branch are each the
    first of their list that matches), the control plane answers the request of the
    compute node under the name of the branch, of whatever method and query, with a 200
    and its specification, made from exactly this cluster name, project, branch, key and
    these shards, and changes nothing.  The name has to be one that a path carries as it
    is. *)
Theorem compute_spec_served branch project jm info url method query body :
  ready branch project jm info →
  let id := om_Name (br_Meta branch) in
  let cluster := prs_ClusterName (pr_Spec project) in
  plain_segment id = true →
  ends h s (controlplane.newServer url (spec_request method id query) body) s
    (Returned (controlplane.encode controlplane.StatusOK
       (spec.ComputeSpecResponse_json
          (spec.compute_spec cluster project branch {| Keys := [ToJWK jm] |}
             (spec.build_shards cluster (spec.hr_Shards (spec.fallback_request info))))))).
Proof.
  intros [(deps&dep&d&Hdeps&Hfirst&Hdep&Hlabels&Hannot) (projects&Hprojects&Hproject)
    (branches&Hbranches&Hbranch) (secret&Hsecret&Hjm) (resp&text&Hhttp&Hcode&Htext&Hinfo)] id cluster Hid.
  subst id cluster.
  destruct (spec.compute_deployment_found branch project dep Hdep) as (_&_&_&Hcl&Hten&Htim&_).
  assert (spec.extractClusterName d = Ok (prs_ClusterName (pr_Spec project))) as Hcl'.
  { rewrite <-Hcl. unfold spec.extractClusterName. by rewrite Hlabels, Hannot. }
  assert (spec.tenant_label d = Some (prs_TenantID (pr_Spec project))) as Hten'.
  { rewrite <-Hten. unfold spec.tenant_label. by rewrite Hlabels. }
  assert (spec.timeline_label d = Some (brs_TimelineID (br_Spec branch))) as Htim'.
  { rewrite <-Htim. unfold spec.timeline_label. by rewrite Hlabels. }
  unfold controlplane.newServer, spec_request. cbn [in_Path]. rewrite spec_route by done.
  eapply (ends_bind h _ s _ _ _ (Ok _)); [|apply ends_ret]. unfold spec.GenerateComputeSpec.
  eapply ends_bind; [by eapply findComputeDeployment_ends|]. cbv beta iota. rewrite Hcl', Hten', Htim'.
  eapply ends_bind; [by eapply findProjectAndBranch_ends|].
  eapply ends_bind; [by eapply getJWTKeysFromSecret_ends|].
  eapply ends_bind; [by eapply actual_request_ends|]. apply ends_ret.
Qed.
End served.

(** ** Witness: the objects the controllers make are enough *)

Import RefInstances.

(** The storage controller describes the tenant; everything else is answered as before. *)
Definition describes_tenant (rq : HttpRequest) : reply HttpResponse :=
  Ok {| rs_StatusCode := 200; rs_Status := "200 OK";
        rs_Body := Ok (dq "{`tenant_id`: `0badcafe`, `stripe_size`: 32768, `shards`: [{`node_attached`: 1}]}") |}.

Definition sample_branch : Branch := Samples.branch_with "0badbeef".
Definition sample_project : Project := Samples.project_with "0badcafe".

Definition sample_dep : Deployment :=
  match compute.Deployment sample_branch sample_project with
  | Returned d => d
  | Panicked _ => spec.sample_deployment
  end.
Definition serving : world :=
  put (World (w_items spec.pushable) 1000 describes_tenant) KDeployment sample_dep.

Definition serving_manager : JWTManager := {| privateKey := "priv"; publicKey := "priv" |}.
Definition serving_info : spec.TenantInfo :=
  {| spec.ti_TenantID := "0badcafe"; spec.ti_StripeSize := 32768; spec.ti_Shards := [{| spec.NodeAttached := 1 |}] |}.

Lemma world_get {k} w key (o : obj k) :
  find_item k key (w_items w) = Some o → handle world_server w (CGet k key) = (w, Ok o).
Proof. intros Hf. cbn [world_server handle world_handle]. by rewrite Hf. Qed.

Lemma world_list k w labels :
  handle world_server w (CList k labels) = (w, Ok (list_items k labels (w_items w))).
Proof. done. Qed.

Lemma serving_ready : ready world_server serving sample_branch sample_project serving_manager serving_info.
Proof.
  split.
  - eexists _, sample_dep, sample_dep.
    split_and!; [apply world_list|vm_compute; reflexivity|vm_compute; reflexivity|reflexivity..].
  - eexists. split; [apply world_list|vm_compute; reflexivity].
  - eexists. split; [apply world_list|vm_compute; reflexivity].
  - eexists. split; [apply world_get; vm_compute; reflexivity|vm_compute; reflexivity].
  - eexists _, _. split_and!; [reflexivity|reflexivity|reflexivity|vm_compute; reflexivity].
Qed.

Lemma compute_spec_served_witness :
  ∃ sp, ends world_server serving
    (controlplane.newServer "" (spec_request "GET" "main" "") (Ok "")) serving
    (Returned (controlplane.encode controlplane.StatusOK sp)).
Proof.
  eexists. refine (compute_spec_served world_server serving sample_branch sample_project serving_manager
    serving_info "" "GET" "" (Ok "") serving_ready _). done.
Defined.
