(* ===== verification/Middleware.v ===== *)
(** * The way out of a handler: response writers and the logging middleware

    ControlPlane.v gives every handler the response it means to send.  Here the response
    goes through [http.ResponseWriter], an interface with two implementations: the
    connection of net/http, which sends the first status it is given and then the body,
    and the [responseWriter] of routes.go, which embeds another writer and remembers the
    status.  A connection can refuse the bytes of a body, which [encode] reports and
    [handleComputeSpec] answers with another status. *)

From S2P Require Import Prelude GoLib NetHttp GoJson KubeTypes Api Interfaces.
From S2P Require Import Reference Prog Calls Server ComputeSpec ControlPlane Serving.

Import controlplane.

(** [http.ResponseWriter]: [w.Header().Set], [w.WriteHeader] and [w.Write]. *)
Class ResponseWriter (W : Type) := {
  Header_Set : string → string → W → W;
  WriteHeader : Z → W → W;
  Write : string → W → W * option error;
}.

(** ** The recording writer and the middleware *)

Record responseWriter (W : Type) := { rw_ResponseWriter : W; rw_status : Z }.
Arguments Build_responseWriter {W} _ _.
Arguments rw_ResponseWriter {W} _.
Arguments rw_status {W} _.

(** [WriteHeader] is the method of the struct; the others are those of what it embeds. *)
#[export] Instance responseWriter_writer {W} `{ResponseWriter W} : ResponseWriter (responseWriter W) := {
  Header_Set k v w := {| rw_ResponseWriter := Header_Set k v (rw_ResponseWriter w); rw_status := rw_status w |};
  WriteHeader status w := {| rw_ResponseWriter := WriteHeader status (rw_ResponseWriter w); rw_status := status |};
  Write b w :=
    let '(inner, err) := Write b (rw_ResponseWriter w) in
    ({| rw_ResponseWriter := inner; rw_status := rw_status w |}, err);
}.

(** The line of a request; its duration and what the client says of itself are left out. *)
Record log_line := { ll_method : string; ll_path : string; ll_status : Z }.

Definition logRequests {W} `{ResponseWriter W} (next : responseWriter W → prog (responseWriter W))
    (method path : string) (w : W) : prog (W * log_line) :=
  wrapped ← next {| rw_ResponseWriter := w; rw_status := StatusOK |};
  Ret (rw_ResponseWriter wrapped, {| ll_method := method; ll_path := path; ll_status := rw_status wrapped |}).

(** ** The handlers, writing *)

Section handlers.
Context `{CryptoOps} `{JwtOps} `{HttpOps} (computeBaseURL : string).
Context {W : Type} `{!ResponseWriter W}.

Definition encode_to (status : Z) (v : json) (w : W) : W * option error :=
  let w := Header_Set "Content-Type" "application/json" w in
  let w := WriteHeader status w in
  let '(w, err) := Write (json_print v +:+ newline) w in
  (w, Wrapf "encode json" <$> err).

Definition write_spec (r : result spec.ComputeSpecResponse) (w : W) : W :=
  match r with
  | Err _ => WriteHeader StatusInternalServerError w
  | Ok sp =>
      let '(w, err) := encode_to StatusOK (spec.ComputeSpecResponse_json sp) w in
      match err with
      | Some _ => WriteHeader StatusInternalServerError w
      | None => w
      end
  end.

(** Every path through the other handlers ends with one [WriteHeader]. *)
Definition serve_route (rt : route) (body : reply string) (w : W) : prog W :=
  match rt with
  | RouteComputeSpec computeID => r ← spec.GenerateComputeSpec None computeID; Ret (write_spec r w)
  | RouteHealth => Ret (WriteHeader StatusOK w)
  | RouteNotifyAttach => resp ← notifyAttach computeBaseURL body; Ret (WriteHeader (resp_Status resp) w)
  | RouteNotifySafekeepers => resp ← notifySafekeepers computeBaseURL body; Ret (WriteHeader (resp_Status resp) w)
  end.

(** What the mux writes itself: the headers, the status, and the body if there is one. *)
Definition write_response (resp : response) (w : W) : W :=
  let w := foldl (λ w kv, Header_Set kv.1 kv.2 w) w (resp_Headers resp) in
  let w := WriteHeader (resp_Status resp) w in
  if decide (resp_Body resp = "") then w else (Write (resp_Body resp) w).1.
End handlers.

(** ** The connection *)

(** The status line and headers once they are sent, the headers to come, the body. *)
Record conn := {
  cn_sent : option (Z * list (string * string));
  cn_header : list (string * string);
  cn_body : string;
}.
Definition new_conn : conn := {| cn_sent := None; cn_header := []; cn_body := "" |}.

(** [http.Header.Set] on keys in canonical form: it replaces. *)
Definition header_set (k v : string) (h : list (string * string)) : list (string * string) :=
  filter (λ kv, kv.1 ≠ k) h ++ [(k, v)].

Section served.
(** The bytes of a write that leave the machine, and the error it returns. *)
Context (transmit : string → string * option error).

(** A second status is superfluous and ignored; a write sends a status of 200 when none
    was sent. *)
Definition conn_WriteHeader (status : Z) (w : conn) : conn :=
  match cn_sent w with
  | Some _ => w
  | None => {| cn_sent := Some (status, cn_header w); cn_header := cn_header w; cn_body := cn_body w |}
  end.

Definition conn_Write (b : string) (w : conn) : conn * option error :=
  let w := conn_WriteHeader StatusOK w in
  let '(out, err) := transmit b in
  ({| cn_sent := cn_sent w; cn_header := cn_header w; cn_body := cn_body w +:+ out |}, err).

#[local] Instance conn_writer : ResponseWriter conn := {
  Header_Set k v w := {| cn_sent := cn_sent w; cn_header := header_set k v (cn_header w); cn_body := cn_body w |};
  WriteHeader := conn_WriteHeader;
  Write := conn_Write;
}.

Context `{CryptoOps} `{JwtOps} `{HttpOps} (computeBaseURL : string).

(** [ServeHTTP] of [newServer] on a fresh connection: the routes go through
    [logRequests], the mux's own answers do not. *)
Definition ServeHTTP (rq : Incoming) (body : reply string) : prog (conn * option log_line) :=
  match findHandler addRoutes (in_Path rq) with
  | Routed rt =>
      '(w, line) ← logRequests (serve_route computeBaseURL rt body) (in_Method rq) (in_URLPath rq) new_conn;
      Ret (w, Some line)
  | Refused => Ret (write_response BadRequest new_conn, None)
  | Moved path => Ret (write_response (Redirect rq path) new_conn, None)
  | Unrouted => Ret (write_response NotFound new_conn, None)
  end.

(** *** What a response looks like on the wire and in the log *)

(** The body arrives as far as it was transmitted. *)
Definition on_wire (resp : response) (w : conn) : Prop :=
  cn_sent w = Some (resp_Status resp, resp_Headers resp) ∧
  cn_body w = (if decide (resp_Body resp = "") then "" else (transmit (resp_Body resp)).1).

(** A request that reaches a handler. *)
Definition is_routed (rq : Incoming) : Prop := ∃ rt, findHandler addRoutes (in_Path rq) = Routed rt.

(** The status logged is the one sent, unless the body was refused. *)
Definition logged (rq : Incoming) (resp : response) (line : option log_line) : Prop :=
  line = match findHandler addRoutes (in_Path rq) with
         | Routed _ => Some {| ll_method := in_Method rq; ll_path := in_URLPath rq;
             ll_status := if decide (resp_Body resp = "" ∨ (transmit (resp_Body resp)).2 = None)
                          then resp_Status resp else StatusInternalServerError |}
         | _ => None
         end.

(** A program that goes on differently after the same beginning. *)
Lemma wp_bind_transfer {A B C} (p : prog A) (f : A → prog B) (g : A → prog C) P Q :
  (∀ tr a, wp (f a) (λ tr' o, P (tr ++ tr') o) → wp (g a) (λ tr' o, Q (tr ++ tr') o)) →
  (∀ tr w, P tr (Panicked w) → Q tr (Panicked w)) → wp (p ≫= f) P → wp (p ≫= g) Q.
Proof.
  intros Hret Hpanic Hp. apply wp_bind. apply wp_bind in Hp. eapply wp_mono; [|exact Hp].
  intros tr [a|w]; cbn [wp_seq]; auto.
Qed.

(** The answers of the notification handlers are statuses. *)
Lemma notify_run_status {req} decode labels (R : req → Deployment → trace → option error → Prop) bad empty body tr resp :
  notify_run decode labels R bad empty body tr resp → resp = status_only (resp_Status resp).
Proof. by destruct 1. Qed.

Lemma wp_notify_served {A} (p : prog response) (g : response → A) P Q :
  wp p (λ _ out, ∃ resp, out = Returned resp ∧ resp = status_only (resp_Status resp)) → wp p P →
  (∀ tr status, P tr (Returned (status_only status)) → Q tr (Returned (g (status_only status)))) →
  wp (resp ← p; Ret (g resp)) Q.
Proof.
  intros Hp HP HQ. apply wp_bind. eapply wp_mono; [|apply (wp_and _ _ _ Hp HP)].
  intros tr [resp|w] [(resp'&Heq&Hs) Ho]; [|done]. injection Heq as <-. cbn [wp_seq wp]. rewrite app_nil_r.
  rewrite Hs. apply HQ. by rewrite <-Hs.
Qed.

Definition served (rq : Incoming) (P : trace → outcome response → Prop) :
    trace → outcome (conn * option log_line) → Prop := λ tr out,
  match out with
  | Returned (w, line) => ∃ resp, P tr (Returned resp) ∧ on_wire resp w ∧ logged rq resp line
  | Panicked why => P tr (Panicked why)
  end.

(** A notification answered with a status alone. *)
Definition status_line (rq : Incoming) (resp : response) : conn * option log_line :=
  (conn_WriteHeader (resp_Status resp) new_conn,
   Some {| ll_method := in_Method rq; ll_path := in_URLPath rq; ll_status := resp_Status resp |}).

Lemma served_status rq P tr status :
  is_routed rq → P tr (Returned (status_only status)) →
  served rq P tr (Returned (status_line rq (status_only status))).
Proof.
  intros [rt Hroute] HP. exists (status_only status). split_and!; [done|done|].
  unfold logged. by rewrite Hroute.
Qed.

(** The specification that is sent, or the status for one that could not be made. *)
Lemma served_spec rq P tr (r : result spec.ComputeSpecResponse) (w : responseWriter conn) :
  is_routed rq → w = write_spec r {| rw_ResponseWriter := new_conn; rw_status := StatusOK |} →
  P tr (Returned (match r with
    | Ok sp => encode StatusOK (spec.ComputeSpecResponse_json sp)
    | Err _ => status_only StatusInternalServerError end)) →
  served rq P tr (Returned (rw_ResponseWriter w,
    Some {| ll_method := in_Method rq; ll_path := in_URLPath rq; ll_status := rw_status w |})).
Proof.
  intros [rt Hroute] -> HP. eexists. split; [exact HP|]. unfold logged, on_wire, write_spec, encode_to.
  rewrite Hroute. destruct r as [sp|e]; [|done]. unfold encode.
  cbn [resp_Body resp_Status resp_Headers]. generalize (json_print (spec.ComputeSpecResponse_json sp)).
  intros doc. assert (doc +:+ newline ≠ "") as Hne by (destruct doc; discriminate).
  rewrite decide_False by exact Hne. cbn. unfold conn_Write. cbn.
  destruct (transmit (doc +:+ newline)) as [out [err|]]; cbn.
  - rewrite decide_False by naive_solver. done.
  - rewrite decide_True by auto. done.
Qed.

(** The answers of the mux itself set each header once. *)
Lemma header_set_app k v h : k ∉ h.*1 → header_set k v h = h ++ [(k, v)].
Proof.
  intros Hk. unfold header_set. f_equal. induction h as [|[k' v'] h IH]; [done|].
  rewrite fmap_cons, not_elem_of_cons in Hk. cbn [fst] in Hk.
  rewrite filter_cons_True by (cbn [fst]; naive_solver). rewrite IH; naive_solver.
Qed.

Lemma headers_written hs h body :
  NoDup (h.*1 ++ hs.*1) →
  foldl (λ w kv, Header_Set kv.1 kv.2 w) {| cn_sent := None; cn_header := h; cn_body := body |} hs =
  {| cn_sent := None; cn_header := h ++ hs; cn_body := body |}.
Proof.
  revert h. induction hs as [|[k v] hs IH]; intros h Hnd; [by rewrite app_nil_r|]. cbn [foldl].
  rewrite fmap_cons in Hnd. cbn [fst] in Hnd.
  change (Header_Set (k, v).1 (k, v).2 _) with
    {| cn_sent := None; cn_header := header_set k v h; cn_body := body |}.
  rewrite header_set_app.
  - rewrite IH; [by rewrite <-app_assoc|]. rewrite fmap_app, <-app_assoc. exact Hnd.
  - intros Hin. apply NoDup_app in Hnd as (_&Hd&_). apply (Hd _ Hin). by left.
Qed.

Lemma served_by_mux rq P resp :
  ¬ is_routed rq → NoDup (resp_Headers resp).*1 → P [] (Returned resp) →
  served rq P [] (Returned (write_response resp new_conn, None)).
Proof.
  intros Hroute Hnd HP. exists resp. split; [done|]. unfold on_wire, logged, write_response.
  cbv zeta. unfold new_conn. rewrite headers_written by done. split.
  - case_decide as Hb; [done|]. cbn. unfold conn_Write. cbn. by destruct (transmit _).
  - destruct (findHandler _ _) eqn:Hf; [done|done| |done]. destruct Hroute. by eexists.
Qed.

Lemma Redirect_headers rq path : NoDup (resp_Headers (Redirect rq path)).*1.
Proof.
  unfold Redirect. cbn [resp_Headers]. destruct (decide (in_Method rq = "GET" ∨ _));
    [change (NoDup ["Location"; "Content-Type"])|change (NoDup ["Location"])];
    apply (bool_decide_unpack _); by vm_compute.
Qed.

(** C26. Serving, from the request to the bytes: whatever holds, in every environment, of the
    trace and the response a handler or the mux computes holds of what [ServeHTTP] sends.
    The status and headers on the wire are those of that response, exactly one status is
    sent, the body arrives as far as the connection takes it, and the recording writer
    of the middleware is not seen by the client.  The status logged for a route is the
    one sent, unless the connection refused the body: then 500 is logged for a response
    that went out as a 200.  What the mux answers itself is not logged. *)
Theorem served_as_computed rq body P :
  wp (newServer computeBaseURL rq body) P → wp (ServeHTTP rq body) (served rq P).
Proof.
  unfold newServer, ServeHTTP. destruct (findHandler addRoutes (in_Path rq)) as [|path|rt|] eqn:Hroute; intros HP.
  - apply wp_ret, served_by_mux; [intros [rt Hrt]; congruence|apply (bool_decide_unpack _); by vm_compute|exact HP].
  - apply wp_ret, served_by_mux; [intros [rt Hrt]; congruence|apply Redirect_headers|exact HP].
  - assert (is_routed rq) as Hne by by exists rt.
    unfold logRequests, serve_route. destruct rt as [computeID| | |].
    + do 2 apply wp_bind_assoc. unfold handleComputeSpec in HP. revert HP.
      apply wp_bind_transfer; [|done]. intros tr r HP.
      apply (served_spec rq P (tr ++ []) r _ Hne eq_refl). by destruct r.
    + by apply served_status.
    + do 2 apply wp_bind_assoc. apply (wp_notify_served _ (status_line rq) P); [|done|by intros; apply served_status].
      eapply wp_mono; [|apply wp_notifyAttach]. intros tr out (resp&->&Hrun). exists resp. split; [done|].
      by eapply notify_run_status.
    + do 2 apply wp_bind_assoc. apply (wp_notify_served _ (status_line rq) P); [|done|by intros; apply served_status].
      eapply wp_mono; [|apply wp_notifySafekeepers]. intros tr out (resp&->&Hrun). exists resp. split; [done|].
      by eapply notify_run_status.
  - apply wp_ret, served_by_mux; [intros [rt Hrt]; congruence|apply (bool_decide_unpack _); by vm_compute|exact HP].
Qed.
End served.

(** ** Witness: a client that is gone when the specification is sent *)

Import RefInstances.

Definition broken_pipe (_ : string) : string * option error := ("", Some (Errorf "broken pipe")).
Definition sample_request : Incoming := spec_request "GET" "main" "".

Lemma served_as_computed_witness :
  let run := run serving (ServeHTTP broken_pipe "" sample_request (Ok "")) in
  served broken_pipe sample_request (λ tr out, writes tr = [] ∧ ∃ resp, out = Returned resp) run.1 run.2 ∧
  ∃ w line, run.2 = Returned (w, Some line) ∧ fst <$> cn_sent w = Some 200 ∧ ll_status line = 500.
Proof.
  split.
  - apply (run_wp serving (ServeHTTP broken_pipe "" sample_request (Ok ""))), served_as_computed.
    eapply wp_mono; [|apply wp_handleComputeSpec]. intros tr out (resp&->&Hw&_). split; [done|by exists resp].
  - do 2 eexists. split_and!; vm_compute; reflexivity.
Defined.
