(* ===== verification/Controller.v ===== *)
(** * What the five controllers share

    The result of a reconcile call, the sentinel error of cluster_controller.go,
    the tail of every [Reconcile] method, and the child-drift tests. *)

From S2P Require Import Prelude GoLib KubeTypes Api Interfaces Reference Prog Reconcile.

(** [ctrl.Result], with [RequeueAfter] in seconds (0: none). *)
Record Result := { RequeueAfter : Z }.

Definition no_requeue : Result := {| RequeueAfter := 0 |}.

(** [ctrl.Request] is the key of the object to reconcile. *)
Abbreviation Request := NamespacedName.

Definition requeue_message : string := "requeue after change".
Definition ErrRequeueAfterChange : error := Sentinel requeue_message.

(** The tail of [Reconcile]: the sentinel keeps the result and drops the error,
    any other error drops the result. *)
Definition finish (r : Result * option error) : Result * option error :=
  let '(result, err) := r in
  match err with
  | Some e =>
      if errors_Is e requeue_message then (result, None) else (no_requeue, Some e)
  | None => (result, None)
  end.

Section drift.
Context `{SemanticDerivative DeploymentSpec, SemanticDerivative StatefulSetSpec,
          SemanticDerivative ServiceSpec, SemanticDerivative smap}.

(** [!equality.Semantic.DeepDerivative(intended.Spec, cur.Spec)] and its variants. *)
Definition deployment_drift (d cur : Deployment) : bool :=
  negb (DeepDerivative (dep_Spec d) (dep_Spec cur)).
Definition statefulset_drift (s cur : StatefulSet) : bool :=
  negb (DeepDerivative (sts_Spec s) (sts_Spec cur)).
Definition service_drift (s cur : Service) : bool :=
  negb (DeepDerivative (svc_Spec s) (svc_Spec cur)).
Definition configmap_drift (c cur : ConfigMap) : bool :=
  negb (DeepDerivative (cm_Data c) (cm_Data cur)).
End drift.

(** The contract of the step that maintains one child of each kind. *)
Section children.
Context `{OwnerOps} `{SemanticDerivative DeploymentSpec} `{SemanticDerivative StatefulSetSpec}
  `{SemanticDerivative ServiceSpec} `{SemanticDerivative smap}.
Context {ok : Kind} (owner : obj ok).

Definition deployment_child (d : Deployment) : trace → option error → Prop :=
  upserts (k := KDeployment) owner d (deployment_drift d).
Definition statefulset_child (s : StatefulSet) : trace → option error → Prop :=
  upserts (k := KStatefulSet) owner s (statefulset_drift s).
Definition service_child (s : Service) : trace → option error → Prop :=
  upserts (k := KService) owner s (service_drift s).
Definition configmap_child (c : ConfigMap) : trace → option error → Prop :=
  upserts (k := KConfigMap) owner c (configmap_drift c).

Lemma deployment_child_targets d tr err :
  deployment_child d tr err → targets tr `sublist_of` [(KDeployment, key_of (dep_Meta d))].
Proof. apply (upserts_targets (k := KDeployment)). Qed.
Lemma statefulset_child_targets s tr err :
  statefulset_child s tr err → targets tr `sublist_of` [(KStatefulSet, key_of (sts_Meta s))].
Proof. apply (upserts_targets (k := KStatefulSet)). Qed.
Lemma service_child_targets s tr err :
  service_child s tr err → targets tr `sublist_of` [(KService, key_of (svc_Meta s))].
Proof. apply (upserts_targets (k := KService)). Qed.
Lemma configmap_child_targets c tr err :
  configmap_child c tr err → targets tr `sublist_of` [(KConfigMap, key_of (cm_Meta c))].
Proof. apply (upserts_targets (k := KConfigMap)). Qed.
End children.
#[export] Hint Resolve deployment_child_targets statefulset_child_targets
  service_child_targets configmap_child_targets : neon.

(** Give every step of a sequence its own target. *)
Ltac step_targets :=
  repeat (apply List.Forall2_cons; [intros ? ?|]); [..|apply List.Forall2_nil];
  try first [ apply deployment_child_targets | apply statefulset_child_targets
            | apply service_child_targets | apply configmap_child_targets ].

(** What is left of the error after the tail of [Reconcile]. *)
Lemma finish_None r err : (finish (r, err)).2 = None →
  err = None ∨ ∃ e, err = Some e ∧ errors_Is e requeue_message = true.
Proof. destruct err as [e|]; simpl; [|by left]. destruct (errors_Is e _) eqn:E; naive_solver. Qed.

(** ** What the children have in common *)

Section children_errors.
Context `{OwnerOps} `{SemanticDerivative DeploymentSpec} `{SemanticDerivative StatefulSetSpec}
  `{SemanticDerivative ServiceSpec} `{SemanticDerivative smap}.
Context {ok : Kind} (owner : obj ok).

Lemma deployment_child_unmarked d tr e : deployment_child owner d tr (Some e) → unmarked e.
Proof. apply (upserts_unmarked (k := KDeployment)). Qed.
Lemma statefulset_child_unmarked s tr e : statefulset_child owner s tr (Some e) → unmarked e.
Proof. apply (upserts_unmarked (k := KStatefulSet)). Qed.
Lemma service_child_unmarked s tr e : service_child owner s tr (Some e) → unmarked e.
Proof. apply (upserts_unmarked (k := KService)). Qed.
Lemma configmap_child_unmarked c tr e : configmap_child owner c tr (Some e) → unmarked e.
Proof. apply (upserts_unmarked (k := KConfigMap)). Qed.
End children_errors.
#[export] Hint Resolve deployment_child_unmarked statefulset_child_unmarked
  service_child_unmarked configmap_child_unmarked with_read_unmarked : neon.

(** No step of the sequence returns the requeue sentinel. *)
Ltac step_unmarked :=
  repeat (apply List.Forall_cons; [intros ? ?|]); [..|apply List.Forall_nil]; eauto with neon.

(** ** One pass: create the children, then report

    The body of [reconcile] shared by the cluster, pageserver and safekeeper
    controllers (each has its own copy in the source). *)

Section pass.
Context {k : Kind} (create : prog (option error))
  (status : option error → prog (obj k * option error)) (what : string).

Definition create_then_report : prog (Result * option error) :=
  createErr ← create;
  st ← status createErr;
  match st.2 with
  | Some err => Ret (no_requeue, Some err)
  | None =>
      match createErr with
      | Some e => Ret (no_requeue, Some (Wrapf what e))
      | None => Ret (no_requeue, None)
      end
  end.

(** The contract: the children's steps [C] run first and the status [S] reports how
    they went whether or not they failed.  The error returned is that of the status
    update if it failed (the steps' error, if any, is then only logged), otherwise
    that of the steps, wrapped. *)
Inductive pass (C : trace → option error → Prop) (S : option error → trace → option fault → Prop) :
    trace → Result * option error → Prop :=
  | pass_reported trc trs ce :
      C trc ce → S ce trs None → pass C S (trc ++ trs) (no_requeue, Wrapf what <$> ce)
  | pass_unreported trc trs ce f :
      C trc ce → S ce trs (Some f) → pass C S (trc ++ trs) (no_requeue, Some (Foreign f)).

Lemma wp_create_then_report C (S : option error → trace → option fault → Prop) :
  wp create (runs C) →
  (∀ ce, wp (status ce) (λ tr out, ∃ o f, out = Returned (o, Foreign <$> f) ∧ S ce tr f)) →
  (∀ tr e, C tr (Some e) → unmarked e) →
  wp (r ← create_then_report; Ret (finish r)) (λ tr out, ∃ r, out = Returned r ∧ pass C S tr r).
Proof.
  intros HC HS Hmark. unfold create_then_report. wp_use HC; [|done].
  intros trc ce Hce. wp_use (HS ce); [|by intros ?? (?&?&?&_)].
  intros trs st (o&f&[= ->]&Hst). destruct f as [f|]; cbn [snd fmap option_fmap option_map].
  - wp_steps. rewrite app_nil_r. eexists; split; [done|]. by eapply pass_unreported.
  - destruct ce as [e|]; wp_steps; rewrite app_nil_r; (eexists; split; [done|]).
    + assert (errors_Is (Wrapf what e) requeue_message = false) as Hm by apply (Hmark _ _ Hce).
      simpl in *. rewrite Hm. by apply (pass_reported C S trc trs (Some e)).
    + by apply (pass_reported C S trc trs None).
Qed.

(** A pass that returns no error ran every step and reported it. *)
Lemma pass_ok C S tr res :
  pass C S tr (res, None) → ∃ trc trs, tr = trc ++ trs ∧ C trc None ∧ S None trs None.
Proof. inversion 1 as [trc trs [e|] HC HS|]; simplify_eq/=; eauto. Qed.
End pass.

(** ** The head of [Reconcile] *)

Section entry.
Context {k : Kind} (req : Request).

Definition read_error (f : fault) : error := Wrapf "cannot get the resource" (Foreign f).

(** The object is read first; if it is gone the call ends as [gone]; if it cannot
    be read that is the error; otherwise [P] describes the rest. *)
Inductive reconciles (gone : outcome (Result * option error))
    (P : obj k → trace → outcome (Result * option error) → Prop) :
    trace → outcome (Result * option error) → Prop :=
  | reconciles_gone f :
      fault_not_found f = true → reconciles gone P [Ev (CGet k req) (Err f)] gone
  | reconciles_unread f :
      fault_not_found f = false →
      reconciles gone P [Ev (CGet k req) (Err f)] (Returned (no_requeue, Some (read_error f)))
  | reconciles_found o tr out :
      P o tr out → reconciles gone P (Ev (CGet k req) (Ok o) :: tr) out.

Definition get_or_gone : prog (result (option (obj k))) :=
  getr ← Get k req;
  Ret match getr with
      | Ok o => Ok (Some o)
      | Err e => if IsNotFound e then Ok None else Err (Wrapf "cannot get the resource" e)
      end.

(** The two shapes of the head: with the nil test, and without it. *)
Lemma wp_reconcile_checked (body : obj k → prog (Result * option error)) P :
  (∀ o, wp (body o) (P o)) →
  wp (let_ok ptr := get_or_gone or err return Ret (no_requeue, Some err);
      match ptr with None => Ret (no_requeue, None) | Some o => body o end)
     (reconciles (Returned (no_requeue, None)) P).
Proof.
  intros Hbody. unfold get_or_gone. wp_call getr. destruct getr as [o|f]; cbn [from_env].
  - wp_steps. eapply wp_mono; [|apply Hbody]. intros tr out HP. by constructor.
  - change (IsNotFound (Foreign f)) with (fault_not_found f).
    destruct (fault_not_found f) eqn:E; wp_steps; by constructor.
Qed.

Lemma wp_reconcile_unchecked (body : obj k → prog (Result * option error)) P :
  (∀ o, wp (body o) (P o)) →
  wp (let_ok ptr := get_or_gone or err return Ret (no_requeue, Some err);
      o ← lift_outcome (deref ptr); body o)
     (reconciles (Panicked "invalid memory address or nil pointer dereference") P).
Proof.
  intros Hbody. unfold get_or_gone. wp_call getr. destruct getr as [o|f]; cbn [from_env].
  - wp_steps. eapply wp_mono; [|apply Hbody]. intros tr out HP. by constructor.
  - change (IsNotFound (Foreign f)) with (fault_not_found f).
    destruct (fault_not_found f) eqn:E; wp_steps; by constructor.
Qed.
End entry.
