(* ===== verification/ApiServer.v ===== *)
(** * What an API server does with the calls, and convergence towards it

    [wp] speaks of every environment.  Convergence needs one that keeps what is
    written: [api_step] says what a call may do to the contents of the cluster, as the
    Kubernetes API documents it, with nobody else writing meanwhile; a class,
    [ApiServer], states it of a server.  [maintains] is the specification of a step
    (or of a sequence of steps) that drives a part of the cluster into an intended
    state and then leaves it alone; it composes, and transfers to runs. *)

From S2P Require Import Prelude GoLib KubeTypes Api Interfaces Reference Prog Server Reconcile.
From S2P Require Import Controller.

(** ** The contents of a cluster *)

Definition view : Type := ∀ k : Kind, NamespacedName → option (obj k).

Definition place : Type := Kind * NamespacedName.

(** Equal on some places; equal everywhere; equal but for one place. *)
Definition agree (R : list place) (v v' : view) : Prop :=
  ∀ k key, (k, key) ∈ R → v' k key = v k key.
Definition same (v v' : view) : Prop := ∀ k key, v' k key = v k key.
Definition unchanged_but (x : place) (v v' : view) : Prop :=
  ∀ k key, (k, key) ≠ x → v' k key = v k key.

(** A state that depends on some places only. *)
Definition depends_on (R : list place) (G : view → Prop) : Prop :=
  ∀ v v', agree R v v' → G v → G v'.

(** The object at a place; it carries its own key. *)
Definition found {k : Kind} (v : view) (key : NamespacedName) (o : obj k) : Prop :=
  v k key = Some o ∧ key_of (meta o) = key.

Lemma same_agree R v v' : same v v' → agree R v v'.
Proof. intros H k key _. apply H. Qed.

Section api.
Context `{SemanticDerivative DeploymentSpec} `{SemanticDerivative StatefulSetSpec}
  `{SemanticDerivative ServiceSpec} `{SemanticDerivative smap}.

(** What the server holds after it has accepted an object: under its key, and with
    the fields that were sent (it may have defaulted others). *)
Definition content_kept {k : Kind} : obj k → obj k → Prop :=
  match k with
  | KDeployment => λ o o', deployment_drift o o' = false
  | KStatefulSet => λ o o', statefulset_drift o o' = false
  | KService => λ o o', service_drift o o' = false
  | KConfigMap => λ o o', configmap_drift o o' = false
  | KSecret => λ o o', sec_Data o' = sec_Data o
  | _ => λ _ _, True
  end.

Definition stored {k : Kind} (o o' : obj k) : Prop :=
  key_of (meta o') = key_of (meta o) ∧ content_kept o o'.

Lemma stored_owned {k} (o o' : obj k) refs : stored (owned o refs) o' → stored o o'.
Proof.
  intros [Hkey Hc]. rewrite key_owned in Hkey. split; [done|].
  by destruct k.
Qed.

(** One write of [o]: accepted, it is found under its key; refused or lost, it may or
    may not have been carried out.  Nothing else changes. *)
Definition write_step {k : Kind} (o : obj k) (v v' : view) (a : reply (obj k)) : Prop :=
  unchanged_but (k, key_of (meta o)) v v' ∧
  ∀ o', a = Ok o' → stored o o' ∧ v' k (key_of (meta o)) = Some o'.

(** A write to the status subresource changes the status only; refused, nothing. *)
Definition status_step {k : Kind} (o : obj k) (v v' : view) (a : reply (obj k)) : Prop :=
  ∀ o', a = Ok o' → ∃ cur, v k (key_of (meta o)) = Some cur ∧ same_but_status cur o' ∧ status_of o' = status_of o.

(** A merge patch changes the fields it carries, of the object there is. *)
Definition merge_step {k : Kind} (base o : obj k) (v : view) (a : reply (obj k)) : Prop :=
  ∀ o', a = Ok o' → ∃ cur, v k (key_of (meta o)) = Some cur ∧ merged base o cur o'.

Definition api_step (v : view) (e : event) (v' : view) : Prop :=
  (match ev_call e as c return answer c → Prop with
   | CGet k key => λ a, same v v' ∧
       match a with Ok o => found v key o | Err f => fault_not_found f = true → v k key = None end
   | CCreate k o _ => λ a, write_step o v v' a ∧
       (∀ o', a = Ok o' → v k (key_of (meta o)) = None) ∧
       (∀ cur, v k (key_of (meta o)) = Some cur → v' k (key_of (meta o)) = Some cur)
   | CApply k o _ _ => λ a, write_step o v v' a
   | CMergePatch k base o _ => λ a, write_step o v v' a ∧ merge_step base o v a
   | CStatusPatch k _ o => λ a, write_step o v v' a ∧ status_step o v v' a
   | _ => λ _, same v v'
   end) (ev_answer e).

(** The contents before and after a trace. *)
Fixpoint consistent (v : view) (tr : trace) (v' : view) : Prop :=
  match tr with
  | [] => same v v'
  | e :: tr => ∃ v1, api_step v e v1 ∧ consistent v1 tr v'
  end.

Lemma api_step_frame v e v' k key :
  api_step v e v' → Some (k, key) ≠ target (ev_call e) → v' k key = v k key.
Proof.
  destruct e as [c a]. destruct c; cbn [api_step ev_call ev_answer target];
    intros Hs Hne; try (by apply Hs); try (by apply (proj1 Hs); congruence).
Qed.

Lemma consistent_frame tr : ∀ v v' k key,
  consistent v tr v' → (k, key) ∉ targets tr → v' k key = v k key.
Proof.
  induction tr as [|e tr IH]; intros v v' k key; cbn [consistent]; [intros Hs _; apply Hs|].
  intros (v1&Hstep&Hc) Hnot. rewrite (IH v1 v' k key Hc).
  - apply (api_step_frame v e); [done|]. intros Ht. apply Hnot.
    unfold targets. cbn [writes]. destruct e as [c a]. cbn [ev_call] in *.
    destruct c; cbn [target is_write omap list_omap] in *; simplify_eq/=; left.
  - intros Hin. apply Hnot. unfold targets in *. cbn [writes].
    destruct (is_write (ev_call e)); [|done]. cbn [omap list_omap].
    destruct (target (ev_call e)); [by right|done].
Qed.

Lemma consistent_quiet tr v v' : consistent v tr v' → writes tr = [] → same v v'.
Proof.
  intros Hc Hw k key. eapply consistent_frame; [done|].
  rewrite targets_nil by done. apply not_elem_of_nil.
Qed.

Lemma consistent_app tr : ∀ tr' v v',
  consistent v (tr ++ tr') v' → ∃ v1, consistent v tr v1 ∧ consistent v1 tr' v'.
Proof.
  induction tr as [|e tr IH]; intros tr' v v' Hc; simpl in *; [by exists v|].
  destruct Hc as (v1&Hs&Hc). destruct (IH _ _ _ Hc) as (v2&?&?). exists v2. eauto.
Qed.

(** No call was answered by a failure, other than a read by "not found". *)
Definition answered (e : event) : Prop :=
  (match ev_call e as c return answer c → Prop with
   | CGet k key => λ a, match a with Ok _ => True | Err f => fault_not_found f = true end
   | CCreate k _ _ => λ a, ∃ o, a = Ok o
   | CApply k _ _ _ => λ a, ∃ o, a = Ok o
   | CMergePatch k _ _ _ => λ a, ∃ o, a = Ok o
   | CStatusPatch k _ _ => λ a, ∃ o, a = Ok o
   | CGenerateKey => λ a, ∃ kp, a = Ok kp
   | _ => λ _, True
   end) (ev_answer e).
Definition calm (tr : trace) : Prop := Forall answered tr.

(** ** Steps that drive a part of the cluster into a state *)

(** [P] is the contract of a step; [R] the places it depends on, [W] those it may
    write; [G] the intended state and [pre] what must be there beforehand.  The step
    reaches [G] when it succeeds, writes nothing once [G] holds, and succeeds when
    the server answers. *)
Record maintains (R W : list place) (pre G : view → Prop) (P : trace → option error → Prop) : Prop := {
  m_targets : ∀ t e x, P t e → x ∈ targets t → x ∈ W;
  m_pre_local : ∀ v v', agree R v v' → pre v → pre v';
  m_local : ∀ v v', agree R v v' → G v → G v';
  m_reach : ∀ v t v', P t None → consistent v t v' → G v';
  m_quiet : ∀ v t e v', G v → P t e → consistent v t v' → writes t = [] ∧ (calm t → e = None);
  m_progress : ∀ v t e v', pre v → P t e → consistent v t v' → calm t → e = None;
}.

(** The states and the contract may be replaced by equivalent ones. *)
Lemma maintains_ext R W pre pre' G G' (P P' : trace → option error → Prop) :
  (∀ v, pre' v ↔ pre v) → (∀ v, G' v ↔ G v) → (∀ t e, P' t e ↔ P t e) →
  maintains R W pre G P → maintains R W pre' G' P'.
Proof.
  intros Hpre HG HP [Ht Hpl Hl Hr Hq Hp]. split.
  - intros t e x Hrun%HP. by eapply Ht.
  - intros v v' Ha Hv%Hpre. apply Hpre. eauto.
  - intros v v' Ha Hv%HG. apply HG. eauto.
  - intros v t v' Hrun%HP Hc. apply HG. eauto.
  - intros v t e v' Hv%HG Hrun%HP Hc. eauto.
  - intros v t e v' Hv%Hpre Hrun%HP Hc. eauto.
Qed.

Lemma maintains_places R R' W W' pre G P :
  maintains R W pre G P → R' = R → W' = W → maintains R' W' pre G P.
Proof. by intros ? -> ->. Qed.

(** The frame of a step. *)
Lemma maintains_frame R W pre G P v t e v' L :
  maintains R W pre G P → P t e → consistent v t v' → (∀ x, x ∈ L → x ∉ W) → agree L v v'.
Proof.
  intros HM HP Hc HL k key Hin. eapply consistent_frame; [done|].
  intros Ht. apply (HL _ Hin). by eapply m_targets.
Qed.

(** *** Sequences *)

Lemma maintains_nil : maintains [] [] (λ _, True) (λ _, True) (runs_in_order []).
Proof.
  split; [|done..| |]; try (inversion 1; subst; set_solver).
  - intros v t e v' _ Hrun _. by inversion Hrun.
  - intros v t e v' _ Hrun _ _. by inversion Hrun.
Qed.

Lemma maintains_cons R1 W1 pre1 G1 P R W pre G Ps :
  maintains R1 W1 pre1 G1 P → maintains R W pre G (runs_in_order Ps) →
  (∀ x, x ∈ R1 → x ∉ W) → (∀ x, x ∈ R → x ∉ W1) →
  maintains (R1 ++ R) (W1 ++ W) (λ v, pre1 v ∧ pre v) (λ v, G1 v ∧ G v) (runs_in_order (P :: Ps)).
Proof.
  intros M1 M HR1 HR.
  assert (∀ v v', agree (R1 ++ R) v v' → agree R1 v v' ∧ agree R v v') as Hsplit.
  { intros v v' Ha. split; intros k key Hin; apply Ha; set_solver. }
  split.
  - intros t e x Hrun Hx. inversion Hrun as [|? ? ? ? HP|? ? t1 t2 ? HP Hrest]; subst.
    + apply elem_of_app. left. by eapply (m_targets _ _ _ _ _ M1).
    + rewrite targets_app in Hx. apply elem_of_app in Hx as [Hx|Hx]; apply elem_of_app.
      * left. by eapply (m_targets _ _ _ _ _ M1).
      * right. by eapply (m_targets _ _ _ _ _ M).
  - intros v v' [Ha1 Ha]%Hsplit [Hp1 Hp]. split; [by eapply (m_pre_local _ _ _ _ _ M1)|].
    by eapply (m_pre_local _ _ _ _ _ M).
  - intros v v' [Ha1 Ha]%Hsplit [Hg1 Hg]. split; [by eapply (m_local _ _ _ _ _ M1)|].
    by eapply (m_local _ _ _ _ _ M).
  - intros v t v' Hrun Hc. inversion Hrun as [| |? ? t1 t2 ? HP Hrest]; subst.
    apply consistent_app in Hc as (v1&Hc1&Hc2). split.
    + eapply (m_local _ _ _ _ _ M1 v1); [|by eapply (m_reach _ _ _ _ _ M1)].
      by eapply (maintains_frame _ _ _ _ _ _ _ _ _ _ M).
    + by eapply (m_reach _ _ _ _ _ M).
  - intros v t e v' [Hg1 Hg] Hrun Hc. inversion Hrun as [|? ? ? ? HP|? ? t1 t2 ? HP Hrest]; subst.
    + by eapply (m_quiet _ _ _ _ _ M1).
    + apply consistent_app in Hc as (v1&Hc1&Hc2).
      destruct (m_quiet _ _ _ _ _ M1 _ _ _ _ Hg1 HP Hc1) as [Hw1 _].
      assert (G v1) as Hgv1
        by (eapply (m_local _ _ _ _ _ M); [|exact Hg]; by apply same_agree, (consistent_quiet t1)).
      destruct (m_quiet _ _ _ _ _ M _ _ _ _ Hgv1 Hrest Hc2) as [Hw2 He].
      split; [by rewrite writes_app, Hw1, Hw2|]. intros [_ Hcalm]%Forall_app. auto.
  - intros v t e v' [Hp1 Hp] Hrun Hc Hcalm.
    inversion Hrun as [|? ? ? ? HP|? ? t1 t2 ? HP Hrest]; subst.
    + by eapply (m_progress _ _ _ _ _ M1).
    + apply consistent_app in Hc as (v1&Hc1&Hc2). apply Forall_app in Hcalm as [_ Hcalm].
      eapply (m_progress _ _ _ _ _ M); [|done..].
      eapply (m_pre_local _ _ _ _ _ M); [|exact Hp].
      by eapply (maintains_frame _ _ _ _ _ _ _ _ _ _ M1).
Qed.

(** *** A step after a read *)

Lemma maintains_read {k : Kind} key R W (pre G : obj k → view → Prop) P :
  (∀ o, key_of (meta o) = key → maintains R W (pre o) (G o) (P o)) →
  (∀ o t e x, P o t e → x ∈ targets t → x ∈ W) → (k, key) ∉ W →
  maintains ((k, key) :: R) W
    (λ v, ∃ o, found v key o ∧ pre o v) (λ v, ∃ o, found v key o ∧ G o v) (with_read key P).
Proof.
  intros M HW Hkey.
  assert (∀ v v', agree ((k, key) :: R) v v' → v' k key = v k key ∧ agree R v v') as Hsplit.
  { intros v v' Ha. split; [apply Ha; left|]. intros k' key' Hin. apply Ha. by right. }
  split.
  - intros t e x [f e' _|o tr err HP] Hx; [by apply not_elem_of_nil in Hx|]. by eapply HW.
  - intros v v' [Hk Ha]%Hsplit (o&[Ho Hok]&Hp). exists o. unfold found. rewrite Hk. split; [done|].
    by eapply (m_pre_local _ _ _ _ _ (M o Hok)).
  - intros v v' [Hk Ha]%Hsplit (o&[Ho Hok]&Hg). exists o. unfold found. rewrite Hk. split; [done|].
    by eapply (m_local _ _ _ _ _ (M o Hok)).
  - intros v t v' Hrun. inversion Hrun as [|o tr err HP]; subst.
    intros (v1&[Hsame [Hv Hok]]&Hc). exists o.
    split; [split; [|done]|by eapply (m_reach _ _ _ _ _ (M o Hok))].
    rewrite <-Hv, <-(Hsame k key). eapply consistent_frame; [done|].
    intros Hin. by eapply Hkey, HW.
  - intros v t e v' (o&[Ho Hok]&Hg) Hrun. destruct Hrun as [f e _|o' tr err HP]; intros (v1&[Hsame Hv]&Hc).
    + split; [done|]. intros [Hans _]%Forall_cons. specialize (Hv Hans). congruence.
    + cbn [ev_answer] in Hv. destruct Hv as [Hv _]. assert (o' = o) as -> by congruence.
      assert (G o v1) as Hg1 by (eapply (m_local _ _ _ _ _ (M o Hok)); [|exact Hg]; by apply same_agree).
      destruct (m_quiet _ _ _ _ _ (M o Hok) _ _ _ _ Hg1 HP Hc) as [Hw He].
      split; [exact Hw|]. intros [_ Hcalm]%Forall_cons. auto.
  - intros v t e v' (o&[Ho Hok]&Hp) Hrun. destruct Hrun as [f e _|o' tr err HP];
      intros (v1&[Hsame Hv]&Hc) [Hans Hcalm]%Forall_cons.
    + specialize (Hv Hans). congruence.
    + cbn [ev_answer] in Hv. destruct Hv as [Hv _]. assert (o' = o) as -> by congruence.
      eapply (m_progress _ _ _ _ _ (M o Hok)); [|done..].
      eapply (m_pre_local _ _ _ _ _ (M o Hok)); [|exact Hp]. by apply same_agree.
Qed.

(** *** One child *)

Definition in_sync {k : Kind} (key : NamespacedName) (drift : obj k → bool) (v : view) : Prop :=
  ∃ cur, v k key = Some cur ∧ drift cur = false.

Section child.
Context `{OwnerLaws}.

Lemma maintains_upserts {ok k : Kind} (owner : obj ok) (intended : obj k) drift :
  om_OwnerReferences (meta intended) = [] →
  om_Namespace (meta owner) = om_Namespace (meta intended) →
  (∀ o', stored intended o' → drift o' = false) →
  maintains [(k, key_of (meta intended))] [(k, key_of (meta intended))]
    (λ _, True) (in_sync (key_of (meta intended)) drift) (upserts owner intended drift).
Proof.
  intros Hfresh Hns Hdrift.
  destruct (owner_fresh ok (meta owner) (meta intended) Hfresh Hns) as [refs0 Hrefs0].
  split.
  - intros t e x Hrun Hx. eapply elem_of_sublist; [exact Hx|by eapply upserts_targets].
  - done.
  - intros v v' Ha (cur&Hcur&Hd). exists cur. rewrite Ha by left. done.
  - intros v t v' Hrun. remember None as err eqn:Herr.
    destruct Hrun as [| |cur Hd|refs e r err Hr He Hres|refs cur r err Hr Hd Hres]; [done|done|..]; subst.
    + intros (v1&[Hsame [Hv _]]&Hc). exists cur. cbn in Hc. by rewrite (Hc k _), (Hsame k _).
    + destruct r as [o'|]; [|by destruct Hres].
      intros (v1&_&v2&[[_ Hw] _]&Hc). cbn [ev_answer] in Hw.
      destruct (Hw o' eq_refl) as [Hst Hv]. rewrite key_owned in Hv.
      exists o'. rewrite (Hc k _), Hv. split; [done|]. by eapply Hdrift, stored_owned.
    + destruct r as [o'|]; [|by destruct Hres].
      intros (v1&_&v2&[_ Hw]&Hc). cbn [ev_answer] in Hw.
      destruct (Hw o' eq_refl) as [Hst Hv]. rewrite key_owned in Hv.
      exists o'. rewrite (Hc k _), Hv. split; [done|]. by eapply Hdrift, stored_owned.
  - intros v t e v' (cur&Hcur&Hd) Hrun.
    destruct Hrun as [tr f e Hr Hw _ _|f e Hf _|cur' _|refs e r err Hr He _|refs cur' r err Hr Hd' _].
    + congruence.
    + intros _. split; [done|]. intros Hcalm. inversion Hcalm as [|? ? Hans]. simpl in Hans. congruence.
    + done.
    + intros (v1&[_ Hv]&_). specialize (Hv He). congruence.
    + intros (v1&[_ [Hv _]]&_). congruence.
  - intros v t e v' _ Hrun _ Hcalm.
    destruct Hrun as [tr f e Hr|f e Hf _|cur' _|refs e r err Hr He Hres|refs cur' r err Hr Hd' Hres].
    + congruence.
    + inversion Hcalm as [|? ? Hans]. simpl in Hans. congruence.
    + done.
    + apply Forall_cons in Hcalm as [_ [[o' Ho'] _]%Forall_cons]. simpl in Ho'. by subst r.
    + apply Forall_cons in Hcalm as [_ [[o' Ho'] _]%Forall_cons]. simpl in Ho'. by subst r.
Qed.

(** The children of each kind: fresh objects in the owner's namespace. *)
Context {ok : Kind} (owner : obj ok).

Lemma maintains_deployment (d : Deployment) :
  om_OwnerReferences (dep_Meta d) = [] → om_Namespace (meta owner) = om_Namespace (dep_Meta d) →
  maintains [(KDeployment, key_of (dep_Meta d))] [(KDeployment, key_of (dep_Meta d))] (λ _, True)
    (in_sync (k := KDeployment) (key_of (dep_Meta d)) (deployment_drift d)) (deployment_child owner d).
Proof. intros. apply (maintains_upserts (k := KDeployment)); [done|done|]. by intros o' [_ Hc]. Qed.
Lemma maintains_statefulset (s : StatefulSet) :
  om_OwnerReferences (sts_Meta s) = [] → om_Namespace (meta owner) = om_Namespace (sts_Meta s) →
  maintains [(KStatefulSet, key_of (sts_Meta s))] [(KStatefulSet, key_of (sts_Meta s))] (λ _, True)
    (in_sync (k := KStatefulSet) (key_of (sts_Meta s)) (statefulset_drift s)) (statefulset_child owner s).
Proof. intros. apply (maintains_upserts (k := KStatefulSet)); [done|done|]. by intros o' [_ Hc]. Qed.
Lemma maintains_service (s : Service) :
  om_OwnerReferences (svc_Meta s) = [] → om_Namespace (meta owner) = om_Namespace (svc_Meta s) →
  maintains [(KService, key_of (svc_Meta s))] [(KService, key_of (svc_Meta s))] (λ _, True)
    (in_sync (k := KService) (key_of (svc_Meta s)) (service_drift s)) (service_child owner s).
Proof. intros. apply (maintains_upserts (k := KService)); [done|done|]. by intros o' [_ Hc]. Qed.
Lemma maintains_configmap (c : ConfigMap) :
  om_OwnerReferences (cm_Meta c) = [] → om_Namespace (meta owner) = om_Namespace (cm_Meta c) →
  maintains [(KConfigMap, key_of (cm_Meta c))] [(KConfigMap, key_of (cm_Meta c))] (λ _, True)
    (in_sync (k := KConfigMap) (key_of (cm_Meta c)) (configmap_drift c)) (configmap_child owner c).
Proof. intros. apply (maintains_upserts (k := KConfigMap)); [done|done|]. by intros o' [_ Hc]. Qed.
End child.

(** ** Servers *)

Class ApiServer {S : Type} (h : server S) (view_of : S → view) :=
  api_server : ∀ s c, let '(s', r) := handle h s c in api_step (view_of s) (Ev c r) (view_of s').

Section runs.
Context {S : Type} (h : server S) (view_of : S → view) `{!ApiServer h view_of}.

Lemma exec_consistent {A} (p : prog A) : ∀ s,
  let '(s', tr, _) := exec h s p in consistent (view_of s) tr (view_of s').
Proof.
  induction p as [a|w|c k IH]; intros s; cbn [exec]; [done|done|].
  pose proof (api_server s c) as Hstep. destruct (handle h s c) as [s1 r].
  specialize (IH r s1). destruct (exec h s1 (k r)) as [[s2 tr] o]. cbn [consistent]. eauto.
Qed.

(** A program drives its part of the cluster into [G]: a success means that [G]
    holds; from [G] it writes nothing, changes nothing and succeeds; and from [pre]
    it succeeds, unless a call is answered by a failure. *)
Definition converges (p : prog (option error)) (pre G : view → Prop) : Prop :=
  ∀ s, let '(s1, tr, out) := exec h s p in
    (out = Returned None → G (view_of s1)) ∧
    (G (view_of s) → writes tr = [] ∧ same (view_of s) (view_of s1) ∧ (calm tr → out = Returned None)) ∧
    (pre (view_of s) → calm tr → out = Returned None).

Lemma maintains_converges R R' W pre G P (p : prog (option error)) :
  wp p (runs P) → maintains R W pre G P → R' = R → converges p pre G ∧ depends_on R' G.
Proof.
  intros Hp M ->. split; [|exact (m_local _ _ _ _ _ M)]. intros s. pose proof (wp_exec h s p _ Hp) as Hrun. pose proof (exec_consistent p s) as Hc.
  destruct (exec h s p) as [[s1 tr] [err|w]]; [|done]. cbn [runs] in Hrun. split_and!.
  - intros [= ->]. by eapply m_reach.
  - intros Hg. destruct (m_quiet _ _ _ _ _ M _ _ _ _ Hg Hrun Hc) as [Hw He].
    split_and!; [done|by eapply consistent_quiet|]. intros Hcalm. by rewrite He.
  - intros Hpre Hcalm. f_equal. by eapply m_progress.
Qed.
End runs.
End api.


(** ** The in-memory server is one *)

Section memory.
Import RefInstances.

Definition world_view (w : world) : view := λ k key, find_item k key (w_items w).

Lemma as_kind_item k o : as_kind k (Item k o) = Some o.
Proof.
  unfold as_kind. cbn [it_kind it_obj]. destruct (decide (k = k)) as [E|]; [|done].
  by rewrite (proof_irrel E eq_refl).
Qed.

Lemma as_kind_Some k i x : as_kind k i = Some x → i = Item k x.
Proof.
  destruct i as [k' o]. unfold as_kind. cbn [it_kind it_obj].
  destruct (decide (k' = k)) as [E|]; [|done]. subst k'. by intros [= ->].
Qed.

Lemma as_kind_ne k k' o : k ≠ k' → as_kind k' (Item k o) = None.
Proof. intros Hne. unfold as_kind. cbn [it_kind]. by destruct (decide (k = k')). Qed.

Lemma find_item_key k key l (o : obj k) : find_item k key l = Some o → key_of (meta o) = key.
Proof.
  induction l as [|i l IH]; cbn [find_item]; [done|].
  destruct (as_kind k i); [case_decide|]; intros; simplify_eq; auto.
Qed.

Lemma find_put_same k (o : obj k) l : find_item k (key_of (meta o)) (put_item k o l) = Some o.
Proof.
  induction l as [|i l IH]; cbn [put_item find_item].
  - rewrite as_kind_item. by rewrite decide_True.
  - destruct (as_kind k i) as [x|] eqn:Hi; [case_decide as Hx|]; cbn [find_item].
    + rewrite as_kind_item. by rewrite decide_True.
    + rewrite Hi, decide_False by done. exact IH.
    + rewrite Hi. exact IH.
Qed.

Lemma find_put_other k (o : obj k) k' key l :
  (k', key) ≠ (k, key_of (meta o)) → find_item k' key (put_item k o l) = find_item k' key l.
Proof.
  intros Hne.
  assert (∀ x : obj k, key_of (meta x) = key_of (meta o) → ∀ l',
    find_item k' key (Item k x :: l') = find_item k' key l') as Hskip.
  { intros x Hx l'. cbn [find_item]. destruct (decide (k = k')) as [<-|Hk]; [|by rewrite as_kind_ne].
    rewrite as_kind_item, decide_False; [done|]. rewrite Hx. congruence. }
  induction l as [|i l IH]; cbn [put_item]; [by rewrite Hskip|].
  destruct (as_kind k i) as [x|] eqn:Hi; [case_decide as Hx|].
  - apply as_kind_Some in Hi as ->. by rewrite !Hskip.
  - cbn [find_item]. by rewrite IH.
  - cbn [find_item]. by rewrite IH.
Qed.

Lemma stored_self {k} (o : obj k) : stored o o.
Proof.
  split; [done|].
  destruct k; cbn [content_kept]; try done; apply negb_false_iff, bool_decide_eq_true; done.
Qed.

Lemma put_write_step w {k} (o o' : obj k) :
  stored o o' → write_step o (world_view w) (world_view (put w k o')) (Ok o').
Proof.
  intros Hst. assert (key_of (meta o') = key_of (meta o)) as Hkey by apply Hst.
  split; [intros k' key Hne; apply find_put_other; by rewrite Hkey|].
  intros x [= <-]. split; [done|]. rewrite <-Hkey. apply find_put_same.
Qed.

(** An accepted merge patch of the object there is. *)
Lemma put_merge_step w {k} (base cur o : obj k) :
  find_item k (key_of (meta o)) (w_items w) = Some cur →
  write_step o (world_view w) (world_view (put w k (merge_patch base o cur))) (Ok (merge_patch base o cur)) ∧
  merge_step base o (world_view w) (Ok (merge_patch base o cur)).
Proof.
  intros Hcur. destruct (merge_patch_spec base o cur) as [Hkey Hm]; [by eapply find_item_key|]. split.
  - apply put_write_step. split; [done|]. by destruct k; try apply stored_self.
  - intros o' [= <-]. by exists cur.
Qed.

(** An accepted status patch of the object there is. *)
Lemma put_status_step w {k} (cur o : obj k) :
  find_item k (key_of (meta o)) (w_items w) = Some cur →
  write_step o (world_view w) (world_view (put w k (with_status_of cur o))) (Ok (with_status_of cur o)) ∧
  status_step o (world_view w) (world_view (put w k (with_status_of cur o))) (Ok (with_status_of cur o)).
Proof.
  intros Hcur. destruct (with_status_of_spec cur o) as (Hkey&Hstatus&Hsame); [by eapply find_item_key|].
  split.
  - apply put_write_step. split; [done|]. by destruct k; try apply stored_self.
  - intros o' [= <-]. by exists cur.
Qed.

Lemma refused_write_step (v : view) {k} (o : obj k) f : write_step o v v (Err f).
Proof. by split. Qed.

#[export] Instance world_api : ApiServer world_server world_view.
Proof.
  intros w c. destruct c; cbn [world_server handle world_handle]; cbv beta iota;
    try (apply put_write_step, stored_self); try done.
  - split; [done|]. cbn [ev_answer]. unfold found, world_view.
    destruct (find_item k key (w_items w)) as [o|] eqn:Ho; [|done]. split; [done|]. by eapply find_item_key.
  - destruct (find_item k (key_of (meta o)) (w_items w)) as [x|] eqn:Hx; cbn [api_step ev_call ev_answer].
    + split_and!; [apply refused_write_step|done|done].
    + split_and!; [apply put_write_step, stored_self|by intros o' _; exact Hx|].
      intros cur Hcur. unfold world_view in Hcur. congruence.
  - destruct (find_item k (key_of (meta updated)) (w_items w)) as [x|] eqn:Hx; [by apply put_merge_step|].
    split; [apply refused_write_step|done].
  - destruct (find_item k (key_of (meta updated)) (w_items w)) as [x|] eqn:Hx;
      [case_decide|]; cbn [api_step ev_call ev_answer]; [by apply put_status_step|by split..].
Qed.
End memory.
