(* ===== verification/ClusterController.v ===== *)
(** * The cluster controller: internal/controller/cluster_{controller,create}.go

    Reconciles a Cluster into its signing-key secret, the storage controller and
    the storage broker, and reports their availability. *)

From S2P Require Import Prelude GoLib GoJson KubeTypes Api Interfaces Reference Prog Server Jwt.
From S2P Require Import Status Reconcile StorageBroker StorageController Controller.

Module ClusterReconciler.

Section cluster.
Context `{ConditionOps} `{OwnerOps} `{CryptoOps} `{SemanticEqual Status}
  `{SemanticDerivative DeploymentSpec} `{SemanticDerivative ServiceSpec}.

(** ** cluster_create.go *)

Definition jwt_secret_name (cluster : string) : string := "cluster-" +:+ cluster +:+ "-jwt".

Definition jwt_secret_key (cluster : Cluster) : NamespacedName :=
  {| nn_Namespace := om_Namespace (cl_Meta cluster);
     nn_Name := jwt_secret_name (om_Name (cl_Meta cluster)) |}.

(** The secret literal for two PEM blocks. *)
Definition jwt_secret (cluster : Cluster) (privDER pubDER : string) : Secret :=
  {| sec_Meta :=
       new_meta (jwt_secret_name (om_Name (cl_Meta cluster))) (om_Namespace (cl_Meta cluster)) ∅ ∅;
     sec_Data := key_secret_data (pem_EncodeToMemory "PRIVATE KEY" privDER)
                                 (pem_EncodeToMemory "PUBLIC KEY" pubDER) |}.

Definition reconcileJWTKeys (cluster : Cluster) : prog (option error) :=
  getr ← Get KSecret (jwt_secret_key cluster);
  match getr with
  | Ok _ => Ret None
  | Err err =>
      if negb (IsNotFound err) then Ret (Some err)
      else
        let_ok kp := GenerateKey or err return Ret (Some err);
        match MarshalPKCS8PrivateKey (kp_private kp) with
        | Err err => Ret (Some (Foreign err))
        | Ok privDER =>
        match MarshalPKIXPublicKey (kp_public kp) with
        | Err err => Ret (Some (Foreign err))
        | Ok pubDER =>
            let jwtSecret := jwt_secret cluster privDER pubDER in
            match SetControllerReference KCluster (cl_Meta cluster) (sec_Meta jwtSecret) with
            | Err err => Ret (Some (Wrapf "failed to set controller reference" (Foreign err)))
            | Ok refs =>
                r ← Create KSecret (owned (k := KSecret) jwtSecret refs) None;
                Ret (result_err r)
            end
        end end
  end.

Definition reconcileStorageController (cluster : Cluster) : prog (option error) :=
  dep ← lift_outcome (storagecontroller.Deployment cluster);
  if_err e := ReconcileSSA (ok := KCluster) (k := KDeployment) cluster dep (deployment_drift dep)
    return Ret (Some e);
  let svc := storagecontroller.Service cluster in
  ReconcileSSA (ok := KCluster) (k := KService) cluster svc (service_drift svc).

Definition reconcileStorageBroker (cluster : Cluster) : prog (option error) :=
  let dep := storagebroker.Deployment cluster in
  if_err e := ReconcileSSA (ok := KCluster) (k := KDeployment) cluster dep (deployment_drift dep)
    return Ret (Some e);
  let svc := storagebroker.Service cluster in
  ReconcileSSA (ok := KCluster) (k := KService) cluster svc (service_drift svc).

Definition createClusterResources (cluster : Cluster) : prog (option error) :=
  if_err e := reconcileJWTKeys cluster return Ret (Some e);
  if_err e := reconcileStorageController cluster return Ret (Some e);
  reconcileStorageBroker cluster.

(** ** cluster_controller.go *)

Definition deploymentState (cluster : Cluster) (name label : string) :
    prog (ConditionStatus * string * string) :=
  getr ← Get KDeployment {| nn_Namespace := om_Namespace (cl_Meta cluster); nn_Name := name |};
  Ret match getr with
      | Err err =>
          if IsNotFound err
          then (ConditionFalse, ReasonChildResourceMissing, label +:+ " Deployment has not been observed yet")
          else (ConditionUnknown, ReasonChildResourceMissing, Error err)
      | Ok dep =>
          if IsDeploymentAvailable (Some dep)
          then (ConditionTrue, ReasonAsExpected, label +:+ " Deployment is Available")
          else (ConditionFalse, ReasonChildDeploymentNotAvailable, label +:+ " Deployment is not yet Available")
      end.

(** The closure passed to [PatchStatus]. *)
Definition cluster_status (reconcileErr : option error)
    (sc sb : ConditionStatus * string * string) (c : obj KCluster) : prog (obj KCluster) :=
  let '(scAvailable, scReason, scMessage) := sc in
  let '(sbAvailable, sbReason, sbMessage) := sb in
  let c := SetObservedGeneration c (om_Generation (meta c)) in
  let conds := StatusConditions c in
  match reconcileErr with
  | Some err =>
      conds ← SetCondition c conds ConditionAvailable ConditionFalse ReasonResourceCreateFailed (Error err);
      conds ← SetCondition c conds ConditionProgressing ConditionTrue ReasonReconciling
        "Retrying after resource creation failure";
      conds ← SetCondition c conds ConditionStorageControllerAvailable scAvailable scReason scMessage;
      conds ← SetCondition c conds ConditionStorageBrokerAvailable sbAvailable sbReason sbMessage;
      Ret (set_Conditions c conds)
  | None =>
      conds ← SetCondition c conds ConditionStorageControllerAvailable scAvailable scReason scMessage;
      conds ← SetCondition c conds ConditionStorageBrokerAvailable sbAvailable sbReason sbMessage;
      if decide (scAvailable = ConditionTrue ∧ sbAvailable = ConditionTrue) then
        conds ← SetCondition c conds ConditionAvailable ConditionTrue ReasonAsExpected
          "Cluster components are Available";
        conds ← SetCondition c conds ConditionProgressing ConditionFalse ReasonAsExpected
          "Cluster is at desired state";
        Ret (set_Conditions c conds)
      else
        conds ← SetCondition c conds ConditionAvailable ConditionFalse ReasonChildDeploymentNotAvailable
          "One or more cluster components are not Available";
        conds ← SetCondition c conds ConditionProgressing ConditionTrue ReasonReconciling
          "Waiting for child Deployments to become Available";
        Ret (set_Conditions c conds)
  end.

Definition updateStatus (cluster : Cluster) (reconcileErr : option error) : prog (obj KCluster * option error) :=
  let name := om_Name (cl_Meta cluster) in
  sc ← deploymentState cluster (storagecontroller.Name name) "Storage controller";
  sb ← deploymentState cluster (storagebroker.Name name) "Storage broker";
  PatchStatus (k := KCluster) cluster (cluster_status reconcileErr sc sb).

Definition reconcile (cluster : Cluster) : prog (Result * option error) :=
  createErr ← createClusterResources cluster;
  st ← updateStatus cluster createErr;
  match st.2 with
  | Some err => Ret (no_requeue, Some err)
  | None =>
      match createErr with
      | Some e => Ret (no_requeue, Some (Wrapf "not able to create cluster resources" e))
      | None => Ret (no_requeue, None)
      end
  end.

(** [nil, nil] when the Cluster is gone. *)
Definition getCluster (req : Request) : prog (result (option Cluster)) :=
  getr ← Get KCluster req;
  Ret match getr with
      | Ok c => Ok (Some c)
      | Err e => if IsNotFound e then Ok None else Err (Wrapf "cannot get the resource" e)
      end.

(** The cluster pointer is dereferenced ([cluster.Name]) without a nil test. *)
Definition Reconcile (req : Request) : prog (Result * option error) :=
  let_ok ptr := getCluster req or err return Ret (no_requeue, Some err);
  cluster ← lift_outcome (deref ptr);
  r ← reconcile cluster;
  Ret (finish r).
End cluster.

(** ** Properties *)

Section properties.
Context `{ConditionOps} `{OwnerOps} `{CryptoOps} `{SemanticEqual Status}
  `{SemanticDerivative DeploymentSpec} `{SemanticDerivative ServiceSpec}.

(** The contract of the key step: an existing secret is kept; a missing one is
    created from a fresh key pair. *)
Inductive jwt_step (cluster : Cluster) : trace → option error → Prop :=
  | jwt_kept s :
      jwt_step cluster [Ev (CGet KSecret (jwt_secret_key cluster)) (Ok s)] None
  | jwt_unread e f :
      fault_not_found f = false → root e = Some f →
      jwt_step cluster [Ev (CGet KSecret (jwt_secret_key cluster)) (Err f)] (Some e)
  | jwt_no_key e f f' :
      fault_not_found f = true → root e = Some f' →
      jwt_step cluster
        [Ev (CGet KSecret (jwt_secret_key cluster)) (Err f); Ev CGenerateKey (Err f')] (Some e)
  | jwt_refused e f kp f' :
      fault_not_found f = true → root e = Some f' →
      (MarshalPKCS8PrivateKey (kp_private kp) = Err f' ∨ MarshalPKIXPublicKey (kp_public kp) = Err f' ∨
       SetControllerReference KCluster (cl_Meta cluster) (sec_Meta (jwt_secret cluster "" "")) = Err f') →
      jwt_step cluster
        [Ev (CGet KSecret (jwt_secret_key cluster)) (Err f); Ev CGenerateKey (Ok kp)] (Some e)
  | jwt_created e kp privDER pubDER refs r :
      fault_not_found e = true →
      MarshalPKCS8PrivateKey (kp_private kp) = Ok privDER →
      MarshalPKIXPublicKey (kp_public kp) = Ok pubDER →
      jwt_step cluster
        [Ev (CGet KSecret (jwt_secret_key cluster)) (Err e);
         Ev CGenerateKey (Ok kp);
         Ev (CCreate KSecret (owned (k := KSecret) (jwt_secret cluster privDER pubDER) refs) None) r]
        (result_err (from_env r)).

Lemma reconcileJWTKeys_step cluster : wp (reconcileJWTKeys cluster) (runs (jwt_step cluster)).
Proof.
  unfold reconcileJWTKeys. wp_call getr. destruct getr as [s|e]; cbn [from_env]; [wp_steps; apply jwt_kept|].
  change (IsNotFound (Foreign e)) with (fault_not_found e).
  destruct (fault_not_found e) eqn:He; cbn [negb]; [|wp_steps; by apply jwt_unread].
  wp_call kpr. destruct kpr as [kp|e']; cbn [from_env]; [|wp_steps; by eapply jwt_no_key].
  destruct (MarshalPKCS8PrivateKey _) as [privDER|] eqn:E1; [|wp_steps; eapply jwt_refused; eauto].
  destruct (MarshalPKIXPublicKey _) as [pubDER|] eqn:E2; [|wp_steps; eapply jwt_refused; eauto].
  destruct (SetControllerReference _ _ _) as [refs|] eqn:E3; [|wp_steps; eapply jwt_refused; eauto].
  wp_call r. wp_steps. by eapply jwt_created.
Qed.

Lemma jwt_step_targets cluster tr err :
  jwt_step cluster tr err → targets tr `sublist_of` [(KSecret, jwt_secret_key cluster)].
Proof.
  by intros []; try apply sublist_nil_l.
Qed.

(** Signing keys are never replaced: the secret is created only after the API
    server has said that it does not exist, from a key pair generated in this very
    run, and once. The secret created is the one [NewJWTManagerFromSecret] reads
    back as that key pair. *)
Theorem reconcileJWTKeys_creates_once `{!CryptoLaws} cluster :
  wp (reconcileJWTKeys cluster) (λ tr out, ∃ err, out = Returned err ∧
    (writes tr = [] ∨ ∃ e kp secret r,
      tr = [Ev (CGet KSecret (jwt_secret_key cluster)) (Err e); Ev CGenerateKey (Ok kp);
            Ev (CCreate KSecret secret None) r] ∧
      fault_not_found e = true ∧ key_of (sec_Meta secret) = jwt_secret_key cluster ∧
      NewJWTManagerFromSecret secret = Ok {| privateKey := kp_private kp; publicKey := kp_public kp |} ∧
      err = result_err (from_env r))).
Proof.
  eapply wp_mono; [|apply reconcileJWTKeys_step].
  intros tr [err|w] Hrun; [|done]. exists err. split; [done|].
  destruct Hrun as [s|e f|e f f'|e f kp f'|e kp privDER pubDER refs r He Hpriv Hpub]; [by left..|right].
  do 4 eexists. split_and!; [done|done|done| |done].
  by apply manager_of_marshalled.
Qed.

(** ** The order of the children *)

(** The five steps of a Cluster, for the storage-controller Deployment [scDep]. *)
Definition storagecontroller_steps (cluster : Cluster) (scDep : Deployment) :=
  [ deployment_child (ok := KCluster) cluster scDep;
    service_child (ok := KCluster) cluster (storagecontroller.Service cluster) ].
Definition storagebroker_steps (cluster : Cluster) :=
  [ deployment_child (ok := KCluster) cluster (storagebroker.Deployment cluster);
    service_child (ok := KCluster) cluster (storagebroker.Service cluster) ].
Definition cluster_steps (cluster : Cluster) (scDep : Deployment) :
    list (trace → option error → Prop) :=
  jwt_step cluster :: storagecontroller_steps cluster scDep ++ storagebroker_steps cluster.

Lemma createClusterResources_steps cluster scDep :
  storagecontroller.Deployment cluster = Returned scDep →
  wp (createClusterResources cluster) (runs (runs_in_order (cluster_steps cluster scDep))).
Proof.
  intros HscDep. unfold createClusterResources, cluster_steps.
  apply wp_runs_cons; [apply reconcileJWTKeys_step|]. apply wp_runs_app.
  - unfold reconcileStorageController. rewrite HscDep. wp_steps.
    apply wp_runs_cons, wp_runs_last; apply ReconcileSSA_upserts.
  - unfold reconcileStorageBroker.
    apply wp_runs_cons, wp_runs_last; apply ReconcileSSA_upserts.
Qed.

(** The keys of the children of a Cluster. *)
Definition child_key (cluster : Cluster) (name : string) : NamespacedName :=
  {| nn_Namespace := om_Namespace (cl_Meta cluster); nn_Name := name |}.

Lemma storagecontroller_Deployment_inv cluster d :
  storagecontroller.Deployment cluster = Returned d →
  key_of (dep_Meta d) = child_key cluster (storagecontroller.Name (om_Name (cl_Meta cluster))).
Proof.
  unfold storagecontroller.Deployment. destruct (cls_StorageControllerDatabaseSecret _); [|done].
  by intros [= <-].
Qed.

(** When the database secret reference is present, [createClusterResources] never
    panics and runs five steps strictly in order, stopping at the first error: the
    signing keys, the storage controller's Deployment and Service, the storage
    broker's Deployment and Service, each of them only created when absent and only
    applied when drifting.  Whatever happens it writes to no other object, to each
    of these at most once, in this order. *)
Theorem createClusterResources_in_order cluster secret :
  cls_StorageControllerDatabaseSecret (cl_Spec cluster) = Some secret →
  let name := om_Name (cl_Meta cluster) in
  wp (createClusterResources cluster) (λ tr out, ∃ err scDep,
    out = Returned err ∧ storagecontroller.Deployment cluster = Returned scDep ∧
    runs_in_order (cluster_steps cluster scDep) tr err ∧
    targets tr `sublist_of`
      [ (KSecret, jwt_secret_key cluster);
        (KDeployment, child_key cluster (storagecontroller.Name name));
        (KService, child_key cluster (storagecontroller.Name name));
        (KDeployment, child_key cluster (storagebroker.Name name));
        (KService, child_key cluster (storagebroker.Name name)) ]).
Proof.
  intros Hsecret name.
  destruct (storagecontroller.Deployment cluster) as [scDep|w] eqn:HscDep;
    [|unfold storagecontroller.Deployment in HscDep; by rewrite Hsecret in HscDep].
  eapply wp_mono; [|by apply createClusterResources_steps].
  intros tr [err|w] Hrun; [|done]. exists err, scDep. split_and!; [done|done|done|].
  eapply (runs_in_order_targets _ [[_]; [_]; [_]; [_]; [_]]); [|exact Hrun].
  step_targets; [apply jwt_step_targets|].
  unfold name. rewrite <-(storagecontroller_Deployment_inv _ _ HscDep). apply deployment_child_targets.
Qed.
(** ** What the status says *)

Definition deployment_status (depr : result Deployment) : ConditionStatus :=
  match depr with
  | Err e => if IsNotFound e then ConditionFalse else ConditionUnknown
  | Ok dep => if IsDeploymentAvailable (Some dep) then ConditionTrue else ConditionFalse
  end.

(** Available exactly when the pass succeeded and both Deployments are available. *)
Definition cluster_available (reconcileErr : option error) (sc sb : result Deployment) : ConditionStatus :=
  if decide (reconcileErr = None ∧ deployment_status sc = ConditionTrue ∧ deployment_status sb = ConditionTrue)
  then ConditionTrue else ConditionFalse.

Definition cluster_reports (reconcileErr : option error) (sc sb : result Deployment)
    (gen : Z) (cs : list Condition) : Prop :=
  (∃ r m, reported ConditionAvailable cs =
            Some (Report (cluster_available reconcileErr sc sb) r m gen) ∧
          (∀ e, reconcileErr = Some e → r = ReasonResourceCreateFailed ∧ m = Error e)) ∧
  (∃ r m, reported ConditionProgressing cs =
            Some (Report (negate (cluster_available reconcileErr sc sb)) r m gen)) ∧
  (∃ r m, reported ConditionStorageControllerAvailable cs = Some (Report (deployment_status sc) r m gen)) ∧
  (∃ r m, reported ConditionStorageBrokerAvailable cs = Some (Report (deployment_status sb) r m gen)).

Definition state_of (depr : result Deployment) (st : ConditionStatus * string * string) : Prop :=
  st.1.1 = deployment_status depr.

Lemma wp_deploymentState cluster name label :
  wp (deploymentState cluster name label) (λ tr out, ∃ depr st,
    tr = [Ev (CGet KDeployment (child_key cluster name)) depr] ∧ out = Returned st ∧
    state_of (from_env depr) st).
Proof.
  unfold deploymentState, state_of. wp_call depr. wp_steps. exists depr. eexists.
  split_and!; [done|done|]. unfold deployment_status. by destruct (from_env depr); case_match.
Qed.

Lemma wp_cluster_status `{!ConditionLaws} reconcileErr scr sbr sc sb (c : obj KCluster) :
  state_of scr sc → state_of sbr sb →
  wp (cluster_status reconcileErr sc sb c)
    (refreshes (cluster_reports reconcileErr scr sbr (om_Generation (meta c))) c).
Proof.
  destruct sc as [[sc1 sc2] sc3], sb as [[sb1 sb2] sb3]. unfold state_of. cbn [fst].
  intros -> ->. unfold cluster_status, SetCondition, cluster_reports, cluster_available, refreshes.
  rewrite meta_SetObservedGeneration. destruct reconcileErr as [err|].
  - wp_call t1. wp_call t2. wp_call t3. wp_call t4. refreshes_done.
    rewrite decide_False by naive_solver.
    split_and!; do 2 eexists; solve_reported; naive_solver.
  - wp_call t1. wp_call t2. case_decide as Hav; wp_call t3; wp_call t4; refreshes_done.
    + rewrite decide_True by done. split_and!; do 2 eexists; solve_reported; naive_solver.
    + rewrite decide_False by naive_solver. split_and!; do 2 eexists; solve_reported; naive_solver.
Qed.

(** The contract of [updateStatus]. *)
Definition cluster_status_step (cluster : Cluster) (reconcileErr : option error)
    (tr : trace) (f : option fault) : Prop :=
  let name := om_Name (cl_Meta cluster) in
  ∃ scr sbr rest,
    tr = Ev (CGet KDeployment (child_key cluster (storagecontroller.Name name))) scr ::
         Ev (CGet KDeployment (child_key cluster (storagebroker.Name name))) sbr :: rest ∧
    status_run (k := KCluster) (key_of (cl_Meta cluster))
      (λ base, cluster_reports reconcileErr (from_env scr) (from_env sbr) (om_Generation (cl_Meta base))) rest f.

Lemma wp_cluster_updateStatus `{!ConditionLaws} cluster reconcileErr :
  wp (updateStatus cluster reconcileErr)
    (λ tr out, ∃ o f, out = Returned (o, Foreign <$> f) ∧ cluster_status_step cluster reconcileErr tr f).
Proof.
  unfold updateStatus, cluster_status_step.
  wp_use (wp_deploymentState cluster (storagecontroller.Name (om_Name (cl_Meta cluster))) "Storage controller");
    [|by intros ?? (?&?&_&?&_)].
  intros tr1 sc (scr&?&->&[= <-]&Hsc).
  wp_use (wp_deploymentState cluster (storagebroker.Name (om_Name (cl_Meta cluster))) "Storage broker");
    [|by intros ?? (?&?&_&?&_)].
  intros tr2 sb (sbr&?&->&[= <-]&Hsb).
  eapply wp_mono; [|apply (wp_PatchStatus_refreshes (k := KCluster)); intros cur; by apply wp_cluster_status].
  intros tr out (o&f&->&Hrun). exists o, f. split; [done|]. by exists scr, sbr, tr.
Qed.

Lemma jwt_step_unmarked cluster tr e : jwt_step cluster tr (Some e) → unmarked e.
Proof.
  intros Hs. remember (Some e) as err eqn:He. destruct Hs as [| | | |f kp privDER pubDER refs [w|f']];
    simplify_eq/=; eauto with neon.
Qed.

#[local] Hint Resolve jwt_step_unmarked : neon.

Lemma cluster_steps_unmarked cluster scDep tr e :
  runs_in_order (cluster_steps cluster scDep) tr (Some e) → unmarked e.
Proof. apply runs_in_order_unmarked. step_unmarked. Qed.

(** One pass over a Cluster with the database secret reference the API requires. *)
Lemma wp_reconcile_cluster `{!ConditionLaws} cluster secret :
  cls_StorageControllerDatabaseSecret (cl_Spec cluster) = Some secret →
  wp (r ← reconcile cluster; Ret (finish r)) (λ tr out,
    ∃ scDep r, storagecontroller.Deployment cluster = Returned scDep ∧ out = Returned r ∧
      pass "not able to create cluster resources"
        (runs_in_order (cluster_steps cluster scDep)) (cluster_status_step cluster) tr r).
Proof.
  intros Hs. destruct (storagecontroller.Deployment cluster) as [scDep|w] eqn:HscDep;
    [|unfold storagecontroller.Deployment in HscDep; by rewrite Hs in HscDep].
  eapply wp_mono; [|eapply (wp_create_then_report (k := KCluster) (createClusterResources cluster)
    (updateStatus cluster) _ _ (cluster_status_step cluster))].
  - intros tr out (r&->&Hp). eauto.
  - by apply createClusterResources_steps.
  - intros ce. apply wp_cluster_updateStatus.
  - apply cluster_steps_unmarked.
Qed.

(** C2. One call of [Reconcile], in every environment.  It first reads the Cluster.
    A Cluster that has been deleted makes it panic: [getCluster] answers
    [nil, nil] and the pointer is dereferenced.  Another read error is returned.
    Otherwise (with the database secret reference the API requires) it runs the
    five child steps in order up to the first failure, then, whether or not they
    failed, runs the status update that reports them.  If the status update fails,
    its error is what is returned, also when a step had failed before: the error of
    the step is then only logged.  If it succeeds, the error of the failed step is
    returned, wrapped.  So nil is returned exactly when every step and the status
    update succeeded, and the requeue sentinel is never involved. *)
Theorem Reconcile_cluster_pass `{!ConditionLaws} (req : Request) :
  wp (Reconcile req) (reconciles (k := KCluster) req
    (Panicked "invalid memory address or nil pointer dereference")
    (λ cluster tr out, ∀ secret, cls_StorageControllerDatabaseSecret (cl_Spec cluster) = Some secret →
       ∃ scDep r, storagecontroller.Deployment cluster = Returned scDep ∧ out = Returned r ∧
         pass "not able to create cluster resources"
           (runs_in_order (cluster_steps cluster scDep)) (cluster_status_step cluster) tr r)).
Proof.
  apply (wp_reconcile_unchecked (k := KCluster) req (λ cluster, r ← reconcile cluster; Ret (finish r))).
  intros cluster.
  destruct (cls_StorageControllerDatabaseSecret (cl_Spec cluster)) as [s|] eqn:Hs;
    [|eapply wp_mono; [|apply wp_true]; intros; simplify_eq].
  eapply wp_mono; [|by apply (wp_reconcile_cluster cluster s)]. intros tr out Hp secret _. exact Hp.
Qed.
End properties.

(** ** Examples *)

Section examples.
Import RefInstances.
Definition req : Request := Samples.request "prod".

(** The sample cluster is reconciled without an error. *)
Lemma Reconcile_cluster_pass_witness :
  let '(tr, out) := run Samples.start (Reconcile req) in
  out = Returned (no_requeue, None) ∧ length (writes tr) = 6%nat ∧
  reconciles (k := KCluster) req (Panicked "invalid memory address or nil pointer dereference")
    (λ cluster tr out, ∀ secret, cls_StorageControllerDatabaseSecret (cl_Spec cluster) = Some secret →
       ∃ scDep r, storagecontroller.Deployment cluster = Returned scDep ∧ out = Returned r ∧
         pass "not able to create cluster resources"
           (runs_in_order (cluster_steps cluster scDep)) (cluster_status_step cluster) tr r) tr out.
Proof.
  split; [vm_compute; reflexivity|]. split; [vm_compute; reflexivity|].
  exact (run_wp Samples.start (Reconcile req) _ (Reconcile_cluster_pass req)).
Defined.

Lemma createClusterResources_in_order_witness :
  let '(tr, out) := run Samples.start (createClusterResources Samples.cluster) in
  out = Returned None ∧ length (targets tr) = 5%nat ∧ ∃ err scDep,
    out = Returned err ∧ storagecontroller.Deployment Samples.cluster = Returned scDep ∧
    runs_in_order (cluster_steps Samples.cluster scDep) tr err ∧
    targets tr `sublist_of`
      [ (KSecret, jwt_secret_key Samples.cluster);
        (KDeployment, child_key Samples.cluster (storagecontroller.Name "prod"));
        (KService, child_key Samples.cluster (storagecontroller.Name "prod"));
        (KDeployment, child_key Samples.cluster (storagebroker.Name "prod"));
        (KService, child_key Samples.cluster (storagebroker.Name "prod")) ].
Proof.
  split; [vm_compute; reflexivity|]. split; [vm_compute; reflexivity|].
  exact (run_wp Samples.start (createClusterResources Samples.cluster) _
    (createClusterResources_in_order Samples.cluster _ eq_refl)).
Defined.

Lemma reconcileJWTKeys_creates_once_witness :
  let '(tr, out) := run Samples.start (reconcileJWTKeys Samples.cluster) in
  length (writes tr) = 1%nat ∧ ∃ err, out = Returned err ∧
    (writes tr = [] ∨ ∃ e kp secret r,
      tr = [Ev (CGet KSecret (jwt_secret_key Samples.cluster)) (Err e); Ev CGenerateKey (Ok kp);
            Ev (CCreate KSecret secret None) r] ∧
      fault_not_found e = true ∧ key_of (sec_Meta secret) = jwt_secret_key Samples.cluster ∧
      NewJWTManagerFromSecret secret = Ok {| privateKey := kp_private kp; publicKey := kp_public kp |} ∧
      err = result_err (from_env r)).
Proof.
  split; [vm_compute; reflexivity|].
  exact (run_wp Samples.start (reconcileJWTKeys Samples.cluster) _
    (reconcileJWTKeys_creates_once Samples.cluster)).
Defined.
End examples.

End ClusterReconciler.
