(* ===== verification/SafekeeperController.v ===== *)
(** * The safekeeper controller: internal/controller/safekeeper_{controller,create}.go

    Reconciles a Safekeeper into its two Services and its StatefulSet, whose image
    is read from the parent Cluster, and reports the StatefulSet's readiness. *)

From S2P Require Import Prelude GoLib KubeTypes Api Interfaces Reference Prog Server Status.
From S2P Require Import Reconcile SafekeeperRes Controller.

Module SafekeeperReconciler.

Section safekeeper.
Context `{ConditionOps} `{OwnerOps} `{QuantityOps} `{SemanticEqual Status}
  `{SemanticDerivative StatefulSetSpec} `{SemanticDerivative ServiceSpec}.

Definition cluster_key (sk : Safekeeper) : NamespacedName :=
  {| nn_Namespace := om_Namespace (sk_Meta sk); nn_Name := sfs_Cluster (sk_Spec sk) |}.

Definition createSafekeeperResources (sk : Safekeeper) : prog (option error) :=
  let svc := safekeeper.Service sk in
  if_err err := ReconcileSSA (ok := KSafekeeper) (k := KService) sk svc (service_drift svc)
    return Ret (Some err);
  let headless := safekeeper.HeadlessService sk in
  if_err err := ReconcileSSA (ok := KSafekeeper) (k := KService) sk headless (service_drift headless)
    return Ret (Some err);
  let_ok cluster := Get KCluster (cluster_key sk)
    or err return Ret (Some (Wrapf "failed to get parent cluster" err));
  sts ← lift_outcome (safekeeper.StatefulSet sk (cls_NeonImage (cl_Spec cluster)));
  ReconcileSSA (ok := KSafekeeper) (k := KStatefulSet) sk sts (statefulset_drift sts).

Definition getSafekeeper (req : Request) : prog (result (option Safekeeper)) :=
  getr ← Get KSafekeeper req;
  Ret match getr with
      | Ok sk => Ok (Some sk)
      | Err err => if IsNotFound err then Ok None else Err (Wrapf "cannot get the resource" err)
      end.

Definition reconcile (sk : Safekeeper) : prog (Result * option error) :=
  createErr ← createSafekeeperResources sk;
  let stsName := safekeeper.Name sk in
  st ← UpdateSTSBackedStatus (k := KSafekeeper) sk stsName "Safekeeper" createErr;
  match st.2 with
  | Some err => Ret (no_requeue, Some err)
  | None =>
      match createErr with
      | Some e => Ret (no_requeue, Some (Wrapf "not able to create safekeeper resources" e))
      | None => Ret (no_requeue, None)
      end
  end.

Definition Reconcile (req : Request) : prog (Result * option error) :=
  let_ok ptr := getSafekeeper req or err return Ret (no_requeue, Some err);
  match ptr with
  | None => Ret (no_requeue, None)
  | Some sk => r ← reconcile sk; Ret (finish r)
  end.
End safekeeper.

(** ** Properties *)

Section properties.
Context `{ConditionOps} `{OwnerOps} `{QuantityOps} `{SemanticEqual Status}
  `{SemanticDerivative StatefulSetSpec} `{SemanticDerivative ServiceSpec}.

(** The size of the volume is a quantity: what [resource.MustParse] needs. *)
Definition size_ok (sk : Safekeeper) : Prop :=
  ∃ q, ParseQuantity (stc_Size (sfs_StorageConfig (sk_Spec sk))) = Ok q.

(** The step of the StatefulSet, after the read of the parent Cluster. *)
Definition sts_step (sk : Safekeeper) (cluster : obj KCluster) (tr : trace) (err : option error) : Prop :=
  ∃ sts, safekeeper.StatefulSet sk (cls_NeonImage (cl_Spec cluster)) = Returned sts ∧
    statefulset_child (ok := KSafekeeper) sk sts tr err.

Definition safekeeper_steps (sk : Safekeeper) : list (trace → option error → Prop) :=
  [ service_child (ok := KSafekeeper) sk (safekeeper.Service sk);
    service_child (ok := KSafekeeper) sk (safekeeper.HeadlessService sk);
    with_read (cluster_key sk) (sts_step sk) ].

Lemma safekeeper_StatefulSet_returns sk image : size_ok sk → ∃ sts, safekeeper.StatefulSet sk image = Returned sts.
Proof. intros [q Hq]. unfold safekeeper.StatefulSet, MustParse. rewrite Hq. simpl. eauto. Qed.

Lemma safekeeper_StatefulSet_key sk image sts :
  safekeeper.StatefulSet sk image = Returned sts →
  key_of (sts_Meta sts) =
    {| nn_Namespace := om_Namespace (sk_Meta sk); nn_Name := safekeeper.Name sk |}.
Proof. unfold safekeeper.StatefulSet, MustParse. destruct (ParseQuantity _); [|done]. by intros [= <-]. Qed.

Lemma createSafekeeperResources_steps sk :
  size_ok sk → wp (createSafekeeperResources sk) (runs (runs_in_order (safekeeper_steps sk))).
Proof.
  intros Hsize. unfold createSafekeeperResources, safekeeper_steps.
  apply wp_runs_cons; [apply ReconcileSSA_upserts|].
  apply wp_runs_cons; [apply ReconcileSSA_upserts|]. apply wp_runs_last.
  wp_call clr. destruct clr as [cluster|f]; cbn [from_env].
  - destruct (safekeeper_StatefulSet_returns sk (cls_NeonImage (cl_Spec cluster)) Hsize) as [sts Hsts].
    rewrite Hsts. wp_steps. eapply wp_mono; [|apply (ReconcileSSA_upserts (k := KStatefulSet))].
    intros tr [err|w] Hrun; [|done]. apply with_read_ok. by exists sts.
  - wp_steps. by apply with_read_failed.
Qed.

Lemma safekeeper_sts_step_unmarked sk cluster tr e : sts_step sk cluster tr (Some e) → unmarked e.
Proof. intros (sts&_&Hs). eauto with neon. Qed.
#[local] Hint Resolve safekeeper_sts_step_unmarked : neon.

Lemma safekeeper_steps_unmarked sk tr e :
  runs_in_order (safekeeper_steps sk) tr (Some e) → unmarked e.
Proof. apply runs_in_order_unmarked. step_unmarked. Qed.

Definition child_key (sk : Safekeeper) (name : string) : NamespacedName :=
  {| nn_Namespace := om_Namespace (sk_Meta sk); nn_Name := name |}.

(** A sequence of Safekeeper steps writes at most to its three children. *)
Lemma safekeeper_steps_targets sk tr err :
  runs_in_order (safekeeper_steps sk) tr err →
  targets tr `sublist_of`
    [ (KService, child_key sk (safekeeper.Name sk));
      (KService, child_key sk (safekeeper.HeadlessName sk));
      (KStatefulSet, child_key sk (safekeeper.Name sk)) ].
Proof.
  apply (runs_in_order_targets _ [[_]; [_]; [_]]). step_targets.
  intros Hread. eapply with_read_targets; [|exact Hread].
  intros cluster t' e' (sts&Hsts&Hchild).
  unfold child_key. rewrite <-(safekeeper_StatefulSet_key _ _ _ Hsts). by eapply statefulset_child_targets.
Qed.

(** The contract of the status update. *)
Definition safekeeper_status_step (sk : Safekeeper) (reconcileErr : option error)
    (tr : trace) (f : option fault) : Prop :=
  ∃ stsr rest, tr = Ev (CGet KStatefulSet (child_key sk (safekeeper.Name sk))) stsr :: rest ∧
    status_run (k := KSafekeeper) (key_of (sk_Meta sk))
      (λ base, sts_reports reconcileErr (from_env stsr) (om_Generation (sk_Meta base))) rest f.

(** One pass over a Safekeeper whose size is a quantity. *)
Lemma wp_reconcile_safekeeper `{!ConditionLaws} sk :
  size_ok sk →
  wp (r ← reconcile sk; Ret (finish r)) (λ tr out, ∃ r, out = Returned r ∧
    pass "not able to create safekeeper resources"
      (λ t err, runs_in_order (safekeeper_steps sk) t err ∧
         targets t `sublist_of`
           [ (KService, child_key sk (safekeeper.Name sk));
             (KService, child_key sk (safekeeper.HeadlessName sk));
             (KStatefulSet, child_key sk (safekeeper.Name sk)) ])
      (safekeeper_status_step sk) tr r).
Proof.
  intros Hsize. eapply (wp_create_then_report (k := KSafekeeper) (createSafekeeperResources sk)
    (UpdateSTSBackedStatus (k := KSafekeeper) sk (safekeeper.Name sk) "Safekeeper") _
    (λ t err, runs_in_order (safekeeper_steps sk) t err ∧ _) (safekeeper_status_step sk)).
  - eapply wp_mono; [|by apply createSafekeeperResources_steps].
    intros tr [err|w] Hrun; [|done]. split; [done|by apply safekeeper_steps_targets in Hrun].
  - intros ce. eapply wp_mono; [|apply (wp_UpdateSTSBackedStatus (k := KSafekeeper))].
    intros tr out (stsr&rest&->&o&f&->&Hrun). exists o, f. split; [done|]. by exists stsr, rest.
  - intros tr e' [Hrun _]. by apply safekeeper_steps_unmarked in Hrun.
Qed.

(** C6. One call of the Safekeeper controller's [Reconcile], in every environment:
    a Safekeeper that is gone ends the call with no error and nothing else done;
    a read error is returned.  Otherwise, when the volume size is a quantity, the
    call does not panic: the Service, the headless Service, and, once the parent
    Cluster has been read, the StatefulSet are each created only if absent and
    applied only if drifting, in this order and up to the first failure; nothing
    else is written; then the outcome and the StatefulSet's readiness are
    reported in one status update, and nil is returned only if all of it succeeded. *)
Theorem Reconcile_safekeeper_pass `{!ConditionLaws} (req : Request) :
  wp (Reconcile req) (reconciles (k := KSafekeeper) req (Returned (no_requeue, None))
    (λ sk tr out, size_ok sk → ∃ r, out = Returned r ∧
       pass "not able to create safekeeper resources"
         (λ t err, runs_in_order (safekeeper_steps sk) t err ∧
            targets t `sublist_of`
              [ (KService, child_key sk (safekeeper.Name sk));
                (KService, child_key sk (safekeeper.HeadlessName sk));
                (KStatefulSet, child_key sk (safekeeper.Name sk)) ])
         (safekeeper_status_step sk) tr r)).
Proof.
  apply (wp_reconcile_checked (k := KSafekeeper) req (λ sk, r ← reconcile sk; Ret (finish r))).
  intros sk.
  destruct (ParseQuantity (stc_Size (sfs_StorageConfig (sk_Spec sk)))) as [q|e] eqn:Hq;
    [|eapply wp_mono; [|apply wp_true]; intros tr out _ [q Hq']; by rewrite Hq in Hq'].
  eapply wp_mono; [|by apply wp_reconcile_safekeeper; exists q]. intros tr out Hp _. exact Hp.
Qed.

(** With a size that is no quantity the creation of the children never succeeds,
    and when it panics it has written to the two Services at most. *)
Lemma createSafekeeperResources_bad_size sk f :
  ParseQuantity (stc_Size (sfs_StorageConfig (sk_Spec sk))) = Err f →
  wp (createSafekeeperResources sk) (λ tr out, out ≠ Returned None ∧ ∀ w, out = Panicked w →
    targets tr `sublist_of`
      [ (KService, child_key sk (safekeeper.Name sk));
        (KService, child_key sk (safekeeper.HeadlessName sk)) ]).
Proof.
  intros Hq. unfold createSafekeeperResources.
  wp_use (ReconcileSSA_upserts (ok := KSafekeeper) (k := KService) sk (safekeeper.Service sk)
    (service_drift (safekeeper.Service sk))); [|done].
  intros tr1 [e|] Hs1; wp_steps; [done|].
  wp_use (ReconcileSSA_upserts (ok := KSafekeeper) (k := KService) sk (safekeeper.HeadlessService sk)
    (service_drift (safekeeper.HeadlessService sk))); [|done].
  intros tr2 [e|] Hs2; wp_steps; [done|].
  wp_call clr. destruct clr as [cluster|g]; cbn [from_env]; [|by wp_steps].
  unfold safekeeper.StatefulSet, MustParse. rewrite Hq. cbn [mbind outcome_bind]. wp_steps.
  split; [done|]. intros w _. rewrite !targets_app, app_nil_r.
  apply (sublist_app _ [_] _ [_]); [by apply upserts_targets in Hs1|by apply upserts_targets in Hs2].
Qed.

(** A Safekeeper whose [size] is not a quantity (nothing in the API rejects it) is
    never reconciled successfully; when its Services and its Cluster are in order,
    [resource.MustParse] panics, and the status has then not been touched, so the
    user is never told. *)
Theorem reconcile_safekeeper_bad_size `{!ConditionLaws} sk f :
  ParseQuantity (stc_Size (sfs_StorageConfig (sk_Spec sk))) = Err f →
  wp (reconcile sk) (λ tr out, (∀ res, out ≠ Returned (res, None)) ∧
    ∀ w, out = Panicked w → ∀ o, (KSafekeeper, o) ∉ targets tr).
Proof.
  intros Hq. unfold reconcile.
  wp_use (createSafekeeperResources_bad_size sk f Hq).
  - intros tr [e|] [Hne _]; [|done].
    wp_use (wp_UpdateSTSBackedStatus (k := KSafekeeper) sk (safekeeper.Name sk) "Safekeeper" (Some e)).
    + intros tr' [o err] _. destruct err; by wp_steps.
    + by intros ? ? (?&?&_&?&?&?&_).
  - intros tr w [_ Hpanic]. split; [done|]. intros w' _ o Ho.
    specialize (Hpanic w eq_refl). eapply sublist_subseteq in Hpanic. apply Hpanic in Ho. set_solver.
Qed.
End properties.

(** ** Examples *)

Section examples.
Import RefInstances.
Definition req : Request := Samples.request "sk-1".

(** The sample safekeeper is reconciled without an error. *)
Lemma Reconcile_safekeeper_pass_witness :
  let '(tr, out) := run Samples.start (Reconcile req) in
  out = Returned (no_requeue, None) ∧ length (writes tr) = 4%nat ∧ size_ok (Samples.safekeeper_with "10Gi") ∧
  reconciles (k := KSafekeeper) req (Returned (no_requeue, None))
    (λ sk tr out, size_ok sk → ∃ r, out = Returned r ∧
       pass "not able to create safekeeper resources"
         (λ t err, runs_in_order (safekeeper_steps sk) t err ∧
            targets t `sublist_of`
              [ (KService, child_key sk (safekeeper.Name sk));
                (KService, child_key sk (safekeeper.HeadlessName sk));
                (KStatefulSet, child_key sk (safekeeper.Name sk)) ])
         (safekeeper_status_step sk) tr r) tr out.
Proof.
  split; [vm_compute; reflexivity|]. split; [vm_compute; reflexivity|].
  split; [by eexists|].
  exact (run_wp Samples.start (Reconcile req) _ (Reconcile_safekeeper_pass req)).
Defined.

(** A size without digits: the third child panics. *)
Lemma reconcile_safekeeper_bad_size_witness :
  let sk := Samples.safekeeper_with "big" in
  let '(tr, out) := run Samples.start (reconcile sk) in
  length (targets tr) = 2%nat ∧ (∃ w, out = Panicked w) ∧ (∀ res, out ≠ Returned (res, None)) ∧
  ∀ w, out = Panicked w → ∀ o, (KSafekeeper, o) ∉ targets tr.
Proof.
  split; [vm_compute; reflexivity|]. split; [eexists; vm_compute; reflexivity|].
  exact (run_wp Samples.start (reconcile (Samples.safekeeper_with "big")) _
    (reconcile_safekeeper_bad_size (Samples.safekeeper_with "big") _ eq_refl)).
Defined.
End examples.

End SafekeeperReconciler.
