(* ===== verification/PageserverController.v ===== *)
(** * The pageserver controller: internal/controller/pageserver_{controller,create}.go

    Reconciles a Pageserver into its ConfigMap (built from the bucket secret), its
    two Services and its StatefulSet (built from the parent Cluster), and reports
    the StatefulSet's readiness. *)

From S2P Require Import Prelude GoLib KubeTypes Api Interfaces Reference Prog Server Status.
From S2P Require Import Reconcile PageserverRes Controller.

Module PageserverReconciler.

Section pageserver.
Context `{ConditionOps} `{OwnerOps} `{QuantityOps} `{SemanticEqual Status}
  `{SemanticDerivative StatefulSetSpec} `{SemanticDerivative ServiceSpec} `{SemanticDerivative smap}.

Definition in_namespace (ps : Pageserver) (name : string) : NamespacedName :=
  {| nn_Namespace := om_Namespace (pgs_Meta ps); nn_Name := name |}.

Definition reconcileConfigMap (ps : Pageserver) : prog (option error) :=
  ref ← lift_outcome (deref (pss_BucketCredentialsSecret (pgs_Spec ps)));
  let_ok bucketSecret := Get KSecret (in_namespace ps (sr_Name ref))
    or err return Ret (Some (Wrapf "failed to get bucket credentials secret" err));
  let cm := pageserver.ConfigMap ps bucketSecret in
  ReconcileSSA (ok := KPageserver) (k := KConfigMap) ps cm (configmap_drift cm).

Definition createPageserverResources (ps : Pageserver) : prog (option error) :=
  if_err err := reconcileConfigMap ps return Ret (Some err);
  let svc := pageserver.Service ps in
  if_err err := ReconcileSSA (ok := KPageserver) (k := KService) ps svc (service_drift svc)
    return Ret (Some err);
  let headless := pageserver.HeadlessService ps in
  if_err err := ReconcileSSA (ok := KPageserver) (k := KService) ps headless (service_drift headless)
    return Ret (Some err);
  let_ok cluster := Get KCluster (in_namespace ps (pss_Cluster (pgs_Spec ps)))
    or err return Ret (Some (Wrapf "failed to get parent cluster" err));
  sts ← lift_outcome (pageserver.StatefulSet ps (cls_NeonImage (cl_Spec cluster)));
  ReconcileSSA (ok := KPageserver) (k := KStatefulSet) ps sts (statefulset_drift sts).

Definition getPageserver (req : Request) : prog (result (option Pageserver)) :=
  getr ← Get KPageserver req;
  Ret match getr with
      | Ok ps => Ok (Some ps)
      | Err err => if IsNotFound err then Ok None else Err (Wrapf "cannot get the resource" err)
      end.

Definition reconcile (ps : Pageserver) : prog (Result * option error) :=
  createErr ← createPageserverResources ps;
  let stsName := pageserver.Name ps in
  st ← UpdateSTSBackedStatus (k := KPageserver) ps stsName "Pageserver" createErr;
  match st.2 with
  | Some err => Ret (no_requeue, Some err)
  | None =>
      match createErr with
      | Some e => Ret (no_requeue, Some (Wrapf "not able to create pageserver resources" e))
      | None => Ret (no_requeue, None)
      end
  end.

Definition Reconcile (req : Request) : prog (Result * option error) :=
  let_ok ptr := getPageserver req or err return Ret (no_requeue, Some err);
  match ptr with
  | None => Ret (no_requeue, None)
  | Some ps => r ← reconcile ps; Ret (finish r)
  end.
End pageserver.

(** ** Properties *)

Section properties.
Context `{ConditionOps} `{OwnerOps} `{QuantityOps} `{SemanticEqual Status}
  `{SemanticDerivative StatefulSetSpec} `{SemanticDerivative ServiceSpec} `{SemanticDerivative smap}.

(** What keeps a pass from panicking: the bucket secret is named, and the size of
    the volume is a quantity. *)
Definition spec_ok (ps : Pageserver) : Prop :=
  (∃ ref, pss_BucketCredentialsSecret (pgs_Spec ps) = Some ref) ∧
  (∃ q, ParseQuantity (stc_Size (pss_StorageConfig (pgs_Spec ps))) = Ok q).

#[export] Instance spec_ok_dec ps : Decision (spec_ok ps).
Proof.
  unfold spec_ok.
  destruct (pss_BucketCredentialsSecret _) as [ref|]; [|right; naive_solver].
  destruct (ParseQuantity _) as [q|f]; [left|right]; naive_solver.
Defined.

Definition bucket_key (ps : Pageserver) : NamespacedName :=
  in_namespace ps (default "" (sr_Name <$> pss_BucketCredentialsSecret (pgs_Spec ps))).

Definition configmap_step (ps : Pageserver) (secret : obj KSecret) : trace → option error → Prop :=
  configmap_child (ok := KPageserver) ps (pageserver.ConfigMap ps secret).

Definition sts_step (ps : Pageserver) (cluster : obj KCluster) (tr : trace) (err : option error) : Prop :=
  ∃ sts, pageserver.StatefulSet ps (cls_NeonImage (cl_Spec cluster)) = Returned sts ∧
    statefulset_child (ok := KPageserver) ps sts tr err.

Definition pageserver_steps (ps : Pageserver) : list (trace → option error → Prop) :=
  [ with_read (bucket_key ps) (configmap_step ps);
    service_child (ok := KPageserver) ps (pageserver.Service ps);
    service_child (ok := KPageserver) ps (pageserver.HeadlessService ps);
    with_read (in_namespace ps (pss_Cluster (pgs_Spec ps))) (sts_step ps) ].

Lemma pageserver_StatefulSet_returns ps image : spec_ok ps → ∃ sts, pageserver.StatefulSet ps image = Returned sts.
Proof.
  intros [[ref Href] [q Hq]].
  unfold pageserver.StatefulSet, MustParse, pageserver.podSpec, pageserver.bucketEnv.
  rewrite Hq, Href. simpl. eauto.
Qed.

Lemma pageserver_StatefulSet_key ps image sts :
  pageserver.StatefulSet ps image = Returned sts →
  key_of (sts_Meta sts) = in_namespace ps (pageserver.Name ps).
Proof.
  unfold pageserver.StatefulSet, MustParse. destruct (ParseQuantity _); [|done].
  cbn [mbind outcome_bind]. destruct (pageserver.podSpec _ _ _); [|done]. by intros [= <-].
Qed.

Lemma pageserver_reconcileConfigMap_step ps :
  spec_ok ps → wp (reconcileConfigMap ps) (runs (with_read (bucket_key ps) (configmap_step ps))).
Proof.
  intros [[ref Href] _]. unfold reconcileConfigMap, bucket_key. rewrite Href.
  cbn [fmap option_fmap option_map default deref]. wp_call sr. destruct sr as [s|f]; cbn [from_env].
  - wp_steps. eapply wp_mono; [|apply (ReconcileSSA_upserts (k := KConfigMap))].
    intros tr [err|w] Hrun; [|done]. by apply with_read_ok.
  - wp_steps. by apply with_read_failed.
Qed.

Lemma createPageserverResources_steps ps :
  spec_ok ps → wp (createPageserverResources ps) (runs (runs_in_order (pageserver_steps ps))).
Proof.
  intros Hok. unfold createPageserverResources, pageserver_steps.
  apply wp_runs_cons; [by apply pageserver_reconcileConfigMap_step|].
  apply wp_runs_cons; [apply ReconcileSSA_upserts|].
  apply wp_runs_cons; [apply ReconcileSSA_upserts|]. apply wp_runs_last.
  wp_call clr. destruct clr as [cluster|f]; cbn [from_env].
  - destruct (pageserver_StatefulSet_returns ps (cls_NeonImage (cl_Spec cluster)) Hok) as [sts Hsts].
    rewrite Hsts. wp_steps. eapply wp_mono; [|apply (ReconcileSSA_upserts (k := KStatefulSet))].
    intros tr [err|w] Hrun; [|done]. apply with_read_ok. by exists sts.
  - wp_steps. by apply with_read_failed.
Qed.

Lemma pageserver_configmap_step_unmarked ps secret tr e : configmap_step ps secret tr (Some e) → unmarked e.
Proof. apply configmap_child_unmarked. Qed.
Lemma pageserver_sts_step_unmarked ps cluster tr e : sts_step ps cluster tr (Some e) → unmarked e.
Proof. intros (sts&_&Hs). eauto with neon. Qed.
#[local] Hint Resolve pageserver_configmap_step_unmarked pageserver_sts_step_unmarked : neon.

Lemma pageserver_steps_unmarked ps tr e :
  runs_in_order (pageserver_steps ps) tr (Some e) → unmarked e.
Proof. apply runs_in_order_unmarked. step_unmarked. Qed.

(** The objects a pass may write, in the order it writes them. *)
Definition pageserver_children (ps : Pageserver) : list (Kind * NamespacedName) :=
  [ (KConfigMap, in_namespace ps (pageserver.Name ps));
    (KService, in_namespace ps (pageserver.Name ps));
    (KService, in_namespace ps (pageserver.HeadlessName ps));
    (KStatefulSet, in_namespace ps (pageserver.Name ps)) ].

Lemma pageserver_steps_targets ps tr err :
  runs_in_order (pageserver_steps ps) tr err → targets tr `sublist_of` pageserver_children ps.
Proof.
  apply (runs_in_order_targets _ [[_]; [_]; [_]; [_]]). step_targets.
  - intros Hread. eapply with_read_targets; [|exact Hread].
    intros secret t' e' Hchild. by apply configmap_child_targets in Hchild.
  - intros Hread. eapply with_read_targets; [|exact Hread].
    intros cluster t' e' (sts&Hsts&Hchild).
    rewrite <-(pageserver_StatefulSet_key _ _ _ Hsts). by eapply statefulset_child_targets.
Qed.

(** The contract of the status update. *)
Definition pageserver_status_step (ps : Pageserver) (reconcileErr : option error)
    (tr : trace) (f : option fault) : Prop :=
  ∃ stsr rest, tr = Ev (CGet KStatefulSet (in_namespace ps (pageserver.Name ps))) stsr :: rest ∧
    status_run (k := KPageserver) (key_of (pgs_Meta ps))
      (λ base, sts_reports reconcileErr (from_env stsr) (om_Generation (pgs_Meta base))) rest f.

(** One pass over a Pageserver whose spec is usable. *)
Lemma wp_reconcile_pageserver `{!ConditionLaws} ps :
  spec_ok ps →
  wp (r ← reconcile ps; Ret (finish r)) (λ tr out, ∃ r, out = Returned r ∧
    pass "not able to create pageserver resources"
      (λ t err, runs_in_order (pageserver_steps ps) t err ∧ targets t `sublist_of` pageserver_children ps)
      (pageserver_status_step ps) tr r).
Proof.
  intros Hok. eapply (wp_create_then_report (k := KPageserver) (createPageserverResources ps)
    (UpdateSTSBackedStatus (k := KPageserver) ps (pageserver.Name ps) "Pageserver") _
    (λ t err, runs_in_order (pageserver_steps ps) t err ∧ _) (pageserver_status_step ps)).
  - eapply wp_mono; [|by apply createPageserverResources_steps].
    intros tr [err|w] Hrun; [|done]. split; [done|by apply pageserver_steps_targets in Hrun].
  - intros ce. eapply wp_mono; [|apply (wp_UpdateSTSBackedStatus (k := KPageserver))].
    intros tr out (stsr&rest&->&o&f&->&Hrun). exists o, f. split; [done|]. by exists stsr, rest.
  - intros tr e' [Hrun _]. by apply pageserver_steps_unmarked in Hrun.
Qed.

(** C5. One call of the Pageserver controller's [Reconcile], in every environment:
    a Pageserver that is gone ends the call with no error and nothing else done;
    a read error is returned.  Otherwise, when the bucket secret is named and the
    volume size is a quantity, the call does not panic: the ConfigMap (once the
    bucket secret has been read), the Service, the headless Service and (once the
    parent Cluster has been read) the StatefulSet are each created only if absent
    and applied only if drifting, in this order and up to the first failure;
    nothing else is written; then the outcome and the StatefulSet's readiness are
    reported in one status update, and nil is returned only if all of it succeeded. *)
Theorem Reconcile_pageserver_pass `{!ConditionLaws} (req : Request) :
  wp (Reconcile req) (reconciles (k := KPageserver) req (Returned (no_requeue, None))
    (λ ps tr out, spec_ok ps → ∃ r, out = Returned r ∧
       pass "not able to create pageserver resources"
         (λ t err, runs_in_order (pageserver_steps ps) t err ∧
            targets t `sublist_of` pageserver_children ps)
         (pageserver_status_step ps) tr r)).
Proof.
  apply (wp_reconcile_checked (k := KPageserver) req (λ ps, r ← reconcile ps; Ret (finish r))).
  intros ps. destruct (decide (spec_ok ps)) as [Hok|Hok];
    [|eapply wp_mono; [|apply wp_true]; by intros tr out _ Hok'].
  eapply wp_mono; [|by apply wp_reconcile_pageserver]. intros tr out Hp _. exact Hp.
Qed.
End properties.

(** ** Examples *)

Section examples.
Import RefInstances.
Definition req : Request := Samples.request "ps-1".

(** The sample pageserver is reconciled without an error. *)
Lemma Reconcile_pageserver_pass_witness :
  let '(tr, out) := run Samples.start (Reconcile req) in
  out = Returned (no_requeue, None) ∧ length (writes tr) = 5%nat ∧ spec_ok Samples.pageserver ∧
  reconciles (k := KPageserver) req (Returned (no_requeue, None))
    (λ ps tr out, spec_ok ps → ∃ r, out = Returned r ∧
       pass "not able to create pageserver resources"
         (λ t err, runs_in_order (pageserver_steps ps) t err ∧
            targets t `sublist_of` pageserver_children ps)
         (pageserver_status_step ps) tr r) tr out.
Proof.
  split; [vm_compute; reflexivity|]. split; [vm_compute; reflexivity|].
  split; [by split; eexists|].
  exact (run_wp Samples.start (Reconcile req) _ (Reconcile_pageserver_pass req)).
Defined.
End examples.

End PageserverReconciler.
