(* ===== verification/ProjectController.v ===== *)
(** * The project controller: internal/controller/project_controller.go

    Gives a Project its tenant identifier, attaches the tenant through the storage
    controller, and reports both. *)

From S2P Require Import Prelude GoLib KubeTypes Api Interfaces Reference Prog Server Ids Status.
From S2P Require Import Reconcile StorageController Controller.

Module ProjectReconciler.

Record projectStatusInputs := {
  TenantIDErr : option error;
  AttachErr : option error;
}.

Definition with_TenantID (p : Project) (tenantID : string) : Project :=
  {| pr_Type := pr_Type p; pr_Meta := pr_Meta p;
     pr_Spec := {| prs_ClusterName := prs_ClusterName (pr_Spec p);
                   prs_TenantID := tenantID;
                   prs_PGVersion := prs_PGVersion (pr_Spec p) |};
     pr_Status := pr_Status p |}.

(** The tests look at the innermost error: [ECONNREFUSED], [ECONNRESET], [io.EOF],
    a [net.Error] that is a timeout, a [net.DNSError]. *)
Definition isConnectionError (err : option error) : bool :=
  match err with
  | None => false
  | Some err =>
      if observes fault_conn_refused err || observes fault_conn_reset err then true
      else if observes fault_conn_refused err || observes fault_conn_reset err || observes fault_eof err
      then true
      else if observes fault_net_timeout err then true
      else observes fault_dns err
  end.

Definition second : Z := 1.

Section project.
Context `{ConditionOps} `{HttpOps} `{SemanticEqual Status}.
Context (StorageControllerBaseURL : string).   (** the field of the reconciler *)

(** The closure passed to [PatchStatus]. *)
Definition project_status (input : projectStatusInputs) (p : obj KProject) : prog (obj KProject) :=
  let p := SetObservedGeneration p (om_Generation (meta p)) in
  let conds := StatusConditions p in
  let tenantID := prs_TenantID (pr_Spec p) in
  conds ← match TenantIDErr input with
          | Some e => SetCondition p conds ConditionTenantIDAssigned ConditionFalse ReasonTenantIDPending (Error e)
          | None =>
              if decide (tenantID ≠ "")
              then SetCondition p conds ConditionTenantIDAssigned ConditionTrue ReasonAsExpected
                     "Tenant ID is assigned"
              else SetCondition p conds ConditionTenantIDAssigned ConditionFalse ReasonTenantIDPending
                     "Tenant ID has not been generated yet"
          end;
  conds ← match TenantIDErr input, AttachErr input with
          | Some _, _ => SetCondition p conds ConditionAttached ConditionFalse ReasonTenantIDPending
                           "Tenant ID assignment failed"
          | None, Some e =>
              let reason := if isConnectionError (Some e) then ReasonStorageControllerUnreachable
                            else ReasonAttachFailed in
              SetCondition p conds ConditionAttached ConditionFalse reason (Error e)
          | None, None =>
              if decide (tenantID = "")
              then SetCondition p conds ConditionAttached ConditionFalse ReasonTenantIDPending
                     "Tenant ID has not been assigned"
              else SetCondition p conds ConditionAttached ConditionTrue ReasonAsExpected
                     "Tenant attached on storage controller"
          end;
  if decide (TenantIDErr input = None ∧ AttachErr input = None ∧ tenantID ≠ "") then
    conds ← SetCondition p conds ConditionAvailable ConditionTrue ReasonAsExpected "Project is Available";
    conds ← SetCondition p conds ConditionProgressing ConditionFalse ReasonAsExpected
      "Project is at desired state";
    Ret (set_Conditions p conds)
  else
    conds ← SetCondition p conds ConditionAvailable ConditionFalse ReasonReconciling
      "Project is not yet Available";
    conds ← SetCondition p conds ConditionProgressing ConditionTrue ReasonReconciling
      "Working toward desired state";
    Ret (set_Conditions p conds).

Definition updateStatus (project : Project) (input : projectStatusInputs) :
    prog (obj KProject * option error) :=
  PatchStatus (k := KProject) project (project_status input).

Definition getProject (req : Request) : prog (result (option Project)) :=
  getr ← Get KProject req;
  Ret match getr with
      | Ok p => Ok (Some p)
      | Err err => if IsNotFound err then Ok None else Err (Wrapf "cannot get the resource" err)
      end.

(** What the merge patch sends, computed from the object just read. *)
Definition tenant_patch (current : Project) (tenantID : string) : Project :=
  let updated := with_TenantID current tenantID in
  set_meta (k := KProject) updated (with_ManagedFields (pr_Meta updated) []).

(** Returns the caller's project as it leaves it. *)
Definition updateTenantID (project : Project) (tenantID : string) : prog (Project * option error) :=
  let_ok current := Get KProject (key_of (pr_Meta project)) or err return Ret (project, Some err);
  let_ok _ := MergePatch KProject current (tenant_patch current tenantID) "neon-operator"
    or err return Ret (project, Some err);
  Ret (with_TenantID project tenantID, None).

Definition base_url (project : Project) : string :=
  if decide (StorageControllerBaseURL = "") then storagecontroller.URL (prs_ClusterName (pr_Spec project))
  else StorageControllerBaseURL.

Definition attach_request (project : Project) : HttpRequest :=
  {| rq_Method := "PUT";
     rq_URL := base_url project +:+ "/v1/tenant/" +:+ prs_TenantID (pr_Spec project) +:+ "/location_config";
     rq_Headers := [("Content-Type", "application/json")];
     rq_Body := dq "{`mode`: `AttachedSingle`, `generation`: 1, `tenant_conf`: {}}";
     rq_TimeoutSeconds := 30 * second |}.

Definition ensureTenantOnPageserver (project : Project) : prog (option error) :=
  let req := attach_request project in
  match NewRequest_error (rq_Method req) (rq_URL req) with
  | Some err => Ret (Some (Wrapf "failed to create request" (Foreign err)))
  | None =>
      let_ok resp := Http req or err return Ret (Some err);
      if (rs_StatusCode resp <? 200) || (300 <=? rs_StatusCode resp)
      then Ret (Some (Errorf ("pageserver returned status: " +:+ rs_Status resp)))
      else Ret None
  end.

Definition reconcile (project : Project) : prog (Result * option error) :=
  if decide (prs_TenantID (pr_Spec project) = "") then
    tenantID ← GenerateNeonID;
    upd ← updateTenantID project tenantID;
    let '(project, err) := upd in
    match err with
    | Some err =>
        let wrapped := Wrapf "failed to update tenant ID" err in
        _ ← updateStatus project {| TenantIDErr := Some wrapped; AttachErr := None |};
        Ret (no_requeue, Some wrapped)
    | None => Ret ({| RequeueAfter := second |}, Some ErrRequeueAfterChange)
    end
  else
    attachErr ← ensureTenantOnPageserver project;
    st ← updateStatus project {| TenantIDErr := None; AttachErr := attachErr |};
    match st.2 with
    | Some statusErr => Ret (no_requeue, Some statusErr)
    | None =>
        match attachErr with
        | Some _ => Ret ({| RequeueAfter := 10 * second |}, None)
        | None => Ret (no_requeue, None)
        end
    end.

Definition Reconcile (req : Request) : prog (Result * option error) :=
  let_ok ptr := getProject req or err return Ret (no_requeue, Some err);
  match ptr with
  | None => Ret (no_requeue, None)
  | Some project => r ← reconcile project; Ret (finish r)
  end.
End project.

(** ** Properties *)

(** The reason of a failed attachment tells a network failure from an answer. *)
Definition attach_reason (input : projectStatusInputs) (tenantID : string) : string :=
  match TenantIDErr input, AttachErr input with
  | Some _, _ => ReasonTenantIDPending
  | None, Some e =>
      if isConnectionError (Some e) then ReasonStorageControllerUnreachable else ReasonAttachFailed
  | None, None => if decide (tenantID = "") then ReasonTenantIDPending else ReasonAsExpected
  end.

Definition condition (b : bool) : ConditionStatus := if b then ConditionTrue else ConditionFalse.

(** A project is available when it has an identifier and its tenant is attached. *)
Definition project_available (input : projectStatusInputs) (tenantID : string) : bool :=
  bool_decide (TenantIDErr input = None ∧ AttachErr input = None ∧ tenantID ≠ "").

Definition project_reports (input : projectStatusInputs) (p : Project) (cs : list Condition) : Prop :=
  let gen := om_Generation (pr_Meta p) in
  let tenantID := prs_TenantID (pr_Spec p) in
  let available := project_available input tenantID in
  (∃ r m, reported ConditionTenantIDAssigned cs =
     Some (Report (condition (bool_decide (TenantIDErr input = None ∧ tenantID ≠ ""))) r m gen)) ∧
  (∃ m, reported ConditionAttached cs =
     Some (Report (condition available) (attach_reason input tenantID) m gen) ∧
     (∀ e, TenantIDErr input = None → AttachErr input = Some e → m = Error e)) ∧
  (∃ r m, reported ConditionAvailable cs = Some (Report (condition available) r m gen)) ∧
  (∃ r m, reported ConditionProgressing cs = Some (Report (condition (negb available)) r m gen)).

Section properties.
Context `{ConditionLaws} `{HttpOps} `{SemanticEqual Status}.
Context (StorageControllerBaseURL : string).

Lemma wp_project_status input (p : obj KProject) :
  wp (project_status input p) (refreshes (project_reports input p) p).
Proof.
  unfold project_status, SetCondition, project_reports, project_available, attach_reason, refreshes.
  rewrite meta_SetObservedGeneration.
  change (pr_Spec (SetObservedGeneration p _)) with (pr_Spec p).
  set (tid := prs_TenantID (pr_Spec p)). set (gen := om_Generation (meta p)).
  destruct input as [[te|] [ae|]], (decide (tid = "")) as [Htid|Htid];
    cbn [TenantIDErr AttachErr];
    rewrite ?(decide_True (P := tid ≠ "")), ?(decide_False (P := tid ≠ "")) by (done || by intros []);
    wp_call t1; wp_call t2; wp_one;
    first [rewrite decide_True by done | rewrite decide_False by naive_solver];
    rewrite ?bool_decide_eq_true_2 by done; rewrite ?bool_decide_eq_false_2 by naive_solver;
    wp_call t3; wp_call t4; refreshes_done;
    (split_and!; repeat eexists; solve_reported; naive_solver).
Qed.
(** The contract of the attachment: one PUT at most, and only a 2xx answer counts. *)
Inductive attach_run (project : Project) : trace → option error → Prop :=
  | attach_refused f :
      NewRequest_error "PUT" (rq_URL (attach_request StorageControllerBaseURL project)) = Some f →
      attach_run project [] (Some (Wrapf "failed to create request" (Foreign f)))
  | attach_unreachable f :
      attach_run project [Ev (CHttp (attach_request StorageControllerBaseURL project)) (Err f)]
        (Some (Foreign f))
  | attach_accepted resp :
      200 ≤ rs_StatusCode resp < 300 →
      attach_run project [Ev (CHttp (attach_request StorageControllerBaseURL project)) (Ok resp)] None
  | attach_rejected resp :
      ¬ (200 ≤ rs_StatusCode resp < 300) →
      attach_run project [Ev (CHttp (attach_request StorageControllerBaseURL project)) (Ok resp)]
        (Some (Errorf ("pageserver returned status: " +:+ rs_Status resp))).

Lemma wp_ensureTenantOnPageserver project :
  wp (ensureTenantOnPageserver StorageControllerBaseURL project) (runs (attach_run project)).
Proof.
  unfold ensureTenantOnPageserver. cbn [rq_Method].
  destruct (NewRequest_error _ _) as [f|] eqn:Hreq; [by apply wp_ret, attach_refused|].
  wp_call r. destruct r as [resp|f]; cbn [from_env].
  - destruct (Z.ltb_spec (rs_StatusCode resp) 200), (Z.leb_spec 300 (rs_StatusCode resp));
      cbn [orb]; wp_steps; first [apply attach_rejected; lia | apply attach_accepted; lia].
  - wp_steps. apply attach_unreachable.
Qed.

(** A tenant identifier drawn in this pass. *)
Definition fresh_id (s : string) : string := hex_EncodeToString (fill_buffer 16 s).

(** The contract of the assignment: the patch is computed from the object as it is
    now, and its success or failure is the result. *)
Inductive assign_run (project : Project) (id : string) : trace → option fault → Prop :=
  | assign_unread f :
      assign_run project id [Ev (CGet KProject (key_of (pr_Meta project))) (Err f)] (Some f)
  | assign_patched cur w :
      assign_run project id
        [Ev (CGet KProject (key_of (pr_Meta project))) (Ok cur);
         Ev (CMergePatch KProject cur (tenant_patch cur id) FieldManager) (Ok w)] None
  | assign_unpatched cur f :
      assign_run project id
        [Ev (CGet KProject (key_of (pr_Meta project))) (Ok cur);
         Ev (CMergePatch KProject cur (tenant_patch cur id) FieldManager) (Err f)] (Some f).

Lemma wp_updateTenantID project id :
  wp (updateTenantID project id) (λ tr out, ∃ f,
    out = Returned (match f with None => with_TenantID project id | Some _ => project end, Foreign <$> f) ∧
    assign_run project id tr f).
Proof.
  unfold updateTenantID. wp_call getr. destruct getr as [cur|f]; cbn [from_env].
  - wp_call r. destruct r as [w|f]; wp_steps.
    + exists None. split; [done|apply assign_patched].
    + exists (Some f). split; [done|apply assign_unpatched].
  - wp_steps. exists (Some f). split; [done|apply assign_unread].
Qed.

Definition tenant_error (f : fault) : error := Wrapf "failed to update tenant ID" (Foreign f).

(** The contract of one pass over a project that exists. *)
Inductive project_pass (project : Project) : trace → Result * option error → Prop :=
  | pass_assigned s tr :
      prs_TenantID (pr_Spec project) = "" → neon_id (fresh_id s) →
      assign_run project (fresh_id s) tr None →
      project_pass project (Ev (CRand 16) s :: tr) ({| RequeueAfter := 1 |}, None)
  | pass_unassigned s tr trs f sf :
      prs_TenantID (pr_Spec project) = "" → assign_run project (fresh_id s) tr (Some f) →
      status_run (k := KProject) (key_of (pr_Meta project))
        (project_reports {| TenantIDErr := Some (tenant_error f); AttachErr := None |}) trs sf →
      project_pass project (Ev (CRand 16) s :: tr ++ trs) (no_requeue, Some (tenant_error f))
  | pass_attached tra trs err :
      prs_TenantID (pr_Spec project) ≠ "" → attach_run project tra err →
      status_run (k := KProject) (key_of (pr_Meta project))
        (project_reports {| TenantIDErr := None; AttachErr := err |}) trs None →
      project_pass project (tra ++ trs)
        ({| RequeueAfter := match err with Some _ => 10 | None => 0 end |}, None)
  | pass_unreported tra trs err f :
      prs_TenantID (pr_Spec project) ≠ "" → attach_run project tra err →
      status_run (k := KProject) (key_of (pr_Meta project))
        (project_reports {| TenantIDErr := None; AttachErr := err |}) trs (Some f) →
      project_pass project (tra ++ trs) (no_requeue, Some (Foreign f)).

Lemma wp_project_updateStatus project input :
  wp (updateStatus project input)
    (status_runs (k := KProject) (key_of (pr_Meta project)) (project_reports input)).
Proof. apply (wp_PatchStatus_refreshes (k := KProject)). intros cur. apply wp_project_status. Qed.

Lemma wp_project_reconcile_assign project :
  prs_TenantID (pr_Spec project) = "" →
  wp (r ← reconcile StorageControllerBaseURL project; Ret (finish r))
    (λ tr out, ∃ r, out = Returned r ∧ project_pass project tr r).
Proof.
  intros Hid. unfold reconcile. rewrite decide_True by done.
  apply wp_bind_assoc, wp_bind, wp_GenerateNeonID. intros s Hs. cbn [wp_seq app]. fold (fresh_id s).
  wp_use (wp_updateTenantID project (fresh_id s)); [|by intros ?? (?&?&_)].
  intros tr upd (f&[= ->]&Hrun). destruct f as [f|]; cbn [fmap option_fmap option_map].
  - wp_use (wp_project_updateStatus project {| TenantIDErr := Some (tenant_error f); AttachErr := None |});
      [|by intros ?? (?&?&?&_)].
    intros trs st (o&sf&_&Hst). wp_steps. rewrite app_nil_r.
    eexists; split; [done|]. by eapply (pass_unassigned project s tr trs f sf).
  - wp_steps. rewrite app_nil_r. eexists; split; [done|]. by apply (pass_assigned project s tr).
Qed.

Lemma wp_reconcile_attach project :
  prs_TenantID (pr_Spec project) ≠ "" →
  wp (r ← reconcile StorageControllerBaseURL project; Ret (finish r))
    (λ tr out, ∃ r, out = Returned r ∧ project_pass project tr r).
Proof.
  intros Hid. unfold reconcile. rewrite decide_False by done.
  wp_use (wp_ensureTenantOnPageserver project); [|done]. intros tra err Hrun.
  wp_use (wp_project_updateStatus project {| TenantIDErr := None; AttachErr := err |});
    [|by intros ?? (?&?&?&_)].
  intros trs st (o&sf&[= ->]&Hst). cbn [snd]. destruct sf as [f|]; cbn [fmap option_fmap option_map].
  - wp_steps. rewrite app_nil_r. eexists; split; [done|]. by eapply pass_unreported.
  - destruct err as [e|]; wp_steps; rewrite app_nil_r; (eexists; split; [done|]).
    + by apply (pass_attached project tra trs (Some e)).
    + by apply (pass_attached project tra trs None).
Qed.

(** One pass over a Project, with or without an identifier. *)
Lemma wp_reconcile_project project :
  wp (r ← reconcile StorageControllerBaseURL project; Ret (finish r))
    (λ tr out, ∃ r, out = Returned r ∧ project_pass project tr r).
Proof.
  destruct (decide (prs_TenantID (pr_Spec project) = "")).
  - by apply wp_project_reconcile_assign.
  - by apply wp_reconcile_attach.
Qed.

(** C4. One call of the Project controller's [Reconcile], in every environment.  A
    Project that is gone ends the call; a read error is returned.  A Project without
    a tenant identifier gets a fresh 32-digit one through one merge patch of the
    object as it is now, nothing is sent to the storage controller, and the call asks
    to be repeated after a second (the requeue sentinel is consumed); if the patch
    fails the failure is reported and returned.  A Project with an identifier sends
    at most one PUT, never patches the spec, reports the attachment (attached only on
    a 2xx answer) and asks to be repeated after ten seconds if it failed. *)
Theorem Reconcile_project_pass (req : Request) :
  wp (Reconcile StorageControllerBaseURL req) (reconciles (k := KProject) req (Returned (no_requeue, None))
    (λ project tr out, ∃ r, out = Returned r ∧ project_pass project tr r)).
Proof.
  apply (wp_reconcile_checked (k := KProject) req
    (λ project, r ← reconcile StorageControllerBaseURL project; Ret (finish r))).
  apply wp_reconcile_project.
Qed.
End properties.

(** ** Examples *)

Section examples.
Import RefInstances.
Definition req : Request := Samples.request "shop".

(** The sample project has an identifier and is attached. *)
Lemma Reconcile_project_pass_witness :
  let '(tr, out) := run Samples.start (Reconcile "" req) in
  out = Returned (no_requeue, None) ∧ length (requests tr) = 1%nat ∧
  reconciles (k := KProject) req (Returned (no_requeue, None))
    (λ project tr out, ∃ r, out = Returned r ∧ project_pass "" project tr r) tr out.
Proof.
  split; [vm_compute; reflexivity|]. split; [vm_compute; reflexivity|].
  exact (run_wp Samples.start (Reconcile "" req) _ (Reconcile_project_pass "" req)).
Defined.
End examples.

End ProjectReconciler.
