(* ===== verification/BranchController.v ===== *)
(** * The branch controller: internal/controller/branch_{controller,create}.go

    Gives a Branch its timeline identifier, creates the timeline through the
    storage controller, maintains the compute node's ConfigMap, Deployment and two
    Services, and reports all of it.  The four create-or-apply functions are
    written out in the source instead of calling [ReconcileSSA]; they are proved to
    satisfy the same contract. *)

From S2P Require Import Prelude GoLib GoJson KubeTypes Api Interfaces Reference Prog Calls Server Ids.
From S2P Require Import Jwt Status Reconcile StorageController ComputeRes Controller.

Module BranchReconciler.

Definition second : Z := 1.

Section branch.
Context `{ConditionOps} `{OwnerOps} `{CryptoOps} `{QuantityOps} `{SemanticEqual Status}
  `{SemanticDerivative DeploymentSpec} `{SemanticDerivative ServiceSpec} `{SemanticDerivative smap}.
Context (StorageControllerBaseURL : string).   (** the field of the reconciler *)

Definition in_namespace (branch : Branch) (name : string) : NamespacedName :=
  {| nn_Namespace := om_Namespace (br_Meta branch); nn_Name := name |}.

(** ** branch_create.go *)

Definition getCluster (clusterName namespace : string) : prog (result Cluster) :=
  getr ← Get KCluster {| nn_Namespace := namespace; nn_Name := clusterName |};
  Ret match getr with
      | Ok c => Ok c
      | Err err => Err (Wrapf ("failed to get cluster " +:+ clusterName) err)
      end.

(** The common tail of the four functions: read, set the owner, create or apply.
    [what] is the name the error messages use. *)
Definition ensure {k : Kind} (branch : Branch) (what : string) (intended : obj k)
    (drift : obj k → bool) : prog (option error) :=
  getr ← Get k (in_namespace branch (om_Name (meta intended)));
  let tail (cur : option (obj k)) :=
    match SetControllerReference KBranch (br_Meta branch) (meta intended) with
    | Err err => Ret (Some (Wrapf ("failed to set controller reference for " +:+ what) (Foreign err)))
    | Ok refs =>
        let intended := owned intended refs in
        match cur with
        | None =>
            let_ok _ := Create k intended (Some FieldManager)
              or err return Ret (Some (Wrapf ("failed to create " +:+ what) err));
            Ret None
        | Some current =>
            if drift current then
              let_ok _ := Apply k intended true FieldManager
                or err return Ret (Some (Wrapf ("failed to update " +:+ what) err));
              Ret None
            else Ret None
        end
    end in
  match getr with
  | Err getErr =>
      if IsNotFound getErr then tail None
      else Ret (Some (Wrapf ("failed to get " +:+ what) getErr))
  | Ok current => tail (Some current)
  end.

Definition jwt_secret_key (cluster : Cluster) : NamespacedName :=
  {| nn_Namespace := om_Namespace (cl_Meta cluster);
     nn_Name := "cluster-" +:+ om_Name (cl_Meta cluster) +:+ "-jwt" |}.

Definition reconcileConfigMap (branch : Branch) (project : Project) : prog (option error) :=
  let_ok cluster := getCluster (prs_ClusterName (pr_Spec project)) "neon" or err return Ret (Some err);
  let_ok jwkSecret := Get KSecret (jwt_secret_key cluster) or err return Ret (Some err);
  match compute.ConfigMap branch project jwkSecret with
  | Err err => Ret (Some err)
  | Ok intended => ensure (k := KConfigMap) branch "branch ConfigMap" intended (configmap_drift intended)
  end.

Definition reconcileDeployment (branch : Branch) (project : Project) : prog (option error) :=
  intended ← lift_outcome (compute.Deployment branch project);
  ensure (k := KDeployment) branch "branch Deployment" intended (deployment_drift intended).

Definition reconcileAdminService (branch : Branch) (project : Project) : prog (option error) :=
  let intended := compute.AdminService branch project in
  ensure (k := KService) branch "branch admin Service" intended (service_drift intended).

Definition reconcilePostgresService (branch : Branch) (project : Project) : prog (option error) :=
  let intended := compute.PostgresService branch project in
  ensure (k := KService) branch "branch postgres Service" intended (service_drift intended).

Definition createBranchResources (branch : Branch) (project : Project) : prog (option error) :=
  if_err err := reconcileConfigMap branch project return Ret (Some err);
  if_err err := reconcileDeployment branch project return Ret (Some err);
  if_err err := reconcileAdminService branch project return Ret (Some err);
  reconcilePostgresService branch project.

(** ** branch_controller.go *)

Definition getBranch (req : Request) : prog (result (option Branch)) :=
  getr ← Get KBranch req;
  Ret match getr with
      | Ok b => Ok (Some b)
      | Err err => if IsNotFound err then Ok None else Err (Wrapf "cannot get the resource" err)
      end.

Definition getProject (projectID namespace : string) : prog (result Project) :=
  getr ← Get KProject {| nn_Namespace := namespace; nn_Name := projectID |};
  Ret match getr with
      | Ok p => Ok p
      | Err err => Err (Wrapf ("failed to get project " +:+ projectID) err)
      end.

Definition with_TimelineID (b : Branch) (timelineID : string) : Branch :=
  {| br_Type := br_Type b; br_Meta := br_Meta b;
     br_Spec := {| brs_TimelineID := timelineID;
                   brs_PGVersion := brs_PGVersion (br_Spec b);
                   brs_ProjectID := brs_ProjectID (br_Spec b) |};
     br_Status := br_Status b |}.

Definition timeline_patch (current : Branch) (timelineID : string) : Branch :=
  let updated := with_TimelineID current timelineID in
  set_meta (k := KBranch) updated (with_ManagedFields (br_Meta updated) []).

(** Returns the caller's branch as it leaves it. *)
Definition updateTimelineID (branch : Branch) : prog (Branch * option error) :=
  let_ok current := Get KBranch (key_of (br_Meta branch)) or err return Ret (branch, Some err);
  timelineID ← GenerateNeonID;
  let_ok _ := MergePatch KBranch current (timeline_patch current timelineID) "neon-operator"
    or err return Ret (branch, Some err);
  Ret (with_TimelineID branch timelineID, None).

Definition base_url (project : Project) : string :=
  if decide (StorageControllerBaseURL = "") then storagecontroller.URL (prs_ClusterName (pr_Spec project))
  else StorageControllerBaseURL.

(** The body is a map marshalled with its keys sorted. *)
Definition timeline_request (branch : Branch) (project : Project) : HttpRequest :=
  {| rq_Method := "POST";
     rq_URL := base_url project +:+ "/v1/tenant/" +:+ prs_TenantID (pr_Spec project) +:+ "/timeline";
     rq_Headers := [("Content-Type", "application/json")];
     rq_Body := json_print
       (JObj [("new_timeline_id", JStr (brs_TimelineID (br_Spec branch)));
              ("pg_version", JNum (fmt_d (brs_PGVersion (br_Spec branch))))]);
     rq_TimeoutSeconds := 10 * second |}.

Definition ensureTimeline (branch : Branch) (project : Project) : prog (option error) :=
  let_ok resp := Http (timeline_request branch project)
    or err return Ret (Some (Wrapf "failed to connect to storage controller" err));
  if decide (rs_StatusCode resp ≠ 200 ∧ rs_StatusCode resp ≠ 201 ∧ rs_StatusCode resp ≠ 409)
  then Ret (Some (Errorf ("failed to create timeline on storage controller, status: " +:+
                          fmt_d (rs_StatusCode resp))))
  else Ret None.

(** The [switch] that decides [ComputeReady]. *)
Definition compute_state (createErr : option error) (depr : result Deployment) :
    ConditionStatus * string * string :=
  match createErr, depr with
  | Some e, _ => (ConditionFalse, ReasonResourceCreateFailed, Error e)
  | None, Err e =>
      if IsNotFound e
      then (ConditionFalse, ReasonChildResourceMissing, "Compute Deployment has not been observed yet")
      else (ConditionUnknown, ReasonChildResourceMissing, Error e)
  | None, Ok dep =>
      if IsDeploymentAvailable (Some dep)
      then (ConditionTrue, ReasonAsExpected, "Compute Deployment is Available")
      else (ConditionFalse, ReasonChildDeploymentNotAvailable, "Compute Deployment is not Available yet")
  end.

(** The closure passed to [PatchStatus]. *)
Definition branch_status (timelineErr createErr : option error) (depr : result Deployment)
    (b : obj KBranch) : prog (obj KBranch) :=
  let b := SetObservedGeneration b (om_Generation (meta b)) in
  let conds := StatusConditions b in
  conds ← (if decide (brs_TimelineID (br_Spec b) ≠ "")
           then SetCondition b conds ConditionTimelineIDAssigned ConditionTrue ReasonAsExpected
                  "Timeline ID is assigned"
           else SetCondition b conds ConditionTimelineIDAssigned ConditionFalse ReasonTimelineIDPending
                  "Timeline ID has not been generated yet");
  conds ← match timelineErr with
          | Some e => SetCondition b conds ConditionTimelineCreated ConditionFalse
                        ReasonTimelineCreationFailed (Error e)
          | None => SetCondition b conds ConditionTimelineCreated ConditionTrue ReasonAsExpected
                      "Timeline created on storage controller"
          end;
  let '(computeReady, computeReason, computeMessage) := compute_state createErr depr in
  conds ← SetCondition b conds ConditionComputeReady computeReady computeReason computeMessage;
  if decide (timelineErr = None ∧ computeReady = ConditionTrue) then
    conds ← SetCondition b conds ConditionAvailable ConditionTrue ReasonAsExpected "Branch is Available";
    conds ← SetCondition b conds ConditionProgressing ConditionFalse ReasonAsExpected
      "Branch is at desired state";
    Ret (set_Conditions b conds)
  else
    conds ← SetCondition b conds ConditionAvailable ConditionFalse computeReason computeMessage;
    conds ← SetCondition b conds ConditionProgressing ConditionTrue ReasonReconciling
      "Working toward desired state";
    Ret (set_Conditions b conds).

Definition updateStatus (branch : Branch) (timelineErr createErr : option error) :
    prog (obj KBranch * option error) :=
  let deploymentName := om_Name (br_Meta branch) +:+ "-compute-node" in
  depr ← Get KDeployment (in_namespace branch deploymentName);
  PatchStatus (k := KBranch) branch (branch_status timelineErr createErr depr).

Definition reconcile (branch : Branch) : prog (Result * option error) :=
  if decide (brs_TimelineID (br_Spec branch) = "") then
    upd ← updateTimelineID branch;
    match upd.2 with
    | Some err => Ret (no_requeue, Some (Wrapf "failed to update timelineID" err))
    | None => Ret ({| RequeueAfter := second |}, None)
    end
  else
    let_ok project := getProject (brs_ProjectID (br_Spec branch)) (om_Namespace (br_Meta branch))
      or err return Ret (no_requeue, Some err);
    timelineErr ← ensureTimeline branch project;
    createErr ← match timelineErr with
                | None => createBranchResources branch project
                | Some _ => Ret None
                end;
    st ← updateStatus branch timelineErr createErr;
    match st.2 with
    | Some statusErr => Ret (no_requeue, Some statusErr)
    | None =>
        match timelineErr with
        | Some _ => Ret ({| RequeueAfter := 10 * second |}, None)
        | None =>
            match createErr with
            | Some e => Ret (no_requeue, Some (Wrapf "not able to create branch resources" e))
            | None => Ret (no_requeue, None)
            end
        end
    end.

Definition Reconcile (req : Request) : prog (Result * option error) :=
  let_ok ptr := getBranch req or err return Ret (no_requeue, Some err);
  match ptr with
  | None => Ret (no_requeue, None)
  | Some branch => r ← reconcile branch; Ret (finish r)
  end.
End branch.

(** ** Properties *)

Section properties.
Context `{ConditionOps} `{OwnerOps} `{CryptoOps} `{QuantityOps} `{SemanticEqual Status}
  `{SemanticDerivative DeploymentSpec} `{SemanticDerivative ServiceSpec} `{SemanticDerivative smap}.
Context (StorageControllerBaseURL : string).

Lemma calls_ensure (P : call → Prop) {k} (branch : Branch) what (intended : obj k) drift :
  P (CGet k (in_namespace branch (om_Name (meta intended)))) →
  (∀ refs, SetControllerReference KBranch (br_Meta branch) (meta intended) = Ok refs →
     P (CCreate k (owned intended refs) (Some FieldManager)) ∧
     P (CApply k (owned intended refs) true FieldManager)) →
  calls_only P (ensure branch what intended drift).
Proof. intros Hget Hwrite. unfold ensure. walk; try done; by eapply Hwrite. Qed.

(** The hand-written tail satisfies the contract of [ReconcileSSA], for an intended
    object in the namespace of the branch. *)
Lemma ensure_upserts {k} (branch : Branch) what (intended : obj k) drift :
  key_of (meta intended) = in_namespace branch (om_Name (meta intended)) →
  wp (ensure branch what intended drift) (runs (upserts (ok := KBranch) branch intended drift)).
Proof.
  intros Hkey. unfold ensure. rewrite <-Hkey. wp_call getr. cbv zeta.
  destruct getr as [cur|f]; cbn [from_env].
  - destruct (SetControllerReference _ _ _) as [refs|err] eqn:Hrefs;
      [|wp_steps; by eapply upserts_refused].
    destruct (drift cur) eqn:Hd; [|wp_steps; by apply upserts_in_sync].
    wp_call r. destruct r; wp_steps; eapply upserts_applied; eauto.
  - change (IsNotFound (Foreign f)) with (fault_not_found f).
    destruct (fault_not_found f) eqn:Hf; [|wp_steps; by apply upserts_unread].
    destruct (SetControllerReference _ _ _) as [refs|err] eqn:Hrefs;
      [|wp_steps; by eapply upserts_refused].
    wp_call r. destruct r; wp_steps; eapply upserts_created; eauto.
Qed.

(** C16. The hand-written tail and [ReconcileSSA] are the same function up to the words of
    their errors: for an object in the branch's namespace whose owner reference is
    accepted, on every server and from every state, they make the same calls with the
    same answers, leave the same state, and return nil together or an error with the
    same cause. *)
Theorem ensure_equiv_ReconcileSSA {S} (h : server S) (s : S) {k} (branch : Branch) what
    (intended : obj k) drift refs :
  key_of (meta intended) = in_namespace branch (om_Name (meta intended)) →
  SetControllerReference KBranch (br_Meta branch) (meta intended) = Ok refs →
  let '(s1, tr1, out1) := exec h s (ensure branch what intended drift) in
  let '(s2, tr2, out2) := exec h s (ReconcileSSA (ok := KBranch) branch intended drift) in
  s1 = s2 ∧ tr1 = tr2 ∧ ∃ e1 e2, out1 = Returned e1 ∧ out2 = Returned e2 ∧ root <$> e1 = root <$> e2.
Proof.
  intros Hkey Hrefs. unfold ensure, ReconcileSSA. rewrite <-Hkey.
  cbn [meta]. rewrite Hrefs. cbv zeta.
  replace {| nn_Namespace := om_Namespace (meta (owned intended refs)); nn_Name := om_Name (meta intended) |}
    with (key_of (meta intended)) by (unfold owned, key_of; by rewrite meta_set_meta).
  rewrite !exec_bind. cbn [exec perform].
  destruct (handle h s (CGet k (key_of (meta intended)))) as [s0 [cur|f]]; cbn [receive from_env].
  - destruct (drift cur); cbn [negb exec]; [|by eauto 8].
    rewrite !exec_bind. cbn [exec perform]. destruct (handle h s0 _) as [s1 [o|f]]; cbn; eauto 8.
  - destruct (IsNotFound (Foreign f)); cbn [negb exec]; [|by eauto 8].
    rewrite !exec_bind. cbn [exec perform]. destruct (handle h s0 _) as [s1 [o|f']]; cbn; eauto 8.
Qed.

(** ** The steps *)

Lemma key_in_namespace branch m name :
  key_of m = in_namespace branch name → key_of m = in_namespace branch (om_Name m).
Proof. unfold key_of, in_namespace. intros [= -> ->]. done. Qed.

Definition cluster_key (project : Project) : NamespacedName :=
  {| nn_Namespace := "neon"; nn_Name := prs_ClusterName (pr_Spec project) |}.

Definition configmap_step (branch : Branch) (project : Project) (secret : obj KSecret)
    (tr : trace) (err : option error) : Prop :=
  match compute.ConfigMap branch project secret with
  | Ok cm => configmap_child (ok := KBranch) branch cm tr err
  | Err e => tr = [] ∧ err = Some e
  end.

Definition branch_steps (branch : Branch) (project : Project) (dep : Deployment) :
    list (trace → option error → Prop) :=
  [ with_read (k := KCluster) (cluster_key project) (λ cluster,
      with_read (k := KSecret) (jwt_secret_key cluster) (configmap_step branch project));
    deployment_child (ok := KBranch) branch dep;
    service_child (ok := KBranch) branch (compute.AdminService branch project);
    service_child (ok := KBranch) branch (compute.PostgresService branch project) ].

Lemma branch_reconcileConfigMap_step branch project :
  wp (reconcileConfigMap branch project)
    (runs (with_read (k := KCluster) (cluster_key project) (λ cluster,
             with_read (k := KSecret) (jwt_secret_key cluster) (configmap_step branch project)))).
Proof.
  unfold reconcileConfigMap, getCluster. fold (cluster_key project).
  wp_call clr. destruct clr as [cluster|f]; cbn [from_env]; [|wp_steps; by apply with_read_failed].
  wp_call sr. destruct sr as [secret|f]; cbn [from_env];
    [|wp_steps; by apply with_read_ok, with_read_failed].
  destruct (compute.ConfigMap branch project secret) as [cm|e] eqn:Hcm.
  - eapply wp_mono; [|apply (ensure_upserts (k := KConfigMap))].
    + intros tr [err|w] Hrun; [|done]. do 2 apply with_read_ok. unfold configmap_step. by rewrite Hcm.
    + eapply key_in_namespace, compute.ConfigMap_key, Hcm.
  - wp_steps. do 2 apply with_read_ok. unfold configmap_step. by rewrite Hcm.
Qed.

Lemma createBranchResources_steps `{!QuantityLaws} branch project dep :
  compute.Deployment branch project = Returned dep →
  wp (createBranchResources branch project) (runs (runs_in_order (branch_steps branch project dep))).
Proof.
  intros Hdep. unfold createBranchResources, branch_steps.
  apply wp_runs_cons; [apply branch_reconcileConfigMap_step|].
  apply wp_runs_cons.
  { unfold reconcileDeployment. rewrite Hdep. wp_steps. apply (ensure_upserts (k := KDeployment)).
    destruct (compute.Deployment_returns branch project) as (d&Hd&Hk). 
    rewrite Hdep in Hd. injection Hd as <-. eapply key_in_namespace, Hk. }
  apply wp_runs_cons, wp_runs_last; by apply (ensure_upserts (k := KService)).
Qed.

Lemma branch_configmap_step_unmarked branch project secret tr e :
  configmap_step branch project secret tr (Some e) → unmarked e.
Proof.
  unfold configmap_step. destruct (compute.ConfigMap _ _ _) as [cm|e'] eqn:Hcm.
  - apply configmap_child_unmarked.
  - intros [_ [= ->]]. by eapply compute.ConfigMap_unmarked.
Qed.
#[local] Hint Resolve branch_configmap_step_unmarked : neon.

Lemma branch_steps_unmarked branch project dep tr e :
  runs_in_order (branch_steps branch project dep) tr (Some e) → unmarked e.
Proof.
  apply runs_in_order_unmarked. step_unmarked.
  apply with_read_unmarked. intros cluster t' e'.
  apply with_read_unmarked. intros secret t'' e''. apply branch_configmap_step_unmarked.
Qed.

(** The objects a pass may write, in the order it writes them. *)
Definition branch_children (branch : Branch) : list (Kind * NamespacedName) :=
  let name := om_Name (br_Meta branch) in
  [ (KConfigMap, in_namespace branch (name +:+ "-compute-spec"));
    (KDeployment, in_namespace branch (name +:+ "-compute-node"));
    (KService, in_namespace branch (name +:+ "-admin"));
    (KService, in_namespace branch (name +:+ "-postgres")) ].

Lemma branch_steps_targets `{!QuantityLaws} branch project dep tr err :
  compute.Deployment branch project = Returned dep →
  runs_in_order (branch_steps branch project dep) tr err → targets tr `sublist_of` branch_children branch.
Proof.
  intros Hdep. apply (runs_in_order_targets _ [[_]; [_]; [_]; [_]]). step_targets.
  - intros Hread. eapply with_read_targets; [|exact Hread].
    intros cluster t' e' Hsec. eapply with_read_targets; [|exact Hsec].
    intros secret t'' e'' Hstep. unfold configmap_step in Hstep.
    destruct (compute.ConfigMap _ _ _) as [cm|] eqn:Hcm; [|by destruct Hstep as [-> _]; apply sublist_nil_l].
    unfold in_namespace. rewrite <-(compute.ConfigMap_key _ _ _ _ Hcm).
    by apply configmap_child_targets in Hstep.
  - destruct (compute.Deployment_returns branch project) as (d&Hd&Hk). rewrite Hdep in Hd. injection Hd as <-.
    unfold in_namespace. rewrite <-Hk. apply deployment_child_targets.
Qed.

(** The four create-or-apply functions of branch_create.go, written out by hand,
    satisfy the contract of [ReconcileSSA] for their object, whatever the API server
    answers; the ConfigMap's needs two reads first, the Cluster (in the namespace
    [neon], whatever the branch's) and the Cluster's signing-key secret, and fails
    without writing when either is unreadable or the key does not parse. *)
Theorem branch_create_contract `{!QuantityLaws} branch project :
  wp (reconcileConfigMap branch project)
    (runs (with_read (k := KCluster) (cluster_key project) (λ cluster,
             with_read (k := KSecret) (jwt_secret_key cluster) (configmap_step branch project)))) ∧
  (∃ dep, compute.Deployment branch project = Returned dep ∧
     wp (reconcileDeployment branch project) (runs (deployment_child (ok := KBranch) branch dep))) ∧
  wp (reconcileAdminService branch project)
    (runs (service_child (ok := KBranch) branch (compute.AdminService branch project))) ∧
  wp (reconcilePostgresService branch project)
    (runs (service_child (ok := KBranch) branch (compute.PostgresService branch project))).
Proof.
  split_and!.
  - apply branch_reconcileConfigMap_step.
  - destruct (compute.Deployment_returns branch project) as (dep&Hdep&Hk). exists dep. split; [done|].
    unfold reconcileDeployment. rewrite Hdep. wp_steps. apply (ensure_upserts (k := KDeployment)).
    eapply key_in_namespace, Hk.
  - by apply (ensure_upserts (k := KService)).
  - by apply (ensure_upserts (k := KService)).
Qed.

(** ** What the status says *)

Definition compute_status (createErr : option error) (depr : result Deployment) : ConditionStatus :=
  (compute_state createErr depr).1.1.

(** A branch is available when its timeline exists and its compute node is available. *)
Definition branch_available (timelineErr createErr : option error) (depr : result Deployment) : bool :=
  bool_decide (timelineErr = None ∧ compute_status createErr depr = ConditionTrue).

Definition condition (b : bool) : ConditionStatus := if b then ConditionTrue else ConditionFalse.

Definition branch_reports (timelineErr createErr : option error) (depr : result Deployment)
    (b : Branch) (cs : list Condition) : Prop :=
  let gen := om_Generation (br_Meta b) in
  let available := branch_available timelineErr createErr depr in
  (∃ r m, reported ConditionTimelineIDAssigned cs =
     Some (Report (condition (bool_decide (brs_TimelineID (br_Spec b) ≠ ""))) r m gen)) ∧
  (∃ r m, reported ConditionTimelineCreated cs =
     Some (Report (condition (bool_decide (timelineErr = None))) r m gen) ∧
     (∀ e, timelineErr = Some e → r = ReasonTimelineCreationFailed ∧ m = Error e)) ∧
  (∃ r m, reported ConditionComputeReady cs = Some (Report (compute_status createErr depr) r m gen) ∧
     (∀ e, createErr = Some e → r = ReasonResourceCreateFailed ∧ m = Error e)) ∧
  (∃ r m, reported ConditionAvailable cs = Some (Report (condition available) r m gen)) ∧
  (∃ r m, reported ConditionProgressing cs = Some (Report (condition (negb available)) r m gen)).

Lemma compute_state_failed e depr :
  compute_state (Some e) depr = (ConditionFalse, ReasonResourceCreateFailed, Error e).
Proof. done. Qed.

Lemma wp_branch_status `{!ConditionLaws} timelineErr createErr depr (b : obj KBranch) :
  wp (branch_status timelineErr createErr depr b)
    (refreshes (branch_reports timelineErr createErr depr b) b).
Proof.
  unfold branch_status, SetCondition, branch_reports, branch_available, compute_status, refreshes.
  rewrite meta_SetObservedGeneration.
  change (br_Spec (SetObservedGeneration b _)) with (br_Spec b).
  set (tid := brs_TimelineID (br_Spec b)). set (gen := om_Generation (meta b)).
  assert (∀ e, createErr = Some e → compute_state createErr depr =
    (ConditionFalse, ReasonResourceCreateFailed, Error e)) as Hfail by by intros e ->.
  destruct (compute_state createErr depr) as [[ready reason] message]. cbn [fst].
  destruct timelineErr as [te|], (decide (tid = "")) as [Htid|Htid];
    rewrite ?(decide_True (P := tid ≠ "")), ?(decide_False (P := tid ≠ "")) by (done || by intros []);
    rewrite ?(bool_decide_eq_true_2 (tid ≠ "")), ?(bool_decide_eq_false_2 (tid ≠ "")) by (done || by intros []);
    wp_call t1; wp_call t2; wp_call t3; wp_one;
    case_decide as Hav; try (exfalso; naive_solver);
    wp_call t4; wp_call t5; refreshes_done;
    first [ rewrite (bool_decide_eq_true_2 (_ ∧ _)) by done
          | rewrite (bool_decide_eq_false_2 (_ ∧ _)) by done ];
    split_and!; repeat match goal with |- ∃ _, _ => eexists end; split_and?; solve_reported;
    intros e He; first [ by simplify_eq | specialize (Hfail e He); by simplify_eq ].
Qed.

(** The contract of [updateStatus]. *)
Definition branch_status_step (branch : Branch) (timelineErr createErr : option error)
    (tr : trace) (f : option fault) : Prop :=
  ∃ depr rest,
    tr = Ev (CGet KDeployment (in_namespace branch (om_Name (br_Meta branch) +:+ "-compute-node"))) depr :: rest ∧
    status_run (k := KBranch) (key_of (br_Meta branch))
      (branch_reports timelineErr createErr (from_env depr)) rest f.

Lemma wp_branch_updateStatus `{!ConditionLaws} branch timelineErr createErr :
  wp (updateStatus branch timelineErr createErr) (λ tr out, ∃ o f,
    out = Returned (o, Foreign <$> f) ∧ branch_status_step branch timelineErr createErr tr f).
Proof.
  unfold updateStatus, branch_status_step. wp_call depr.
  eapply wp_mono; [|apply (wp_PatchStatus_refreshes (k := KBranch)); intros cur; apply wp_branch_status].
  intros tr out (o&f&->&Hrun). exists o, f. split; [done|]. by exists depr, tr.
Qed.

(** ** One pass *)

(** The contract of the timeline: one POST; created, or already there. *)
Inductive timeline_run (branch : Branch) (project : Project) : trace → option error → Prop :=
  | timeline_unreachable f :
      timeline_run branch project
        [Ev (CHttp (timeline_request StorageControllerBaseURL branch project)) (Err f)]
        (Some (Wrapf "failed to connect to storage controller" (Foreign f)))
  | timeline_accepted resp :
      rs_StatusCode resp = 200 ∨ rs_StatusCode resp = 201 ∨ rs_StatusCode resp = 409 →
      timeline_run branch project
        [Ev (CHttp (timeline_request StorageControllerBaseURL branch project)) (Ok resp)] None
  | timeline_rejected resp :
      rs_StatusCode resp ≠ 200 → rs_StatusCode resp ≠ 201 → rs_StatusCode resp ≠ 409 →
      timeline_run branch project
        [Ev (CHttp (timeline_request StorageControllerBaseURL branch project)) (Ok resp)]
        (Some (Errorf ("failed to create timeline on storage controller, status: " +:+
                       fmt_d (rs_StatusCode resp)))).

Lemma wp_ensureTimeline branch project :
  wp (ensureTimeline StorageControllerBaseURL branch project) (runs (timeline_run branch project)).
Proof.
  unfold ensureTimeline. wp_call r. destruct r as [resp|f]; cbn [from_env].
  - case_decide as Hcode; wp_steps.
    + destruct Hcode as (?&?&?). by apply timeline_rejected.
    + apply timeline_accepted. destruct (decide (rs_StatusCode resp = 200)); [by left|].
      destruct (decide (rs_StatusCode resp = 201)); [by right; left|].
      right; right. destruct (decide (rs_StatusCode resp = 409)); [done|]. by destruct Hcode.
  - wp_steps. apply timeline_unreachable.
Qed.

(** A timeline identifier drawn in this pass. *)
Definition fresh_id (s : string) : string := hex_EncodeToString (fill_buffer 16 s).

(** The contract of the assignment: the identifier is drawn after the object has
    been read, and the patch is computed from the object as it is now. *)
Inductive assign_run (branch : Branch) : trace → option fault → Prop :=
  | assign_unread f :
      assign_run branch [Ev (CGet KBranch (key_of (br_Meta branch))) (Err f)] (Some f)
  | assign_patched cur s w :
      neon_id (fresh_id s) →
      assign_run branch
        [Ev (CGet KBranch (key_of (br_Meta branch))) (Ok cur); Ev (CRand 16) s;
         Ev (CMergePatch KBranch cur (timeline_patch cur (fresh_id s)) FieldManager) (Ok w)] None
  | assign_unpatched cur s f :
      assign_run branch
        [Ev (CGet KBranch (key_of (br_Meta branch))) (Ok cur); Ev (CRand 16) s;
         Ev (CMergePatch KBranch cur (timeline_patch cur (fresh_id s)) FieldManager) (Err f)] (Some f).

Lemma wp_updateTimelineID branch :
  wp (updateTimelineID branch) (λ tr out, ∃ b f,
    out = Returned (b, Foreign <$> f) ∧ assign_run branch tr f).
Proof.
  unfold updateTimelineID. wp_call getr. destruct getr as [cur|f]; cbn [from_env].
  - apply wp_bind, wp_GenerateNeonID. intros s Hs. cbn [wp_seq app]. fold (fresh_id s) in *.
    wp_call r. destruct r as [w|f]; wp_steps.
    + eexists _, None. split; [done|by apply assign_patched].
    + eexists _, (Some f). split; [done|apply assign_unpatched].
  - wp_steps. eexists _, (Some f). split; [done|apply assign_unread].
Qed.

(** The timeline, then the children when the timeline is there. *)
Inductive body_run (branch : Branch) (project : Project) :
    trace → option error → option error → Prop :=
  | body_no_timeline tr te :
      timeline_run branch project tr (Some te) → body_run branch project tr (Some te) None
  | body_children trt trc dep ce :
      timeline_run branch project trt None →
      compute.Deployment branch project = Returned dep →
      runs_in_order (branch_steps branch project dep) trc ce →
      targets trc `sublist_of` branch_children branch →
      body_run branch project (trt ++ trc) None ce.

Definition project_key (branch : Branch) : NamespacedName :=
  in_namespace branch (brs_ProjectID (br_Spec branch)).

(** The contract of one pass over a branch that exists, given that of its report. *)
Section pass.
Context (report : Branch → option error → option error → trace → option fault → Prop).

Inductive branch_pass_with (branch : Branch) : trace → Result * option error → Prop :=
  | pass_assigned tr :
      brs_TimelineID (br_Spec branch) = "" → assign_run branch tr None →
      branch_pass_with branch tr ({| RequeueAfter := 1 |}, None)
  | pass_unassigned tr f :
      brs_TimelineID (br_Spec branch) = "" → assign_run branch tr (Some f) →
      branch_pass_with branch tr (no_requeue, Some (Wrapf "failed to update timelineID" (Foreign f)))
  | pass_no_project f e :
      brs_TimelineID (br_Spec branch) ≠ "" → root e = Some f →
      branch_pass_with branch [Ev (CGet KProject (project_key branch)) (Err f)] (no_requeue, Some e)
  | pass_done project trb te ce trs :
      brs_TimelineID (br_Spec branch) ≠ "" → body_run branch project trb te ce →
      report branch te ce trs None →
      branch_pass_with branch (Ev (CGet KProject (project_key branch)) (Ok project) :: trb ++ trs)
        match te with
        | Some _ => ({| RequeueAfter := 10 |}, None)
        | None => (no_requeue, Wrapf "not able to create branch resources" <$> ce)
        end
  | pass_unreported project trb te ce trs f :
      brs_TimelineID (br_Spec branch) ≠ "" → body_run branch project trb te ce →
      report branch te ce trs (Some f) →
      branch_pass_with branch (Ev (CGet KProject (project_key branch)) (Ok project) :: trb ++ trs)
        (no_requeue, Some (Foreign f)).

Lemma wp_branch_reconcile_assign branch :
  brs_TimelineID (br_Spec branch) = "" →
  wp (r ← reconcile StorageControllerBaseURL branch; Ret (finish r))
    (λ tr out, ∃ r, out = Returned r ∧ branch_pass_with branch tr r).
Proof.
  intros Hid. unfold reconcile. rewrite decide_True by done.
  wp_use (wp_updateTimelineID branch); [|by intros ?? (?&?&?&_)].
  intros tr upd (b&f&[= ->]&Hrun). cbn [snd]. destruct f as [f|]; cbn [fmap option_fmap option_map];
    wp_steps; rewrite app_nil_r; (eexists; split; [done|]).
  - by apply pass_unassigned.
  - by apply pass_assigned.
Qed.

Context (Hreport : ∀ branch te ce, wp (updateStatus branch te ce)
  (λ tr out, ∃ o f, out = Returned (o, Foreign <$> f) ∧ report branch te ce tr f)).

(** What is left to do once the body has run: report, and choose the result. *)
Lemma wp_report_branch branch project trb te ce :
  brs_TimelineID (br_Spec branch) ≠ "" → body_run branch project trb te ce →
  (∀ e, ce = Some e → unmarked e) →
  wp (r ← (st ← updateStatus branch te ce;
           match st.2 with
           | Some statusErr => Ret (no_requeue, Some statusErr)
           | None =>
               match te with
               | Some _ => Ret ({| RequeueAfter := 10 * second |}, None)
               | None =>
                   match ce with
                   | Some e => Ret (no_requeue, Some (Wrapf "not able to create branch resources" e))
                   | None => Ret (no_requeue, None)
                   end
               end
           end); Ret (finish r))
    (λ trs out, ∃ r, out = Returned r ∧
       branch_pass_with branch (Ev (CGet KProject (project_key branch)) (Ok project) :: trb ++ trs) r).
Proof.
  intros Hid Hbody Hce. wp_use (Hreport branch te ce); [|by intros ?? (?&?&?&_)].
  intros trs st (o&sf&[= ->]&Hst). cbn [snd]. destruct sf as [f|]; cbn [fmap option_fmap option_map].
  { wp_steps. rewrite app_nil_r. eexists; split; [done|]. by eapply pass_unreported. }
  pose proof (pass_done branch project trb te ce trs Hid Hbody Hst) as Hp.
  destruct te as [e|]; [|destruct ce as [e|]]; wp_steps; rewrite app_nil_r; (eexists; split; [done|]).
  - exact Hp.
  - pose proof (Hce e eq_refl requeue_message) as Hm. simpl in *. by rewrite Hm.
  - exact Hp.
Qed.

Lemma wp_reconcile_branch `{!QuantityLaws} branch :
  brs_TimelineID (br_Spec branch) ≠ "" →
  wp (r ← reconcile StorageControllerBaseURL branch; Ret (finish r))
    (λ tr out, ∃ r, out = Returned r ∧ branch_pass_with branch tr r).
Proof.
  intros Hid. unfold reconcile, getProject. rewrite decide_False by done.
  fold (in_namespace branch (brs_ProjectID (br_Spec branch))). fold (project_key branch).
  wp_call pr. destruct pr as [project|f]; cbn [from_env].
  2:{ wp_steps. eexists; split; [done|]. by apply pass_no_project. }
  wp_use (wp_ensureTimeline branch project); [|done].
  intros trt [te|] Ht; cbn [runs] in Ht.
  - do 2 wp_one. eapply wp_mono; [|apply (wp_report_branch branch project trt (Some te) None); [done|by apply body_no_timeline|done]].
    intros trs out Hr. exact Hr.
  - destruct (compute.Deployment_returns branch project) as (dep&Hdep&_).
    wp_use (createBranchResources_steps branch project dep Hdep); [|done].
    intros trc ce Hc. cbn [runs] in Hc.
    eapply wp_mono; [|apply (wp_report_branch branch project (trt ++ trc) None ce); [done| |]].
    + intros trs out (r&->&Hr). exists r. split; [done|]. by rewrite <-(app_assoc trt) in Hr.
    + eapply body_children; [done|done|done|]. by eapply branch_steps_targets.
    + intros e ->. by apply branch_steps_unmarked in Hc.
Qed.

Lemma wp_Reconcile_branch `{!QuantityLaws} (req : Request) :
  wp (Reconcile StorageControllerBaseURL req) (reconciles (k := KBranch) req (Returned (no_requeue, None))
    (λ branch tr out, ∃ r, out = Returned r ∧ branch_pass_with branch tr r)).
Proof.
  apply (wp_reconcile_checked (k := KBranch) req
    (λ branch, r ← reconcile StorageControllerBaseURL branch; Ret (finish r))).
  intros branch. destruct (decide (brs_TimelineID (br_Spec branch) = "")).
  - by apply wp_branch_reconcile_assign.
  - by apply wp_reconcile_branch.
Qed.
End pass.

Definition branch_pass : Branch → trace → Result * option error → Prop := branch_pass_with branch_status_step.

(** C3. One call of the Branch controller's [Reconcile], in every environment.  A
    Branch that is gone ends the call; a read error is returned.  A Branch without a
    timeline identifier gets a fresh 32-digit one through one merge patch and the
    call asks to be repeated after a second.  Otherwise the project is read, one POST
    asks the storage controller for the timeline (an existing one counts), and only
    when it is there are the ConfigMap, the Deployment and the two Services created
    if absent or applied if drifting, in this order and up to the first failure,
    nothing else being written.  The outcome is reported in one status update; a
    timeline failure asks to be repeated after ten seconds, any other failure is
    returned, and nothing panics. *)
Theorem Reconcile_branch_pass `{!ConditionLaws, !QuantityLaws} (req : Request) :
  wp (Reconcile StorageControllerBaseURL req) (reconciles (k := KBranch) req (Returned (no_requeue, None))
    (λ branch tr out, ∃ r, out = Returned r ∧ branch_pass branch tr r)).
Proof. apply (wp_Reconcile_branch branch_status_step wp_branch_updateStatus req). Qed.
End properties.

(** ** Examples *)

Section examples.
Import RefInstances.
Definition req : Request := Samples.request "main".

(** The world in which the cluster has been reconciled, so that its keys exist. *)
Definition with_keys : world :=
  put Samples.start KSecret
    {| sec_Meta := Samples.named "cluster-prod-jwt"; sec_Data := key_secret_data "-spriv" "-ppub" |}.

(** The sample branch is reconciled without an error. *)
Lemma Reconcile_branch_pass_witness :
  let '(tr, out) := run with_keys (Reconcile "" req) in
  out = Returned (no_requeue, None) ∧ length (writes tr) = 5%nat ∧ length (requests tr) = 1%nat ∧
  reconciles (k := KBranch) req (Returned (no_requeue, None))
    (λ branch tr out, ∃ r, out = Returned r ∧ branch_pass "" branch tr r) tr out.
Proof.
  split; [vm_compute; reflexivity|]. split; [vm_compute; reflexivity|].
  split; [vm_compute; reflexivity|].
  exact (run_wp with_keys (Reconcile "" req) _ (Reconcile_branch_pass "" req)).
Defined.

(** The admin Service of the sample branch, missing: both functions create it. *)
Lemma ensure_equiv_ReconcileSSA_witness :
  let branch := Samples.branch_with "0badbeef" in
  let svc := compute.AdminService branch (Samples.project_with "0badcafe") in
  let '(w1, tr1, out1) :=
    exec world_server Samples.start (ensure (k := KService) branch "branch admin Service" svc (service_drift svc)) in
  let '(w2, tr2, out2) :=
    exec world_server Samples.start
      (ReconcileSSA (ok := KBranch) (k := KService) branch svc (service_drift svc)) in
  w1 = w2 ∧ tr1 = tr2 ∧ ∃ e1 e2, out1 = Returned e1 ∧ out2 = Returned e2 ∧ root <$> e1 = root <$> e2.
Proof.
  exact (ensure_equiv_ReconcileSSA world_server Samples.start (k := KService) (Samples.branch_with "0badbeef")
    "branch admin Service" (compute.AdminService (Samples.branch_with "0badbeef") (Samples.project_with "0badcafe"))
    (service_drift (compute.AdminService (Samples.branch_with "0badbeef") (Samples.project_with "0badcafe")))
    [ref_owner_ref KBranch (Samples.named "main")] eq_refl eq_refl).
Defined.

Lemma branch_create_contract_witness :
  let branch := Samples.branch_with "0badbeef" in
  let project := Samples.project_with "0badcafe" in
  wp (reconcileConfigMap branch project)
    (runs (with_read (k := KCluster) (cluster_key project) (λ cluster,
             with_read (k := KSecret) (jwt_secret_key cluster) (configmap_step branch project)))) ∧
  (∃ dep, compute.Deployment branch project = Returned dep ∧
     wp (reconcileDeployment branch project) (runs (deployment_child (ok := KBranch) branch dep))) ∧
  wp (reconcileAdminService branch project)
    (runs (service_child (ok := KBranch) branch (compute.AdminService branch project))) ∧
  wp (reconcilePostgresService branch project)
    (runs (service_child (ok := KBranch) branch (compute.PostgresService branch project))).
Proof.
  exact (branch_create_contract (Samples.branch_with "0badbeef") (Samples.project_with "0badcafe")).
Defined.
End examples.

End BranchReconciler.
