(* ===== verification/Operator.v ===== *)
(** * The operator over one cluster

    All the programs of the operator at once: what every call they make keeps true of
    the contents of the cluster, however their calls interleave with one another and
    with those of other clients. *)

From S2P Require Import Prelude GoLib KubeTypes Api Interfaces Reference Prog Calls Concurrency Server.
From S2P Require Import Ids Jwt Status Reconcile ComputeSpec ControlPlane Controller ApiServer.
From S2P Require Import ClusterController SafekeeperController PageserverController.
From S2P Require Import ProjectController BranchController.
From stdpp Require Import relations.

(** ** The inventory of calls

    Which calls the programs of the operator can make at all, whatever is answered. *)

Create HintDb neon_programs discriminated.
#[export] Hint Unfold
  ClusterReconciler.Reconcile ClusterReconciler.getCluster ClusterReconciler.reconcile
  ClusterReconciler.createClusterResources ClusterReconciler.reconcileJWTKeys
  ClusterReconciler.reconcileStorageController ClusterReconciler.reconcileStorageBroker
  ClusterReconciler.updateStatus ClusterReconciler.deploymentState ClusterReconciler.cluster_status
  SafekeeperReconciler.Reconcile SafekeeperReconciler.getSafekeeper SafekeeperReconciler.reconcile
  SafekeeperReconciler.createSafekeeperResources
  PageserverReconciler.Reconcile PageserverReconciler.getPageserver PageserverReconciler.reconcile
  PageserverReconciler.createPageserverResources PageserverReconciler.reconcileConfigMap
  ProjectReconciler.Reconcile ProjectReconciler.getProject ProjectReconciler.reconcile
  ProjectReconciler.updateTenantID ProjectReconciler.ensureTenantOnPageserver
  ProjectReconciler.updateStatus ProjectReconciler.project_status
  BranchReconciler.Reconcile BranchReconciler.getBranch BranchReconciler.reconcile
  BranchReconciler.getProject BranchReconciler.updateTimelineID BranchReconciler.ensureTimeline
  BranchReconciler.createBranchResources BranchReconciler.reconcileConfigMap
  BranchReconciler.getCluster BranchReconciler.reconcileDeployment
  BranchReconciler.reconcileAdminService BranchReconciler.reconcilePostgresService
  BranchReconciler.updateStatus BranchReconciler.branch_status GenerateNeonID : neon_programs.

(** Go through every call of a program; [leaf] proves the test of each. *)
Tactic Notation "all_calls" tactic3(leaf) :=
  autounfold with neon_programs;
  repeat first
    [ progress walk
    | apply calls_ReconcileSSA; [|intros ? ?; split]
    | apply BranchReconciler.calls_ensure; [|intros ? ?; split]
    | apply calls_UpdateSTSBackedStatus
    | apply calls_PatchStatus
    | apply calls_SetCondition
    | leaf
    | intros ? ].

(** The objects the controllers build besides the Secret of a Cluster. *)
Definition child_kind (k : Kind) : Prop :=
  match k with KConfigMap | KService | KDeployment | KStatefulSet => True | _ => False end.

(** The custom resources. *)
Definition status_kind (k : Kind) : Prop :=
  match k with KCluster | KProject | KBranch | KPageserver | KSafekeeper => True | _ => False end.

Definition inventory (c : call) : Prop :=
  match c with
  | CCreate k _ _ => k = KSecret ∨ child_kind k
  | CApply k _ force fm => child_kind k ∧ force = true ∧ fm = FieldManager
  | CMergePatch k _ _ fm => (k = KProject ∨ k = KBranch) ∧ fm = FieldManager
  | CStatusPatch k _ _ => status_kind k
  | _ => True
  end.

(** A program of the operator, with the base URLs it is configured with. *)
Section operator.
Context `{ConditionOps} `{OwnerOps} `{CryptoOps} `{JwtOps} `{HttpOps} `{QuantityOps}
  `{SemanticEqual Status} `{SemanticDerivative DeploymentSpec} `{SemanticDerivative StatefulSetSpec}
  `{SemanticDerivative ServiceSpec} `{SemanticDerivative smap}.
Context (storage_url compute_url : string).

Inductive operator : thread → Prop :=
  | op_cluster req : operator (Thread (ClusterReconciler.Reconcile req))
  | op_project req : operator (Thread (ProjectReconciler.Reconcile storage_url req))
  | op_branch req : operator (Thread (BranchReconciler.Reconcile storage_url req))
  | op_pageserver req : operator (Thread (PageserverReconciler.Reconcile req))
  | op_safekeeper req : operator (Thread (SafekeeperReconciler.Reconcile req))
  | op_control_plane rq body : operator (Thread (controlplane.newServer compute_url rq body)).

Lemma operator_inventory t : operator t → guarded (λ _ _, True) inventory t.
Proof.
  intros []; cbn [guarded];
    [..|apply (rg_impl (λ _ _, True) (λ _ _, True) controlplane.reads_only);
        [by intros []|done|apply controlplane.newServer_calls]];
    all_calls (first [done | by left | by right | by split; [left|] | by split; [right|]]).
Qed.
End operator.

(** ** Well-formed statuses *)

(** The conditions each controller reports. *)
Definition known_types (k : Kind) : list string :=
  match k with
  | KCluster => [ConditionAvailable; ConditionProgressing; ConditionStorageControllerAvailable;
                 ConditionStorageBrokerAvailable]
  | KProject => [ConditionTenantIDAssigned; ConditionAttached; ConditionAvailable; ConditionProgressing]
  | KBranch => [ConditionTimelineIDAssigned; ConditionTimelineCreated; ConditionComputeReady;
                ConditionAvailable; ConditionProgressing]
  | KPageserver | KSafekeeper => [ConditionResourcesReady; ConditionAvailable; ConditionProgressing]
  | _ => []
  end.

(** The reason of a condition may not be empty in the Kubernetes API. *)
Definition partial (known : list string) (cs : list Condition) : Prop :=
  NoDup (cond_Type <$> cs) ∧ Forall (λ c, cond_Type c ∈ known ∧ cond_Reason c ≠ "") cs.

(** Nothing reported yet, or every condition of the kind exactly once, each with a
    reason, and [Progressing] the negation of [Available]. *)
Definition conditions_ok (known : list string) (cs : list Condition) : Prop :=
  cs = [] ∨
  (partial known cs ∧ (∀ t, t ∈ known → t ∈ cond_Type <$> cs) ∧
   ∃ a ra ma ga rp mp gp,
     reported ConditionAvailable cs = Some (Report a ra ma ga) ∧
     reported ConditionProgressing cs = Some (Report (negate a) rp mp gp)).

Definition good {k : Kind} (o : obj k) : Prop :=
  ∀ st, status_of o = Some st → conditions_ok (known_types k) (st_Conditions st).

Lemma find_cond_In t cs : t ∈ cond_Type <$> cs ↔ find_cond t cs ≠ None.
Proof.
  unfold find_cond. split.
  - intros (c&->&Hc)%list_elem_of_fmap Hf. rewrite find_first_None in Hf.
    specialize (Hf c Hc). by apply bool_decide_eq_false in Hf.
  - destruct (find_first _ cs) as [c|] eqn:Hf; [|done]. intros _.
    apply find_first_Some in Hf as [Hc <-%bool_decide_eq_true]. by apply list_elem_of_fmap_2.
Qed.

Lemma reported_In t cs r : reported t cs = Some r → t ∈ cond_Type <$> cs.
Proof. unfold reported. rewrite find_cond_In. by destruct (find_cond t cs). Qed.

Section conditions.
Context `{ConditionLaws}.

Lemma partial_set known now cs c :
  cond_Type c ∈ known → cond_Reason c ≠ "" → partial known cs → partial known (SetStatusCondition now cs c).
Proof.
  intros Ht Hr [Hnd Hall]. destruct (set_cond_shape now cs c) as (c'&Ht'&Hr'&Hshape).
  assert (cond_Type c' ∈ known ∧ cond_Reason c' ≠ "") as Hc' by (rewrite Ht', Hr'; done).
  destruct Hshape as [[Hf ->]|(pre&old&post&->&Hold&_&->)].
  - split; [|by apply Forall_app_2; [|constructor]]. rewrite fmap_app. apply NoDup_app.
    split_and!; [done| |apply NoDup_singleton].
    intros t Hin ->%list_elem_of_singleton. rewrite Ht', find_cond_In in Hin. congruence.
  - apply Forall_app in Hall as [Hpre [_ Hpost]%Forall_cons]. split.
    + rewrite fmap_app, fmap_cons in *. by rewrite Ht', <-Hold.
    + apply Forall_app. split; [done|by constructor].
Qed.

Lemma conditions_ok_partial known cs : conditions_ok known cs → partial known cs.
Proof. intros [->|[Hp _]]; [|done]. split; [apply NoDup_nil_2|constructor]. Qed.
End conditions.

(** ** What the programs guarantee *)

(** What is written has a well-formed status, and a Secret is only ever created. *)
Definition guarantee (c : call) : Prop :=
  match c with
  | CCreate k o _ => good o
  | CApply k o _ _ | CMergePatch k _ o _ | CStatusPatch k _ o => k ≠ KSecret ∧ good o
  | _ => True
  end.

(** What is read has one. *)
Definition reliance (c : call) : answer c → Prop :=
  match c with
  | CGet k _ => λ r, ∀ o, r = Ok o → good o
  | _ => λ _, True
  end.

(** The rules of [rg], one per shape of the next step. *)
Ltac rg_one :=
  lazymatch goal with
  | |- rg _ _ (mbind _ (mbind _ _)) _ => apply rg_bind_assoc
  | |- rg _ _ (mbind _ (Ret _)) _ => change (mbind ?f (Ret ?a)) with (f a)
  | |- rg _ _ (mbind _ (lift_outcome _)) _ => apply rg_bind_lift; intros ? ?
  | |- rg _ _ (mbind _ (perform _)) _ => apply rg_bind_perform; [|intros ? ?]
  | |- rg _ _ (mbind _ (match ?x with _ => _ end)) _ => destruct x eqn:?
  | |- rg _ _ (match ?x with _ => _ end) _ => destruct x eqn:?
  | |- rg _ _ (let _ := _ in _) _ => cbv zeta
  | |- rg _ _ (Ret _) _ => apply rg_ret
  | |- rg _ _ (Panic _) _ => exact I
  | |- rg _ _ (lift_outcome _) _ => apply rg_lift; intros ? ?
  | |- rg _ _ (perform _) _ => apply rg_perform; [|intros ? ?]
  end; cbv beta; cbn [receive].

(** The objects the controllers build have no status. *)
Lemma child_good k (o : obj k) : child_kind k → k ≠ KSecret ∧ good o.
Proof. intros Hk. split; [by intros ->|]. intros st Hst. by destruct k. Qed.

Section programs.
Context `{ConditionLaws} `{OwnerOps} `{SemanticEqual Status}.

Abbreviation safe p Q := (rg reliance guarantee p Q).

Lemma safe_ReconcileSSA {ok k} (owner : obj ok) (intended : obj k) drift :
  child_kind k → safe (ReconcileSSA owner intended drift) (λ _, True).
Proof.
  intros Hk. unfold ReconcileSSA. repeat rg_one; try done; by apply child_good.
Qed.
Lemma safe_ensure {k} (branch : Branch) what (intended : obj k) drift :
  child_kind k → safe (BranchReconciler.ensure branch what intended drift) (λ _, True).
Proof.
  intros Hk. unfold BranchReconciler.ensure. repeat rg_one; try done; by apply child_good.
Qed.

(** A status closure, applied to what was read. *)
Lemma safe_PatchStatus {k} `{StatusObject k} (o : obj k) mutate :
  k ≠ KSecret → (∀ cur : obj k, good cur → safe (mutate cur) good) → safe (PatchStatus o mutate) (λ _, True).
Proof.
  intros Hk Hm. unfold PatchStatus. rg_one; [done|].
  destruct r as [cur|f]; cbn [from_env]; [|by rg_one].
  eapply rg_bind; [by apply Hm; auto|]. intros upd Hupd. repeat rg_one; by try split.
Qed.

(** The end of a closure: the conditions it has set, over those that were there. *)
Lemma good_refreshed {k} `{StatusObject k} (o : obj k) cs :
  (∀ x : obj k, status_of x = Some (StatusValue x)) →
  (conditions_ok (known_types k) (StatusConditions o) → conditions_ok (known_types k) cs) →
  good o → good (refreshed o cs).
Proof.
  intros Hst Hcs Ho st. rewrite Hst, StatusValue_refreshed. intros [= <-]. apply Hcs, Ho. by rewrite Hst.
Qed.

Lemma conditions_ok_intro known cs :
  partial known cs → Forall (λ t, ∃ r, reported t cs = Some r) known →
  (∃ a ra ma ga rp mp gp,
     reported ConditionAvailable cs = Some (Report a ra ma ga) ∧
     reported ConditionProgressing cs = Some (Report (negate a) rp mp gp)) →
  conditions_ok known cs.
Proof.
  intros Hp Hall Hco. right. split_and!; [done| |done]. rewrite Forall_forall in Hall.
  intros t Ht. destruct (Hall t Ht) as [r Hr]. by eapply reported_In.
Qed.
End programs.

(** The conditions a closure leaves, for literal types. *)
Ltac conditions_done :=
  apply conditions_ok_intro;
  [ repeat (apply partial_set; [apply (bool_decide_unpack _); vm_compute; exact I|simpl; try (by repeat case_match)|]);
    by apply conditions_ok_partial
  | repeat (apply Forall_cons; split; [eexists; solve_reported|]); apply Forall_nil; exact I
  | do 7 eexists; split; solve_reported ].

(** A closure ends with the refreshed object. *)
Ltac closure_done :=
  lazymatch goal with
  | |- good (set_Conditions (SetObservedGeneration ?o _) ?cs) =>
      change (good (refreshed o cs)); apply good_refreshed; [done| |done];
      rewrite ?StatusConditions_SetObservedGeneration; intros Hbase;
      match goal with Hk : known_types _ = _ |- _ => rewrite Hk in * | _ => cbn [known_types] in * end;
      conditions_done
  end.

Section closures.
Context `{ConditionLaws}.

Abbreviation safe p Q := (rg reliance guarantee p Q).

Lemma safe_sts_not_ready_detail ns stsName label :
  safe (sts_not_ready_detail ns stsName label) (λ d, d.1 ≠ "").
Proof.
  unfold sts_not_ready_detail. rg_one; [done|]. cbv zeta.
  match goal with |- context [let (_, _) := ?x in _] => destruct x as [reason m] end.
  repeat rg_one; done.
Qed.

Lemma safe_sts_status {k} `{StatusObject k} ns stsName label reconcileErr stsr (o : obj k) :
  (∀ x : obj k, status_of x = Some (StatusValue x)) →
  known_types k = [ConditionResourcesReady; ConditionAvailable; ConditionProgressing] →
  good o → safe (sts_status ns stsName label reconcileErr stsr o) good.
Proof.
  intros Hst Hknown Ho. unfold sts_status, SetCondition. cbv zeta.
  repeat rg_one; try done; try closure_done.
  eapply rg_bind; [apply safe_sts_not_ready_detail|]. intros [reason m] Hr. simpl in Hr.
  repeat rg_one; try done. closure_done.
Qed.

Lemma safe_cluster_status reconcileErr sc sb (o : obj KCluster) :
  sc.1.2 ≠ "" → sb.1.2 ≠ "" → good o →
  safe (ClusterReconciler.cluster_status reconcileErr sc sb o) (good (k := KCluster)).
Proof.
  intros Hsc Hsb Ho. unfold ClusterReconciler.cluster_status, SetCondition. cbv zeta.
  repeat rg_one; try done; closure_done.
Qed.

Lemma safe_project_status input (o : obj KProject) :
  good o → safe (ProjectReconciler.project_status input o) (good (k := KProject)).
Proof.
  intros Ho. unfold ProjectReconciler.project_status, SetCondition. cbv zeta.
  repeat rg_one; try done; closure_done.
Qed.

Lemma compute_state_reason createErr depr : (BranchReconciler.compute_state createErr depr).1.2 ≠ "".
Proof. unfold BranchReconciler.compute_state. by repeat case_match. Qed.

Lemma safe_branch_status timelineErr createErr depr (o : obj KBranch) :
  good o → safe (BranchReconciler.branch_status timelineErr createErr depr o) (good (k := KBranch)).
Proof.
  intros Ho. unfold BranchReconciler.branch_status, SetCondition. cbv zeta.
  pose proof (compute_state_reason createErr depr) as Hreason.
  destruct (BranchReconciler.compute_state createErr depr) as [[ready reason] m]. simpl in Hreason.
  repeat rg_one; try done; closure_done.
Qed.
End closures.

(** ** Every program of the operator keeps its guarantee *)

Section entries.
Context `{ConditionLaws} `{OwnerOps} `{CryptoOps} `{JwtOps} `{HttpOps} `{QuantityOps}
  `{SemanticEqual Status} `{SemanticDerivative DeploymentSpec} `{SemanticDerivative StatefulSetSpec}
  `{SemanticDerivative ServiceSpec} `{SemanticDerivative smap}.

Abbreviation safe p Q := (rg reliance guarantee p Q).
Abbreviation always_safe p := (rg reliance guarantee p (λ _, True)).

(** Use a lemma about the next sub-program, or about the last one. *)
Ltac safe_by lem :=
  lazymatch goal with
  | |- rg _ _ (mbind _ (mbind _ _)) _ => fail
  | |- rg _ _ (mbind _ _) _ => eapply rg_bind; [eapply lem|intros ? ?; cbv beta]
  | |- rg _ _ _ _ => eapply rg_mono; [|eapply lem]; [done|..]
  end.
Ltac safe_steps := repeat first [rg_one | safe_by @safe_ReconcileSSA | safe_by @safe_ensure]; try done.

Lemma safe_UpdateSTSBackedStatus {k} `{StatusObject k} (o : obj k) stsName label reconcileErr :
  (∀ x : obj k, status_of x = Some (StatusValue x)) → k ≠ KSecret →
  known_types k = [ConditionResourcesReady; ConditionAvailable; ConditionProgressing] →
  always_safe (UpdateSTSBackedStatus o stsName label reconcileErr).
Proof.
  intros ? ? ?. unfold UpdateSTSBackedStatus. rg_one; [done|].
  apply safe_PatchStatus; [done|]. intros cur Hcur. by apply safe_sts_status.
Qed.

Lemma safe_createSafekeeperResources sk :
  always_safe (SafekeeperReconciler.createSafekeeperResources sk).
Proof. unfold SafekeeperReconciler.createSafekeeperResources. safe_steps. Qed.

Lemma safe_safekeeper req : always_safe (SafekeeperReconciler.Reconcile req).
Proof.
  unfold SafekeeperReconciler.Reconcile, SafekeeperReconciler.getSafekeeper, SafekeeperReconciler.reconcile.
  repeat first [rg_one | safe_by safe_createSafekeeperResources
    | safe_by (safe_UpdateSTSBackedStatus (k := KSafekeeper))]; done.
Qed.

Lemma safe_createPageserverResources ps : always_safe (PageserverReconciler.createPageserverResources ps).
Proof.
  unfold PageserverReconciler.createPageserverResources, PageserverReconciler.reconcileConfigMap. safe_steps.
Qed.

Lemma safe_pageserver req : always_safe (PageserverReconciler.Reconcile req).
Proof.
  unfold PageserverReconciler.Reconcile, PageserverReconciler.getPageserver, PageserverReconciler.reconcile.
  repeat first [rg_one | safe_by safe_createPageserverResources
    | safe_by (safe_UpdateSTSBackedStatus (k := KPageserver))]; done.
Qed.

Lemma safe_createClusterResources cluster : always_safe (ClusterReconciler.createClusterResources cluster).
Proof.
  unfold ClusterReconciler.createClusterResources, ClusterReconciler.reconcileJWTKeys,
    ClusterReconciler.reconcileStorageController, ClusterReconciler.reconcileStorageBroker.
  safe_steps.
Qed.

Lemma safe_deploymentState cluster name label :
  safe (ClusterReconciler.deploymentState cluster name label) (λ t, t.1.2 ≠ "").
Proof. unfold ClusterReconciler.deploymentState. rg_one; [done|]. rg_one. by repeat case_match. Qed.

Lemma safe_cluster_updateStatus cluster err : always_safe (ClusterReconciler.updateStatus cluster err).
Proof.
  unfold ClusterReconciler.updateStatus. cbv zeta.
  eapply rg_bind; [apply safe_deploymentState|]. intros sc Hsc.
  eapply rg_bind; [apply safe_deploymentState|]. intros sb Hsb.
  apply safe_PatchStatus; [done|]. intros cur Hcur. by apply safe_cluster_status.
Qed.

Lemma safe_cluster req : always_safe (ClusterReconciler.Reconcile req).
Proof.
  unfold ClusterReconciler.Reconcile, ClusterReconciler.getCluster, ClusterReconciler.reconcile.
  repeat first [rg_one | safe_by safe_createClusterResources | safe_by safe_cluster_updateStatus]; done.
Qed.

(** The merge patches keep the status of the object they were read from. *)

Lemma safe_project_updateStatus project input : always_safe (ProjectReconciler.updateStatus project input).
Proof. apply safe_PatchStatus; [done|]. intros cur Hcur. by apply safe_project_status. Qed.

Lemma safe_updateTenantID project tenantID : always_safe (ProjectReconciler.updateTenantID project tenantID).
Proof.
  unfold ProjectReconciler.updateTenantID. rg_one; [done|].
  destruct r as [cur|f]; cbn [from_env]; [|by rg_one]. rg_one; [|by safe_steps].
  split; [done|]. intros st. match goal with Hr : reliance (CGet _ _) _ |- _ => by apply (Hr cur) end.
Qed.

Lemma safe_project url req : always_safe (ProjectReconciler.Reconcile url req).
Proof.
  unfold ProjectReconciler.Reconcile, ProjectReconciler.getProject, ProjectReconciler.reconcile,
    ProjectReconciler.ensureTenantOnPageserver, GenerateNeonID.
  repeat first [rg_one | safe_by safe_updateTenantID | safe_by safe_project_updateStatus]; done.
Qed.

Lemma safe_updateTimelineID branch : always_safe (BranchReconciler.updateTimelineID branch).
Proof.
  unfold BranchReconciler.updateTimelineID, GenerateNeonID. rg_one; [done|].
  destruct r as [cur|f]; cbn [from_env]; [|by rg_one]. rg_one. rg_one; [done|]. rg_one. rg_one; [|by safe_steps].
  split; [done|]. intros st. match goal with Hr : reliance (CGet _ _) _ |- _ => by apply (Hr cur) end.
Qed.

Lemma safe_createBranchResources branch project :
  always_safe (BranchReconciler.createBranchResources branch project).
Proof.
  unfold BranchReconciler.createBranchResources, BranchReconciler.reconcileConfigMap,
    BranchReconciler.getCluster, BranchReconciler.reconcileDeployment,
    BranchReconciler.reconcileAdminService, BranchReconciler.reconcilePostgresService.
  safe_steps.
Qed.

Lemma safe_branch_updateStatus branch timelineErr createErr :
  always_safe (BranchReconciler.updateStatus branch timelineErr createErr).
Proof.
  unfold BranchReconciler.updateStatus. cbv zeta. rg_one; [done|].
  apply safe_PatchStatus; [done|]. intros cur Hcur. by apply safe_branch_status.
Qed.

Lemma safe_branch url req : always_safe (BranchReconciler.Reconcile url req).
Proof.
  unfold BranchReconciler.Reconcile, BranchReconciler.getBranch, BranchReconciler.reconcile,
    BranchReconciler.getProject, BranchReconciler.ensureTimeline.
  repeat first [rg_one | safe_by safe_updateTimelineID | safe_by safe_createBranchResources
    | safe_by safe_branch_updateStatus]; done.
Qed.

Lemma safe_control_plane url rq body : always_safe (controlplane.newServer url rq body).
Proof.
  apply (rg_impl (λ _ _, True) reliance controlplane.reads_only); [by intros []|done|].
  apply controlplane.newServer_calls.
Qed.

Lemma operator_guarded storage_url compute_url t :
  operator storage_url compute_url t → guarded reliance guarantee t.
Proof.
  intros []; cbn [guarded]; [apply safe_cluster|apply safe_project|apply safe_branch|apply safe_pageserver
    |apply safe_safekeeper|apply safe_control_plane].
Qed.
End entries.

(** ** The contents of the cluster *)

Definition status_written (c : call) : option (Kind * option Status) :=
  match c with
  | CCreate k o _ | CApply k o _ _ | CMergePatch k _ o _ | CStatusPatch k _ o => Some (k, status_of o)
  | _ => None
  end.

(** A server makes up no status: what it holds after a call has the status it had
    before, or that of the object the call wrote. *)
Class KeepsStatuses {S} (h : server S) (view_of : S → view) : Prop :=
  statuses_kept : ∀ s c s' r, handle h s c = (s', r) → ∀ k key (o' : obj k),
    view_of s' k key = Some o' →
    (∃ o : obj k, view_of s k key = Some o ∧ status_of o' = status_of o) ∨
    status_written c = Some (k, status_of o').

Definition statuses_ok (v : view) : Prop := ∀ k key (o : obj k), v k key = Some o → good o.

(** The signing keys a Secret holds. *)
Definition holds_keys (key : NamespacedName) (data : smap) (v : view) : Prop :=
  ∃ sec : obj KSecret, v KSecret key = Some sec ∧ sec_Data sec = data.

Section contents.
Context `{SemanticDerivative DeploymentSpec} `{SemanticDerivative StatefulSetSpec}
  `{SemanticDerivative ServiceSpec} `{SemanticDerivative smap}.
Context {S : Type} (h : server S) (view_of : S → view) `{!ApiServer h view_of}.

Lemma api_handle s c s' r : handle h s c = (s', r) → api_step (view_of s) (Ev c r) (view_of s').
Proof. intros Hh. pose proof (api_server s c) as Hs. by rewrite Hh in Hs. Qed.

Lemma statuses_kept_by_guarantee `{!KeepsStatuses h view_of} :
  kept h (λ s, statuses_ok (view_of s)) reliance guarantee.
Proof.
  intros s c s' r Hok Hg Hh. split.
  - intros k key o' Ho'. destruct (statuses_kept s c s' r Hh k key o' Ho') as [(o&Ho&Hst)|Hw].
    + intros st. rewrite Hst. by apply (Hok k key o).
    + destruct c as [| |k0 o fm|k0 o f fm|k0 b o fm|k0 b o| | | |]; try done;
        injection Hw as -> Hw; intros st Hst; rewrite <-Hw in Hst; [by apply Hg|by apply (proj2 Hg)..].
  - pose proof (api_handle s c s' r Hh) as Hstep. destruct c; try done. intros o ->.
    destruct Hstep as [_ [Hv _]]. by apply (Hok k key o).
Qed.

Lemma keys_kept_by_inventory key data :
  kept h (λ s, holds_keys key data (view_of s)) (λ _ _, True) inventory.
Proof.
  intros s c s' r (sec&Hsec&Hdata) Hg Hh. split; [|done]. exists sec. split; [|done].
  pose proof (api_handle s c s' r Hh) as Hstep.
  destruct (decide (target c = Some (KSecret, key))) as [Ht|Ht].
  - destruct c; simplify_eq/=; [|exfalso; naive_solver..|done].
    destruct Hstep as (_&_&Hcur). by apply Hcur.
  - rewrite <-Hsec. apply (api_step_frame _ _ _ _ _ Hstep). intros Heq. by apply Ht.
Qed.
End contents.

(** ** Properties *)

Section properties.
Context `{ConditionLaws} `{OwnerOps} `{CryptoOps} `{JwtOps} `{HttpOps} `{QuantityOps}
  `{SemanticEqual Status} `{SemanticDerivative DeploymentSpec} `{SemanticDerivative StatefulSetSpec}
  `{SemanticDerivative ServiceSpec} `{SemanticDerivative smap}.
Context {S : Type} (h : server S) (view_of : S → view) `{!ApiServer h view_of}.
Context (storage_url compute_url : string) (external : S → S → Prop).

(** C10. The statuses of the custom resources stay well formed for ever: whatever passes and
    requests the operator serves, in whatever order their calls interleave, and whatever
    other clients do that keeps them so.  Every resource has either nothing reported or
    every condition of its kind exactly once, none of another kind, each with a reason,
    and [Progressing] is False exactly when [Available] is True. *)
Theorem statuses_stay_ok `{!KeepsStatuses h view_of} s y :
  (∀ s s', statuses_ok (view_of s) → external s s' → statuses_ok (view_of s')) →
  statuses_ok (view_of s) →
  rtc (pool_step h (operator storage_url compute_url) external) (Pool s []) y →
  statuses_ok (view_of (pl_state y)).
Proof.
  intros Hext Hs Hrun.
  apply (pool_inv_reachable h (operator storage_url compute_url) external (λ s, statuses_ok (view_of s))
    reliance guarantee s y); [by apply statuses_kept_by_guarantee|apply operator_guarded|done..].
Qed.

(** C11. Signing keys are never replaced, also by passes that are already under way.  Take
    any state the operator reaches, whatever calls its programs have made so far and
    however they interleave: some of them may have found no Secret, and have generated
    the keys they are about to store.  If the Secret holds a pair of keys in that state,
    it holds the same pair, and gives the same manager, in every state reached from
    there, whatever the programs under way and the programs that begin later do, unless
    another client changes it.  In particular, when several passes race to create the
    Secret of a Cluster, the keys of the first creation stay and those of the others
    are discarded. *)
Theorem signing_keys_kept key s y z (sec : Secret) :
  (∀ data s s', holds_keys key data (view_of s) → external s s' → holds_keys key data (view_of s')) →
  rtc (pool_step h (operator storage_url compute_url) external) (Pool s []) y →
  view_of (pl_state y) KSecret key = Some sec →
  rtc (pool_step h (operator storage_url compute_url) external) y z →
  ∃ sec' : Secret, view_of (pl_state z) KSecret key = Some sec' ∧ sec_Data sec' = sec_Data sec ∧
    NewJWTManagerFromSecret sec' = NewJWTManagerFromSecret sec.
Proof.
  intros Hext Hy Hsec Hz. pose proof (operator_inventory storage_url compute_url) as Hentry.
  assert (pool_inv (λ s, True) (λ _ _, True) inventory y) as [_ Hts].
  { eapply (pool_inv_rtc h (operator storage_url compute_url) external); [|exact Hentry| | |exact Hy];
      by repeat split. }
  assert (pool_inv (λ s, holds_keys key (sec_Data sec) (view_of s)) (λ _ _, True) inventory z) as [Hk _].
  { eapply (pool_inv_rtc h (operator storage_url compute_url) external);
      [by apply keys_kept_by_inventory|exact Hentry|by apply Hext| |exact Hz]. split; [by exists sec|done]. }
  destruct Hk as (sec'&Hsec'&Hdata). exists sec'. split_and!; [done|done|].
  unfold NewJWTManagerFromSecret. by rewrite Hdata.
Qed.
End properties.

(** ** The in-memory server *)

Lemma find_put_status k0 (o : obj k0) l k key (o' : obj k) :
  find_item k key (put_item k0 o l) = Some o' →
  find_item k key l = Some o' ∨ (k0, status_of o) = (k, status_of o').
Proof.
  intros Hf. destruct (decide ((k, key) = (k0, key_of (meta o)))) as [[= -> ->]|Hne].
  - rewrite find_put_same in Hf. simplify_eq. by right.
  - rewrite find_put_other in Hf by done. by left.
Qed.

#[export] Instance world_keeps_statuses : KeepsStatuses world_server world_view.
Proof.
  intros w c w' r Hh k key o' Ho'. unfold world_view in *.
  assert (w_items w' = w_items w ∨ ∃ k0 (o : obj k0),
    w_items w' = put_item k0 o (w_items w) ∧
    (status_written c = Some (k0, status_of o) ∨
     ∃ cur, find_item k0 (key_of (meta o)) (w_items w) = Some cur ∧ status_of o = status_of cur)) as [Hw|(k0&o&Hw&Hc)].
  { destruct c as [| | | |k0 base o fm|k0 base o| | | |]; cbn [world_server handle world_handle] in Hh;
      repeat case_match; simplify_eq/=; try (by left); try (right; do 2 eexists; split; [reflexivity|by left]).
    - right. do 2 eexists. split; [reflexivity|]. cbn [status_written].
      destruct (merge_patch_spec base o o0) as [Hkey _]; [by eapply find_item_key|]. rewrite Hkey.
      destruct (status_merge_patch base o o0) as [Hst|Hst]; rewrite Hst; eauto.
    - right. do 2 eexists. split; [reflexivity|]. left. cbn [status_written]. by rewrite status_of_with_status_of. }
  - left. exists o'. by rewrite <-Hw.
  - rewrite Hw in Ho'. destruct Hc as [Hc|(cur&Hcur&Hst)].
    + apply find_put_status in Ho' as [Ho'|Heq]; [by left; exists o'|right; congruence].
    + destruct (decide ((k, key) = (k0, key_of (meta o)))) as [[= -> ->]|Hne].
      * rewrite find_put_same in Ho'. simplify_eq. left. by exists cur.
      * rewrite find_put_other in Ho' by done. left. by exists o'.
Qed.

Section witnesses.
Import RefInstances.

Lemma find_item_In k key l (o : obj k) : find_item k key l = Some o → Item k o ∈ l.
Proof.
  induction l as [|i l IH]; cbn [find_item]; [done|].
  destruct (as_kind k i) as [x|] eqn:Hi; [case_decide|]; intros; simplify_eq; [|by right; auto..].
  apply as_kind_Some in Hi as ->. left.
Qed.

Lemma items_statuses_ok w : Forall (λ i, good (it_obj i)) (w_items w) → statuses_ok (world_view w).
Proof.
  intros Hall k key o Ho%find_item_In. rewrite Forall_forall in Hall. apply (Hall _ Ho).
Qed.

Definition cluster_pass : prog (Result * option error) :=
  ClusterReconciler.Reconcile (Samples.request "prod").

(** A first pass of the Cluster, in a pool of its own. *)
Lemma statuses_stay_ok_witness :
  ∃ ts, let y := Pool (exec world_server Samples.start cluster_pass).1.1 ts in
    rtc (pool_step world_server (operator "" "") (λ _ _, False)) (Pool Samples.start []) y ∧
    statuses_ok (world_view (pl_state y)).
Proof.
  destruct (pool_runs world_server (operator "" "") (λ _ _, False) cluster_pass Samples.start
    (op_cluster "" "" _)) as [ts Hrun].
  exists ts. split; [exact Hrun|].
  refine (statuses_stay_ok world_server world_view "" "" (λ _ _, False) Samples.start _ _ _ Hrun); [done|].
  apply items_statuses_ok. repeat (apply Forall_cons; split; [intros st [= <-]; by left|]). by apply Forall_nil.
Defined.

(** Two passes of the same Cluster race: both find no Secret and generate a pair of
    keys each; then the first one stores its pair. *)
Definition racing : pool :=
  run_schedule world_server [0; 0; 0; 1; 1; 1; 0]%nat
    (Pool Samples.start [Thread cluster_pass; Thread cluster_pass]).
(** The second one makes its next call, and both run on. *)
Definition raced : pool :=
  run_schedule world_server (1%nat :: replicate 20 0%nat ++ replicate 20 1%nat) racing.

Definition jwt_key : NamespacedName := ClusterReconciler.jwt_secret_key Samples.cluster.
Definition keys_stored (x : pool (S := world)) : option smap :=
  sec_Data <$> (find_item KSecret jwt_key (w_items (pl_state x)) : option Secret).
(** The Secret a program is about to create. *)
Definition about_to_store (t : thread) : option smap :=
  match t with
  | Thread (Vis (CCreate k o _) _) =>
      match k return obj k → option smap with KSecret => λ o : Secret, Some (sec_Data o) | _ => λ _, None end o
  | _ => None
  end.

(** In the first state the second pass is about to store other keys; in the last one
    the keys of the first pass are still there. *)
Lemma signing_keys_kept_witness :
  bool_decide (is_Some (keys_stored racing) ∧ is_Some (pl_threads racing !! 1%nat ≫= about_to_store) ∧
               (pl_threads racing !! 1%nat ≫= about_to_store) ≠ keys_stored racing) = true ∧
  ∃ sec sec' : Secret, world_view (pl_state racing) KSecret jwt_key = Some sec ∧
    world_view (pl_state raced) KSecret jwt_key = Some sec' ∧ sec_Data sec' = sec_Data sec ∧
    NewJWTManagerFromSecret sec' = NewJWTManagerFromSecret sec.
Proof.
  split; [vm_compute; reflexivity|].
  assert (is_Some (find_item KSecret jwt_key (w_items (pl_state racing)))) as [sec Hsec]
    by (vm_compute; by eexists).
  exists sec.
  assert (rtc (pool_step world_server (operator "" "") (λ _ _, False)) (Pool Samples.start []) racing) as Hy.
  { eapply rtc_l; [apply pool_begin, (op_cluster "" "" (Samples.request "prod"))|].
    eapply rtc_l; [apply pool_begin, (op_cluster "" "" (Samples.request "prod"))|].
    apply run_schedule_steps. }
  destruct (signing_keys_kept world_server world_view "" "" (λ _ _, False) jwt_key Samples.start racing raced sec)
    as (sec'&Hsec'&Hrest); [done|exact Hy|exact Hsec|apply run_schedule_steps|].
  exists sec'. exact (conj Hsec (conj Hsec' Hrest)).
Defined.
End witnesses.
