(* ===== verification/Rbac.v ===== *)
(** * Authorisation: the permissions the controllers declare

    Each controller states in kubebuilder:rbac markers what its calls need; their
    union is the role of the operator, config/rbac/role.yaml.  The theorems relate the
    calls the programs can make, in every environment, to that role. *)

From S2P Require Import Prelude GoLib KubeTypes Api Interfaces Reference Prog Calls Server Ids Jwt.
From S2P Require Import Status Reconcile ComputeSpec ControlPlane Controller.
From S2P Require Import ClusterController SafekeeperController PageserverController.
From S2P Require Import ProjectController BranchController Operator.

(** ** Rules *)

Record rule := Rule { rule_Groups : list string; rule_Resources : list string; rule_Verbs : list string }.

(** What one request asks for. *)
Record permission := Permission { pm_Group : string; pm_Resource : string; pm_Verb : string }.

#[export] Instance permission_eq_dec : EqDecision permission.
Proof. solve_decision. Defined.

Definition permissions (r : rule) : list permission :=
  g ← rule_Groups r; s ← rule_Resources r; v ← rule_Verbs r; [Permission g s v].

Definition granted (rules : list rule) : list permission := rules ≫= permissions.

Definition all_verbs : list string := ["get"; "list"; "watch"; "create"; "update"; "patch"; "delete"].
Definition read_verbs : list string := ["get"; "list"; "watch"].
Definition neon : string := "neon.oltp.molnett.org".

(** A marker with its whole verb list, the three markers of a resource the controller
    owns the lifecycle of, and the markers of a resource it only reads. *)
Definition full (group resource : string) : rule := Rule [group] [resource] all_verbs.
Definition readonly (group resource : string) : rule := Rule [group] [resource] read_verbs.
Definition managed (resource : string) : list rule :=
  [ full neon resource;
    Rule [neon] [resource +:+ "/status"] ["get"; "update"; "patch"];
    Rule [neon] [resource +:+ "/finalizers"] ["update"] ].

(** ** The markers of each controller *)

Definition cluster_rbac : list rule :=
  managed "clusters" ++ managed "projects" ++ managed "branches" ++
  [full "apps" "deployments"; full "" "services"; full "" "configmaps"; full "" "secrets"].

Definition branch_rbac : list rule :=
  managed "branches" ++
  [ readonly neon "projects"; readonly neon "clusters"; full "" "persistentvolumeclaims";
    full "" "pods"; full "" "services"; full "" "configmaps"; full "apps" "deployments" ].

Definition project_rbac : list rule := managed "projects".

Definition pageserver_rbac : list rule :=
  managed "pageservers" ++
  [full "apps" "statefulsets"; readonly "" "pods"; full "" "services"; full "" "configmaps"].

Definition safekeeper_rbac : list rule :=
  managed "safekeepers" ++ [full "apps" "statefulsets"; readonly "" "pods"; full "" "services"].

(** The role made of all the markers, which the operator's service account has. *)
Definition operator_rbac : list rule :=
  cluster_rbac ++ branch_rbac ++ project_rbac ++ pageserver_rbac ++ safekeeper_rbac.

(** config/rbac/role.yaml, the ClusterRole that is deployed. *)
Definition manager_role : list rule :=
  [ Rule [""] ["configmaps"; "persistentvolumeclaims"; "pods"; "secrets"; "services"]
      ["create"; "delete"; "get"; "list"; "patch"; "update"; "watch"];
    Rule ["apps"] ["deployments"; "statefulsets"]
      ["create"; "delete"; "get"; "list"; "patch"; "update"; "watch"];
    Rule [neon] ["branches"; "clusters"; "pageservers"; "projects"; "safekeepers"]
      ["create"; "delete"; "get"; "list"; "patch"; "update"; "watch"];
    Rule [neon] [ "branches/finalizers"; "clusters/finalizers"; "pageservers/finalizers";
                  "projects/finalizers"; "safekeepers/finalizers" ] ["update"];
    Rule [neon] [ "branches/status"; "clusters/status"; "pageservers/status";
                  "projects/status"; "safekeepers/status" ] ["get"; "patch"; "update"] ].

(** ** What a call needs *)

Definition kind_group (k : Kind) : string :=
  match k with
  | KCluster | KProject | KBranch | KPageserver | KSafekeeper => neon
  | KDeployment | KStatefulSet => "apps"
  | KSecret | KConfigMap | KService | KPod => ""
  end.

Definition kind_resource (k : Kind) : string :=
  match k with
  | KCluster => "clusters" | KProject => "projects" | KBranch => "branches"
  | KPageserver => "pageservers" | KSafekeeper => "safekeepers"
  | KDeployment => "deployments" | KStatefulSet => "statefulsets"
  | KSecret => "secrets" | KConfigMap => "configmaps" | KService => "services" | KPod => "pods"
  end.

Definition on (k : Kind) (verb : string) : permission :=
  Permission (kind_group k) (kind_resource k) verb.

(** The verbs of the Kubernetes API a call of the manager's client uses.  A read is
    answered by a cache that lists and watches the kind; an apply of an object that has
    meanwhile been deleted creates it.  Requests over HTTP, the clock and the random
    source ask the API server for nothing. *)
Definition needs (c : call) : list permission :=
  match c with
  | CGet k _ | CList k _ => [on k "get"; on k "list"; on k "watch"]
  | CCreate k _ _ => [on k "create"]
  | CApply k _ _ _ => [on k "patch"; on k "create"]
  | CMergePatch k _ _ _ => [on k "patch"]
  | CStatusPatch k _ _ => [Permission (kind_group k) (kind_resource k +:+ "/status") "patch"]
  | CHttp _ | CRand _ | CGenerateKey | CNow => []
  end.

Definition authorised (rules : list rule) (c : call) : Prop :=
  Forall (λ p, p ∈ granted rules) (needs c).

#[export] Instance authorised_dec rules c : Decision (authorised rules c).
Proof. unfold authorised. apply _. Defined.

(** A call on a known kind is authorised by computation. *)
Ltac granted := unfold authorised; cbn [needs kind_group kind_resource]; apply (bool_decide_unpack _); vm_compute; exact I.

(** Every call of the program is authorised by the deployed role, whatever the
    environment answers. *)
Definition within_role {A} (p : prog A) : Prop :=
  wp p (λ tr _, Forall (λ e, authorised manager_role (ev_call e)) tr).

(** ** The operator as a whole

    Each controller is authorised by its own markers, with the reads that the markers
    of another controller have to cover. *)

Definition reads_clusters : rule := readonly neon "clusters".
Definition reads_secrets : rule := readonly "" "secrets".

Section operator.
Context `{ConditionOps} `{OwnerOps} `{CryptoOps} `{JwtOps} `{HttpOps} `{QuantityOps} `{SemanticEqual Status}
  `{SemanticDerivative DeploymentSpec} `{SemanticDerivative StatefulSetSpec}
  `{SemanticDerivative ServiceSpec} `{SemanticDerivative smap}.

Lemma cluster_authorised req : calls_only (authorised cluster_rbac) (ClusterReconciler.Reconcile req).
Proof. all_calls granted. Qed.

Lemma safekeeper_authorised req :
  calls_only (authorised (safekeeper_rbac ++ [reads_clusters]))
     (SafekeeperReconciler.Reconcile req).
Proof. all_calls granted. Qed.

Lemma pageserver_authorised req :
  calls_only (authorised (pageserver_rbac ++ [reads_clusters; reads_secrets]))
     (PageserverReconciler.Reconcile req).
Proof. all_calls granted. Qed.

Lemma project_authorised url req :
  calls_only (authorised project_rbac) (ProjectReconciler.Reconcile url req).
Proof. all_calls granted. Qed.

Lemma branch_authorised url req :
  calls_only (authorised (branch_rbac ++ [reads_secrets])) (BranchReconciler.Reconcile url req).
Proof. all_calls granted. Qed.

Lemma control_plane_authorised url path body :
  calls_only (authorised manager_role) (controlplane.newServer url path body).
Proof.
  apply (rg_impl (λ _ _, True) (λ _ _, True) controlplane.reads_only);
    [|done|apply controlplane.newServer_calls].
  intros [[]|[]| | | | | | | |] Hc; try done; granted.
Qed.

Lemma granted_subseteq rules rules' :
  bool_decide (Forall (λ p, p ∈ granted rules') (granted rules)) → granted rules ⊆ granted rules'.
Proof. intros Hall%bool_decide_unpack p. rewrite Forall_forall in Hall. apply Hall. Qed.

Lemma within_manager_role rules {A} (p : prog A) :
  granted rules ⊆ granted manager_role → calls_only (authorised rules) p →
  within_role p.
Proof.
  intros Hsub Hp. eapply wp_mono; [|by apply calls_only_wp]. intros tr out Htr.
  apply (Forall_impl _ _ _ Htr). intros x Hx. apply (Forall_impl _ _ _ Hx). intros q. apply Hsub.
Qed.

(** C13. The role that is deployed is the one the markers of the five controllers ask
    for, no more and no less.  With it, in every environment and at every point of every
    reconcile pass and of every request to the control plane, the call the operator makes
    is authorised: nothing it does is ever refused for want of a permission. *)
Theorem operator_authorised url req path body :
  (∀ p, p ∈ granted manager_role ↔ p ∈ granted operator_rbac) ∧
  within_role (ClusterReconciler.Reconcile req) ∧
  within_role (ProjectReconciler.Reconcile url req) ∧
  within_role (BranchReconciler.Reconcile url req) ∧
  within_role (PageserverReconciler.Reconcile req) ∧
  within_role (SafekeeperReconciler.Reconcile req) ∧
  within_role (controlplane.newServer url path body).
Proof.
  split_and!.
  - intros p. split; apply granted_subseteq; vm_compute; exact I.
  - eapply within_manager_role, cluster_authorised. apply granted_subseteq. vm_compute. exact I.
  - eapply within_manager_role, project_authorised. apply granted_subseteq. vm_compute. exact I.
  - eapply within_manager_role, branch_authorised. apply granted_subseteq. vm_compute. exact I.
  - eapply within_manager_role, pageserver_authorised. apply granted_subseteq. vm_compute. exact I.
  - eapply within_manager_role, safekeeper_authorised. apply granted_subseteq. vm_compute. exact I.
  - by eapply within_manager_role, control_plane_authorised.
Qed.
End operator.
