(* ===== verification/Registration.v ===== *)
(** * Controller registration: the [SetupWithManager] methods

    Each controller names the kind it reconciles and the kinds of its children it
    watches.  What an event turns into is the business of controller-runtime and is
    taken from its documentation ([WatchOps], [WatchLaws]); what is proved is that the
    children the controllers write are the ones their watches bring back. *)

From S2P Require Import Prelude GoLib KubeTypes Api Interfaces Reference Prog Calls Server Jwt Reconcile.
From S2P Require Import StorageBroker StorageController SafekeeperRes PageserverRes ComputeRes.
From S2P Require Import Controller ClusterController SafekeeperController.
From S2P Require Import PageserverController BranchController ProjectController.

(** What a builder chain sets: [For], [Owns], [Named]. *)
Record registration := Registration { For : Kind; Owns : list Kind; Named : string }.

Module setup.
Definition cluster_SetupWithManager : registration :=
  Registration KCluster [KDeployment; KService] "cluster".
Definition branch_SetupWithManager : registration :=
  Registration KBranch [KDeployment; KService; KConfigMap] "branch".
Definition pageserver_SetupWithManager : registration :=
  Registration KPageserver [KStatefulSet; KService; KConfigMap] "pageserver".
Definition safekeeper_SetupWithManager : registration :=
  Registration KSafekeeper [KStatefulSet; KService] "safekeeper".
Definition project_SetupWithManager : registration :=
  Registration KProject [] "project".

(** The controllers the operator runs, in the order main registers them. *)
Definition all : list registration :=
  [ cluster_SetupWithManager; branch_SetupWithManager; project_SetupWithManager;
    pageserver_SetupWithManager; safekeeper_SetupWithManager ].
End setup.

(** ** The scheme *)

(** The group and version the custom resources are registered under. *)
Definition GroupVersion : string * string := ("neon.oltp.molnett.org", "v1alpha1").

(** The types the init functions of the API package hand to the scheme builder, in the
    order of their files. *)
Definition SchemeBuilder : list Kind := [KBranch; KCluster; KPageserver; KProject; KSafekeeper].

(** The kinds of Kubernetes itself the program uses; clientgoscheme registers them all. *)
Definition clientgoscheme : list Kind :=
  [KSecret; KConfigMap; KService; KDeployment; KStatefulSet; KPod].

(** What the init function of main leaves in [scheme]. *)
Definition scheme : list Kind := clientgoscheme ++ SchemeBuilder.

(** Every kind the program reads or writes has a type in the scheme. *)
Lemma scheme_complete k : k ∈ scheme.
Proof. destruct k; apply (bool_decide_unpack _); vm_compute; exact I. Qed.

(** ** controller-runtime: from events to requests *)

(** The requests a controller is called with when an object of a kind, with this
    metadata, is created, changed or deleted. *)
Class WatchOps := requests_of : registration → Kind → ObjectMeta → list Request.

(** "For defines the type of Object being reconciled, and configures the
    ControllerManagedBy to respond to create / delete / update events by reconciling the
    object."  "Owns defines types of Objects being generated by the
    ControllerManagedBy, and configures the ControllerManagedBy to respond to create /
    delete / update events by reconciling the owner object": the one its controller
    reference names, in the namespace of the object.  Other kinds are not watched. *)
Class WatchLaws `{WatchOps} := {
  watch_for : ∀ reg m, key_of m ∈ requests_of reg (For reg) m;
  watch_owns : ∀ reg k m owner r,
    k ∈ Owns reg → r ∈ om_OwnerReferences m → controls (For reg) owner r →
    om_Namespace owner = om_Namespace m → key_of owner ∈ requests_of reg k m;
  watch_only : ∀ reg k m req, req ∈ requests_of reg k m → k = For reg ∨ k ∈ Owns reg;
}.

(** A function with these laws. *)
Definition ref_requests_of (reg : registration) (k : Kind) (m : ObjectMeta) : list Request :=
  (if decide (k = For reg) then [key_of m] else []) ++
  (if decide (k ∈ Owns reg) then
     omap (λ r, if decide (or_Kind r = kind_name (For reg) ∧ or_Controller r = Some true)
                then Some {| nn_Namespace := om_Namespace m; nn_Name := or_Name r |} else None)
       (om_OwnerReferences m)
   else []).

Definition ref_watch : WatchOps := ref_requests_of.

Lemma ref_watch_laws : @WatchLaws ref_watch.
Proof.
  unfold ref_watch. split; unfold requests_of, ref_requests_of.
  - intros reg m. rewrite decide_True by done. by left.
  - intros reg k m owner r Hk Hr (Hkind&Hname&_&Hc) Hns. apply elem_of_app. right.
    rewrite decide_True by done. apply list_elem_of_omap. exists r. split; [done|].
    rewrite decide_True by done. unfold key_of. by rewrite Hns, Hname.
  - intros reg k m req Hreq. apply elem_of_app in Hreq as [Hreq|Hreq]; case_decide; auto;
      by apply elem_of_nil in Hreq.
Qed.

(** ** The children of each controller *)

Section children.
Context `{OwnerLaws}.

(** A write of a child of [owner]: a kind that [reg] watches or that is listed in
    [unwatched], in the namespace of the owner, with a controller reference to it. *)
Definition child (ok : Kind) (owner : ObjectMeta) (kinds : list Kind) (k : Kind) (m : ObjectMeta) : Prop :=
  k ∈ kinds ∧ om_Namespace owner = om_Namespace m ∧ ∃ r, r ∈ om_OwnerReferences m ∧ controls ok owner r.

Definition writes_child (ok : Kind) (owner : ObjectMeta) (kinds : list Kind) (c : call) : Prop :=
  match c with
  | CCreate k o _ | CApply k o _ _ => child ok owner kinds k (meta o)
  | CMergePatch _ _ _ _ | CStatusPatch _ _ _ => False
  | _ => True
  end.

Lemma child_owned {ok k} (owner : obj ok) (intended : obj k) kinds refs :
  k ∈ kinds → om_Namespace (meta owner) = om_Namespace (meta intended) →
  SetControllerReference ok (meta owner) (meta intended) = Ok refs →
  child ok (meta owner) kinds k (meta (owned intended refs)).
Proof.
  intros Hk Hns Hrefs. unfold child, owned. rewrite !meta_set_meta. simpl.
  destruct (owner_set ok (meta owner) (meta intended) refs Hrefs) as (r&?&?). eauto.
Qed.

Lemma ReconcileSSA_child {ok k} (owner : obj ok) (intended : obj k) drift m kinds :
  m = meta owner → k ∈ kinds → om_Namespace m = om_Namespace (meta intended) →
  calls_only (writes_child ok m kinds) (ReconcileSSA owner intended drift).
Proof. intros -> ? ?. apply calls_ReconcileSSA; [done|]. intros refs ?. split; by apply child_owned. Qed.

Lemma ensure_child {k} (branch : Branch) what (intended : obj k) drift kinds :
  k ∈ kinds → om_Namespace (br_Meta branch) = om_Namespace (meta intended) →
  calls_only (writes_child KBranch (br_Meta branch) kinds) (BranchReconciler.ensure branch what intended drift).
Proof.
  intros ? ?. apply BranchReconciler.calls_ensure; [done|].
  intros refs ?. split; by apply (child_owned (ok := KBranch) branch).
Qed.

Context `{CryptoOps} `{QuantityOps} `{SemanticDerivative DeploymentSpec}
  `{SemanticDerivative StatefulSetSpec} `{SemanticDerivative ServiceSpec} `{SemanticDerivative smap}.

(** A child is in the namespace of its owner, by its definition. *)
Ltac in_namespace :=
  unfold storagecontroller.Deployment, pageserver.StatefulSet, safekeeper.StatefulSet,
    compute.Deployment, compute.ConfigMap in *;
  repeat match goal with
  | Hd : _ ≫= _ = Returned _ |- _ => apply outcome_bind_Returned in Hd as (?&_&Hd)
  | Hd : ?r ≫= _ = Ok _ |- _ => destruct r; [cbn in Hd|done]
  end; simplify_eq/=; done.

Ltac listed := apply (bool_decide_unpack _); vm_compute; exact I.

Ltac children :=
  repeat first
    [ progress walk
    | apply ReconcileSSA_child; [done|listed|]
    | apply ensure_child; [listed|]
    | done | in_namespace ].

Lemma cluster_children cluster :
  calls_only (writes_child KCluster (cl_Meta cluster) (KSecret :: Owns setup.cluster_SetupWithManager))
    (ClusterReconciler.createClusterResources cluster).
Proof.
  unfold ClusterReconciler.createClusterResources, ClusterReconciler.reconcileJWTKeys,
    ClusterReconciler.reconcileStorageController, ClusterReconciler.reconcileStorageBroker.
  children. by apply (child_owned (ok := KCluster) (k := KSecret) cluster); [listed|..].
Qed.

Lemma safekeeper_children sk :
  calls_only (writes_child KSafekeeper (sk_Meta sk) (Owns setup.safekeeper_SetupWithManager))
    (SafekeeperReconciler.createSafekeeperResources sk).
Proof. unfold SafekeeperReconciler.createSafekeeperResources. children. Qed.

Lemma pageserver_children ps :
  calls_only (writes_child KPageserver (pgs_Meta ps) (Owns setup.pageserver_SetupWithManager))
    (PageserverReconciler.createPageserverResources ps).
Proof.
  unfold PageserverReconciler.createPageserverResources, PageserverReconciler.reconcileConfigMap. children.
Qed.

Lemma branch_children branch project :
  calls_only (writes_child KBranch (br_Meta branch) (Owns setup.branch_SetupWithManager))
    (BranchReconciler.createBranchResources branch project).
Proof.
  unfold BranchReconciler.createBranchResources, BranchReconciler.reconcileConfigMap,
    BranchReconciler.getCluster, BranchReconciler.reconcileDeployment,
    BranchReconciler.reconcileAdminService, BranchReconciler.reconcilePostgresService.
  children.
Qed.

(** ** What the watches bring back *)

Context `{WatchLaws}.

(** If the call writes a child of the owner, then any event on the child, while it
    keeps the owner references it was written with, is a request for the owner. *)
Definition brought_back (reg : registration) (owner : ObjectMeta) (c : call) : Prop :=
  match c with
  | CCreate k o _ | CApply k o _ _ =>
      ∀ m, om_Namespace m = om_Namespace (meta o) →
        om_OwnerReferences (meta o) ⊆ om_OwnerReferences m → key_of owner ∈ requests_of reg k m
  | CMergePatch _ _ _ _ | CStatusPatch _ _ _ => False
  | _ => True
  end.

Definition creates_secret (c : call) : Prop :=
  match c with CCreate KSecret _ _ | CApply KSecret _ _ _ => True | _ => False end.

Lemma child_brought_back reg owner k m m' :
  child (For reg) owner (Owns reg) k m → om_Namespace m' = om_Namespace m →
  om_OwnerReferences m ⊆ om_OwnerReferences m' → key_of owner ∈ requests_of reg k m'.
Proof. intros (Hk&Hns&r&Hr&Hc) Hns' Hsub. eapply watch_owns; eauto. congruence. Qed.

Lemma children_brought_back reg owner {A} (p : prog A) :
  calls_only (writes_child (For reg) owner (Owns reg)) p →
  wp p (λ tr _, Forall (λ e, brought_back reg owner (ev_call e)) tr).
Proof.
  intros Hp. eapply wp_mono; [|by apply calls_only_wp]. intros tr out Htr.
  apply (Forall_impl _ _ _ Htr). intros [c a] Hx; destruct c; simpl in *; try done;
    intros m ? ?; by eapply child_brought_back.
Qed.

Lemma cluster_brought_back cluster :
  wp (ClusterReconciler.createClusterResources cluster) (λ tr _, Forall (λ e,
    creates_secret (ev_call e) ∨
    brought_back setup.cluster_SetupWithManager (cl_Meta cluster) (ev_call e)) tr).
Proof.
  eapply wp_mono; [|apply calls_only_wp, cluster_children]. intros tr out Htr.
  apply (Forall_impl _ _ _ Htr). intros [c a] Hx. destruct c; simpl in *; auto;
    (destruct Hx as ([->|Hk]%elem_of_cons&Hns&Hr); [by left|right]; intros m ? ?;
     by eapply child_brought_back; [split_and!|..]).
Qed.

(** C14. The watches of the four controllers with children.  Everything a pass creates or
    applies, in every environment, is in the namespace of the resource, refers to it as
    its controller and is of a kind the controller watches; so a change or the deletion
    of any child, by anybody, is a request for the very resource it belongs to.  The one
    exception is the signing-key Secret of a Cluster, whose events reach no controller
    at all.  Nor do those of a Pod, whose state is reported in the conditions, and those
    of a Cluster reach only its own controller, so that a new image reaches the
    Pageservers, Safekeepers and Branches of the Cluster only with their next event. *)
Theorem children_watched cluster sk ps branch project :
  wp (ClusterReconciler.createClusterResources cluster) (λ tr _, Forall (λ e,
    creates_secret (ev_call e) ∨
    brought_back setup.cluster_SetupWithManager (cl_Meta cluster) (ev_call e)) tr) ∧
  wp (SafekeeperReconciler.createSafekeeperResources sk) (λ tr _, Forall (λ e,
    brought_back setup.safekeeper_SetupWithManager (sk_Meta sk) (ev_call e)) tr) ∧
  wp (PageserverReconciler.createPageserverResources ps) (λ tr _, Forall (λ e,
    brought_back setup.pageserver_SetupWithManager (pgs_Meta ps) (ev_call e)) tr) ∧
  wp (BranchReconciler.createBranchResources branch project) (λ tr _, Forall (λ e,
    brought_back setup.branch_SetupWithManager (br_Meta branch) (ev_call e)) tr) ∧
  (∀ reg k m req, reg ∈ setup.all → req ∈ requests_of reg k m →
    k ≠ KSecret ∧ k ≠ KPod ∧ (k = KCluster → reg = setup.cluster_SetupWithManager)).
Proof.
  split_and!.
  - apply cluster_brought_back.
  - apply children_brought_back, safekeeper_children.
  - apply children_brought_back, pageserver_children.
  - apply children_brought_back, branch_children.
  - intros reg k m req Hreg Hreq%watch_only.
    repeat (apply elem_of_cons in Hreg as [->|Hreg]; [set_solver|]). by apply elem_of_nil in Hreg.
Qed.
End children.

(** ** Witnesses *)

Section witness.
Import RefInstances.
#[local] Existing Instance ref_watch.
#[local] Existing Instance ref_watch_laws.

Definition sample_run : trace * outcome (option error) :=
  run Samples.start (SafekeeperReconciler.createSafekeeperResources (Samples.safekeeper_with "10Gi")).

(** The first pass of a Safekeeper creates three children; each of them is watched. *)
Lemma children_watched_witness :
  length (writes sample_run.1) = 3%nat ∧
  Forall (λ e, brought_back setup.safekeeper_SetupWithManager
    (sk_Meta (Samples.safekeeper_with "10Gi")) (ev_call e)) sample_run.1.
Proof.
  split; [vm_compute; reflexivity|].
  exact (run_wp Samples.start _ _ (proj1 (proj2 (children_watched Samples.cluster
    (Samples.safekeeper_with "10Gi") Samples.pageserver (Samples.branch_with "0badbeef")
    (Samples.project_with "0badcafe"))))).
Defined.
End witness.
