(* ===== verification/Main.v ===== *)
(** * Process wiring: cmd/controller/main.go

    [main] reads its flags, builds the TLS options of the two servers of the manager,
    and then makes one call after another to the libraries, each of which ends the
    process when it fails.  The options are Go slices of functions, and two of them are
    appended to the same slice, so the arrays behind them are modelled. *)

From S2P Require Import Prelude GoLib NetHttp KubeTypes Api Interfaces Reference Prog Server.
From S2P Require Import Reconcile Controller Registration.

Module main.

(** ** Flags *)

Record flags := {
  metricsAddr : string;
  metricsCertPath : string;
  metricsCertName : string;
  metricsCertKey : string;
  webhookCertPath : string;
  webhookCertName : string;
  webhookCertKey : string;
  enableLeaderElection : bool;
  probeAddr : string;
  controlplaneAddr : string;
  secureMetrics : bool;
  enableHTTP2 : bool;
}.

(** What [flag.Parse] leaves without arguments. *)
Definition default_flags : flags :=
  {| metricsAddr := "0";
     probeAddr := ":8081";
     controlplaneAddr := ":8082";
     enableLeaderElection := false;
     secureMetrics := true;
     webhookCertPath := "";
     webhookCertName := "tls.crt";
     webhookCertKey := "tls.key";
     metricsCertPath := "";
     metricsCertName := "tls.crt";
     metricsCertKey := "tls.key";
     enableHTTP2 := false |}.

(** ** Paths: [filepath.Join] of the standard library, on Unix, where [Clean] is [path.Clean] *)

Definition Join (dir file : string) : string :=
  if decide (dir = "") then (if decide (file = "") then "" else Clean file)
  else Clean (dir +:+ "/" +:+ file).

(** ** TLS options *)

(** [certwatcher.CertWatcher]: the pair of files it watches. *)
Record CertWatcher := { certPath : string; keyPath : string }.

#[export] Instance CertWatcher_eq_dec : EqDecision CertWatcher.
Proof. solve_decision. Defined.

(** The fields of [tls.Config] the options set. *)
Record Config := { NextProtos : list string; GetCertificate : option CertWatcher }.

(** The closures: [disableHTTP2], and the one that installs a watcher. *)
Inductive tlsOpt := disableHTTP2 | useWatcher (w : CertWatcher).

#[export] Instance tlsOpt_eq_dec : EqDecision tlsOpt.
Proof. solve_decision. Defined.

Definition apply_opt (c : Config) (o : tlsOpt) : Config :=
  match o with
  | disableHTTP2 => {| NextProtos := ["http/1.1"]; GetCertificate := GetCertificate c |}
  | useWatcher w => {| NextProtos := NextProtos c; GetCertificate := Some w |}
  end.

(** A server runs its options over its own configuration, in order. *)
Definition configure (opts : list tlsOpt) (c : Config) : Config := foldl apply_opt c opts.

(** ** Slices

    A slice is an array and a length; the arrays are in a store, each with a cell for
    every unit of its capacity.  [append] writes into the array when it has room and
    otherwise moves to a new one, whose capacity is the runtime's choice: [grow n] for a
    slice that becomes [n] long. *)

Section slices.
Context (grow : nat → nat).

Record slice := { sl_array : nat; sl_len : nat }.

(** Array 0 is that of the nil slice, without cells. *)
Definition store := list (list (option tlsOpt)).
Definition nil_slice : slice := {| sl_array := 0; sl_len := 0 |}.
Definition empty_store : store := [[]].

Definition cells (m : store) (s : slice) : list (option tlsOpt) := default [] (m !! sl_array s).

Definition append (m : store) (s : slice) (x : tlsOpt) : store * slice :=
  let a := cells m s in
  if decide (sl_len s < length a)%nat then
    (<[sl_array s := <[sl_len s := Some x]> a]> m, {| sl_array := sl_array s; sl_len := S (sl_len s) |})
  else
    (m ++ [take (sl_len s) a ++ Some x :: replicate (grow (S (sl_len s)) - S (sl_len s)) None],
     {| sl_array := length m; sl_len := S (sl_len s) |}).

(** The elements a reader of the slice sees. *)
Definition elements (m : store) (s : slice) : list tlsOpt := omap id (take (sl_len s) (cells m s)).

(** ** The calls of [main], each of which ends the process when it fails *)

Record metrics_options := {
  mo_BindAddress : string;
  mo_SecureServing : bool;
  mo_TLSOpts : slice;
  mo_FilterProvider : bool;   (** [WithAuthenticationAndAuthorization] is installed *)
}.

Record manager_options := {
  mgo_Metrics : metrics_options;
  mgo_WebhookTLSOpts : slice;
  mgo_HealthProbeBindAddress : string;
  mgo_LeaderElection : bool;
  mgo_LeaderElectionID : string;
}.

(** The reconcilers, with the one field of theirs that is not the manager's. *)
Inductive reconciler :=
  | ClusterReconciler
  | BranchReconciler (StorageControllerBaseURL : string)
  | ProjectReconciler (StorageControllerBaseURL : string)
  | PageserverReconciler
  | SafekeeperReconciler.

Definition SetupWithManager (r : reconciler) : registration :=
  match r with
  | ClusterReconciler => setup.cluster_SetupWithManager
  | BranchReconciler _ => setup.branch_SetupWithManager
  | ProjectReconciler _ => setup.project_SetupWithManager
  | PageserverReconciler => setup.pageserver_SetupWithManager
  | SafekeeperReconciler => setup.safekeeper_SetupWithManager
  end.

Inductive setup_call :=
  | NewCertWatcher (w : CertWatcher)
  | GetConfigOrDie
  | NewManager (opts : manager_options)
  | SetupController (r : reconciler)
  | AddCertWatcher (w : CertWatcher)
  | AddHealthzCheck (name : string)
  | AddReadyzCheck (name : string)
  | AddControlPlane (bindAddr computeBaseURL : string)
  | StartManager.

(** A call whose failure is logged under a message before [os.Exit] with a status, then
    the rest. *)
Inductive boot :=
  | Return
  | Try (c : setup_call) (failed : string) (status : Z) (rest : boot).

Notation "'try' c 'or' msg 'exit' n ; q" := (Try c msg n q)
  (at level 100, c at level 99, msg at level 99, n at level 99, q at level 200, right associativity,
   format "'[v' try  c  or  msg  exit  n ; '/' q ']'").

(** The same for a watcher, which there may not be. *)
Definition try_watcher (w : option CertWatcher) (c : CertWatcher → setup_call) (failed : string)
    (status : Z) (rest : boot) : boot :=
  match w with Some w => Try (c w) failed status rest | None => rest end.

Notation "'try' c 'with' w 'or' msg 'exit' n ; q" := (try_watcher w c msg n q)
  (at level 100, c at level 99, w at level 99, msg at level 99, n at level 99, q at level 200, right associativity,
   format "'[v' try  c  with  w  or  msg  exit  n ; '/' q ']'").

(** The watcher of a pair of files, when their directory is given. *)
Definition cert_watcher (path name key : string) : option CertWatcher :=
  if decide (path = "") then None
  else Some {| certPath := Join path name; keyPath := Join path key |}.

(** The slices after the three appends: the store, [webhookTLSOpts] and the metrics
    server's [TLSOpts]. *)
Definition tls_options (f : flags) (webhookCertWatcher metricsCertWatcher : option CertWatcher) :
    store * slice * slice :=
  let '(m, tlsOpts) :=
    if enableHTTP2 f then (empty_store, nil_slice) else append empty_store nil_slice disableHTTP2 in
  let webhookTLSOpts := tlsOpts in
  let '(m, webhookTLSOpts) :=
    match webhookCertWatcher with Some w => append m webhookTLSOpts (useWatcher w) | None => (m, webhookTLSOpts) end in
  let '(m, metricsTLSOpts) :=
    match metricsCertWatcher with Some w => append m tlsOpts (useWatcher w) | None => (m, tlsOpts) end in
  (m, webhookTLSOpts, metricsTLSOpts).

Definition main (f : flags) : boot :=
  let webhookCertWatcher := cert_watcher (webhookCertPath f) (webhookCertName f) (webhookCertKey f) in
  let metricsCertWatcher := cert_watcher (metricsCertPath f) (metricsCertName f) (metricsCertKey f) in
  let '(_, webhookTLSOpts, metricsTLSOpts) := tls_options f webhookCertWatcher metricsCertWatcher in
  let metricsServerOptions :=
    {| mo_BindAddress := metricsAddr f; mo_SecureServing := secureMetrics f;
       mo_TLSOpts := metricsTLSOpts; mo_FilterProvider := secureMetrics f |} in
  try NewCertWatcher with webhookCertWatcher or "Failed to initialize webhook certificate watcher" exit 1;
  try NewCertWatcher with metricsCertWatcher or "to initialize metrics certificate watcher" exit 1;
  try GetConfigOrDie or "unable to get kubeconfig" exit 1;
  try NewManager {| mgo_Metrics := metricsServerOptions; mgo_WebhookTLSOpts := webhookTLSOpts;
                    mgo_HealthProbeBindAddress := probeAddr f;
                    mgo_LeaderElection := enableLeaderElection f;
                    mgo_LeaderElectionID := "fef20f4d.oltp.molnett.org" |}
    or "unable to start manager" exit 1;
  try SetupController ClusterReconciler or "unable to create controller" exit 1;
  try SetupController (BranchReconciler "") or "unable to create controller" exit 1;
  try SetupController (ProjectReconciler "") or "unable to create controller" exit 1;
  try SetupController PageserverReconciler or "unable to create controller" exit 1;
  try SetupController SafekeeperReconciler or "unable to create controller" exit 1;
  try AddCertWatcher with metricsCertWatcher or "unable to add metrics certificate watcher to manager" exit 1;
  try AddCertWatcher with webhookCertWatcher or "unable to add webhook certificate watcher to manager" exit 1;
  try AddHealthzCheck "healthz" or "unable to set up health check" exit 1;
  try AddReadyzCheck "readyz" or "unable to set up ready check" exit 1;
  try AddControlPlane (controlplaneAddr f) "" or "unable to add controlplane runnable" exit 1;
  try StartManager or "problem running manager" exit 1;
  Return.

(** A run: the calls made, and the message and exit status of the process.  What a call
    answers may depend on the calls made before it. *)
Fixpoint boot_run (env : list setup_call → setup_call → option fault) (made : list setup_call) (b : boot) :
    list setup_call * option string * Z :=
  match b with
  | Return => ([], None, 0)
  | Try c msg status rest =>
      match env made c with
      | Some _ => ([c], Some msg, status)
      | None => let '(cs, m, code) := boot_run env (made ++ [c]) rest in (c :: cs, m, code)
      end
  end.

(** ** Properties *)

Fixpoint boot_calls (b : boot) : list setup_call :=
  match b with Return => [] | Try c _ _ rest => c :: boot_calls rest end.
Fixpoint boot_exits (b : boot) : list Z :=
  match b with Return => [] | Try _ _ status rest => status :: boot_exits rest end.

(** Each of the calls succeeded after those before it. *)
Definition succeed (env : list setup_call → setup_call → option fault) (made calls : list setup_call) : Prop :=
  ∀ done c rest, calls = done ++ c :: rest → env (made ++ done) c = None.

Lemma succeed_cons env made c calls :
  env made c = None → succeed env (made ++ [c]) calls → succeed env made (c :: calls).
Proof.
  intros Hc Hcalls [|x done] y rest Heq; simplify_eq/=; [by rewrite app_nil_r|].
  specialize (Hcalls done y rest eq_refl). by rewrite <-app_assoc in Hcalls.
Qed.

Lemma succeed_nil env made : succeed env made [].
Proof. intros [|? ?] c rest Heq; done. Qed.

(** A run makes the calls in order up to the first that fails, and its exit status and
    message are those of that failure. *)
Lemma boot_run_spec env made b :
  let '(calls, msg, code) := boot_run env made b in
  (code = 0 ∧ msg = None ∧ calls = boot_calls b ∧ succeed env made calls) ∨
  (code ∈ boot_exits b ∧ msg ≠ None ∧ ∃ done c, calls = done ++ [c] ∧ calls `prefix_of` boot_calls b ∧
     succeed env made done ∧ env (made ++ done) c ≠ None).
Proof.
  revert made. induction b as [|c msg status rest IH]; intros made; simpl;
    [left; by split_and!; [..|apply succeed_nil]|].
  destruct (env made c) as [e|] eqn:He.
  - right. split_and!; [by left|done|]. exists [], c.
    split_and!; [done|by exists (boot_calls rest)|apply succeed_nil|]. by rewrite app_nil_r, He.
  - specialize (IH (made ++ [c])). destruct (boot_run env (made ++ [c]) rest) as [[calls m] code].
    destruct IH as [(->&->&->&Hall)|(Hcode&Hm&done&x&->&Hpre&Hall&Hx)]; [left|right].
    + split_and!; [done..|by apply succeed_cons].
    + split_and!; [by right|done|]. exists (c :: done), x.
      split_and!; [done|by apply prefix_cons|by apply succeed_cons|]. by rewrite <-app_assoc in Hx.
Qed.

Definition registered (c : setup_call) : option registration :=
  match c with SetupController r => Some (SetupWithManager r) | _ => None end.

(** Everything that has to be in place before the manager starts. *)
Definition prerequisites (f : flags) (calls : list setup_call) : Prop :=
  omap registered calls = setup.all ∧
  AddHealthzCheck "healthz" ∈ calls ∧ AddReadyzCheck "readyz" ∈ calls ∧
  AddControlPlane (controlplaneAddr f) "" ∈ calls ∧
  (∀ w, (cert_watcher (webhookCertPath f) (webhookCertName f) (webhookCertKey f) = Some w ∨
         cert_watcher (metricsCertPath f) (metricsCertName f) (metricsCertKey f) = Some w) →
     NewCertWatcher w ∈ calls ∧ AddCertWatcher w ∈ calls) ∧
  StartManager ∉ calls.

Lemma main_calls f : ∃ calls, boot_calls (main f) = calls ++ [StartManager] ∧ prerequisites f calls.
Proof.
  unfold main, prerequisites.
  destruct (tls_options f _ _) as [[m wopts] mopts].
  destruct (cert_watcher (webhookCertPath f) _ _) as [w|], (cert_watcher (metricsCertPath f) _ _) as [w'|];
    (eexists; split;
     [cbn [boot_calls try_watcher]; match goal with |- ?l = _ => rewrite (app_removelast_last StartManager (l := l)) by done end; reflexivity|]);
    cbn; split_and!; try set_solver.
Qed.

Lemma prefix_snoc_last {A} (x : A) done c init :
  done ++ [c] `prefix_of` init ++ [x] → x ∉ init → x ∈ done ++ [c] → c = x ∧ done = init.
Proof.
  intros [k Hk] Hx Hin. destruct k as [|y k _] using rev_ind.
  - rewrite app_nil_r in Hk. by apply app_inj_tail in Hk as [-> ->].
  - rewrite app_assoc in Hk. apply app_inj_tail in Hk as [-> _]. set_solver.
Qed.

(** Every failure ends the process with status 1. *)
Lemma main_exits f : Forall (eq 1) (boot_exits (main f)).
Proof.
  unfold main. destruct (tls_options f _ _) as [[m wopts] mopts].
  destruct (cert_watcher (webhookCertPath f) _ _), (cert_watcher (metricsCertPath f) _ _);
    repeat constructor.
Qed.

(** C30. [main], whatever each of its calls answers after those before it: it exits with
    status 0 only when all of them succeeded, and otherwise with status 1 and a message,
    right after the first that failed.  The manager is started by the last call, and only
    once the five controllers are registered, each once and under its own name, both
    probes and the control plane on the address of its flag are added, and every
    certificate whose directory was given has a watcher that the manager runs. *)
Theorem main_starts_last env f :
  NoDup (Named <$> setup.all) ∧
  let '(calls, msg, code) := boot_run env [] (main f) in
  (code = 0 ∧ msg = None ∧ succeed env [] calls ∧
     ∃ init, calls = init ++ [StartManager] ∧ prerequisites f init) ∨
  (code = 1 ∧ msg ≠ None ∧ ∃ done c, calls = done ++ [c] ∧ succeed env [] done ∧
     env done c ≠ None ∧ (StartManager ∈ calls → c = StartManager ∧ prerequisites f done)).
Proof.
  split; [by apply (bool_decide_unpack _); vm_compute|].
  pose proof (boot_run_spec env [] (main f)) as Hrun. destruct (boot_run env [] (main f)) as [[calls msg] code].
  destruct (main_calls f) as (init&Hall&Hpre).
  destruct Hrun as [(->&->&->&Hok)|(Hcode&Hmsg&done&c&->&Hprefix&Hok&Hc)]; [left|right].
  - split_and!; [done..|]. by exists init.
  - pose proof (main_exits f) as Hexits. rewrite Forall_forall in Hexits.
    split_and!; [by rewrite (Hexits _ Hcode)|done|]. exists done, c. split_and!; [done..|].
    intros Hin. rewrite Hall in Hprefix. pose proof Hpre as (_&_&_&_&_&Hnew).
    destruct (prefix_snoc_last StartManager done c init) as [-> ->]; done.
Qed.

(** C33. The TLS options the two servers of the manager run over their configuration,
    after the three appends of [main].  Unless HTTP/2 is enabled both servers offer
    HTTP/1.1 alone, and otherwise both keep their protocols.  The metrics server gets
    its own certificate watcher.  The webhook server gets its own exactly when the
    runtime gives the first append an array of one cell, HTTP/2 is enabled, or there
    are not two different watchers: with a larger array both slices would share it and
    the append for the metrics server would overwrite the watcher of the webhook
    server, which the source does nothing to prevent. *)
Theorem tls_options_isolated f webhookCertWatcher metricsCertWatcher c :
  let '(m, wopts, mopts) := tls_options f webhookCertWatcher metricsCertWatcher in
  let webhook := configure (elements m wopts) c in
  let metrics := configure (elements m mopts) c in
  let own (w : option CertWatcher) := match w with Some w => Some w | None => GetCertificate c end in
  NextProtos webhook = (if enableHTTP2 f then NextProtos c else ["http/1.1"]) ∧
  NextProtos metrics = (if enableHTTP2 f then NextProtos c else ["http/1.1"]) ∧
  GetCertificate metrics = own metricsCertWatcher ∧
  (GetCertificate webhook = own webhookCertWatcher ↔
     (grow 1 ≤ 1)%nat ∨ enableHTTP2 f = true ∨ webhookCertWatcher = None ∨
     metricsCertWatcher = None ∨ webhookCertWatcher = metricsCertWatcher).
Proof.
  unfold tls_options. destruct (enableHTTP2 f), webhookCertWatcher as [w|], metricsCertWatcher as [w'|];
    destruct (grow 1) as [|[|n]] eqn:Hg; unfold append, elements, cells; simpl; rewrite ?Hg; simpl;
    (split_and!; [done..|]); split; intros Hw; simplify_eq; auto 6; try lia; naive_solver lia.
Qed.
End slices.
End main.
