(* ===== verification/Flags.v ===== *)
(** * The command line: package flag as cmd/controller/main.go uses it

    [main] registers twelve flags, leaves the logger and the client library to register
    theirs, and parses the arguments of the process.  Parsing is the standard library's:
    one argument after the other up to the first that is no flag, and an exit of the
    process when one of them is wrong. *)

From S2P Require Import Prelude GoLib KubeTypes Api Interfaces Reference Prog Server.
From S2P Require Import Reconcile Controller Registration Main.

Module commandline.
Import main.

(** ** Values *)

(** [strconv.ParseBool] *)
Definition ParseBool (s : string) : option bool :=
  if decide (s ∈ ["1"; "t"; "T"; "TRUE"; "true"; "True"]) then Some true
  else if decide (s ∈ ["0"; "f"; "F"; "FALSE"; "false"; "False"]) then Some false
  else None.

(** A flag sets a variable of [main]; a boolean flag needs no value. *)
Inductive variable :=
  | StringVar (set : string → flags → flags)
  | BoolVar (set : bool → flags → flags).

Definition with_metricsAddr (v : string) (f : flags) : flags :=
  {| metricsAddr := v; metricsCertPath := metricsCertPath f; metricsCertName := metricsCertName f;
     metricsCertKey := metricsCertKey f; webhookCertPath := webhookCertPath f;
     webhookCertName := webhookCertName f; webhookCertKey := webhookCertKey f;
     enableLeaderElection := enableLeaderElection f; probeAddr := probeAddr f;
     controlplaneAddr := controlplaneAddr f; secureMetrics := secureMetrics f; enableHTTP2 := enableHTTP2 f |}.
Definition with_metricsCert (path name key : string) (f : flags) : flags :=
  {| metricsAddr := metricsAddr f; metricsCertPath := path; metricsCertName := name;
     metricsCertKey := key; webhookCertPath := webhookCertPath f;
     webhookCertName := webhookCertName f; webhookCertKey := webhookCertKey f;
     enableLeaderElection := enableLeaderElection f; probeAddr := probeAddr f;
     controlplaneAddr := controlplaneAddr f; secureMetrics := secureMetrics f; enableHTTP2 := enableHTTP2 f |}.
Definition with_webhookCert (path name key : string) (f : flags) : flags :=
  {| metricsAddr := metricsAddr f; metricsCertPath := metricsCertPath f; metricsCertName := metricsCertName f;
     metricsCertKey := metricsCertKey f; webhookCertPath := path;
     webhookCertName := name; webhookCertKey := key;
     enableLeaderElection := enableLeaderElection f; probeAddr := probeAddr f;
     controlplaneAddr := controlplaneAddr f; secureMetrics := secureMetrics f; enableHTTP2 := enableHTTP2 f |}.
Definition with_addresses (probe controlplane : string) (f : flags) : flags :=
  {| metricsAddr := metricsAddr f; metricsCertPath := metricsCertPath f; metricsCertName := metricsCertName f;
     metricsCertKey := metricsCertKey f; webhookCertPath := webhookCertPath f;
     webhookCertName := webhookCertName f; webhookCertKey := webhookCertKey f;
     enableLeaderElection := enableLeaderElection f; probeAddr := probe;
     controlplaneAddr := controlplane; secureMetrics := secureMetrics f; enableHTTP2 := enableHTTP2 f |}.
Definition with_switches (elect secure http2 : bool) (f : flags) : flags :=
  {| metricsAddr := metricsAddr f; metricsCertPath := metricsCertPath f; metricsCertName := metricsCertName f;
     metricsCertKey := metricsCertKey f; webhookCertPath := webhookCertPath f;
     webhookCertName := webhookCertName f; webhookCertKey := webhookCertKey f;
     enableLeaderElection := elect; probeAddr := probeAddr f;
     controlplaneAddr := controlplaneAddr f; secureMetrics := secure; enableHTTP2 := http2 |}.

(** The calls of [flag.StringVar] and [flag.BoolVar]; the defaults are [default_flags]. *)
Definition formal : list (string * variable) := [
  ("metrics-bind-address", StringVar with_metricsAddr);
  ("health-probe-bind-address", StringVar (λ v f, with_addresses v (controlplaneAddr f) f));
  ("controlplane-bind-address", StringVar (λ v f, with_addresses (probeAddr f) v f));
  ("leader-elect", BoolVar (λ v f, with_switches v (secureMetrics f) (enableHTTP2 f) f));
  ("metrics-secure", BoolVar (λ v f, with_switches (enableLeaderElection f) v (enableHTTP2 f) f));
  ("webhook-cert-path", StringVar (λ v f, with_webhookCert v (webhookCertName f) (webhookCertKey f) f));
  ("webhook-cert-name", StringVar (λ v f, with_webhookCert (webhookCertPath f) v (webhookCertKey f) f));
  ("webhook-cert-key", StringVar (λ v f, with_webhookCert (webhookCertPath f) (webhookCertName f) v f));
  ("metrics-cert-path", StringVar (λ v f, with_metricsCert v (metricsCertName f) (metricsCertKey f) f));
  ("metrics-cert-name", StringVar (λ v f, with_metricsCert (metricsCertPath f) v (metricsCertKey f) f));
  ("metrics-cert-key", StringVar (λ v f, with_metricsCert (metricsCertPath f) (metricsCertName f) v f));
  ("enable-http2", BoolVar (λ v f, with_switches (enableLeaderElection f) (secureMetrics f) v f)) ].

Fixpoint find_flag (name : string) (l : list (string * variable)) : option variable :=
  match l with
  | [] => None
  | (n, v) :: l => if decide (n = name) then Some v else find_flag name l
  end.

(** The flags other packages register in the same set, the logger's and the client's:
    whether they are boolean, and their [Set], which keeps its effects to itself.  A name
    is registered once, or the process panics before it parses anything. *)
Class ForeignFlags := foreign_flag : string → option (bool * (string → option error)).

(** ** Arguments *)

Inductive token :=
  | NotFlag
  | Terminator
  | BadSyntax
  | Flag (name : string) (value : option string).

Fixpoint split_value (s : string) : string * option string :=
  match s with
  | EmptyString => ("", None)
  | String "=" s => ("", Some s)
  | String c s => let '(name, value) := split_value s in (String c name, value)
  end.

(** An argument without its minuses. *)
Definition flag_token (name : string) : token :=
  match name with
  | EmptyString | String "-" _ | String "=" _ => BadSyntax
  | String c s => let '(name, value) := split_value s in Flag (String c name) value
  end.

Definition tokenize (s : string) : token :=
  match s with
  | String "-" EmptyString => NotFlag
  | String "-" (String "-" EmptyString) => Terminator
  | String "-" (String "-" name) => flag_token name
  | String "-" name => flag_token name
  | _ => NotFlag
  end.

(** ** Parsing *)

Inductive parsing :=
  | Parsed (f : flags) (rest : list string)
  | Exit (code : Z) (message : string).

Definition failf (message : string) : parsing := Exit 2 message.

Section parse.
Context `{ForeignFlags}.

(** [Set] of a boolean flag of [main], and of a flag of another package. *)
Definition set_bool (name value : string) (set : bool → flags → flags) (f : flags) : flags + parsing :=
  match ParseBool value with
  | Some b => inl (set b f)
  | None => inr (failf ("invalid boolean value " +:+ fmt_q value +:+ " for -" +:+ name +:+ ": parse error"))
  end.
Definition set_foreign (is_bool : bool) (name : string) (value : option string)
    (set : string → option error) (f : flags) : flags + parsing :=
  match set (default "true" value) with
  | None => inl f
  | Some e =>
      let what :=
        match value with
        | None => "invalid boolean flag " +:+ name
        | Some v =>
            if is_bool then "invalid boolean value " +:+ fmt_q v +:+ " for -" +:+ name
            else "invalid value " +:+ fmt_q v +:+ " for flag -" +:+ name
        end in
      inr (failf (what +:+ ": " +:+ Error e))
  end.

(** The flag [name] as [Parse] sees it: whether it is boolean, and [Set]; a boolean flag
    without a value is set to "true". *)
Definition flag_of (name : string) : option (bool * (option string → flags → flags + parsing)) :=
  match find_flag name formal with
  | Some (StringVar set) => Some (false, λ v f, inl (set (default "" v) f))
  | Some (BoolVar set) => Some (true, λ v f, set_bool name (default "true" v) set f)
  | None =>
      match foreign_flag name with
      | Some (is_bool, set) => Some (is_bool, λ v f, set_foreign is_bool name v set f)
      | None => None
      end
  end.

(** [flag.Parse]: the loop over [parseOne], and the exit of a set that exits on errors. *)
Fixpoint Parse (args : list string) (f : flags) : parsing :=
  match args with
  | [] => Parsed f []
  | s :: rest =>
      match tokenize s with
      | NotFlag => Parsed f args
      | Terminator => Parsed f rest
      | BadSyntax => failf ("bad flag syntax: " +:+ s)
      | Flag name value =>
          match flag_of name with
          | None =>
              if decide (name = "help" ∨ name = "h") then Exit 0 "flag: help requested"
              else failf ("flag provided but not defined: -" +:+ name)
          | Some (true, Set_) =>
              match Set_ value f with
              | inl f => Parse rest f
              | inr exit => exit
              end
          | Some (false, Set_) =>
              match value with
              | Some v => match Set_ (Some v) f with inl f => Parse rest f | inr exit => exit end
              | None =>
                  match rest with
                  | v :: rest => match Set_ (Some v) f with inl f => Parse rest f | inr exit => exit end
                  | [] => failf ("flag needs an argument: -" +:+ name)
                  end
              end
          end
      end
  end.
End parse.

(** ** What the command line says *)

(** Ways to write a flag: "-name=value", "-name value", "-name"; with one minus or two. *)
Inductive style := Joined | Separate | Bare.
Record setting := { se_name : string; se_value : string; se_style : style; se_double : bool }.

Definition render (s : setting) : list string :=
  let dash := if se_double s then "--" else "-" in
  match se_style s with
  | Joined => [dash +:+ se_name s +:+ "=" +:+ se_value s]
  | Separate => [dash +:+ se_name s; se_value s]
  | Bare => [dash +:+ se_name s]
  end.

(** What it sets, if it is a way to write that flag. *)
Definition apply_setting (s : setting) (f : flags) : option flags :=
  match find_flag (se_name s) formal, se_style s with
  | Some (StringVar set), (Joined | Separate) => Some (set (se_value s) f)
  | Some (BoolVar set), Joined => (λ b, set b f) <$> ParseBool (se_value s)
  | Some (BoolVar set), Bare => Some (set true f)
  | _, _ => None
  end.

Fixpoint apply_settings (l : list setting) (f : flags) : option flags :=
  match l with
  | [] => Some f
  | s :: l => apply_setting s f ≫= apply_settings l
  end.

(** Every flag written out. *)
Definition fmt_bool (b : bool) : string := if b then "true" else "false".
Definition settings_of (f : flags) : list setting :=
  let set n v := {| se_name := n; se_value := v; se_style := Joined; se_double := true |} in
  [ set "metrics-bind-address" (metricsAddr f); set "health-probe-bind-address" (probeAddr f);
    set "controlplane-bind-address" (controlplaneAddr f);
    set "leader-elect" (fmt_bool (enableLeaderElection f)); set "metrics-secure" (fmt_bool (secureMetrics f));
    set "webhook-cert-path" (webhookCertPath f); set "webhook-cert-name" (webhookCertName f);
    set "webhook-cert-key" (webhookCertKey f); set "metrics-cert-path" (metricsCertPath f);
    set "metrics-cert-name" (metricsCertName f); set "metrics-cert-key" (metricsCertKey f);
    set "enable-http2" (fmt_bool (enableHTTP2 f)) ].

(** *** Tokens *)

Definition no_equals (s : string) : bool := string_all (λ c, bool_decide (c ≠ "="%char)) s.

Lemma split_value_plain s : no_equals s = true → split_value s = (s, None).
Proof.
  induction s as [|c s IH]; [done|]. unfold no_equals in *. simpl.
  intros [Hc%bool_decide_eq_true Hs]%andb_true_iff. rewrite IH by done.
  by destruct c as [[] [] [] [] [] [] [] []].
Qed.

Lemma split_value_joined s v : no_equals s = true → split_value (s +:+ "=" +:+ v) = (s, Some v).
Proof.
  induction s as [|c s IH]; [done|]. unfold no_equals in *. rewrite string_app_cons. simpl.
  intros [Hc%bool_decide_eq_true Hs]%andb_true_iff. rewrite IH by done.
  by destruct c as [[] [] [] [] [] [] [] []].
Qed.

(** The names that can be written after one minus or two. *)
Definition writable (name : string) : bool :=
  match name with
  | EmptyString => false
  | String c s => bool_decide (c ≠ "-"%char) && bool_decide (c ≠ "="%char) && no_equals s
  end.

Lemma tokenize_plain (double : bool) name :
  writable name = true → tokenize ((if double then "--" else "-") +:+ name) = Flag name None.
Proof.
  destruct name as [|c s]; [done|]. simpl.
  intros [[Hc%bool_decide_eq_true Hc'%bool_decide_eq_true]%andb_true_iff Hs]%andb_true_iff.
  assert (flag_token (String c s) = Flag (String c s) None) as Ht.
  { unfold flag_token. rewrite split_value_plain by done. by destruct c as [[] [] [] [] [] [] [] []]. }
  destruct double; rewrite <-Ht; [done|]. by destruct c as [[] [] [] [] [] [] [] []].
Qed.

Lemma tokenize_joined (double : bool) name v :
  writable name = true →
  tokenize ((if double then "--" else "-") +:+ name +:+ "=" +:+ v) = Flag name (Some v).
Proof.
  destruct name as [|c s]; [done|]. simpl.
  intros [[Hc%bool_decide_eq_true Hc'%bool_decide_eq_true]%andb_true_iff Hs]%andb_true_iff.
  assert (flag_token (String c s +:+ "=" +:+ v) = Flag (String c s) (Some v)) as Ht.
  { rewrite string_app_cons. unfold flag_token. rewrite split_value_joined by done.
    by destruct c as [[] [] [] [] [] [] [] []]. }
  destruct double; rewrite <-Ht, string_app_cons; [done|]. by destruct c as [[] [] [] [] [] [] [] []].
Qed.

Lemma formal_writable name v : find_flag name formal = Some v → writable name = true.
Proof.
  assert (Forall (λ nv, writable nv.1 = true) formal) as Hall by (by apply (bool_decide_unpack _); vm_compute).
  revert Hall. generalize formal as l. induction l as [|[n w] l IH]; simpl; [done|].
  intros [Hn Hl]%Forall_cons. case_decide; [by subst|]. by apply IH.
Qed.

(** *** Parsing what is written *)

Section properties.
Context `{ForeignFlags}.

Lemma Parse_setting s f f' rest :
  apply_setting s f = Some f' → Parse (render s ++ rest) f = Parse rest f'.
Proof.
  unfold apply_setting, render. destruct s as [name value st dbl].
  cbn [se_name se_value se_style se_double].
  destruct (find_flag name formal) as [v|] eqn:Hv; [|done]. pose proof (formal_writable _ _ Hv) as Hw.
  destruct v as [set|set], st; simpl; intros Hs; try done; [..|apply fmap_Some in Hs as (b & Hb & ->)|];
    simplify_eq; rewrite ?tokenize_joined, ?tokenize_plain by done; unfold flag_of, set_bool;
    rewrite Hv; simpl; rewrite ?Hb; done.
Qed.

Lemma settings_of_all f f0 : apply_settings (settings_of f) f0 = Some f.
Proof. destruct f as [? ? ? ? ? ? ? [] ? ? [] []], f0; reflexivity. Qed.

(** C32. The command line says what it sets: for any settings, each written with one minus
    or two, joined to its value by an equals sign, followed by it, or bare for a boolean,
    Parse runs through them in order, a later one over an earlier one, and goes on with
    what follows in the state they lead to.  In particular every combination of the
    twelve flags can be written out and is read back as it was, whatever the defaults. *)
Theorem Parse_settings l f f' rest :
  apply_settings l f = Some f' →
  Parse (concat (render <$> l) ++ rest) f = Parse rest f' ∧
  Parse (concat (render <$> settings_of f)) f' = Parsed f [].
Proof.
  intros Hl. split.
  - revert f Hl. induction l as [|s l IH]; intros f Hl; simpl in *; [by simplify_eq|].
    apply bind_Some in Hl as (f1 & Hs & Hl). rewrite <-app_assoc, (Parse_setting _ _ _ _ Hs). auto.
  - pose proof (settings_of_all f f') as Hall. revert Hall. generalize f' as g. generalize (settings_of f) as k.
    induction k as [|s k IH]; intros g Hk; simpl in *; [by simplify_eq|].
    apply bind_Some in Hk as (g1 & Hs & Hk). rewrite (Parse_setting _ _ _ _ Hs). auto.
Qed.
End properties.

(** Two settings and a word that is no flag, with a flag behind it that is not read. *)
#[local] Instance no_foreign_flags : ForeignFlags := λ _, None.

Definition sample_settings : list setting :=
  [ {| se_name := "leader-elect"; se_value := ""; se_style := Bare; se_double := true |};
    {| se_name := "controlplane-bind-address"; se_value := "-:9000"; se_style := Separate; se_double := false |} ].

Lemma Parse_settings_witness :
  ∃ f', apply_settings sample_settings default_flags = Some f' ∧
  Parse (concat (render <$> sample_settings) ++ ["false"; "--enable-http2"]) default_flags =
    Parse ["false"; "--enable-http2"] f' ∧
  Parse (concat (render <$> settings_of default_flags)) f' = Parsed default_flags [].
Proof.
  eexists. split; [reflexivity|]. apply Parse_settings. reflexivity.
Defined.

Example Parse_rest_ignored :
  Parse ["--leader-elect"; "false"; "--enable-http2"] default_flags =
    Parsed (with_switches true true false default_flags) ["false"; "--enable-http2"].
Proof. vm_compute. reflexivity. Qed.
Example Parse_unknown : Parse ["-verbose"] default_flags = Exit 2 "flag provided but not defined: -verbose".
Proof. vm_compute. reflexivity. Qed.
Example Parse_help : Parse ["--h"] default_flags = Exit 0 "flag: help requested".
Proof. vm_compute. reflexivity. Qed.

End commandline.
