(* ===== verification/Convergence.v ===== *)
(** * Convergence of the children

    For every controller with children: what it means for them to be in place, and
    that a pass drives the cluster there, on every server that keeps what is written
    ([ApiServer]).  Once in place they are left alone, by this pass and by any other
    change that touches none of the places named. *)

From S2P Require Import Prelude GoLib KubeTypes Api Interfaces Reference Prog Server Jwt Reconcile.
From S2P Require Import StorageBroker StorageController SafekeeperRes PageserverRes ComputeRes.
From S2P Require Import Controller ApiServer ClusterController SafekeeperController.
From S2P Require Import PageserverController BranchController.

(** ** Places *)

Lemma suffix_ne (s t : string) : t ≠ "" → s ≠ s +:+ t.
Proof.
  intros Ht Hs. apply (f_equal String.length) in Hs. rewrite string_length_app in Hs.
  destruct t; [done|]. simpl in Hs. lia.
Qed.

(** Places of different kinds, or under names that differ. *)
Ltac apart :=
  intros ? ? ?;
  repeat match goal with
  | H : _ ∈ [] |- _ => by apply not_elem_of_nil in H
  | H : _ ∈ _ :: _ |- _ => apply elem_of_cons in H as [H|H]
  | H : _ ∈ _ ++ _ |- _ => apply elem_of_app in H as [H|H]
  end; subst; simplify_eq;
  unfold safekeeper.HeadlessName, pageserver.HeadlessName, storagecontroller.Name, storagebroker.Name in *;
  try match goal with
  | H : ?s = ?s +:+ _ |- _ => by apply suffix_ne in H
  | H : ?s +:+ _ = ?s |- _ => symmetry in H; by apply suffix_ne in H
  | H : ?s +:+ _ = ?s +:+ _ |- _ => by apply string_app_inj_l in H
  end.

Section convergence.
Context `{ConditionOps} `{OwnerLaws} `{SemanticEqual Status}
  `{SemanticDerivative DeploymentSpec} `{SemanticDerivative StatefulSetSpec}
  `{SemanticDerivative ServiceSpec} `{SemanticDerivative smap}.
Context {S : Type} (h : server S) (view_of : S → view) `{!ApiServer h view_of}.

(** ** A Safekeeper *)

Section safekeeper.
Context `{QuantityOps} (sk : Safekeeper).

Let key (name : string) : NamespacedName := SafekeeperReconciler.child_key sk name.

Definition safekeeper_places : list place :=
  [ (KService, key (safekeeper.Name sk)); (KService, key (safekeeper.HeadlessName sk));
    (KCluster, SafekeeperReconciler.cluster_key sk); (KStatefulSet, key (safekeeper.Name sk)) ].

(** The part of them that is its own. *)
Definition safekeeper_child_places : list place :=
  [ (KService, key (safekeeper.Name sk)); (KService, key (safekeeper.HeadlessName sk));
    (KStatefulSet, key (safekeeper.Name sk)) ].

(** Both Services as intended, and the StatefulSet as intended for the image of the
    Cluster there is. *)
Definition safekeeper_in_place (v : view) : Prop :=
  in_sync (k := KService) (key (safekeeper.Name sk)) (service_drift (safekeeper.Service sk)) v ∧
  in_sync (k := KService) (key (safekeeper.HeadlessName sk)) (service_drift (safekeeper.HeadlessService sk)) v ∧
  ∃ cluster sts, found (k := KCluster) v (SafekeeperReconciler.cluster_key sk) cluster ∧
    safekeeper.StatefulSet sk (cls_NeonImage (cl_Spec cluster)) = Returned sts ∧
    in_sync (k := KStatefulSet) (key (safekeeper.Name sk)) (statefulset_drift sts) v.

Lemma maintains_safekeeper_sts cluster :
  SafekeeperReconciler.size_ok sk →
  maintains [(KStatefulSet, key (safekeeper.Name sk))] [(KStatefulSet, key (safekeeper.Name sk))] (λ _, True)
    (λ v, ∃ sts, safekeeper.StatefulSet sk (cls_NeonImage (cl_Spec cluster)) = Returned sts ∧
       in_sync (k := KStatefulSet) (key (safekeeper.Name sk)) (statefulset_drift sts) v)
    (SafekeeperReconciler.sts_step sk cluster).
Proof.
  intros Hsize. unfold SafekeeperReconciler.sts_step.
  destruct (SafekeeperReconciler.safekeeper_StatefulSet_returns sk (cls_NeonImage (cl_Spec cluster)) Hsize)
    as [sts Hsts]. pose proof (SafekeeperReconciler.safekeeper_StatefulSet_key _ _ _ Hsts) as Hkey.
  change (key_of (sts_Meta sts) = key (safekeeper.Name sk)) in Hkey. rewrite <-Hkey, Hsts.
  unfold safekeeper.StatefulSet in Hsts. destruct (MustParse _); [|done].
  eapply maintains_ext; [| | |apply (maintains_statefulset (ok := KSafekeeper) sk sts)];
    [done|naive_solver..|by injection Hsts as <-|by injection Hsts as <-].
Qed.

Lemma safekeeper_maintains :
  SafekeeperReconciler.size_ok sk →
  maintains safekeeper_places safekeeper_child_places
    (λ v, ∃ cluster, found (k := KCluster) v (SafekeeperReconciler.cluster_key sk) cluster)
    safekeeper_in_place (runs_in_order (SafekeeperReconciler.safekeeper_steps sk)).
Proof.
  clear dependent S. intros Hsize. eapply maintains_places; [eapply maintains_ext; [| |done|]| |].
  3: { apply maintains_cons; [by apply maintains_service|
         apply maintains_cons; [by apply maintains_service|
           apply maintains_cons; [apply maintains_read|apply maintains_nil|..]|..]|..];
       [intros; by apply maintains_safekeeper_sts
       |intros cluster; by apply (m_targets _ _ _ _ _ (maintains_safekeeper_sts cluster Hsize))
       |set_solver|try apart..]. }
  - naive_solver.
  - unfold safekeeper_in_place. naive_solver.
  - done.
  - done.
Qed.

(** The children of a Safekeeper converge.  On every server that keeps what is written,
    whatever it holds to begin with: a pass that succeeds leaves both Services and the
    StatefulSet in place; once they are in place a pass writes nothing and changes
    nothing; and when the parent Cluster exists a pass can only fail if a call is
    answered by a failure.  Being in place depends on four objects only, so no other
    change in the cluster undoes it. *)
Theorem createSafekeeperResources_converges :
  SafekeeperReconciler.size_ok sk →
  converges h view_of (SafekeeperReconciler.createSafekeeperResources sk)
    (λ v, ∃ cluster, found (k := KCluster) v (SafekeeperReconciler.cluster_key sk) cluster)
    safekeeper_in_place ∧
  depends_on safekeeper_places safekeeper_in_place.
Proof.
  intros Hsize. eapply (maintains_converges h view_of); [|by apply safekeeper_maintains|done].
  by apply SafekeeperReconciler.createSafekeeperResources_steps.
Qed.
End safekeeper.

(** ** A Pageserver *)

Section pageserver.
Context `{QuantityOps} (ps : Pageserver).

Let key (name : string) : NamespacedName := PageserverReconciler.in_namespace ps name.

Definition pageserver_places : list place :=
  [ (KSecret, PageserverReconciler.bucket_key ps); (KConfigMap, key (pageserver.Name ps));
    (KService, key (pageserver.Name ps)); (KService, key (pageserver.HeadlessName ps));
    (KCluster, key (pss_Cluster (pgs_Spec ps))); (KStatefulSet, key (pageserver.Name ps)) ].

(** The ConfigMap as intended for the bucket secret there is, both Services, and the
    StatefulSet as intended for the image of the Cluster there is. *)
Definition pageserver_in_place (v : view) : Prop :=
  (∃ secret, found (k := KSecret) v (PageserverReconciler.bucket_key ps) secret ∧
     in_sync (k := KConfigMap) (key (pageserver.Name ps)) (configmap_drift (pageserver.ConfigMap ps secret)) v) ∧
  in_sync (k := KService) (key (pageserver.Name ps)) (service_drift (pageserver.Service ps)) v ∧
  in_sync (k := KService) (key (pageserver.HeadlessName ps)) (service_drift (pageserver.HeadlessService ps)) v ∧
  ∃ cluster sts, found (k := KCluster) v (key (pss_Cluster (pgs_Spec ps))) cluster ∧
    pageserver.StatefulSet ps (cls_NeonImage (cl_Spec cluster)) = Returned sts ∧
    in_sync (k := KStatefulSet) (key (pageserver.Name ps)) (statefulset_drift sts) v.

Lemma maintains_pageserver_sts cluster :
  PageserverReconciler.spec_ok ps →
  maintains [(KStatefulSet, key (pageserver.Name ps))] [(KStatefulSet, key (pageserver.Name ps))] (λ _, True)
    (λ v, ∃ sts, pageserver.StatefulSet ps (cls_NeonImage (cl_Spec cluster)) = Returned sts ∧
       in_sync (k := KStatefulSet) (key (pageserver.Name ps)) (statefulset_drift sts) v)
    (PageserverReconciler.sts_step ps cluster).
Proof.
  intros Hok. unfold PageserverReconciler.sts_step.
  destruct (PageserverReconciler.pageserver_StatefulSet_returns ps (cls_NeonImage (cl_Spec cluster)) Hok)
    as [sts Hsts]. pose proof (PageserverReconciler.pageserver_StatefulSet_key _ _ _ Hsts) as Hkey.
  change (key_of (sts_Meta sts) = key (pageserver.Name ps)) in Hkey. rewrite <-Hkey, Hsts.
  unfold pageserver.StatefulSet in Hsts. destruct (MustParse _); [|done]. cbn [mbind outcome_bind] in Hsts.
  destruct (pageserver.podSpec _ _ _); [|done].
  eapply maintains_ext; [| | |apply (maintains_statefulset (ok := KPageserver) ps sts)];
    [done|naive_solver..|by injection Hsts as <-|by injection Hsts as <-].
Qed.

Lemma maintains_pageserver_configmap secret :
  maintains [(KConfigMap, key (pageserver.Name ps))] [(KConfigMap, key (pageserver.Name ps))] (λ _, True)
    (in_sync (k := KConfigMap) (key (pageserver.Name ps)) (configmap_drift (pageserver.ConfigMap ps secret)))
    (PageserverReconciler.configmap_step ps secret).
Proof. by apply (maintains_configmap (ok := KPageserver) ps (pageserver.ConfigMap ps secret)). Qed.

Lemma pageserver_maintains :
  PageserverReconciler.spec_ok ps →
  maintains pageserver_places (PageserverReconciler.pageserver_children ps)
    (λ v, (∃ secret, found (k := KSecret) v (PageserverReconciler.bucket_key ps) secret) ∧
          ∃ cluster, found (k := KCluster) v (key (pss_Cluster (pgs_Spec ps))) cluster)
    pageserver_in_place (runs_in_order (PageserverReconciler.pageserver_steps ps)).
Proof.
  clear dependent S. intros Hok. eapply maintains_places; [eapply maintains_ext; [| |done|]| |].
  3: { apply maintains_cons; [apply maintains_read|
         apply maintains_cons; [by apply maintains_service|
           apply maintains_cons; [by apply maintains_service|
             apply maintains_cons; [apply maintains_read|apply maintains_nil|..]|..]|..]|..];
       [intros; by apply maintains_pageserver_configmap
       |intros secret; apply (m_targets _ _ _ _ _ (maintains_pageserver_configmap secret))
       |set_solver
       |intros; by apply maintains_pageserver_sts
       |intros cluster; by apply (m_targets _ _ _ _ _ (maintains_pageserver_sts cluster Hok))
       |set_solver|try apart..]. }
  - naive_solver.
  - unfold pageserver_in_place. naive_solver.
  - done.
  - done.
Qed.

(** The children of a Pageserver converge, in the same three senses, to the ConfigMap
    made from the bucket secret there is, both Services, and the StatefulSet made for
    the image of the Cluster there is; what a pass needs is the secret and the
    Cluster. *)
Theorem createPageserverResources_converges :
  PageserverReconciler.spec_ok ps →
  converges h view_of (PageserverReconciler.createPageserverResources ps)
    (λ v, (∃ secret, found (k := KSecret) v (PageserverReconciler.bucket_key ps) secret) ∧
          ∃ cluster, found (k := KCluster) v (key (pss_Cluster (pgs_Spec ps))) cluster)
    pageserver_in_place ∧
  depends_on pageserver_places pageserver_in_place.
Proof.
  intros Hok. eapply (maintains_converges h view_of); [|by apply pageserver_maintains|done].
  by apply PageserverReconciler.createPageserverResources_steps.
Qed.
End pageserver.

(** ** A Cluster *)

Section cluster.
Context `{CryptoLaws} (cluster : Cluster).

Let key (name : string) : NamespacedName := ClusterReconciler.child_key cluster name.
Let name : string := om_Name (cl_Meta cluster).

Definition cluster_places : list place :=
  [ (KSecret, ClusterReconciler.jwt_secret_key cluster);
    (KDeployment, key (storagecontroller.Name name)); (KService, key (storagecontroller.Name name));
    (KDeployment, key (storagebroker.Name name)); (KService, key (storagebroker.Name name)) ].

(** There are signing keys, and both components are as intended. *)
Definition cluster_in_place (v : view) : Prop :=
  (∃ secret, found (k := KSecret) v (ClusterReconciler.jwt_secret_key cluster) secret) ∧
  (∃ dep, storagecontroller.Deployment cluster = Returned dep ∧
     in_sync (k := KDeployment) (key (storagecontroller.Name name)) (deployment_drift dep) v) ∧
  in_sync (k := KService) (key (storagecontroller.Name name)) (service_drift (storagecontroller.Service cluster)) v ∧
  in_sync (k := KDeployment) (key (storagebroker.Name name)) (deployment_drift (storagebroker.Deployment cluster)) v ∧
  in_sync (k := KService) (key (storagebroker.Name name)) (service_drift (storagebroker.Service cluster)) v.

Lemma maintains_jwt :
  maintains [(KSecret, ClusterReconciler.jwt_secret_key cluster)]
    [(KSecret, ClusterReconciler.jwt_secret_key cluster)] (λ _, True)
    (λ v, ∃ secret, found (k := KSecret) v (ClusterReconciler.jwt_secret_key cluster) secret)
    (ClusterReconciler.jwt_step cluster).
Proof.
  split.
  - intros t e x Hrun Hx. eapply elem_of_sublist; [exact Hx|by eapply ClusterReconciler.jwt_step_targets].
  - done.
  - intros v v' Ha (s&Hs&Hk). exists s. split; [|done]. rewrite Ha by left. done.
  - intros v t v' Hrun. remember None as err eqn:Herr.
    destruct Hrun as [s|? ?|? ? ?|? ? ? ?|e kp privDER pubDER refs r He Hpriv Hpub]; try done.
    + intros (v1&[Hsame [Hv Hk]]&Hc). exists s. split; [|done]. cbn in Hc.
      by rewrite (Hc KSecret _), (Hsame KSecret _).
    + destruct r as [o'|]; [|done].
      intros (v1&_&v2&_&v3&[[_ Hw] _]&Hc). cbn [ev_answer] in Hw.
      destruct (Hw o' eq_refl) as [[Hk _] Hv]. rewrite (key_owned (k := KSecret)) in Hv, Hk.
      exists o'. split; [|exact Hk]. cbn in Hc. by rewrite (Hc KSecret _).
  - intros v t e v' (s&Hs&_) Hrun.
    destruct Hrun as [s'|? f Hf|? f ? Hf|? f ? ? Hf|f kp privDER pubDER refs r Hf];
      [done|intros _; split; [done|]; intros [Hans _]%Forall_cons; simpl in Hans; congruence|..];
      intros (v1&[_ Hv]&_); specialize (Hv Hf); congruence.
  - intros v t e v' _ Hrun _ Hcalm.
    destruct Hrun as [s'|? f Hf|? f ? Hf|? f kp f' Hf Hroot Hwhy|f kp privDER pubDER refs r Hf].
    + done.
    + apply Forall_cons in Hcalm as [Hans _]. simpl in Hans. congruence.
    + apply Forall_cons in Hcalm as [_ [[? Hans] _]%Forall_cons]. simpl in Hans. congruence.
    + exfalso. destruct (marshal_private (kp_private kp)) as [? H1'].
      destruct (marshal_public (kp_public kp)) as [? H2'].
      destruct (owner_fresh KCluster (cl_Meta cluster)
        (sec_Meta (ClusterReconciler.jwt_secret cluster "" "")) eq_refl eq_refl) as [? H3'].
      destruct Hwhy as [Hw|[Hw|Hw]]; congruence.
    + apply Forall_cons in Hcalm as [_ [_ [[? Hans] _]%Forall_cons]%Forall_cons].
      simpl in Hans. by subst r.
Qed.

Lemma cluster_maintains dep :
  storagecontroller.Deployment cluster = Returned dep →
  maintains cluster_places cluster_places (λ _, True) cluster_in_place
    (runs_in_order (ClusterReconciler.cluster_steps cluster dep)).
Proof.
  clear dependent S. intros Hdep.
  assert (om_OwnerReferences (dep_Meta dep) = [] ∧ om_Namespace (dep_Meta dep) = om_Namespace (cl_Meta cluster))
    as [Hfresh Hns]
    by (unfold storagecontroller.Deployment in Hdep; by destruct (cls_StorageControllerDatabaseSecret _); simplify_eq/=).
  pose proof (ClusterReconciler.storagecontroller_Deployment_inv _ _ Hdep) as Hkey.
  change (key_of (dep_Meta dep) = key (storagecontroller.Name name)) in Hkey.
  eapply maintains_places; [eapply maintains_ext; [| |done|]| |].
  3: { apply maintains_cons; [apply maintains_jwt|
         apply maintains_cons; [by apply maintains_deployment|
           apply maintains_cons; [by apply maintains_service|
             apply maintains_cons; [by apply maintains_deployment|
               apply maintains_cons; [by apply maintains_service|apply maintains_nil|..]|..]|..]|..]|..].
       all: rewrite ?Hkey;
         change (key_of (dep_Meta (storagebroker.Deployment cluster))) with (key (storagebroker.Name name)); apart. }
  - naive_solver.
  - intros v. unfold cluster_in_place. rewrite Hkey, Hdep. naive_solver.
  - by rewrite Hkey.
  - by rewrite Hkey.
Qed.

(** The children of a Cluster converge, in the same three senses, to signing keys and
    both components being there as intended; nothing has to exist beforehand.  The
    keys of a Cluster that is in place are therefore never regenerated. *)
Theorem createClusterResources_converges secret :
  cls_StorageControllerDatabaseSecret (cl_Spec cluster) = Some secret →
  converges h view_of (ClusterReconciler.createClusterResources cluster) (λ _, True) cluster_in_place ∧
  depends_on cluster_places cluster_in_place.
Proof.
  intros Hsecret.
  destruct (storagecontroller.Deployment cluster) as [dep|w] eqn:Hdep;
    [|unfold storagecontroller.Deployment in Hdep; by rewrite Hsecret in Hdep].
  eapply (maintains_converges h view_of); [|by apply (cluster_maintains dep)|done].
  by eapply ClusterReconciler.createClusterResources_steps.
Qed.
End cluster.

(** ** A Branch *)

Section branch.
Context `{CryptoOps} `{QuantityLaws} (branch : Branch) (project : Project).

Let key (name : string) : NamespacedName := BranchReconciler.in_namespace branch name.
Let name : string := om_Name (br_Meta branch).
Let cluster_key : NamespacedName := BranchReconciler.cluster_key project.

(** Where the signing keys of the project's Cluster are. *)
Let keys_key : NamespacedName :=
  {| nn_Namespace := "neon"; nn_Name := "cluster-" +:+ prs_ClusterName (pr_Spec project) +:+ "-jwt" |}.

Definition branch_places : list place :=
  [ (KCluster, cluster_key); (KSecret, keys_key); (KConfigMap, key (name +:+ "-compute-spec"));
    (KDeployment, key (name +:+ "-compute-node"));
    (KService, key (name +:+ "-admin")); (KService, key (name +:+ "-postgres")) ].

(** The ConfigMap as intended for the signing keys there are, the compute node and
    both its Services. *)
Definition branch_in_place (v : view) : Prop :=
  (∃ cluster secret cm, found (k := KCluster) v cluster_key cluster ∧ found (k := KSecret) v keys_key secret ∧
     compute.ConfigMap branch project secret = Ok cm ∧
     in_sync (k := KConfigMap) (key (name +:+ "-compute-spec")) (configmap_drift cm) v) ∧
  (∃ dep, compute.Deployment branch project = Returned dep ∧
     in_sync (k := KDeployment) (key (name +:+ "-compute-node")) (deployment_drift dep) v) ∧
  in_sync (k := KService) (key (name +:+ "-admin")) (service_drift (compute.AdminService branch project)) v ∧
  in_sync (k := KService) (key (name +:+ "-postgres")) (service_drift (compute.PostgresService branch project)) v.

(** What a pass needs to find. *)
Definition branch_parents (v : view) : Prop :=
  ∃ cluster secret jm, found (k := KCluster) v cluster_key cluster ∧ found (k := KSecret) v keys_key secret ∧
    NewJWTManagerFromSecret secret = Ok jm.

Lemma maintains_branch_configmap secret :
  maintains [(KConfigMap, key (name +:+ "-compute-spec"))] [(KConfigMap, key (name +:+ "-compute-spec"))]
    (λ _, ∃ jm, NewJWTManagerFromSecret secret = Ok jm)
    (λ v, ∃ cm, compute.ConfigMap branch project secret = Ok cm ∧
       in_sync (k := KConfigMap) (key (name +:+ "-compute-spec")) (configmap_drift cm) v)
    (BranchReconciler.configmap_step branch project secret).
Proof.
  unfold BranchReconciler.configmap_step.
  destruct (compute.ConfigMap branch project secret) as [cm|e] eqn:Hcm.
  - pose proof (compute.ConfigMap_key _ _ _ _ Hcm) as Hkey.
    change (key_of (cm_Meta cm) = key (name +:+ "-compute-spec")) in Hkey. rewrite <-Hkey.
    unfold compute.ConfigMap in Hcm. destruct (NewJWTManagerFromSecret secret) as [jm|]; [|done].
    eapply maintains_ext; [| |done|apply (maintains_configmap (ok := KBranch) branch cm)];
      [naive_solver..|by injection Hcm as <-|by injection Hcm as <-].
  - split; try naive_solver.
    + intros t e' x [-> _] Hx. by apply not_elem_of_nil in Hx.
    + intros v t e' v' [jm Hjm]. unfold compute.ConfigMap in Hcm. by rewrite Hjm in Hcm.
Qed.

Lemma branch_maintains dep :
  compute.Deployment branch project = Returned dep →
  maintains branch_places (BranchReconciler.branch_children branch) branch_parents branch_in_place
    (runs_in_order (BranchReconciler.branch_steps branch project dep)).
Proof.
  clear dependent S. intros Hdep. assert (key_of (dep_Meta dep) = key (name +:+ "-compute-node")) as Hkey.
  { destruct (compute.Deployment_returns branch project) as (dep'&Hdep'&Hkey'). rewrite Hdep in Hdep'. by injection Hdep' as <-. }
  assert (om_OwnerReferences (dep_Meta dep) = [] ∧ om_Namespace (dep_Meta dep) = om_Namespace (br_Meta branch))
    as [Hfresh Hns].
  { split; [|by injection Hkey]. unfold compute.Deployment, MustParse in Hdep.
    destruct (ParseQuantity _); [|done]. by injection Hdep as <-. }
  assert (∀ cluster : obj KCluster, key_of (meta cluster) = cluster_key →
    BranchReconciler.jwt_secret_key cluster = keys_key) as Hkeys.
  { intros cl Hcl. injection Hcl as Hn Hm. unfold BranchReconciler.jwt_secret_key, keys_key.
    change (om_Namespace (cl_Meta cl) = "neon") in Hn. change (om_Name (cl_Meta cl) = prs_ClusterName (pr_Spec project)) in Hm.
    by rewrite Hn, Hm. }
  eapply maintains_places; [eapply maintains_ext; [| |done|]| |].
  3: { apply maintains_cons; [apply maintains_read|
         apply maintains_cons; [by apply maintains_deployment|
           apply maintains_cons; [by apply maintains_service|
             apply maintains_cons; [by apply maintains_service|apply maintains_nil|..]|..]|..]|..].
       { intros cl Hcl. rewrite Hkeys by done. apply maintains_read.
         - intros secret _. apply maintains_branch_configmap.
         - intros secret. apply (m_targets _ _ _ _ _ (maintains_branch_configmap secret)).
         - set_solver. }
       { intros cl t e x Hread Hx. destruct Hread as [|secret tr err HP]; [by apply not_elem_of_nil in Hx|].
         by eapply (m_targets _ _ _ _ _ (maintains_branch_configmap secret)). }
       1: set_solver. all: rewrite ?Hkey; apart. }
  - unfold branch_parents. naive_solver.
  - intros v. unfold branch_in_place. rewrite Hkey, Hdep. naive_solver.
  - by rewrite Hkey.
  - by rewrite Hkey.
Qed.

(** The children of a Branch converge, in the same three senses, to the ConfigMap with
    the public half of the Cluster's signing keys, the compute node and its two
    Services; what a pass needs is the Cluster, in the namespace [neon], and keys that
    can be read. *)
Theorem createBranchResources_converges :
  converges h view_of (BranchReconciler.createBranchResources branch project) branch_parents branch_in_place ∧
  depends_on branch_places branch_in_place.
Proof.
  destruct (compute.Deployment_returns branch project) as (dep&Hdep&_).
  eapply (maintains_converges h view_of); [|by apply (branch_maintains dep)|done].
  by apply BranchReconciler.createBranchResources_steps.
Qed.
End branch.
End convergence.

(** ** Examples: two passes on the in-memory server *)

Section examples.
Import RefInstances.

(** The first pass of [p] from [w] succeeds with [n] writes, the second writes nothing. *)
Definition settles (w : world) (p : prog (option error)) (n : nat) : Prop :=
  let '(tr, out) := run w p in
  let '(tr', out') := run (after w p) p in
  out = Returned None ∧ length (writes tr) = n ∧ out' = Returned None ∧ writes tr' = [].

Lemma createSafekeeperResources_converges_witness :
  let sk := Samples.safekeeper_with "10Gi" in
  let p := SafekeeperReconciler.createSafekeeperResources sk in
  settles Samples.start p 3 ∧
  converges world_server world_view p
    (λ v, ∃ cluster, found (k := KCluster) v (SafekeeperReconciler.cluster_key sk) cluster)
    (safekeeper_in_place sk) ∧
  depends_on (safekeeper_places sk) (safekeeper_in_place sk).
Proof.
  split; [vm_compute; auto|].
  apply (createSafekeeperResources_converges world_server world_view). by eexists.
Defined.

Lemma createPageserverResources_converges_witness :
  let p := PageserverReconciler.createPageserverResources Samples.pageserver in
  settles Samples.start p 4 ∧
  converges world_server world_view p
    (λ v, (∃ secret, found (k := KSecret) v (PageserverReconciler.bucket_key Samples.pageserver) secret) ∧
          ∃ cluster, found (k := KCluster) v (PageserverReconciler.in_namespace Samples.pageserver "prod") cluster)
    (pageserver_in_place Samples.pageserver) ∧
  depends_on (pageserver_places Samples.pageserver) (pageserver_in_place Samples.pageserver).
Proof.
  split; [vm_compute; auto|].
  apply (createPageserverResources_converges world_server world_view). split; by eexists.
Defined.

Lemma createClusterResources_converges_witness :
  let p := ClusterReconciler.createClusterResources Samples.cluster in
  settles Samples.start p 5 ∧
  converges world_server world_view p (λ _, True) (cluster_in_place Samples.cluster) ∧
  depends_on (cluster_places Samples.cluster) (cluster_in_place Samples.cluster).
Proof.
  split; [vm_compute; auto|].
  by eapply (createClusterResources_converges world_server world_view).
Defined.

Lemma createBranchResources_converges_witness :
  let branch := Samples.branch_with "0badbeef" in
  let project := Samples.project_with "0badcafe" in
  let p := BranchReconciler.createBranchResources branch project in
  settles (after Samples.start (ClusterReconciler.createClusterResources Samples.cluster)) p 4 ∧
  converges world_server world_view p (branch_parents project) (branch_in_place branch project) ∧
  depends_on (branch_places branch project) (branch_in_place branch project).
Proof.
  split; [vm_compute; auto|].
  apply (createBranchResources_converges world_server world_view).
Defined.
End examples.
