(* ===== verification/Settling.v ===== *)
(** * Whole reconcile passes settle

    A pass maintains the children and then reports.  On a server that keeps what is
    written the report settles too: the conditions it writes are those the next report
    finds, so that an undisturbed pass after a successful one writes nothing at all, and
    the controller does not wake itself up for ever. *)

From S2P Require Import Prelude GoLib KubeTypes Api Interfaces Reference Prog Server Status Reconcile.
From S2P Require Import Controller ApiServer.

(** ** Conditions that are there already *)

Definition at_time (c : Condition) (t : Z) : Condition :=
  {| cond_Type := cond_Type c; cond_Status := cond_Status c; cond_ObservedGeneration := cond_ObservedGeneration c;
     cond_LastTransitionTime := t; cond_Reason := cond_Reason c; cond_Message := cond_Message c |}.

(** The conditions hold [c], whenever it was set. *)
Definition carries (cs : list Condition) (c : Condition) : Prop :=
  ∃ t, find_cond (cond_Type c) cs = Some (at_time c t).

Section conditions.
Context `{ConditionLaws}.

(** A list of conditions set one after the other, each at its time. *)
Fixpoint set_all (l : list (Z * Condition)) (cs : list Condition) : list Condition :=
  match l with
  | [] => cs
  | (now, c) :: l => set_all l (SetStatusCondition now cs c)
  end.

Lemma carries_set now cs c : carries (SetStatusCondition now cs c) c.
Proof. destruct (set_cond_same now cs c) as [t Ht]. by exists t. Qed.

Lemma carries_other now cs c d : cond_Type c ≠ cond_Type d → carries cs c → carries (SetStatusCondition now cs d) c.
Proof. intros Hne [t Ht]. exists t. by rewrite set_cond_other. Qed.

Lemma find_cond_skip t pre x post :
  Forall (λ x, cond_Type x ≠ t) pre → cond_Type x = t → find_cond t (pre ++ x :: post) = Some x.
Proof.
  intros Hpre Hx. unfold find_cond. rewrite find_first_app. rewrite (proj2 (find_first_None _ pre)).
  - simpl. by rewrite bool_decide_true.
  - intros y Hy. apply bool_decide_eq_false. rewrite Forall_forall in Hpre. by apply Hpre.
Qed.

(** Setting what is there changes nothing, not even the transition time. *)
Lemma set_carried now cs c : carries cs c → SetStatusCondition now cs c = cs.
Proof.
  intros [t Ht]. destruct (set_cond_shape now cs c) as (c'&Htype&_&[[Hnone _]|(pre&old&post&->&Hold&Hpre&Hset)]);
    [congruence|].
  assert (old = at_time c t) as -> by (rewrite find_cond_skip in Ht by done; congruence).
  destruct (set_cond_same now (pre ++ at_time c t :: post) c) as [t' Hsame].
  pose proof (set_cond_time now _ c _ Ht eq_refl) as Htime. rewrite Hsame in Htime.
  rewrite Hset in *. rewrite find_cond_skip in Hsame by done. simpl in Htime.
  injection Hsame as ->. injection Htime as ->. done.
Qed.

Lemma set_all_carried l cs : Forall (carries cs) l.*2 → set_all l cs = cs.
Proof.
  induction l as [|[now c] l IH]; [done|]. intros [Hc Hl]%Forall_cons. cbn [set_all].
  rewrite set_carried by done. auto.
Qed.

Lemma set_all_keeps l cs c : cond_Type c ∉ cond_Type <$> l.*2 → carries cs c → carries (set_all l cs) c.
Proof.
  revert cs. induction l as [|[now d] l IH]; intros cs; [done|]. cbn [set_all fmap list_fmap snd].
  intros [Hne Hl]%not_elem_of_cons Hc. apply IH; [done|]. by apply carries_other.
Qed.

Lemma set_all_carries l cs : NoDup (cond_Type <$> l.*2) → Forall (carries (set_all l cs)) l.*2.
Proof.
  revert cs. induction l as [|[now c] l IH]; intros cs; [constructor|]. cbn [set_all fmap list_fmap snd].
  intros [Hc Hl]%NoDup_cons. constructor; [|by apply IH].
  apply set_all_keeps; [done|]. apply carries_set.
Qed.
End conditions.

(** ** Reports on a server that keeps what is written *)

Lemma same_but_status_refl {k} (o : obj k) : same_but_status o o.
Proof. destruct k; try done; (split; [apply same_identity_refl|done]). Qed.

Lemma same_but_status_trans {k} (a b c : obj k) : same_but_status a b → same_but_status b c → same_but_status a c.
Proof. destruct k; unfold same_but_status, same_identity; try done; intros [Hab ->] [Hbc ->]; naive_solver congruence. Qed.

Lemma same_but_status_identity {k} (o o' : obj k) :
  status_of o ≠ None → same_but_status o o' → same_identity (meta o) (meta o').
Proof. destruct k; try done; by intros _ [? _]. Qed.

Section reports.
Context `{ConditionLaws} `{SemanticEqualLaws Status}.
Context `{SemanticDerivative DeploymentSpec} `{SemanticDerivative StatefulSetSpec}
  `{SemanticDerivative ServiceSpec} `{SemanticDerivative smap}.
Context {k : Kind} `{StatusObject k} (Hstatus : ∀ x : obj k, status_of x = Some (StatusValue x)).

(** [PatchStatus] with a closure that calls [trm] and leaves the conditions [cs]. *)
Inductive report_run (key : NamespacedName) (R : obj k → trace → list Condition → Prop) :
    trace → option fault → Prop :=
  | report_unread f : report_run key R [Ev (CGet k key) (Err f)] (Some f)
  | report_unchanged cur trm cs :
      R cur trm cs → DeepEqual (StatusValue cur) (StatusValue (refreshed cur cs)) = true →
      report_run key R (Ev (CGet k key) (Ok cur) :: trm) None
  | report_patched cur trm cs r :
      R cur trm cs → DeepEqual (StatusValue cur) (StatusValue (refreshed cur cs)) = false →
      report_run key R (Ev (CGet k key) (Ok cur) :: trm ++ [Ev (CStatusPatch k cur (refreshed cur cs)) r])
        (match r with Ok _ => None | Err f => Some f end).

Lemma wp_PatchStatus_report (o : obj k) mutate R :
  (∀ cur, wp (mutate cur) (λ trm out, ∃ cs, out = Returned (refreshed cur cs) ∧ R cur trm cs)) →
  wp (PatchStatus o mutate) (λ tr out, ∃ o' f, out = Returned (o', Foreign <$> f) ∧ report_run (key_of (meta o)) R tr f).
Proof.
  intros Hm. eapply (wp_PatchStatus o mutate (λ cur trm out, ∃ cs, out = Returned (refreshed cur cs) ∧ R cur trm cs));
    [done| | | |].
  - intros f. exists o, (Some f). split; [done|constructor].
  - by intros cur tr w (?&?&_).
  - intros cur tr upd (cs&[= ->]&HR) E. exists o, None. split; [done|by econstructor].
  - intros cur tr upd r (cs&[= ->]&HR) E. pose proof (report_patched (key_of (meta o)) R cur tr cs r HR E) as Hrun.
    destruct r as [w|f]; [exists (AssignStatusFrom o w), None|exists o, (Some f)]; done.
Qed.

(** The closure only reads, and sets the conditions that what it has read calls for. *)
Context (shows : Z → trace → list Condition → Prop).
Definition rewrites (cur : obj k) (trm : trace) (cs : list Condition) : Prop :=
  writes trm = [] ∧ ∃ nl, shows (om_Generation (meta cur)) trm nl.*2 ∧ cs = set_all nl (StatusConditions cur).

(** What the contents of the cluster call for, given what was read before the report. *)
Context (key : NamespacedName) (want : view → Z → list Condition).
Context (read : view → Prop) (Hread : ∀ v v', same v v' → read v → read v').
Context (Hwant : ∀ v trm v' g l, read v → consistent v trm v' → calm trm → shows g trm l → l = want v g).
Context (Hlocal : ∀ v v' g, unchanged_but (k, key) v v' → want v' g = want v g).
Context (Hnodup : ∀ v g, NoDup (cond_Type <$> want v g)).

Definition status_settled (v : view) : Prop :=
  ∃ cur, found v key cur ∧ st_ObservedGeneration (StatusValue cur) = om_Generation (meta cur) ∧
    Forall (carries (StatusConditions cur)) (want v (om_Generation (meta cur))).

Lemma calm_app tr tr' : calm (tr ++ tr') → calm tr ∧ calm tr'.
Proof. apply Forall_app. Qed.

Lemma want_same v v' g : same v v' → want v' g = want v g.
Proof. intros Hs. apply Hlocal. intros k' key' _. apply Hs. Qed.

Lemma set_all_settled v trm v' nl g cs :
  read v → consistent v trm v' → calm trm → shows g trm nl.*2 → Forall (carries (set_all nl cs)) (want v g).
Proof.
  intros Hr Hc Hcalm Hshow. rewrite <-(Hwant _ _ _ _ _ Hr Hc Hcalm Hshow). apply set_all_carries.
  rewrite (Hwant _ _ _ _ _ Hr Hc Hcalm Hshow). apply Hnodup.
Qed.

(** The status after a report is the one reported. *)
Lemma report_reach v tr v' :
  read v → report_run key rewrites tr None → consistent v tr v' → calm tr →
  status_settled v' ∧ unchanged_but (k, key) v v' ∧
  ∃ cur cur' : obj k, found v key cur ∧ found v' key cur' ∧ same_but_status cur cur'.
Proof.
  intros Hr Hrun Hc Hcalm. remember None as f eqn:Hf.
  destruct Hrun as [f'|cur trm cs [Hw (nl&Hshow&->)] Heq|cur trm cs r [Hw (nl&Hshow&->)] Heq]; [done|..];
    destruct Hc as (v1&[Hsame [Hv Hkey]]&Hc); apply Forall_cons in Hcalm as [_ Hcalm];
    pose proof (Hread _ _ Hsame Hr) as Hr1.
  - assert (same v v') as Hsame'
      by (intros k' key'; by rewrite (consistent_quiet _ _ _ Hc Hw k' key'), (Hsame k' key')).
    assert (found v' key cur) as Hfound' by (split; [by rewrite (Hsame' k key)|done]).
    split; [|split; [by intros k' key' _|by exists cur, cur; split_and!; [split| |apply same_but_status_refl]]].
    apply DeepEqual_spec in Heq. rewrite StatusValue_refreshed in Heq. exists cur. split; [done|].
    pose proof (set_all_settled _ _ _ _ _ (StatusConditions cur) Hr1 Hc Hcalm Hshow) as Hset.
    rewrite (want_same v v') by done. rewrite (want_same v v1) in Hset by done.
    split; [by rewrite Heq|]. by replace (StatusConditions cur) with (set_all nl (StatusConditions cur)) at 1
      by (unfold StatusConditions at 2; by rewrite Heq).
  - destruct r as [o'|f']; [|done]. apply calm_app in Hcalm as [Hcalm _].
    apply consistent_app in Hc as (v2&Hc&v3&[[Hother Hwrite] Hst]&Hlast).
    cbn [ev_call ev_answer] in Hother, Hwrite, Hst. rewrite meta_refreshed in *.
    change (key_of (meta cur) = key) in Hkey. rewrite Hkey in *.
    pose proof (consistent_quiet _ _ _ Hc Hw) as Hsame2.
    destruct (Hwrite o' eq_refl) as [[Hkey' _] Hv']. rewrite meta_refreshed, Hkey in Hkey'.
    destruct (Hst o' eq_refl) as (cur0&Hcur0&Hbut&Hstat).
    rewrite meta_refreshed, Hkey in Hcur0. assert (cur0 = cur) as -> by (rewrite (Hsame2 k key), (Hsame k key) in Hcur0; congruence).
    assert (found v' key o') as Hfound' by (split; [by rewrite (Hlast k key)|done]).
    assert (unchanged_but (k, key) v v') as Hun.
    { intros k' key' Hne. by rewrite (Hlast k' key'), (Hother k' key' Hne), (Hsame2 k' key'), (Hsame k' key'). }
    split; [|split; [done|by exists cur, o'; split_and!; [split| |]]].
    rewrite !Hstatus, StatusValue_refreshed in Hstat. injection Hstat as Hstat.
    destruct (same_but_status_identity cur o') as (_&_&_&Hgen&_); [by rewrite Hstatus|done|].
    exists o'. unfold StatusConditions. rewrite Hstat, Hgen. split_and!; [done|done|].
    cbn [st_Conditions]. rewrite (Hlocal v v'), <-(want_same v v1) by done.
    by eapply set_all_settled.
Qed.

Lemma status_settled_same v v' : same v v' → status_settled v → status_settled v'.
Proof.
  intros Hs (cur&[Hv Hk]&Hg&Hall). exists cur. split; [split; [by rewrite (Hs k key)|done]|].
  split; [done|]. by rewrite (want_same v v').
Qed.

(** It depends on the object and on what the report reads. *)
Lemma status_settled_local R v v' :
  (∀ v v' g, agree ((k, key) :: R) v v' → want v' g = want v g) →
  agree ((k, key) :: R) v v' → status_settled v → status_settled v'.
Proof.
  intros Hw Ha (cur&[Hv Hk]&Hg&Hall). exists cur. split; [split; [by rewrite (Ha k key) by left|done]|].
  split; [done|]. by rewrite (Hw v v').
Qed.

(** An object that is there is reported, when the server answers. *)
Lemma report_calm R v tr f v' (cur : obj k) :
  report_run key R tr f → consistent v tr v' → calm tr → found v key cur → f = None.
Proof.
  intros Hrun Hc Hcalm [Hv _].
  destruct Hrun as [f'|x trm cs _ _|x trm cs r _ _]; apply Forall_cons in Hcalm as [Hans Hcalm]; [|done|].
  - destruct Hc as (v1&[_ Hf]&_). specialize (Hf Hans). congruence.
  - apply calm_app in Hcalm as [_ [[w Hw] _]%Forall_cons]. cbn [ev_answer] in Hw. by rewrite Hw.
Qed.

(** Once it is, a report writes nothing. *)
Lemma report_quiet v tr f v' :
  read v → status_settled v → report_run key rewrites tr f → consistent v tr v' → calm tr → writes tr = [] ∧ f = None.
Proof.
  intros Hr (x&[Hx _]&Hgen&Hall) Hrun Hc Hcalm.
  destruct Hrun as [f'|cur trm cs [Hw (nl&Hshow&->)] Heq|cur trm cs r [Hw (nl&Hshow&->)] Heq];
    apply Forall_cons in Hcalm as [Hans Hcalm]; destruct Hc as (v1&[Hsame Hfound]&Hc).
  - specialize (Hfound Hans). congruence.
  - split; [by trace_simpl|done].
  - exfalso. apply calm_app in Hcalm as [Hcalm _]. apply consistent_app in Hc as (v2&Hc&_).
    destruct Hfound as [Hv _]. assert (cur = x) as -> by congruence.
    rewrite set_all_carried in Heq.
    + apply not_true_iff_false in Heq. apply Heq, DeepEqual_spec. rewrite StatusValue_refreshed, <-Hgen.
      unfold StatusConditions. by destruct (StatusValue x).
    + rewrite (Hwant v1 _ _ _ _ (Hread _ _ Hsame Hr) Hc Hcalm Hshow). by rewrite (want_same v v1).
Qed.

(** The object a report reads is the one there is. *)
Lemma report_run_found (R R' : obj k → trace → list Condition → Prop) v tr f v' o :
  report_run key R tr f → consistent v tr v' → found v key o →
  (∀ trm cs, R o trm cs → R' o trm cs) → report_run key R' tr f.
Proof.
  intros Hrun Hc [Hv _] HR.
  destruct Hrun as [f'|x trm cs Hx Heq|x trm cs r Hx Heq]; [apply report_unread|..];
    destruct Hc as (v1&[_ [Hx' _]]&_); assert (x = o) as -> by congruence.
  - apply (report_unchanged _ _ _ _ cs); auto.
  - apply report_patched; auto.
Qed.

(** All of it. *)
Lemma report_settles v tr f v' (o : obj k) :
  read v → found v key o → report_run key rewrites tr f → consistent v tr v' → calm tr →
  f = None ∧ status_settled v' ∧ unchanged_but (k, key) v v' ∧
  (∃ o' : obj k, found v' key o' ∧ same_but_status o o') ∧ (status_settled v → writes tr = []).
Proof.
  intros Hr Hfound Hrun Hc Hcalm. assert (f = None) as -> by by eapply report_calm.
  destruct (report_reach v tr v') as (Hset&Hun&cur&cur'&[Hcur _]&Hcur'&Hbut); [done..|].
  destruct Hfound as [Hv _]. assert (cur = o) as -> by congruence.
  split_and!; [done|done|done|by exists cur'|]. intros Hs. by eapply report_quiet.
Qed.
End reports.

(** A condition as [SetCondition] makes it. *)
Definition condition (g : Z) (t : string) (status : ConditionStatus) (reason message : string) : Condition :=
  {| cond_Type := t; cond_Status := status; cond_ObservedGeneration := g;
     cond_LastTransitionTime := 0; cond_Reason := reason; cond_Message := message |}.

(** What a read finds. *)
Definition missing : fault := not_found_fault "not found".
Definition seen {k : Kind} (v : view) (key : NamespacedName) : result (obj k) :=
  match v k key with Some o => Ok o | None => Err (Foreign missing) end.

Lemma seen_same {k} v v' key : same v v' → seen (k := k) v' key = seen v key.
Proof. intros Hs. unfold seen. by rewrite (Hs k key). Qed.

(** A read that was answered found what is there. *)
Lemma answered_read `{SemanticDerivative DeploymentSpec} `{SemanticDerivative StatefulSetSpec}
    `{SemanticDerivative ServiceSpec} `{SemanticDerivative smap} {k : Kind} v key (a : reply (obj k)) v' :
  api_step v (Ev (CGet k key) a) v' → answered (Ev (CGet k key) a) →
  same v v' ∧ match a with
              | Ok o => seen v key = Ok o
              | Err f => fault_not_found f = true ∧ seen (k := k) v key = Err (Foreign missing)
              end.
Proof.
  intros [Hs Ha] Hans. split; [done|]. unfold seen. cbn [ev_answer ev_call answered] in *.
  destruct a as [o|f]; [by destruct Ha as [-> _]|]. simpl in Hans. split; [done|]. by rewrite (Ha Hans).
Qed.

(** ** A pass *)

Section passes.
Context `{SemanticDerivative DeploymentSpec} `{SemanticDerivative StatefulSetSpec}
  `{SemanticDerivative ServiceSpec} `{SemanticDerivative smap}.
Context {k : Kind} (req : NamespacedName) (o : obj k).
Context (settled : view → Prop) (Hsame : ∀ v v', same v v' → settled v → settled v').

(** What the report of [o] does on an undisturbed server: it succeeds, changes the
    object's status only, leaves it settled, and writes nothing when it was. *)
Definition reports_settled (S : trace → option fault → Prop) : Prop :=
  ∀ v tr f v', found v req o → S tr f → consistent v tr v' → calm tr →
    f = None ∧ settled v' ∧ unchanged_but (k, req) v v' ∧
    (∃ o' : obj k, found v' req o' ∧ same_but_status o o') ∧ (settled v → writes tr = []).

(** Then so does a pass of which it is the report. *)
Lemma pass_settles what R W pre G C S v tr r v' :
  maintains R W pre G C → (∀ key, (k, key) ∉ W) → (∀ key, (k, key) ∉ R) → reports_settled (S None) →
  pass what C S tr r → found v req o → pre v → consistent v tr v' → calm tr →
  r = (no_requeue, None) ∧ G v' ∧ settled v' ∧
  (∃ o' : obj k, found v' req o' ∧ same_but_status o o') ∧
  (G v → settled v → writes tr = []) ∧
  (∀ x, x ∉ (k, req) :: W → v' x.1 x.2 = v x.1 x.2).
Proof.
  intros HM HW HR HS Hpass Hfound Hpre Hc Hcalm.
  assert (∃ trc trs ce f, tr = trc ++ trs ∧ C trc ce ∧ S ce trs f ∧
    (ce = None → f = None → r = (no_requeue, None))) as (trc&trs&ce&f&->&HC&Hrun&Hr).
  { destruct Hpass as [trc trs ce HC Hrun|trc trs ce f HC Hrun]; do 4 eexists; split_and!; eauto; intros; by simplify_eq/=. }
  apply Forall_app in Hcalm as [Hcalmc Hcalms]. pose proof Hc as Hcall.
  apply consistent_app in Hc as (v1&Hcc&Hcs).
  assert (ce = None) as -> by exact (m_progress _ _ _ _ _ HM _ _ _ _ Hpre HC Hcc Hcalmc).
  assert (found v1 req o) as Hfound1.
  { destruct Hfound as [Hv Hk]. split; [|done]. rewrite <-Hv. eapply consistent_frame; [exact Hcc|].
    intros Hin. by apply (HW req), (m_targets _ _ _ _ _ HM _ _ _ HC). }
  destruct (HS _ _ _ _ Hfound1 Hrun Hcs Hcalms) as (->&Hset&Hun&Ho'&Hquiet).
  assert (agree R v1 v') as Hagree.
  { intros k' key' Hin. apply Hun. intros [= -> ->]. by apply (HR req). }
  split_and!; [by apply Hr| |done|done|..].
  - eapply (m_local _ _ _ _ _ HM); [exact Hagree|]. by eapply (m_reach _ _ _ _ _ HM).
  - intros Hg Hs. destruct (m_quiet _ _ _ _ _ HM _ _ _ _ Hg HC Hcc) as [Hwc _].
    pose proof (consistent_quiet _ _ _ Hcc Hwc) as Hsame1.
    assert (writes trs = []) as Hws by (apply Hquiet; by eapply Hsame).
    by rewrite writes_app, Hwc, Hws.
  - intros [k' key'] [Hne Hnot]%not_elem_of_cons. cbn [fst snd]. rewrite (Hun k' key' Hne).
    eapply consistent_frame; [exact Hcc|]. intros Hin. by eapply Hnot, (m_targets _ _ _ _ _ HM).
Qed.

(** A pass of an object that is there begins by reading it. *)
Lemma reconciles_undisturbed gone P v tr out v' :
  reconciles (k := k) req gone P tr out → consistent v tr v' → calm tr → found v req o →
  ∃ v1 tr', tr = Ev (CGet k req) (Ok o) :: tr' ∧ same v v1 ∧ P o tr' out ∧ consistent v1 tr' v' ∧ calm tr'.
Proof.
  intros Hrun Hc Hcalm [Hv Hkey].
  destruct Hrun as [f Hf|f Hf|x tr out HP]; destruct Hc as (v1&[Hv1 Ha]&Hc);
    apply Forall_cons in Hcalm as [Hans Hcalm]; [by rewrite (Ha Hans) in Hv..|].
  destruct Ha as [Hx _]. assert (x = o) as -> by congruence. by exists v1, tr.
Qed.
End passes.

(** A step after a request to somebody else. *)
Lemma maintains_after_http `{SemanticDerivative DeploymentSpec} `{SemanticDerivative StatefulSetSpec}
    `{SemanticDerivative ServiceSpec} `{SemanticDerivative smap} R W pre G (P : trace → option error → Prop) rq :
  maintains R W pre G P → maintains R W pre G (λ t e, ∃ r t', t = Ev (CHttp rq) r :: t' ∧ P t' e).
Proof.
  intros [Ht Hpl Hl Hr Hq Hp]. split; [|done|done|..].
  - intros t e x (r&t'&->&HP) Hx. by eapply Ht.
  - intros v t v' (r&t'&->&HP) (v1&_&Hc). by eapply Hr.
  - intros v t e v' Hg (r&t'&->&HP) (v1&Hs&Hc).
    destruct (Hq v1 t' e v') as [Hw He]; [by eapply Hl; [apply same_agree, Hs|]|done|done|].
    split; [done|]. intros [_ Hcalm]%Forall_cons. auto.
  - intros v t e v' Hpre (r&t'&->&HP) (v1&Hs&Hc) [_ Hcalm]%Forall_cons.
    by eapply (Hp v1); [eapply Hpl; [apply same_agree, Hs|]|..].
Qed.

(** A step after the read of a known object. *)
Lemma maintains_after_read `{SemanticDerivative DeploymentSpec} `{SemanticDerivative StatefulSetSpec}
    `{SemanticDerivative ServiceSpec} `{SemanticDerivative smap} {k : Kind} key (o : obj k) R W pre G
    (P : trace → option error → Prop) :
  maintains R W pre G P → (k, key) ∉ W →
  maintains ((k, key) :: R) W (λ v, found v key o ∧ pre v) (λ v, found v key o ∧ G v)
    (λ t e, ∃ t', t = Ev (CGet k key) (Ok o) :: t' ∧ P t' e).
Proof.
  intros HM Hkey.
  assert (∀ v v', agree ((k, key) :: R) v v' → (found v key o → found v' key o) ∧ agree R v v') as Hsplit.
  { intros v v' Ha. split; [|intros k' key' Hin; apply Ha; by right].
    intros [Hv Hk]. split; [|done]. by rewrite (Ha k key) by left. }
  split.
  - intros t e x (t'&->&HP) Hx. by eapply (m_targets _ _ _ _ _ HM).
  - intros v v' [Hf Ha]%Hsplit [Ho Hp]. split; [auto|by eapply (m_pre_local _ _ _ _ _ HM)].
  - intros v v' [Hf Ha]%Hsplit [Ho Hg]. split; [auto|by eapply (m_local _ _ _ _ _ HM)].
  - intros v t v' (t'&->&HP) (v1&[Hs [Hv Hk]]&Hc). split; [|by eapply (m_reach _ _ _ _ _ HM)].
    split; [|done]. rewrite <-Hv, <-(Hs k key). eapply consistent_frame; [exact Hc|].
    intros Hin. by apply Hkey, (m_targets _ _ _ _ _ HM _ _ _ HP).
  - intros v t e v' [Ho Hg] (t'&->&HP) (v1&[Hs _]&Hc).
    destruct (m_quiet _ _ _ _ _ HM v1 t' e v') as [Hw He]; [by eapply (m_local _ _ _ _ _ HM); [apply same_agree|]|done..|].
    split; [done|]. intros [_ Hcalm]%Forall_cons. auto.
  - intros v t e v' [Ho Hp] (t'&->&HP) (v1&[Hs _]&Hc) [_ Hcalm]%Forall_cons.
    eapply (m_progress _ _ _ _ _ HM v1); [|done..]. by eapply (m_pre_local _ _ _ _ _ HM); [apply same_agree|].
Qed.

(** ** A whole call of [Reconcile], on a server *)

Section runs.
Context `{SemanticDerivative DeploymentSpec} `{SemanticDerivative StatefulSetSpec}
  `{SemanticDerivative ServiceSpec} `{SemanticDerivative smap}.
Context {S : Type} (h : server S) (view_of : S → view) `{!ApiServer h view_of}.
Context {k : Kind} (req : Request).

(** A controller: which objects it can handle, given what others answer in the pass
    ([ok]), what it needs ([pre]), its children ([children], in place when [in_place]) and
    its report ([report], final when [settled]); [R] are the places the children depend on,
    [W] the children's own, [T] those the report reads. *)
Context (ok : obj k → trace → Prop) (pre in_place settled : obj k → view → Prop) (R W T : obj k → list place).
Context (children : obj k → trace → option error → Prop) (report : obj k → option error → trace → option fault → Prop).

Definition all_settled (v : view) : Prop := ∃ o, found v req o ∧ in_place o v ∧ settled o v.

(** A pass that finds what it needs, and is neither failed nor disturbed. *)
Definition undisturbed (o : obj k) (tr : trace) : Prop :=
  ok o tr ∧ ∃ v v', found v req o ∧ pre o v ∧ consistent v tr v' ∧ calm tr.

Record settling (reconcile : prog (Result * option error)) (gone : outcome (Result * option error)) (what : string) : Prop := {
  st_pass : wp reconcile (reconciles (k := k) req gone
    (λ o tr out, undisturbed o tr → ∃ r, out = Returned r ∧ pass what (children o) (report o) tr r));
  st_children : ∀ o tr, ok o tr → maintains (R o) (W o) (pre o) (in_place o) (children o);
  st_places : ∀ o key, ¬ (k, key) ∈ R o ∧ ¬ (k, key) ∈ W o;
  st_report : ∀ o tr, ok o tr → key_of (meta o) = req → reports_settled req o (settled o) (report o None);
  st_local : ∀ o v v', agree ((k, req) :: T o) v v' → settled o v → settled o v';
  st_status : ∀ o o' v, same_but_status o o' → (in_place o v → in_place o' v) ∧ (settled o v → settled o' v);
}.

(** Undisturbed, a pass succeeds, settles the object, changes nothing but its status and
    its children, and writes nothing when it was settled. *)
Lemma settling_runs reconcile gone what :
  settling reconcile gone what → wp reconcile (λ tr out, ∀ o v v',
    found v req o → pre o v → consistent v tr v' → calm tr → ok o (tail tr) →
    out = Returned (no_requeue, None) ∧
    (∃ o', found v' req o' ∧ same_but_status o o' ∧ in_place o' v' ∧ settled o' v') ∧
    (∀ x, x ∉ (k, req) :: W o → v' x.1 x.2 = v x.1 x.2) ∧
    (in_place o v → settled o v → writes tr = [])).
Proof.
  intros [Hpass Hchildren Hplaces Hreport Hlocal Hstatus]. eapply wp_mono; [|exact Hpass].
  intros tr out Hrun o v v' Hfound Hpre Hc Hcalm Hok.
  destruct (reconciles_undisturbed _ _ _ _ _ _ _ _ Hrun Hc Hcalm Hfound) as (v1&tr'&->&Hv1&HP&Hc'&Hcalm').
  cbn [tail] in Hok. pose proof (Hchildren o tr' Hok) as HM.
  assert (found v1 req o) as Hfound1 by (destruct Hfound as [Hv Hk]; split; [by rewrite (Hv1 k)|done]).
  assert (key_of (meta o) = req) as Hreq by apply Hfound.
  assert (pre o v1) as Hpre1 by (eapply (m_pre_local _ _ _ _ _ HM); [by apply same_agree|done]).
  assert (∀ x y, same x y → settled o x → settled o y) as Hsame by (intros x y Hs; apply Hlocal; by apply same_agree).
  destruct HP as (r&->&Hp); [by split; [|exists v1, v']|].
  destruct (pass_settles req o (settled o) Hsame what _ _ _ _ _ (report o) v1 tr' r v' HM
    (λ key, proj2 (Hplaces o key)) (λ key, proj1 (Hplaces o key)) (Hreport o tr' Hok Hreq) Hp Hfound1 Hpre1 Hc' Hcalm')
    as (->&Hplace&Hset&(o'&Hfound'&Hbut)&Hquiet&Hframe).
  destruct (Hstatus o o' v' Hbut) as [Hp' Hs']. split_and!; [done|exists o'; auto|..].
  - intros [k' key'] Hx. pose proof (Hframe _ Hx) as Hx'. cbn [fst snd] in *. by rewrite Hx', (Hv1 k' key').
  - intros Hg Hs. apply Hquiet; [by eapply (m_local _ _ _ _ _ HM); [apply same_agree|]|by eapply Hsame].
Qed.

(** The same of a run: from a settled state it writes nothing. *)
Lemma run_settles reconcile gone what s o :
  settling reconcile gone what → found (view_of s) req o → pre o (view_of s) →
  let '(s1, tr, out) := exec h s reconcile in
  calm tr → ok o (tail tr) →
  out = Returned (no_requeue, None) ∧ all_settled (view_of s1) ∧
  (all_settled (view_of s) → writes tr = [] ∧ same (view_of s) (view_of s1)).
Proof.
  intros Hst Hfound Hpre. pose proof (wp_exec h s _ _ (settling_runs _ _ _ Hst)) as Hrun.
  pose proof (exec_consistent h view_of reconcile s) as Hc.
  destruct (exec h s reconcile) as [[s1 tr] out]. intros Hcalm Hok.
  destruct (Hrun o _ _ Hfound Hpre Hc Hcalm Hok) as (->&(o'&Hfound'&_&Hp&Hs)&_&Hquiet).
  split_and!; [done|by exists o'|]. intros (x&[Hx _]&Hxp&Hxs).
  assert (x = o) as -> by (destruct Hfound; congruence). split; [auto|]. eapply consistent_quiet; [done|auto].
Qed.
End runs.

(** ** Deciding calm, for examples *)

Definition answeredb (e : event) : bool :=
  (match ev_call e as c return answer c → bool with
   | CGet k key => λ a, match a with Ok _ => true | Err f => fault_not_found f end
   | CCreate k _ _ | CApply k _ _ _ | CMergePatch k _ _ _ | CStatusPatch k _ _ => λ a, match a with Ok _ => true | Err _ => false end
   | CGenerateKey => λ a, match a with Ok _ => true | Err _ => false end
   | _ => λ _, true
   end) (ev_answer e).

Lemma calm_decided tr : forallb answeredb tr = true → calm tr.
Proof.
  intros Hall. apply Forall_forall. intros e He. rewrite forallb_forall in Hall.
  specialize (Hall e (proj1 (list_elem_of_In _ _) He)). destruct e as [c a].
  destruct c; unfold answered, answeredb in *; cbn [ev_call ev_answer] in *; try done; destruct a; naive_solver.
Qed.

(** The parts of a run. *)
Lemma run_parts {A B C} (x : A * B * C) (P : A → B → C → Prop) :
  (let '(a, b, c) := x in P a b c) → P x.1.1 x.1.2 x.2.
Proof. by destruct x as [[a b] c]. Qed.
