(* ===== verification/Effects.v ===== *)
(** * What a pass does to the cluster, whatever it finds

    The theorems about settling speak of passes that find what they need.  Here is what
    holds of any pass of an object that is there, early or late, failed or not: it does
    not panic, it writes to the object and to its children only, and it leaves the object
    as it was but for its status and, when it had none, its identifier. *)

From S2P Require Import Prelude GoLib KubeTypes Api Interfaces Reference Prog Server Ids Status Reconcile.
From S2P Require Import StorageController Controller ApiServer ClusterController SafekeeperController.
From S2P Require Import PageserverController ProjectController BranchController.
From S2P Require Import Convergence Settling.

(** The contents agree but for these places. *)
Definition outside (L : list place) (v v' : view) : Prop := ∀ x, x ∉ L → v' x.1 x.2 = v x.1 x.2.

Section effects.
Context `{SemanticDerivative DeploymentSpec} `{SemanticDerivative StatefulSetSpec}
  `{SemanticDerivative ServiceSpec} `{SemanticDerivative smap}.

Lemma consistent_outside tr L v v' :
  consistent v tr v' → (∀ x, x ∈ targets tr → x ∈ L) → outside L v v'.
Proof. intros Hc HL [k key] Hx. eapply consistent_frame; [done|]. intros Hin. by apply Hx, HL. Qed.

Section one_object.
Context {k : Kind} (req : NamespacedName) (o : obj k).

(** A trace of calls that changes the object as [next] says, and else the places [W]. *)
Definition effect (next : obj k → Prop) (W : list place) (tr : trace) : Prop :=
  ∀ v v', found v req o → consistent v tr v' → calm tr →
    outside ((k, req) :: W) v v' ∧ ∃ o', found v' req o' ∧ next o'.

(** Calls that leave the object alone, and then others. *)
Lemma effect_after next W t t' :
  (∀ x, x ∈ targets t → x ∈ W) → (∀ key, (k, key) ∉ W) → effect next W t' → effect next W (t ++ t').
Proof.
  intros Ht HW Heff v v' [Hv Hk] Hc [_ Hcalm]%Forall_app. apply consistent_app in Hc as (v1&Hc1&Hc2).
  pose proof (consistent_outside t W v v1 Hc1 Ht) as Hout.
  destruct (Heff v1 v') as [Hout' Ho']; [|done|done|].
  - split; [|done]. rewrite <-Hv. apply (Hout (k, req)). apply HW.
  - split; [|done]. intros x Hx. rewrite (Hout' x Hx). apply Hout. set_solver.
Qed.

Lemma effect_quiet next W t t' :
  writes t = [] → (∀ key, (k, key) ∉ W) → effect next W t' → effect next W (t ++ t').
Proof. intros Hw. apply effect_after. rewrite targets_nil by done. intros x Hx. by apply not_elem_of_nil in Hx. Qed.

Lemma effect_weaken (next : obj k → Prop) W t :
  effect next [] t → effect next W t.
Proof.
  intros Heff v v' Hf Hc Hcalm. destruct (Heff v v' Hf Hc Hcalm) as [Hout Ho]. split; [|done].
  intros x Hx. apply Hout. set_solver.
Qed.
End one_object.

(** A status report. *)
Lemma status_effect `{SemanticEqual Status} {k : Kind} `{StatusObject k} req (o : obj k) R tr f :
  status_run req R tr f → effect req o (same_but_status o) [] tr.
Proof.
  intros Hrun v v' [Hv Hk] Hc Hcalm.
  destruct Hrun as [f|cur cs tr Hw _ _ _|cur cs tr w Hw _ _ _|cur cs tr f Hw _ _ _];
    destruct Hc as (v1&[Hsame Ha]&Hc); apply Forall_cons in Hcalm as [Hans Hcalm].
  - specialize (Ha Hans). congruence.
  - pose proof (consistent_quiet _ _ _ Hc Hw) as Hsame'.
    assert (same v v') as Hs by (intros k' key'; by rewrite (Hsame' k' key'), (Hsame k' key')).
    split; [intros x _; apply Hs|]. exists o. split; [split; [by rewrite (Hs k req)|done]|apply same_but_status_refl].
  - destruct Ha as [Hcur Hkey]. assert (cur = o) as -> by congruence.
    apply consistent_app in Hc as (v2&Hc&v3&[[Hother Hwrite] Hst]&Hlast).
    cbn [ev_call ev_answer] in Hother, Hwrite, Hst. rewrite meta_refreshed, Hk in *.
    pose proof (consistent_quiet _ _ _ Hc Hw) as Hsame2.
    destruct (Hwrite w eq_refl) as [[Hkey' _] Hv']. rewrite meta_refreshed, Hk in Hkey'.
    destruct (Hst w eq_refl) as (cur0&Hcur0&Hbut&_). rewrite meta_refreshed, Hk in Hcur0.
    assert (cur0 = o) as -> by (rewrite (Hsame2 k req), (Hsame k req) in Hcur0; congruence). split.
    + intros [k' key'] Hx. cbn [fst snd]. assert ((k', key') ≠ (k, req)) as Hne by set_solver.
      by rewrite (Hlast k' key'), (Hother k' key' Hne), (Hsame2 k' key'), (Hsame k' key').
    + exists w. split; [|done]. split; [by rewrite (Hlast k req)|done].
  - apply calm_app in Hcalm as [_ [[w Hw'] _]%Forall_cons]. done.
Qed.

(** The pass shared by three controllers: children, then a report. *)
Lemma pass_effect {k : Kind} req (o : obj k) what C S W tr r :
  pass what C S tr r → (∀ t e x, C t e → x ∈ targets t → x ∈ W) → (∀ key, (k, key) ∉ W) →
  (∀ ce t f, S ce t f → effect req o (same_but_status o) W t) →
  effect req o (same_but_status o) W tr.
Proof.
  intros [trc trs ce HC HS|trc trs ce f HC HS] HCW HW HSW; (apply effect_after; [intros x; by eapply HCW|done|by eapply HSW]).
Qed.

(** What a call of [Reconcile] does to an object that is there and [ok]. *)
Definition pass_does {k : Kind} (req : NamespacedName) (ok : obj k → Prop) (next : obj k → obj k → Prop)
    (W : obj k → list place) (tr : trace) (out : outcome (Result * option error)) : Prop :=
  ∀ o v v', found v req o → ok o → consistent v tr v' → calm tr →
    (∃ r, out = Returned r) ∧ outside ((k, req) :: W o) v v' ∧ ∃ o', found v' req o' ∧ next o o'.

Definition body_does {k : Kind} (req : NamespacedName) (ok : obj k → Prop) (next : obj k → obj k → Prop)
    (W : obj k → list place) (o : obj k) (tr : trace) (out : outcome (Result * option error)) : Prop :=
  ok o → key_of (meta o) = req → (∃ r, out = Returned r) ∧ effect req o (next o) (W o) tr.

Lemma reconciles_effect {k : Kind} req (ok : obj k → Prop) next W gone tr out :
  reconciles req gone (body_does req ok next W) tr out → pass_does req ok next W tr out.
Proof.
  intros Hrun o v v' Hfound Hok Hc Hcalm.
  destruct (reconciles_undisturbed _ _ _ _ _ _ _ _ Hrun Hc Hcalm Hfound) as (v1&tr'&->&Hv1&HPo&Hc'&Hcalm').
  destruct (HPo Hok (proj2 Hfound)) as [Hr Heff]. split; [done|].
  destruct (Heff v1 v') as [Hout Ho]; [|done|done|].
  - destruct Hfound as [Hv Hk]. split; [by rewrite (Hv1 k)|done].
  - split; [|done]. intros x Hx. by rewrite (Hout x Hx), (Hv1 x.1 x.2).
Qed.

Lemma reconciles_mono {k : Kind} req gone (P Q : obj k → trace → outcome (Result * option error) → Prop) tr out :
  (∀ o tr out, P o tr out → Q o tr out) → reconciles req gone P tr out → reconciles req gone Q tr out.
Proof. intros HPQ [f Hf|f Hf|o tr' out' HP]; constructor; auto. Qed.

(** The bodies need only be looked at for the objects that are [ok]. *)
Lemma wp_body_does {k : Kind} req (ok : obj k → Prop) next W (o : obj k) p :
  (ok o → key_of (meta o) = req → wp p (λ tr out, (∃ r, out = Returned r) ∧ effect req o (next o) (W o) tr)) →
  wp p (body_does req ok next W o).
Proof. intros Hp. apply wp_assume. intros Hok. apply wp_assume. auto. Qed.

(** ** Identifiers *)

(** A Project, or Branch, after a pass: but for its status as it was, with an identifier
    if it had none. *)
Definition tenant_assigned (p p' : obj KProject) : Prop :=
  same_name (pr_Meta p) (pr_Meta p') ∧ ∃ id, neon_id id ∧ pr_Spec p' = pr_Spec (ProjectReconciler.with_TenantID p id).
Definition timeline_assigned (b b' : obj KBranch) : Prop :=
  same_name (br_Meta b) (br_Meta b') ∧ ∃ id, neon_id id ∧ br_Spec b' = br_Spec (BranchReconciler.with_TimelineID b id).

Definition project_next (p p' : obj KProject) : Prop :=
  if decide (prs_TenantID (pr_Spec p) = "") then tenant_assigned p p' else same_but_status p p'.
Definition branch_next (b b' : obj KBranch) : Prop :=
  if decide (brs_TimelineID (br_Spec b) = "") then timeline_assigned b b' else same_but_status b b'.

(** The patch of an object as it is, on a server where it is so still. *)
Lemma patch_effect {k : Kind} req (o : obj k) updated fm w :
  key_of (meta updated) = key_of (meta o) →
  effect req o (λ o', merged o updated o o') [] [Ev (CMergePatch k o updated fm) (Ok w)].
Proof.
  intros Hkey v v' [Hv Hk] (v1&[[Hother Hwrite] Hm]&Hlast) _. cbn [ev_call ev_answer] in *.
  destruct (Hm w eq_refl) as (cur&Hcur&Hmerged). rewrite Hkey, Hk in Hcur. assert (cur = o) as -> by congruence.
  destruct (Hwrite w eq_refl) as [[Hkey' _] Hv1]. rewrite Hkey, Hk in Hother, Hkey', Hv1. split.
  - intros [k' key'] Hx. cbn [fst snd]. rewrite (Hlast k' key'). apply Hother. set_solver.
  - exists w. split; [|done]. split; [by rewrite (Hlast k req)|done].
Qed.

Lemma effect_next {k : Kind} req (o : obj k) (next next' : obj k → Prop) W tr :
  (∀ o', next o' → next' o') → effect req o next W tr → effect req o next' W tr.
Proof. intros Hn Heff v v' Hf Hc Hcalm. destruct (Heff v v' Hf Hc Hcalm) as (Hout&o'&Ho'&Hnext). eauto. Qed.

(** The object read again is the one there is. *)
Lemma effect_reread {k : Kind} req (o cur : obj k) next W tr :
  (cur = o → effect req o next W tr) → effect req o next W (Ev (CGet k req) (Ok cur) :: tr).
Proof.
  intros Heff v v' [Hv Hk] (v1&[Hsame [Hcur _]]&Hc) [_ Hcalm]%Forall_cons. assert (cur = o) as -> by congruence.
  destruct (Heff eq_refl v1 v') as [Hout Ho]; [split; [by rewrite (Hsame k)|done]|done|done|].
  split; [|done]. intros x Hx. by rewrite (Hout x Hx), (Hsame x.1 x.2).
Qed.

Lemma effect_skip {k : Kind} req (o : obj k) next W e tr :
  is_write (ev_call e) = false → (∀ key, (k, key) ∉ W) → effect req o next W tr → effect req o next W (e :: tr).
Proof. intros He HW. apply (effect_quiet _ _ _ _ [e]); [|done]. cbn [writes]. by rewrite He. Qed.

(** A read leaves the object as it is. *)
Lemma effect_read {k : Kind} req (o : obj k) W e :
  is_write (ev_call e) = false → effect req o (same_but_status o) W [e].
Proof.
  intros He v v' [Hv Hk] Hc _.
  assert (same v v') as Hs by (eapply consistent_quiet; [exact Hc|]; cbn [writes]; by rewrite He).
  split; [intros x _; apply Hs|]. exists o. split; [split; [by rewrite (Hs k req)|done]|apply same_but_status_refl].
Qed.

Lemma effect_unread {k : Kind} req (o : obj k) next W f tr : effect req o next W (Ev (CGet k req) (Err f) :: tr).
Proof. intros v v' [Hv _] (v1&[_ Hf]&_) [Hans _]%Forall_cons. specialize (Hf Hans). congruence. Qed.

(** ** The five controllers *)

Context `{ConditionLaws} `{OwnerLaws} `{CryptoLaws} `{QuantityLaws} `{HttpOps} `{SemanticEqual Status}.
Context (StorageControllerBaseURL : string).

Definition cluster_valid (c : obj KCluster) : Prop := ∃ secret, cls_StorageControllerDatabaseSecret (cl_Spec c) = Some secret.

Lemma cluster_effect req :
  wp (ClusterReconciler.Reconcile req) (pass_does (k := KCluster) req cluster_valid same_but_status cluster_places).
Proof.
  eapply wp_mono; [intros tr out; apply reconciles_effect|].
  apply (wp_reconcile_unchecked (k := KCluster) req (λ cluster, r ← ClusterReconciler.reconcile cluster; Ret (finish r))).
  intros c. apply wp_body_does. intros [secret Hs] Hreq.
  eapply wp_mono; [|exact (ClusterReconciler.wp_reconcile_cluster c secret Hs)].
  intros tr out (dep&r&Hdep&->&Hpass). split; [by eexists|]. eapply pass_effect; [exact Hpass| | |].
  - intros t e x. apply (m_targets _ _ _ _ _ (cluster_maintains c dep Hdep)).
  - intros key. unfold cluster_places. set_solver.
  - intros ce t f (scr&sbr&rest&->&Hst). change (key_of (cl_Meta c) = req) in Hreq. rewrite Hreq in Hst.
    do 2 (apply effect_skip; [done|unfold cluster_places; set_solver|]). by eapply effect_weaken, status_effect.
Qed.

Lemma safekeeper_effect req :
  wp (SafekeeperReconciler.Reconcile req)
    (pass_does (k := KSafekeeper) req SafekeeperReconciler.size_ok same_but_status safekeeper_child_places).
Proof.
  eapply wp_mono; [intros tr out; apply reconciles_effect|].
  apply (wp_reconcile_checked (k := KSafekeeper) req (λ sk, r ← SafekeeperReconciler.reconcile sk; Ret (finish r))).
  intros sk. apply wp_body_does. intros Hsize Hreq.
  eapply wp_mono; [|exact (SafekeeperReconciler.wp_reconcile_safekeeper sk Hsize)].
  intros tr out (r&->&Hpass). split; [by eexists|]. eapply pass_effect; [exact Hpass| | |].
  - intros t e x [_ Hsub] Hx. by eapply elem_of_sublist.
  - intros key. unfold safekeeper_child_places. set_solver.
  - intros ce t f (stsr&rest&->&Hst). change (key_of (sk_Meta sk) = req) in Hreq. rewrite Hreq in Hst.
    apply effect_skip; [done|unfold safekeeper_child_places; set_solver|]. by eapply effect_weaken, status_effect.
Qed.

Lemma pageserver_effect req :
  wp (PageserverReconciler.Reconcile req)
    (pass_does (k := KPageserver) req PageserverReconciler.spec_ok same_but_status PageserverReconciler.pageserver_children).
Proof.
  eapply wp_mono; [intros tr out; apply reconciles_effect|].
  apply (wp_reconcile_checked (k := KPageserver) req (λ ps, r ← PageserverReconciler.reconcile ps; Ret (finish r))).
  intros ps. apply wp_body_does. intros Hok Hreq.
  eapply wp_mono; [|exact (PageserverReconciler.wp_reconcile_pageserver ps Hok)].
  intros tr out (r&->&Hpass). split; [by eexists|]. eapply pass_effect; [exact Hpass| | |].
  - intros t e x [_ Hsub] Hx. by eapply elem_of_sublist.
  - intros key. unfold PageserverReconciler.pageserver_children. set_solver.
  - intros ce t f (stsr&rest&->&Hst). change (key_of (pgs_Meta ps) = req) in Hreq. rewrite Hreq in Hst.
    apply effect_skip; [done|unfold PageserverReconciler.pageserver_children; set_solver|]. by eapply effect_weaken, status_effect.
Qed.

Lemma project_next_assigned (p p' : obj KProject) :
  prs_TenantID (pr_Spec p) = "" → tenant_assigned p p' → project_next p p'.
Proof. intros Hid. unfold project_next. by rewrite decide_True. Qed.
Lemma project_next_same (p p' : obj KProject) :
  prs_TenantID (pr_Spec p) ≠ "" → same_but_status p p' → project_next p p'.
Proof. intros Hid. unfold project_next. by rewrite decide_False. Qed.
Lemma branch_next_assigned (b b' : obj KBranch) :
  brs_TimelineID (br_Spec b) = "" → timeline_assigned b b' → branch_next b b'.
Proof. intros Hid. unfold branch_next. by rewrite decide_True. Qed.
Lemma branch_next_same (b b' : obj KBranch) :
  brs_TimelineID (br_Spec b) ≠ "" → same_but_status b b' → branch_next b b'.
Proof. intros Hid. unfold branch_next. by rewrite decide_False. Qed.

Lemma project_effect req :
  wp (ProjectReconciler.Reconcile StorageControllerBaseURL req) (pass_does (k := KProject) req (λ _, True) project_next (λ _, [])).
Proof.
  eapply wp_mono; [intros tr out; apply reconciles_effect|].
  apply (wp_reconcile_checked (k := KProject) req
    (λ p, r ← ProjectReconciler.reconcile StorageControllerBaseURL p; Ret (finish r))).
  intros p. apply wp_body_does. intros _ Hreq. change (key_of (pr_Meta p) = req) in Hreq. subst req.
  eapply wp_mono; [|apply (ProjectReconciler.wp_reconcile_project StorageControllerBaseURL p)].
  intros tr out (r&->&Hpass). split; [by eexists|].
  destruct Hpass as [s tr Hid Hneon Hrun|s tr trs f sf Hid Hrun _|tra trs err Hid Hrun Hst|tra trs err f Hid Hrun Hst].
  - apply effect_skip; [done|set_solver|]. inversion Hrun as [|cur w|]; subst.
    apply effect_reread. intros ->. eapply effect_next; [|by apply patch_effect].
    intros p' (Hname&Hspec&_). apply project_next_assigned; [done|]. split; [done|]. exists (ProjectReconciler.fresh_id s). split; [done|].
    rewrite Hspec. unfold patched_ProjectSpec. cbn. by rewrite !patched_self.
  - apply effect_skip; [done|set_solver|].  inversion Hrun as [f'| |cur f']; subst.
    + apply effect_unread.
    + intros v v' _ _ [_ [[w Hw] _]%Forall_cons]%Forall_cons. done.
  - apply (effect_next _ _ _ _ _ _ (λ p', project_next_same p p' Hid)).
    apply effect_quiet; [by destruct Hrun|set_solver|].  by eapply status_effect.
  - apply (effect_next _ _ _ _ _ _ (λ p', project_next_same p p' Hid)).
    apply effect_quiet; [by destruct Hrun|set_solver|].  by eapply status_effect.
Qed.

Lemma branch_children_kind (b : Branch) key : (KBranch, key) ∉ BranchReconciler.branch_children b.
Proof. unfold BranchReconciler.branch_children. set_solver. Qed.

(** The timeline and the children of a Branch write to the children. *)
Lemma body_run_targets b p tr te ce x :
  BranchReconciler.body_run StorageControllerBaseURL b p tr te ce → x ∈ targets tr → x ∈ BranchReconciler.branch_children b.
Proof.
  intros [tr' te' Ht|trt trc dep ce' Ht _ _ Hsub] Hx.
  - destruct Ht; by apply not_elem_of_nil in Hx.
  - rewrite targets_app in Hx. apply elem_of_app in Hx as [Hx|Hx]; [destruct Ht; by apply not_elem_of_nil in Hx|].
    by eapply elem_of_sublist.
Qed.

Lemma branch_body_effect (b : Branch) p trb te ce trs f :
  BranchReconciler.body_run StorageControllerBaseURL b p trb te ce → BranchReconciler.branch_status_step b te ce trs f →
  effect (k := KBranch) (key_of (br_Meta b)) b (same_but_status (k := KBranch) b) (BranchReconciler.branch_children b)
    (Ev (CGet KProject (BranchReconciler.project_key b)) (Ok p) :: trb ++ trs).
Proof.
  intros Hrun (depr&rest&->&Hst). apply effect_skip; [done|apply branch_children_kind|].
  apply effect_after; [intros x; by eapply body_run_targets|apply branch_children_kind|].
  apply effect_skip; [done|apply branch_children_kind|]. by eapply effect_weaken, status_effect.
Qed.

Lemma branch_pass_effect req (b : Branch) tr r :
  BranchReconciler.branch_pass_with StorageControllerBaseURL BranchReconciler.branch_status_step b tr r →
  key_of (br_Meta b) = req →
  effect (k := KBranch) req b (branch_next b) (BranchReconciler.branch_children b) tr.
Proof.
  intros Hpass <-. destruct Hpass as [tr Hid Hrun|tr f Hid Hrun|f e Hid _|p trb te ce trs Hid Hrun Hst|p trb te ce trs f Hid Hrun Hst].
  - inversion Hrun as [|cur s w Hneon|]; subst. apply effect_reread. intros ->.
    apply effect_skip; [done|apply branch_children_kind|].
    eapply effect_weaken, effect_next; [|by apply patch_effect].
    intros b' (Hname&Hspec&_). apply branch_next_assigned; [done|]. split; [done|].
    exists (BranchReconciler.fresh_id s). split; [done|].
    rewrite Hspec. unfold patched_BranchSpec. cbn. by rewrite !patched_self.
  - inversion Hrun as [f'| |cur s f']; subst; [apply effect_unread|].
    intros v v' _ _ [_ [_ [[w Hw] _]%Forall_cons]%Forall_cons]%Forall_cons. done.
  - apply (effect_next _ _ _ _ _ _ (λ b', branch_next_same b b' Hid)). by apply effect_read.
  - apply (effect_next _ _ _ _ _ _ (λ b', branch_next_same b b' Hid)). by eapply branch_body_effect.
  - apply (effect_next _ _ _ _ _ _ (λ b', branch_next_same b b' Hid)). by eapply branch_body_effect.
Qed.

Lemma branch_effect req :
  wp (BranchReconciler.Reconcile StorageControllerBaseURL req)
    (pass_does (k := KBranch) req (λ _, True) branch_next BranchReconciler.branch_children).
Proof.
  eapply wp_mono; [intros tr out; apply reconciles_effect|].
  eapply wp_mono; [|apply (BranchReconciler.wp_Reconcile_branch StorageControllerBaseURL
    BranchReconciler.branch_status_step BranchReconciler.wp_branch_updateStatus req)].
  intros tr out Hrun. eapply reconciles_mono; [|exact Hrun]. clear tr out Hrun.
  intros b tr out (r&->&Hpass) _ Hreq. change (key_of (br_Meta b) = req) in Hreq. split; [by eexists|].
  by eapply branch_pass_effect.
Qed.
End effects.
