(* ===== verification/Places.v ===== *)
(** * Whose place is it

    The places the controllers write: the children of a Cluster, Safekeeper, Pageserver
    or Branch, tagged with what they are.  Kind, namespace and name of a child tell whose
    it is, so that the controllers of different objects never write to the same place. *)

From S2P Require Import Prelude GoLib KubeTypes Api Interfaces StorageBroker StorageController.
From S2P Require Import SafekeeperRes PageserverRes ComputeRes Naming ApiServer.
From S2P Require Import ClusterController SafekeeperController PageserverController BranchController Convergence.

(** ** Children by what they are *)

Inductive tag :=
  | Exposed (k : Kind) (e : exposed)   (** a Service, or what runs or configures it under the same name *)
  | ComputeNode (branch : string)      (** a Deployment *)
  | ComputeSpec (branch : string)      (** a ConfigMap *)
  | SigningKeys (cluster : string).    (** a Secret *)

Definition tag_kind (t : tag) : Kind :=
  match t with
  | Exposed k _ => k
  | ComputeNode _ => KDeployment
  | ComputeSpec _ => KConfigMap
  | SigningKeys _ => KSecret
  end.

Definition tag_name (t : tag) : string :=
  match t with
  | Exposed _ e => exposed_name e
  | ComputeNode b => b +:+ "-compute-node"
  | ComputeSpec b => b +:+ "-compute-spec"
  | SigningKeys c => ClusterReconciler.jwt_secret_name c
  end.

Definition tag_place (ns : string) (t : tag) : place :=
  (tag_kind t, {| nn_Namespace := ns; nn_Name := tag_name t |}).

Definition tag_ok (t : tag) : Prop :=
  match t with Exposed k e => exposed_ok e ∧ k ≠ KSecret | _ => True end.

(** A word that is neither a number nor the last piece of an exposed name. *)
Lemma exposed_name_ne e a w :
  exposed_ok e → string_all (λ x, negb (Ascii.eqb x "-")) w = true → all_digits w = false →
  w ∉ ["headless"; "broker"; "controller"; "admin"; "postgres"] →
  exposed_name e ≠ a +:+ String "-" w.
Proof.
  intros Hok Hdash Hdigits Hw Heq. unfold exposed_name in Heq.
  apply string_last_split in Heq as [_ Hl]; [|by apply last_piece_no_dash|done].
  destruct e; cbn [last_piece exposed_ok] in *; try (by eapply fmt_d_not_word); subst w; set_solver.
Qed.

Lemma exposed_ne_compute e b w :
  exposed_ok e → w = "node" ∨ w = "spec" → exposed_name e ≠ b +:+ "-compute-" +:+ w.
Proof.
  intros Hok Hw. assert (b +:+ "-compute-" +:+ w = (b +:+ "-compute") +:+ String "-" w) as ->
    by (by destruct Hw as [-> | ->]; rewrite string_app_assoc).
  apply exposed_name_ne; [done|by destruct Hw as [-> | ->]..|]. destruct Hw as [-> | ->]; set_solver.
Qed.

(** Kind and name tell what a child is. *)
Lemma tag_place_inj ns ns' t t' :
  tag_ok t → tag_ok t' → tag_place ns t = tag_place ns' t' → ns = ns' ∧ t = t'.
Proof.
  unfold tag_place. intros Ht Ht' [= Hk Hns Hn]. split; [done|].
  destruct t as [k e|b|b|c], t' as [k' e'|b'|b'|c']; cbn [tag_kind tag_name tag_ok] in *; simplify_eq;
    destruct_and?; try done.
  - f_equal. by apply exposed_name_inj.
  - by eapply (exposed_ne_compute e b' "node") in Hn; [|auto..].
  - by eapply (exposed_ne_compute e b' "spec") in Hn; [|auto..].
  - symmetry in Hn. by eapply (exposed_ne_compute e' b "node") in Hn; [|auto..].
  - by apply string_app_inj_r in Hn as ->.
  - symmetry in Hn. by eapply (exposed_ne_compute e' b "spec") in Hn; [|auto..].
  - by apply string_app_inj_r in Hn as ->.
  - by apply string_app_inj_r in Hn as ->.
Qed.

(** ** Owners *)

(** An owner, within its namespace: what its children are named after. *)
Inductive owner :=
  | OfCluster (name : string)
  | OfSafekeeper (cluster : string) (id : Z)
  | OfPageserver (cluster : string) (id : Z)
  | OfProject (name : string)
  | OfBranch (name : string).

#[export] Instance owner_eq_dec : EqDecision owner.
Proof. solve_decision. Defined.

Definition tag_owner (t : tag) : owner :=
  match t with
  | Exposed _ (ExSafekeeper c id | ExSafekeeperHeadless c id) => OfSafekeeper c id
  | Exposed _ (ExPageserver c id | ExPageserverHeadless c id) => OfPageserver c id
  | Exposed _ (ExBroker c | ExController c) => OfCluster c
  | Exposed _ (ExAdmin b | ExPostgres b) => OfBranch b
  | ComputeNode b | ComputeSpec b => OfBranch b
  | SigningKeys c => OfCluster c
  end.

(** The places of an owner's children. *)
Definition owned_by (ns : string) (o : owner) (x : place) : Prop :=
  ∃ t, x = tag_place ns t ∧ tag_ok t ∧ tag_owner t = o.

Lemma owned_by_inj ns ns' o o' x : owned_by ns o x → owned_by ns' o' x → (ns, o) = (ns', o').
Proof.
  intros (t&->&Hok&<-) (t'&Heq&Hok'&<-). by destruct (tag_place_inj _ _ _ _ Hok Hok' Heq) as [-> ->].
Qed.

Lemma owned_by_kind ns o x : owned_by ns o x → x.1 = KSecret → ∃ c, o = OfCluster c ∧ x = tag_place ns (SigningKeys c).
Proof. intros ([k e|b|b|c]&->&Hok&<-); cbn; [by intros ->; destruct Hok|done|done|by exists c]. Qed.

(** Every child of the four controllers is where the table has it. *)
Ltac tagged t := apply List.Forall_cons; [exists t; split_and!; [|done|done]|].

Lemma cluster_owns (c : Cluster) :
  Forall (owned_by (om_Namespace (cl_Meta c)) (OfCluster (om_Name (cl_Meta c)))) (cluster_places c).
Proof.
  set (n := om_Name (cl_Meta c)). unfold cluster_places.
  tagged (SigningKeys n); [done|].
  tagged (Exposed KDeployment (ExController n)); [by unfold tag_place; cbn [tag_kind tag_name]; rewrite <-controller_name|].
  tagged (Exposed KService (ExController n)); [by unfold tag_place; cbn [tag_kind tag_name]; rewrite <-controller_name|].
  tagged (Exposed KDeployment (ExBroker n)); [by unfold tag_place; cbn [tag_kind tag_name]; rewrite <-broker_name|].
  tagged (Exposed KService (ExBroker n)); [by unfold tag_place; cbn [tag_kind tag_name]; rewrite <-broker_name|].
  done.
Qed.

Lemma safekeeper_owns (sk : Safekeeper) :
  0 ≤ sfs_ID (sk_Spec sk) →
  Forall (owned_by (om_Namespace (sk_Meta sk)) (OfSafekeeper (sfs_Cluster (sk_Spec sk)) (sfs_ID (sk_Spec sk))))
    (safekeeper_child_places sk).
Proof.
  intros Hid. unfold safekeeper_child_places. rewrite safekeeper_headless_name, safekeeper_name.
  set (c := sfs_Cluster (sk_Spec sk)) in *. set (id := sfs_ID (sk_Spec sk)) in *.
  tagged (Exposed KService (ExSafekeeper c id)); [done|]. tagged (Exposed KService (ExSafekeeperHeadless c id)); [done|].
  tagged (Exposed KStatefulSet (ExSafekeeper c id)); done.
Qed.

Lemma pageserver_owns (ps : Pageserver) :
  0 ≤ pss_ID (pgs_Spec ps) →
  Forall (owned_by (om_Namespace (pgs_Meta ps)) (OfPageserver (pss_Cluster (pgs_Spec ps)) (pss_ID (pgs_Spec ps))))
    (PageserverReconciler.pageserver_children ps).
Proof.
  intros Hid. unfold PageserverReconciler.pageserver_children. rewrite pageserver_headless_name, pageserver_name.
  set (c := pss_Cluster (pgs_Spec ps)) in *. set (id := pss_ID (pgs_Spec ps)) in *.
  tagged (Exposed KConfigMap (ExPageserver c id)); [done|]. tagged (Exposed KService (ExPageserver c id)); [done|].
  tagged (Exposed KService (ExPageserverHeadless c id)); [done|]. tagged (Exposed KStatefulSet (ExPageserver c id)); done.
Qed.

Lemma branch_owns (b : Branch) :
  Forall (owned_by (om_Namespace (br_Meta b)) (OfBranch (om_Name (br_Meta b)))) (BranchReconciler.branch_children b).
Proof.
  set (n := om_Name (br_Meta b)). unfold BranchReconciler.branch_children.
  tagged (ComputeSpec n); [done|]. tagged (ComputeNode n); [done|].
  tagged (Exposed KService (ExAdmin n)); [done|]. tagged (Exposed KService (ExPostgres n)); done.
Qed.
