(* ===== verification/Rounds.v ===== *)
(** * Rounds of passes

    The operator works by calling the controllers again and again.  A [job] is the calls
    of [Reconcile] for one object: what they need to find, the state they settle in, the
    places that state depends on and the places they write.  A [round] runs passes one
    after the other, in whatever order.  [stages] is the condition under which the jobs of
    a list build on each other: every job finds what it needs once those before it are
    settled, and none of them disturbs one that is.  Then every schedule that has the list
    in it, however often the jobs come up otherwise, settles all of them, and from then on
    no pass writes anything. *)

From S2P Require Import Prelude GoLib KubeTypes Api Interfaces Prog Server Status Reconcile.
From S2P Require Import Controller ApiServer Settling Effects.

(** A statement about every [x] holds of a program when each does. *)
Lemma wp_forall {A X} (p : prog A) (Q : X → trace → outcome A → Prop) :
  (∀ x, wp p (Q x)) → wp p (λ tr out, ∀ x, Q x tr out).
Proof.
  revert Q. induction p as [a|w|c k IH]; intros Q HQ; [done|done|]. intros r.
  apply (IH r (λ x tr out, Q x (Ev c r :: tr) out)). intros x. apply HQ.
Qed.

(** Passes, one after the other; a panic ends the round. *)
Fixpoint round (l : list (prog (Result * option error))) : prog (list (Result * option error)) :=
  match l with
  | [] => Ret []
  | p :: l => r ← p; rs ← round l; Ret (r :: rs)
  end.

Record job := Job {
  jb_run : prog (Result * option error);
  jb_needs : view → Prop;
  jb_settled : view → Prop;
  jb_reads : list place;
  jb_writes : list place;
}.

Section jobs.
Context `{SemanticDerivative DeploymentSpec} `{SemanticDerivative StatefulSetSpec}
  `{SemanticDerivative ServiceSpec} `{SemanticDerivative smap}.

(** What other programs have to answer. *)
Context (taken : event → Prop).

(** A trace in which no call fails. *)
Definition clean (tr : trace) (v v' : view) : Prop := consistent v tr v' ∧ calm tr ∧ Forall taken tr.

Lemma clean_app tr tr' v v' : clean (tr ++ tr') v v' → ∃ v1, clean tr v v1 ∧ clean tr' v1 v'.
Proof.
  intros ((v1&Hc1&Hc2)%consistent_app&[Hcalm1 Hcalm2]%Forall_app&[Ht1 Ht2]%Forall_app). by exists v1.
Qed.

(** ** Passes in any order *)

Definition returns {A} (out : outcome A) : Prop := ∃ a, out = Returned a.

(** A round of passes that keep [I], each of which brings about its [D x] and keeps those
    of the others. *)
Lemma wp_round_each {X} (run : X → prog (Result * option error)) (I : view → Prop) (D : X → view → Prop) l :
  (∀ v v', same v v' → I v → I v') → (∀ x v v', same v v' → D x v → D x v') →
  (∀ x, x ∈ l → wp (run x) (λ tr out, ∀ v v', I v → clean tr v v' →
     returns out ∧ I v' ∧ D x v' ∧ ∀ y, D y v → D y v')) →
  wp (round (run <$> l)) (λ tr out, ∀ v v', I v → clean tr v v' →
     returns out ∧ I v' ∧ (∀ x, x ∈ l → D x v') ∧ ∀ y, D y v → D y v').
Proof.
  intros HI HD. induction l as [|x l IH]; intros Hall; cbn [fmap list_fmap round].
  - apply wp_ret. intros v v' Hv (Hc&_&_). split_and!; [by eexists|by eapply HI| |intros y; by apply HD].
    intros x Hx. by apply not_elem_of_nil in Hx.
  - eapply wp_bind_mono; [apply Hall; left|..].
    + intros tr r Hfirst. eapply wp_bind_mono; [apply IH; intros y Hy; apply Hall; by right|..].
      * intros tr' rs Hothers. apply wp_ret. rewrite app_nil_r. intros v v' Hv (v1&Hc1&Hc2)%clean_app.
        destruct (Hfirst _ _ Hv Hc1) as (_&Hv1&Hx&Hk1). destruct (Hothers _ _ Hv1 Hc2) as (_&Hv2&Hl&Hk2).
        split_and!; [by eexists|done| |auto]. intros y [->|Hy]%elem_of_cons; auto.
      * intros tr' w Hothers v v' Hv (v1&Hc1&Hc2)%clean_app. exfalso.
        destruct (Hfirst _ _ Hv Hc1) as (_&Hv1&_). by destruct (Hothers _ _ Hv1 Hc2) as [[rs ?] _].
    + intros tr w Hfirst v v' Hv Hc. by destruct (Hfirst _ _ Hv Hc) as [[r ?] _].
Qed.

(** ** Jobs *)

(** A trace of the job from contents in which it finds what it needs. *)
Definition smooth (J : job) (tr : trace) (v v' : view) : Prop := jb_needs J v ∧ clean tr v v'.

(** Then it succeeds and settles; settled already, it writes nothing. *)
Definition job_result (J : job) (tr : trace) (out : outcome (Result * option error)) : Prop :=
  ∀ v v', smooth J tr v v' →
    out = Returned (no_requeue, None) ∧ jb_settled J v' ∧
    (∀ x, x ∉ jb_writes J → v' x.1 x.2 = v x.1 x.2) ∧ (jb_settled J v → writes tr = []).
Definition job_settles (J : job) : Prop := wp (jb_run J) (job_result J).

Definition job_local (J : job) : Prop := depends_on (jb_reads J) (jb_settled J).

(** Whatever it finds, it returns, keeps [I] and writes where it may. *)
Definition job_safe (I : view → Prop) (J : job) : Prop :=
  wp (jb_run J) (λ tr out, ∀ v v', I v → clean tr v v' → returns out ∧ I v' ∧ outside (jb_writes J) v v').

Definition all_jobs_settled (l : list job) (v : view) : Prop := Forall (λ J, jb_settled J v) l.

Definition stages (I : view → Prop) (l : list job) : Prop :=
  ∀ before J after, l = before ++ J :: after →
    job_settles J ∧ job_local J ∧ job_safe I J ∧
    (∀ v, I v → all_jobs_settled before v → jb_needs J v) ∧
    (∀ K x, K ∈ before → x ∈ jb_reads K → x ∉ jb_writes J).

(** A change elsewhere leaves jobs settled. *)
Lemma jobs_settled_local l v v' :
  Forall job_local l → (∀ K x, K ∈ l → x ∈ jb_reads K → v' x.1 x.2 = v x.1 x.2) →
  all_jobs_settled l v → all_jobs_settled l v'.
Proof.
  unfold all_jobs_settled. rewrite !Forall_forall. intros Hlocal Hsame Hset K HK.
  apply (Hlocal K HK v v'); [|auto]. intros k key Hin. by apply (Hsame K (k, key)).
Qed.

Section staged.
Context (I : view → Prop) (HI : ∀ v v', same v v' → I v → I v').
Context (l : list job) (Hstages : stages I l).

Lemma stages_local : Forall job_local l.
Proof.
  apply Forall_forall. intros J (before&after&Hl)%list_elem_of_split. by destruct (Hstages before J after Hl) as (_&?&_).
Qed.

Lemma stages_local_prefix done rest : l = done ++ rest → Forall job_local done.
Proof. intros Hl. pose proof stages_local as Hall. rewrite Hl in Hall. by apply Forall_app in Hall as [? _]. Qed.

(** The pass of a job that is settled, like all before it. *)
Definition idle (tr : trace) (out : outcome (Result * option error)) : Prop :=
  out = Returned (no_requeue, None) ∧ writes tr = [].

Lemma wp_settled_pass done rest J :
  l = done ++ rest → J ∈ done →
  wp (jb_run J) (λ tr out, ∀ v v', I v → all_jobs_settled done v → clean tr v v' → idle tr out).
Proof.
  intros Hl (before&after&->)%list_elem_of_split.
  destruct (Hstages before J (after ++ rest)) as (Hset&_&_&Hneeds&_); [by rewrite Hl, <-app_assoc|].
  eapply wp_mono; [|exact Hset]. intros tr out Hrun v v' HIv [Hbefore [HJ _]%Forall_cons]%Forall_app Hc.
  destruct (Hrun v v') as (->&_&_&Hquiet); [by split; [apply Hneeds|]|]. split; [done|auto].
Qed.

(** Any pass leaves the jobs of a settled prefix settled. *)
Lemma wp_pass_keeps done rest J :
  l = done ++ rest → J ∈ l →
  wp (jb_run J) (λ tr out, ∀ v v', I v → all_jobs_settled done v → clean tr v v' →
    returns out ∧ I v' ∧ all_jobs_settled done v').
Proof.
  intros Hl HJ. pose proof (stages_local_prefix _ _ Hl) as Hlocal.
  assert (job_safe I J) as Hsafe
    by (apply list_elem_of_split in HJ as (before&after&Hat); by destruct (Hstages before J after Hat) as (_&_&?&_)).
  rewrite Hl in HJ. apply elem_of_app in HJ as [HJ|HJ].
  - eapply wp_mono; [|exact (wp_and _ _ _ Hsafe (wp_settled_pass done rest J Hl HJ))].
    intros tr out [Hrun Hidle] v v' HIv Hset Hc. destruct (Hrun v v' HIv Hc) as (Hret&HI'&_). split_and!; [done..|].
    destruct (Hidle v v' HIv Hset Hc) as [_ Hw]. eapply jobs_settled_local; [done| |exact Hset].
    intros K [k key] _ _. eapply consistent_quiet; [apply Hc|done].
  - apply list_elem_of_split in HJ as (before&after&->).
    destruct (Hstages (done ++ before) J after) as (_&_&_&_&Hapart); [by rewrite Hl, <-app_assoc|].
    eapply wp_mono; [|exact Hsafe]. intros tr out Hrun v v' HIv Hset Hc.
    destruct (Hrun v v' HIv Hc) as (Hret&HI'&Hout). split_and!; [done..|].
    eapply jobs_settled_local; [done| |exact Hset]. intros K x HK Hx. apply Hout, (Hapart K); [|done].
    apply elem_of_app. by left.
Qed.

(** The pass of the next job adds it to the prefix. *)
Lemma wp_pass_next done J rest :
  l = done ++ J :: rest →
  wp (jb_run J) (λ tr out, ∀ v v', I v → all_jobs_settled done v → clean tr v v' →
    out = Returned (no_requeue, None) ∧ I v' ∧ all_jobs_settled (done ++ [J]) v').
Proof.
  intros Hl. destruct (Hstages done J rest Hl) as (Hset&_&_&Hneeds&_).
  assert (J ∈ l) as HJ by (rewrite Hl; apply elem_of_app; right; left).
  eapply wp_mono; [|exact (wp_and _ _ _ Hset (wp_pass_keeps done (J :: rest) J Hl HJ))].
  intros tr out [Hrun Hkeep] v v' HIv Hdone Hc. destruct (Hkeep v v' HIv Hdone Hc) as (_&HI'&Hdone').
  destruct (Hrun v v') as (->&HJ'&_); [by split; [apply Hneeds|]|].
  split_and!; [done..|]. apply Forall_app. split; [done|by constructor].
Qed.

(** A schedule in which what is left comes up in order settles everything. *)
Lemma wp_schedule done rest sch :
  l = done ++ rest → rest `sublist_of` sch → (∀ J, J ∈ sch → J ∈ l) →
  wp (round (jb_run <$> sch)) (λ tr out, ∀ v v', I v → all_jobs_settled done v → clean tr v v' →
    returns out ∧ I v' ∧ all_jobs_settled l v').
Proof.
  revert done rest. induction sch as [|J sch IH]; intros done rest Hl Hsub Hin; cbn [fmap list_fmap round].
  { apply sublist_nil_r in Hsub as ->. rewrite app_nil_r in Hl. subst done. apply wp_ret.
    intros v v' HIv Hset (Hc&_&_). split_and!; [by eexists|by eapply HI|].
    eapply jobs_settled_local; [exact stages_local| |exact Hset]. intros K [k key] _ _. apply Hc. }
  assert (∃ done' rest', l = done' ++ rest' ∧ rest' `sublist_of` sch ∧
    wp (jb_run J) (λ tr out, ∀ v v', I v → all_jobs_settled done v → clean tr v v' →
      returns out ∧ I v' ∧ all_jobs_settled done' v')) as (done'&rest'&Hl'&Hsub'&Hpass).
  { apply sublist_cons_r in Hsub as [Hsub|(rest'&->&Hsub)].
    - exists done, rest. split_and!; [done..|]. apply (wp_pass_keeps done rest); [done|apply Hin; left].
    - exists (done ++ [J]), rest'. split_and!; [by rewrite <-app_assoc|done|].
      eapply wp_mono; [|exact (wp_pass_next done J rest' Hl)]. intros tr out Hrun v v' HIv Hset Hc.
      destruct (Hrun v v' HIv Hset Hc) as (->&?). by split; [eexists|]. }
  eapply wp_bind_mono; [exact Hpass|..].
  - intros tr r Hfirst. eapply wp_bind_mono; [apply (IH done' rest' Hl' Hsub'); intros K HK; apply Hin; by right|..].
    + intros tr' rs Hothers. apply wp_ret. rewrite app_nil_r. intros v v' HIv Hset (v1&Hc1&Hc2)%clean_app.
      destruct (Hfirst _ _ HIv Hset Hc1) as (_&HI1&Hset1). destruct (Hothers _ _ HI1 Hset1 Hc2) as (_&HI2&Hset2).
      split; [by eexists|done].
    + intros tr' w Hothers v v' HIv Hset (v1&Hc1&Hc2)%clean_app. exfalso.
      destruct (Hfirst _ _ HIv Hset Hc1) as (_&HI1&Hset1). by destruct (Hothers _ _ HI1 Hset1 Hc2) as [[rs ?] _].
  - intros tr w Hfirst v v' HIv Hset Hc. by destruct (Hfirst _ _ HIv Hset Hc) as [[r ?] _].
Qed.

(** When nothing else is in the schedule, every pass succeeds. *)
Lemma wp_in_order done rest :
  l = done ++ rest →
  wp (round (jb_run <$> rest)) (λ tr out, ∀ v v', I v → all_jobs_settled done v → clean tr v v' →
    out = Returned (replicate (length rest) (no_requeue, None))).
Proof.
  revert done. induction rest as [|J rest IH]; intros done Hl; cbn [fmap list_fmap round]; [by apply wp_ret|].
  eapply wp_bind_mono; [exact (wp_pass_next done J rest Hl)|..].
  - intros tr r Hfirst. eapply wp_bind_mono; [apply (IH (done ++ [J])); by rewrite <-app_assoc|..].
    + intros tr' rs Hothers. apply wp_ret. rewrite app_nil_r. intros v v' HIv Hset (v1&Hc1&Hc2)%clean_app.
      destruct (Hfirst _ _ HIv Hset Hc1) as ([= ->]&HI1&Hset1). by injection (Hothers _ _ HI1 Hset1 Hc2) as ->.
    + intros tr' w Hothers v v' HIv Hset (v1&Hc1&Hc2)%clean_app. exfalso.
      destruct (Hfirst _ _ HIv Hset Hc1) as (_&HI1&Hset1). by discriminate (Hothers _ _ HI1 Hset1 Hc2).
  - intros tr w Hfirst v v' HIv Hset Hc. by destruct (Hfirst _ _ HIv Hset Hc) as [? _].
Qed.

(** Once everything is settled, no pass writes. *)
Lemma wp_settled_schedule sch :
  (∀ J, J ∈ sch → J ∈ l) →
  wp (round (jb_run <$> sch)) (λ tr out, ∀ v v', I v → all_jobs_settled l v → clean tr v v' →
    out = Returned (replicate (length sch) (no_requeue, None)) ∧ writes tr = []).
Proof.
  induction sch as [|J sch IH]; intros Hin; cbn [fmap list_fmap round]; [by apply wp_ret|].
  assert (l = l ++ []) as Hl by by rewrite app_nil_r.
  assert (J ∈ l) as HJ by (apply Hin; left).
  eapply wp_bind_mono; [exact (wp_and _ _ _ (wp_settled_pass l [] J Hl HJ) (wp_pass_keeps l [] J Hl HJ))|..].
  - intros tr r [Hidle Hkeep]. eapply wp_bind_mono; [apply IH; intros K HK; apply Hin; by right|..].
    + intros tr' rs Hothers. apply wp_ret. rewrite app_nil_r. intros v v' HIv Hset (v1&Hc1&Hc2)%clean_app.
      destruct (Hidle _ _ HIv Hset Hc1) as [[= ->] Hw1]. destruct (Hkeep _ _ HIv Hset Hc1) as (_&HI1&Hset1).
      destruct (Hothers _ _ HI1 Hset1 Hc2) as [[= ->] Hw2]. split; [done|]. by rewrite writes_app, Hw1.
    + intros tr' w Hothers v v' HIv Hset (v1&Hc1&Hc2)%clean_app. exfalso.
      destruct (Hkeep _ _ HIv Hset Hc1) as (_&HI1&Hset1). by destruct (Hothers _ _ HI1 Hset1 Hc2) as [? _].
  - intros tr w [Hidle _] v v' HIv Hset Hc. by destruct (Hidle _ _ HIv Hset Hc) as [? _].
Qed.
End staged.

(** ** The pass of a controller as a job *)

Section of_controller.
Context {k : Kind} (req : Request) (x : obj k).
Context (ok : obj k → trace → Prop) (pre in_place settled : obj k → view → Prop) (R W T : obj k → list place).
Context (children : obj k → trace → option error → Prop) (report : obj k → option error → trace → option fault → Prop).
Context (reconcile : prog (Result * option error)) (gone : outcome (Result * option error)) (what : string).
Context (HS : settling req ok pre in_place settled R W T children report reconcile gone what).

(** The object is there, but for its status; with what its pass needs; and settled. *)
Definition there (v : view) : Prop := ∃ o, found v req o ∧ same_but_status x o.
Definition object_ready (v : view) : Prop := ∃ o, found v req o ∧ same_but_status x o ∧ pre o v.
Definition object_settled (v : view) : Prop :=
  ∃ o, found v req o ∧ same_but_status x o ∧ in_place o v ∧ settled o v.

(** Objects that differ in the status are handled alike. *)
Context (Hok : ∀ o tr, same_but_status x o → Forall taken tr → ok o tr).
Context (Hparts : ∀ o, same_but_status x o → R o = R x ∧ W o = W x ∧ T o = T x).

Lemma object_runs :
  wp reconcile (λ tr out, ∀ v v', object_ready v → consistent v tr v' → calm tr → Forall taken tr →
    out = Returned (no_requeue, None) ∧ object_settled v' ∧
    (∀ y, y ∉ (k, req) :: W x → v' y.1 y.2 = v y.1 y.2) ∧ (object_settled v → writes tr = [])).
Proof.
  eapply wp_mono; [|eapply settling_runs, HS]. intros tr out Hrun v v' (o&Hf&Hs&Hpre) Hc Hcalm Htaken.
  destruct (Hparts o Hs) as (_&HW&_).
  destruct (Hrun o v v' Hf Hpre Hc Hcalm) as (->&(o'&Hf'&Hs'&Hp&Hset)&Hframe&Hquiet).
  { apply Hok; [done|]. destruct Htaken; [constructor|done]. }
  rewrite HW in Hframe. split_and!; [done| |done|].
  { exists o'. split_and!; [done|by eapply same_but_status_trans|done|done]. }
  intros (o2&[Hv2 _]&_&Hp2&Hset2). assert (o2 = o) as -> by (destruct Hf; congruence). auto.
Qed.

Lemma object_local : depends_on ((k, req) :: R x ++ T x) object_settled.
Proof.
  intros v v' Ha (o&[Hv Hk]&Hs&Hp&Hset). destruct (Hparts o Hs) as (HR&_&HT). exists o.
  split_and!; [split; [by rewrite (Ha k req) by left|done]|done|..].
  - eapply (m_local _ _ _ _ _ (st_children _ _ _ _ _ _ _ _ _ _ _ _ _ HS o [] (Hok o [] Hs (List.Forall_nil _)))); [|exact Hp].
    rewrite HR. intros k' key' Hin. apply Ha. set_solver.
  - eapply (st_local _ _ _ _ _ _ _ _ _ _ _ _ _ HS); [|exact Hset]. rewrite HT.
    intros k' key' Hin. apply Ha. set_solver.
Qed.

(** Its passes are a job. *)
Definition object_as_job : job :=
  Job reconcile object_ready object_settled ((k, req) :: R x ++ T x) ((k, req) :: W x).

Lemma object_job : job_settles object_as_job ∧ job_local object_as_job.
Proof.
  split; [|exact object_local]. eapply wp_mono; [|exact object_runs].
  intros tr out Hrun v v' (Hneeds&Hc&Hcalm&Htaken). by apply Hrun.
Qed.
End of_controller.
End jobs.
