(* ===== verification/Passes.v ===== *)
(** * The passes of the controllers settle

    For each of the five resources: a whole call of [Reconcile], on a server
    that keeps what is written and with no call failing, ends without an error in a
    settled state, and from a settled state it writes nothing. *)

From S2P Require Import Prelude GoLib KubeTypes Api Interfaces Reference Prog Server Status Reconcile.
From S2P Require Import StorageBroker StorageController SafekeeperRes PageserverRes ComputeRes.
From S2P Require Import Controller ApiServer ClusterController SafekeeperController PageserverController.
From S2P Require Import ProjectController BranchController.
From S2P Require Import Convergence Settling.

(** ** A Cluster *)

Section cluster.
Context `{ConditionLaws} `{OwnerLaws} `{CryptoLaws} `{SemanticEqualLaws Status}.
Context `{SemanticDerivative DeploymentSpec} `{SemanticDerivative StatefulSetSpec}
  `{SemanticDerivative ServiceSpec} `{SemanticDerivative smap}.
Import ClusterReconciler.

Definition component_state (label : string) (depr : result Deployment) : ConditionStatus * string * string :=
  match depr with
  | Err err =>
      if IsNotFound err
      then (ConditionFalse, ReasonChildResourceMissing, label +:+ " Deployment has not been observed yet")
      else (ConditionUnknown, ReasonChildResourceMissing, Error err)
  | Ok dep =>
      if IsDeploymentAvailable (Some dep)
      then (ConditionTrue, ReasonAsExpected, label +:+ " Deployment is Available")
      else (ConditionFalse, ReasonChildDeploymentNotAvailable, label +:+ " Deployment is not yet Available")
  end.

Definition cluster_conditions (g : Z) (sc sb : ConditionStatus * string * string) : list Condition :=
  [ condition g ConditionStorageControllerAvailable sc.1.1 sc.1.2 sc.2;
    condition g ConditionStorageBrokerAvailable sb.1.1 sb.1.2 sb.2 ] ++
  (if decide (sc.1.1 = ConditionTrue ∧ sb.1.1 = ConditionTrue)
   then [ condition g ConditionAvailable ConditionTrue ReasonAsExpected "Cluster components are Available";
          condition g ConditionProgressing ConditionFalse ReasonAsExpected "Cluster is at desired state" ]
   else [ condition g ConditionAvailable ConditionFalse ReasonChildDeploymentNotAvailable
            "One or more cluster components are not Available";
          condition g ConditionProgressing ConditionTrue ReasonReconciling
            "Waiting for child Deployments to become Available" ]).

Definition sc_key (cluster : Cluster) : NamespacedName := child_key cluster (storagecontroller.Name (om_Name (cl_Meta cluster))).
Definition sb_key (cluster : Cluster) : NamespacedName := child_key cluster (storagebroker.Name (om_Name (cl_Meta cluster))).

Definition sc_state : result Deployment → ConditionStatus * string * string := component_state "Storage controller".
Definition sb_state : result Deployment → ConditionStatus * string * string := component_state "Storage broker".

(** What the status has to say of the two components there are. *)
Definition cluster_wants (cluster : Cluster) (v : view) (g : Z) : list Condition :=
  cluster_conditions g (sc_state (seen (k := KDeployment) v (sc_key cluster)))
    (sb_state (seen (k := KDeployment) v (sb_key cluster))).

Lemma cluster_conditions_distinct g sc sb : NoDup (cond_Type <$> cluster_conditions g sc sb).
Proof.
  unfold cluster_conditions. case_decide; cbn; repeat apply NoDup_cons_2; try apply NoDup_nil_2; set_solver.
Qed.

Lemma component_state_missing label f :
  fault_not_found f = true → component_state label (Err (Foreign f)) = component_state label (Err (Foreign missing)).
Proof. intros Hf. unfold component_state. by rewrite (Hf : IsNotFound (Foreign f) = true). Qed.

Lemma wp_component_state cluster name label :
  wp (deploymentState cluster name label) (λ tr out, ∃ depr,
    tr = [Ev (CGet KDeployment (child_key cluster name)) depr] ∧ out = Returned (component_state label (from_env depr))).
Proof. unfold deploymentState. wp_call depr. wp_steps. by exists depr. Qed.

Definition cluster_shows (sc sb : ConditionStatus * string * string) (g : Z) (_ : trace) (l : list Condition) : Prop :=
  l = cluster_conditions g sc sb.

(** The closure of a pass whose children succeeded. *)
Lemma wp_cluster_status_rewrites sc sb (cur : obj KCluster) :
  wp (cluster_status None sc sb cur) (λ trm out, ∃ cs, out = Returned (refreshed cur cs) ∧
    rewrites (cluster_shows sc sb) cur trm cs).
Proof.
  destruct sc as [[sc1 sc2] sc3], sb as [[sb1 sb2] sb3]. unfold cluster_status, SetCondition, rewrites, cluster_shows, cluster_conditions.
  rewrite meta_SetObservedGeneration, StatusConditions_SetObservedGeneration. cbn [fst snd].
  wp_call t1. wp_call t2. case_decide; wp_call t3; wp_call t4; wp_steps; eexists; (split; [reflexivity|split; [done|]]).
  - by eexists [(t1, _); (t2, _); (t3, _); (t4, _)].
  - by eexists [(t1, _); (t2, _); (t3, _); (t4, _)].
Qed.

(** A Cluster that differs in its status only has the same children and report. *)
Lemma cluster_same_children (c c' : Cluster) v :
  same_but_status (k := KCluster) c c' →
  (cluster_in_place c v → cluster_in_place c' v) ∧ cluster_wants c' = cluster_wants c.
Proof.
  intros [(Hname&Hns&_) Hspec].
  assert (sc_key c' = sc_key c ∧ sb_key c' = sb_key c ∧ jwt_secret_key c' = jwt_secret_key c) as (Hsc&Hsb&Hjwt)
    by (unfold sc_key, sb_key, child_key, jwt_secret_key, jwt_secret_name; by rewrite Hname, Hns).
  assert (storagecontroller.Deployment c' = storagecontroller.Deployment c ∧
          storagecontroller.Service c' = storagecontroller.Service c ∧
          storagebroker.Deployment c' = storagebroker.Deployment c ∧
          storagebroker.Service c' = storagebroker.Service c) as (H1'&H2'&H3'&H4').
  { unfold storagecontroller.Deployment, storagecontroller.Service, storagebroker.Deployment, storagebroker.Service.
    by rewrite Hname, Hns, Hspec. }
  split.
  - unfold cluster_in_place. fold (sc_key c) (sc_key c') (sb_key c) (sb_key c').
    by rewrite Hsc, Hsb, Hjwt, H1', H2', H3', H4'.
  - unfold cluster_wants. by rewrite Hsc, Hsb.
Qed.

(** The report of a pass whose children succeeded. *)
Definition cluster_report (cluster : Cluster) (ce : option error) (tr : trace) (f : option fault) : Prop :=
  ce = None → ∃ scr sbr rest,
    tr = Ev (CGet KDeployment (sc_key cluster)) scr :: Ev (CGet KDeployment (sb_key cluster)) sbr :: rest ∧
    report_run (k := KCluster) (key_of (cl_Meta cluster))
      (rewrites (cluster_shows (sc_state (from_env scr)) (sb_state (from_env sbr)))) rest f.

Lemma wp_cluster_report cluster ce :
  wp (updateStatus cluster ce) (λ tr out, ∃ o f, out = Returned (o, Foreign <$> f) ∧ cluster_report cluster ce tr f).
Proof.
  destruct ce as [e|].
  - eapply wp_mono; [|apply wp_cluster_updateStatus]. intros tr out (o&f&->&_). by exists o, f.
  - unfold updateStatus.
    wp_use (wp_component_state cluster (storagecontroller.Name (om_Name (cl_Meta cluster))) "Storage controller");
      [|by intros ?? (?&?&?)].
    intros tr1 sc (scr&->&[= ->]).
    wp_use (wp_component_state cluster (storagebroker.Name (om_Name (cl_Meta cluster))) "Storage broker");
      [|by intros ?? (?&?&?)].
    intros tr2 sb (sbr&->&[= ->]).
    eapply wp_mono; [|apply (wp_PatchStatus_report (k := KCluster)); intros cur; apply wp_cluster_status_rewrites].
    intros tr out (o&f&->&Hrun). exists o, f. split; [done|]. intros _. by exists scr, sbr, tr.
Qed.

(** The children of a Cluster with its database secret. *)
Definition cluster_ok (cluster : Cluster) : Prop := ∃ dep, storagecontroller.Deployment cluster = Returned dep.
Definition cluster_children (cluster : Cluster) : trace → option error → Prop :=
  match storagecontroller.Deployment cluster with
  | Returned dep => runs_in_order (cluster_steps cluster dep)
  | Panicked _ => λ _ _, False
  end.

Lemma wp_cluster_pass req :
  wp (Reconcile req) (reconciles (k := KCluster) req
    (Panicked "invalid memory address or nil pointer dereference")
    (λ cluster tr out, cluster_ok cluster → ∃ r, out = Returned r ∧
       pass "not able to create cluster resources" (cluster_children cluster) (cluster_report cluster) tr r)).
Proof.
  apply (wp_reconcile_unchecked (k := KCluster) req (λ cluster, r ← reconcile cluster; Ret (finish r))).
  intros cluster. unfold cluster_ok, cluster_children. destruct (storagecontroller.Deployment cluster) as [dep|w] eqn:Hdep;
    [|eapply wp_mono; [|apply wp_true]; by intros tr out _ [? ?]].
  eapply wp_mono; [|eapply (wp_create_then_report (k := KCluster) (createClusterResources cluster)
    (updateStatus cluster) _ _ (cluster_report cluster))].
  - intros tr out (r&->&Hp) _. by exists r.
  - by apply createClusterResources_steps.
  - apply wp_cluster_report.
  - apply cluster_steps_unmarked.
Qed.

Lemma cluster_status_of (c : obj KCluster) : status_of c = Some (StatusValue c).
Proof. done. Qed.

(** The report of a Cluster settles. *)
Lemma cluster_wants_local cluster req v v' g :
  unchanged_but (KCluster, req) v v' → cluster_wants cluster v' g = cluster_wants cluster v g.
Proof. intros Hun. unfold cluster_wants, seen. by rewrite !(Hun KDeployment _). Qed.

Lemma cluster_wants_distinct cluster v g : NoDup (cond_Type <$> cluster_wants cluster v g).
Proof. apply cluster_conditions_distinct. Qed.

(** The two Deployments as the report reads them. *)
Definition cluster_read (cluster : Cluster) (sc sb : ConditionStatus * string * string) (v : view) : Prop :=
  sc = sc_state (seen (k := KDeployment) v (sc_key cluster)) ∧ sb = sb_state (seen (k := KDeployment) v (sb_key cluster)).

Lemma cluster_read_same cluster sc sb v v' : same v v' → cluster_read cluster sc sb v → cluster_read cluster sc sb v'.
Proof. intros Hs. unfold cluster_read. by rewrite !(seen_same v v'). Qed.

Lemma cluster_read_wants cluster sc sb v trm v' g l :
  cluster_read cluster sc sb v → consistent v trm v' → calm trm → cluster_shows sc sb g trm l → l = cluster_wants cluster v g.
Proof. by intros [-> ->] _ _ ->. Qed.

Lemma component_state_read label v key a v' :
  api_step v (Ev (CGet KDeployment key) a) v' → answered (Ev (CGet KDeployment key) a) →
  same v v' ∧ component_state label (from_env a) = component_state label (seen (k := KDeployment) v key).
Proof.
  intros Hs Ha. destruct (answered_read _ _ _ _ Hs Ha) as [Hv Hd]. split; [done|].
  destruct a as [d|f]; [by rewrite Hd|]. destruct Hd as [Hf ->]. by apply component_state_missing.
Qed.

Lemma cluster_report_settled req cluster :
  key_of (cl_Meta cluster) = req →
  reports_settled (k := KCluster) req cluster (status_settled (k := KCluster) req (cluster_wants cluster))
    (cluster_report cluster None).
Proof.
  intros Hreq v tr f v' Hfound Hrep Hc Hcalm.
  destruct (Hrep eq_refl) as (scr&sbr&rest&->&Hrun). rewrite Hreq in Hrun.
  destruct Hc as (v1&Hs1&v2&Hs2&Hc). apply Forall_cons in Hcalm as [Ha1 [Ha2 Hcalm]%Forall_cons].
  destruct (component_state_read "Storage controller" _ _ _ _ Hs1 Ha1) as [Hv1 Hsc].
  destruct (component_state_read "Storage broker" _ _ _ _ Hs2 Ha2) as [Hv2 Hsb].
  assert (same v v2) as Hv by (intros k' key'; by rewrite (Hv2 k' key')).
  assert (cluster_read cluster (sc_state (from_env scr)) (sb_state (from_env sbr)) v2) as Hr.
  { apply (cluster_read_same _ _ _ v); [done|]. split; [done|]. by rewrite (seen_same v v1) in Hsb. }
  destruct (report_settles (k := KCluster) cluster_status_of _ req (cluster_wants cluster) _
    (cluster_read_same cluster _ _) (cluster_read_wants cluster _ _) (cluster_wants_local cluster req)
    (cluster_wants_distinct cluster) v2 rest f v' cluster Hr) as (->&Hset&Hun&Ho'&Hquiet); [|done..|].
  - destruct Hfound as [Hx Hk]. split; [by rewrite (Hv KCluster _)|done].
  - split_and!; [done|done|intros k' key' Hne; by rewrite (Hun k' key' Hne), (Hv k' key')|done|].
    intros Hs. apply Hquiet. by eapply (status_settled_same _ _ (cluster_wants_local cluster req)).
Qed.

(** Children in place, and a status that says what there is to say. *)
Definition cluster_settled (req : Request) : view → Prop :=
  all_settled (k := KCluster) req cluster_in_place (λ cluster, status_settled (k := KCluster) req (cluster_wants cluster)).

Definition cluster_watched (cluster : Cluster) : list place :=
  [(KDeployment, sc_key cluster); (KDeployment, sb_key cluster)].

Lemma cluster_settling req :
  settling (k := KCluster) req (λ cluster _, cluster_ok cluster) (λ _ _, True) cluster_in_place
    (λ cluster, status_settled (k := KCluster) req (cluster_wants cluster)) cluster_places cluster_places cluster_watched
    cluster_children cluster_report
    (Reconcile req) (Panicked "invalid memory address or nil pointer dereference") "not able to create cluster resources".
Proof.
  split.
  - eapply wp_mono; [|apply wp_cluster_pass]. intros tr out [f Hf|f Hf|c tr' out' HP]; constructor; [done..|].
    intros [Hok _]. auto.
  - intros cluster _ [dep Hdep]. unfold cluster_children. rewrite Hdep.
    by apply cluster_maintains.
  - intros cluster key. unfold cluster_places. set_solver.
  - intros cluster _ _. apply cluster_report_settled.
  - intros cluster v v'. apply (status_settled_local (k := KCluster)). clear v v'. intros v v' g Ha. unfold cluster_wants, seen.
    by rewrite (Ha KDeployment (sc_key cluster)), (Ha KDeployment (sb_key cluster)) by set_solver.
  - intros c c' v Hbut. destruct (cluster_same_children c c' v Hbut) as [Hplace Hwants]. by rewrite Hwants.
Qed.

(** C8. A Cluster settles.  On every server that keeps what is written, if no call fails, a call
    of [Reconcile] for a Cluster that is there (with the database secret the API
    requires) returns without an error, whatever the state it starts from, and leaves it
    settled: signing keys and both components as intended, and a status that says what
    there is to say of them.  From a settled state it writes nothing, so the passes that
    its own writes trigger come to an end. *)
Theorem Reconcile_cluster_settles {S : Type} (h : server S) (view_of : S → view) `{!ApiServer h view_of}
    req s cluster secret :
  found (k := KCluster) (view_of s) req cluster → cls_StorageControllerDatabaseSecret (cl_Spec cluster) = Some secret →
  let '(s1, tr, out) := exec h s (Reconcile req) in
  calm tr →
  out = Returned (no_requeue, None) ∧ cluster_settled req (view_of s1) ∧
  (cluster_settled req (view_of s) → writes tr = [] ∧ same (view_of s) (view_of s1)).
Proof.
  intros Hfound Hsecret.
  pose proof (run_settles h view_of (k := KCluster) req _ _ _ _ _ _ _ _ _ _ _ _ s cluster (cluster_settling req) Hfound I) as Hrun.
  destruct (exec h s (Reconcile req)) as [[s1 tr] out]. intros Hcalm. apply Hrun; [done|].
  unfold cluster_ok, storagecontroller.Deployment. rewrite Hsecret. by eexists.
Qed.
End cluster.

(** ** Resources backed by a StatefulSet *)

Section sts_backed.
Context `{ConditionLaws} `{SemanticEqualLaws Status}.
Context `{SemanticDerivative DeploymentSpec} `{SemanticDerivative StatefulSetSpec}
  `{SemanticDerivative ServiceSpec} `{SemanticDerivative smap}.
Context {k : Kind} `{StatusObject k} (Hstatus : ∀ x : obj k, status_of x = Some (StatusValue x)).
Context (Hsts : k ≠ KStatefulSet) (Hpod : k ≠ KPod).
Context (o : obj k) (stsName label : string).

Definition pod_detail (podr : result Pod) : string * string :=
  let '(reason, message) := match podr with Ok pod => PodNotReadyDetail (Some pod) | Err _ => ("", "") end in
  if decide (reason = "") then (ReasonChildPodNotReady, label +:+ " StatefulSet is not Ready") else (reason, message).

Definition sts_conditions (g : Z) (stsr : result StatefulSet) (podr : result Pod) : list Condition :=
  condition g ConditionResourcesReady ConditionTrue ReasonAsExpected "Child resources reconciled" ::
  match stsr with
  | Err e =>
      if IsNotFound e then
        [ condition g ConditionAvailable ConditionFalse ReasonChildResourceMissing
            (label +:+ " StatefulSet has not been observed yet");
          condition g ConditionProgressing ConditionTrue ReasonReconciling "Waiting for child StatefulSet to appear" ]
      else
        [ condition g ConditionAvailable ConditionUnknown ReasonChildResourceMissing (Error e);
          condition g ConditionProgressing ConditionTrue ReasonReconciling "Could not read child StatefulSet" ]
  | Ok sts =>
      if IsStatefulSetReady (Some sts) then
        [ condition g ConditionAvailable ConditionTrue ReasonAsExpected (label +:+ " StatefulSet is Ready");
          condition g ConditionProgressing ConditionFalse ReasonAsExpected (label +:+ " is at desired state") ]
      else
        [ condition g ConditionAvailable ConditionFalse (pod_detail podr).1 (pod_detail podr).2;
          condition g ConditionProgressing ConditionTrue ReasonReconciling
            ("Waiting for " +:+ label +:+ " StatefulSet readiness") ]
  end.

(** The Pod is only asked for when the StatefulSet is there and not ready. *)
Definition asks_pod (stsr : result StatefulSet) : bool :=
  match stsr with Ok sts => negb (IsStatefulSetReady (Some sts)) | Err _ => false end.

Lemma sts_conditions_pod g stsr podr podr' :
  asks_pod stsr = false → sts_conditions g stsr podr = sts_conditions g stsr podr'.
Proof. unfold sts_conditions. destruct stsr as [sts|e]; cbn [asks_pod]; [|done]. by destruct (IsStatefulSetReady _). Qed.

Lemma sts_conditions_distinct g stsr podr : NoDup (cond_Type <$> sts_conditions g stsr podr).
Proof.
  unfold sts_conditions. destruct stsr as [sts|e]; [destruct (IsStatefulSetReady _)|destruct (IsNotFound e)];
    cbn; repeat apply NoDup_cons_2; try apply NoDup_nil_2; set_solver.
Qed.

Definition sts_key : NamespacedName := {| nn_Namespace := om_Namespace (meta o); nn_Name := stsName |}.
Definition pod_key : NamespacedName := {| nn_Namespace := om_Namespace (meta o); nn_Name := stsName +:+ "-0" |}.

(** What the status has to say of the StatefulSet and the Pod there are. *)
Definition sts_wants (v : view) (g : Z) : list Condition :=
  sts_conditions g (seen (k := KStatefulSet) v sts_key) (seen (k := KPod) v pod_key).

Definition sts_shows (stsr : result StatefulSet) (g : Z) (trm : trace) (l : list Condition) : Prop :=
  ∃ podr, l = sts_conditions g stsr (from_env podr) ∧ writes trm = [] ∧
    (asks_pod stsr = true → Ev (CGet KPod pod_key) podr ∈ trm).

Lemma wp_pod_detail :
  wp (sts_not_ready_detail (om_Namespace (meta o)) stsName label) (λ tr out, ∃ podr,
    tr = [Ev (CGet KPod pod_key) podr] ∧ out = Returned (pod_detail (from_env podr))).
Proof.
  unfold sts_not_ready_detail. wp_call podr. cbv zeta.
  assert (∀ d : string * string, (let '(reason, message) := d in
    if decide (reason = "") then Ret (ReasonChildPodNotReady, label +:+ " StatefulSet is not Ready") else Ret (reason, message)) =
    Ret (let '(reason, message) := d in
      if decide (reason = "") then (ReasonChildPodNotReady, label +:+ " StatefulSet is not Ready") else (reason, message)))
    as -> by (intros [r m]; by case_decide).
  wp_steps. by exists podr.
Qed.

(** The closure ends with the conditions [l], set one after the other. *)
Tactic Notation "rewrites_with" constr(podr) uconstr(l) :=
  wp_steps; eexists; split; [reflexivity|split; [done|]]; refine (ex_intro _ l _); split;
    [exists podr; split_and!; [reflexivity|done|]|reflexivity].

Lemma wp_sts_status_rewrites stsr (cur : obj k) :
  wp (sts_status (om_Namespace (meta o)) stsName label None stsr cur) (λ trm out, ∃ cs,
    out = Returned (refreshed cur cs) ∧ rewrites (sts_shows stsr) cur trm cs).
Proof.
  unfold sts_status, SetCondition, rewrites, sts_shows, sts_conditions.
  rewrite meta_SetObservedGeneration, StatusConditions_SetObservedGeneration.
  wp_call t1. destruct stsr as [sts|e]; cbn [asks_pod].
  - destruct (IsStatefulSetReady (Some sts)) eqn:Hready; cbn [negb].
    + wp_call t2. wp_call t3. rewrites_with (Err missing : reply Pod) [(t1, _); (t2, _); (t3, _)]. done.
    + wp_use wp_pod_detail; [|by intros ?? (?&?&?)]. intros tr [r m] (podr&->&Hd).
      injection Hd as Hd. cbv beta iota. wp_call t2. wp_call t3. wp_steps.
      eexists. split; [reflexivity|]. split; [done|]. eexists [(t1, _); (t2, _); (t3, _)].
      split; [|reflexivity]. exists podr. rewrite <-Hd. split_and!; [reflexivity|done|].
      intros _. right. left.
  - destruct (IsNotFound e); wp_call t2; wp_call t3;
      rewrites_with (Err missing : reply Pod) [(t1, _); (t2, _); (t3, _)]; done.
Qed.

Lemma sts_wants_local key v v' g : unchanged_but (k, key) v v' → sts_wants v' g = sts_wants v g.
Proof.
  intros Hun. unfold sts_wants, seen. by rewrite (Hun KStatefulSet), (Hun KPod) by congruence.
Qed.

Definition sts_watched : list place := [(KStatefulSet, sts_key); (KPod, pod_key)].

Lemma sts_settled_local key v v' :
  agree ((k, key) :: sts_watched) v v' → status_settled key sts_wants v → status_settled key sts_wants v'.
Proof.
  apply status_settled_local. clear v v'. intros v v' g Ha. unfold sts_wants, seen, sts_watched in *.
  by rewrite (Ha KStatefulSet sts_key), (Ha KPod pod_key) by set_solver.
Qed.

Lemma sts_wants_distinct v g : NoDup (cond_Type <$> sts_wants v g).
Proof. apply sts_conditions_distinct. Qed.

(** The StatefulSet as the report reads it. *)
Definition sts_read (stsr : result StatefulSet) (v : view) : Prop :=
  asks_pod stsr = asks_pod (seen (k := KStatefulSet) v sts_key) ∧
  ∀ g podr, sts_conditions g stsr podr = sts_conditions g (seen (k := KStatefulSet) v sts_key) podr.

Lemma sts_read_same stsr v v' : same v v' → sts_read stsr v → sts_read stsr v'.
Proof. intros Hs. unfold sts_read. by rewrite !(seen_same v v'). Qed.

(** A read among calls that write nothing. *)
Lemma consistent_read {k' : Kind} (key : NamespacedName) (a : reply (obj k')) v trm v' :
  consistent v trm v' → calm trm → writes trm = [] → Ev (CGet k' key) a ∈ trm →
  match a with
  | Ok x => seen v key = Ok x
  | Err f => fault_not_found f = true ∧ seen (k := k') v key = Err (Foreign missing)
  end.
Proof.
  revert v. induction trm as [|e trm IH]; intros v Hc Hcalm Hw Hin; [by apply not_elem_of_nil in Hin|].
  destruct Hc as (v1&Hs&Hc). apply Forall_cons in Hcalm as [Hans Hcalm]. apply elem_of_cons in Hin as [<-|Hin].
  - by apply (answered_read _ _ _ _ Hs Hans).
  - cbn [writes] in Hw. destruct (is_write (ev_call e)) eqn:He; [done|].
    rewrite <-(seen_same v v1); [by apply IH|].
    intros k0 key0. apply (api_step_frame v e); [done|]. destruct e as [[] ?]; done.
Qed.

Lemma sts_read_wants stsr v trm v' g l :
  sts_read stsr v → consistent v trm v' → calm trm → sts_shows stsr g trm l → l = sts_wants v g.
Proof.
  intros [Hask Hcond] Hc Hcalm (podr&->&Hw&Hpodr). unfold sts_wants. rewrite <-Hcond.
  destruct (asks_pod stsr) eqn:Ha; [|by apply sts_conditions_pod].
  pose proof (consistent_read _ _ _ _ _ Hc Hcalm Hw (Hpodr eq_refl)) as Hseen.
  destruct podr as [pod|f]; [by rewrite Hseen|]. destruct Hseen as [_ ->]. done.
Qed.

(** The report of a pass whose children succeeded settles. *)
Definition sts_report (ce : option error) (tr : trace) (f : option fault) : Prop :=
  ce = None → ∃ stsr rest, tr = Ev (CGet KStatefulSet sts_key) stsr :: rest ∧
    report_run (k := k) (key_of (meta o)) (rewrites (sts_shows (from_env stsr))) rest f.

Lemma wp_sts_report ce :
  wp (UpdateSTSBackedStatus o stsName label ce) (λ tr out, ∃ o' f, out = Returned (o', Foreign <$> f) ∧ sts_report ce tr f).
Proof.
  destruct ce as [e|].
  - eapply wp_mono; [|apply wp_UpdateSTSBackedStatus]. intros tr out (?&?&_&o'&f&->&_). by exists o', f.
  - unfold UpdateSTSBackedStatus. wp_call stsr.
    eapply wp_mono; [|apply (wp_PatchStatus_report (k := k)); intros cur; apply wp_sts_status_rewrites].
    intros tr out (o'&f&->&Hrun). exists o', f. split; [done|]. intros _. by exists stsr, tr.
Qed.

Lemma sts_answer_read v a v' :
  api_step v (Ev (CGet KStatefulSet sts_key) a) v' → answered (Ev (CGet KStatefulSet sts_key) a) →
  same v v' ∧ sts_read (from_env a) v.
Proof.
  intros Hs Ha. destruct (answered_read _ _ _ _ Hs Ha) as [Hv Hd]. split; [done|]. unfold sts_read.
  destruct a as [sts|f]; [by rewrite Hd|]. destruct Hd as [Hf ->]. split; [done|].
  intros g podr. cbn [from_env]. unfold sts_conditions. by rewrite (Hf : IsNotFound (Foreign f) = true).
Qed.

Lemma sts_report_settled req :
  key_of (meta o) = req → reports_settled req o (status_settled req sts_wants) (sts_report None).
Proof.
  intros Hreq v tr f v' Hfound Hrep Hc Hcalm. destruct (Hrep eq_refl) as (stsr&rest&->&Hrun). rewrite Hreq in Hrun.
  destruct Hc as (v1&Hs1&Hc). apply Forall_cons in Hcalm as [Ha1 Hcalm].
  destruct (sts_answer_read _ _ _ Hs1 Ha1) as [Hv Hr].
  destruct (report_settles Hstatus _ req sts_wants _ (sts_read_same _) (sts_read_wants _) (sts_wants_local req)
    sts_wants_distinct v1 rest f v' o (sts_read_same _ _ _ Hv Hr)) as (->&Hset&Hun&Ho'&Hquiet); [|done..|].
  - destruct Hfound as [Hx Hk]. split; [by rewrite (Hv k)|done].
  - split_and!; [done|done|intros k' key' Hne; by rewrite (Hun k' key' Hne), (Hv k' key')|done|].
    intros Hs. apply Hquiet. by eapply (status_settled_same _ _ (sts_wants_local req)).
Qed.
End sts_backed.

(** ** A Safekeeper *)

Section safekeeper.
Context `{ConditionLaws} `{OwnerLaws} `{QuantityOps} `{SemanticEqualLaws Status}.
Context `{SemanticDerivative DeploymentSpec} `{SemanticDerivative StatefulSetSpec}
  `{SemanticDerivative ServiceSpec} `{SemanticDerivative smap}.
Import SafekeeperReconciler.

Definition safekeeper_wants (sk : Safekeeper) : view → Z → list Condition :=
  sts_wants (k := KSafekeeper) sk (safekeeper.Name sk) "Safekeeper".
Definition safekeeper_settled (req : Request) : view → Prop :=
  all_settled (k := KSafekeeper) req safekeeper_in_place (λ sk, status_settled (k := KSafekeeper) req (safekeeper_wants sk)).

Lemma safekeeper_status_of (sk : obj KSafekeeper) : status_of sk = Some (StatusValue sk).
Proof. done. Qed.

(** A Safekeeper that differs in its status only has the same children and report. *)
Lemma safekeeper_same_children (sk sk' : Safekeeper) v :
  same_but_status (k := KSafekeeper) sk sk' →
  (safekeeper_in_place sk v → safekeeper_in_place sk' v) ∧ safekeeper_wants sk' = safekeeper_wants sk.
Proof.
  intros [(Hname&Hns&_) Hspec].
  assert (safekeeper.Name sk' = safekeeper.Name sk) as Hn by (unfold safekeeper.Name; by rewrite ?Hname, ?Hspec).
  assert (safekeeper.Service sk' = safekeeper.Service sk ∧ safekeeper.HeadlessService sk' = safekeeper.HeadlessService sk ∧
    safekeeper.StatefulSet sk' = safekeeper.StatefulSet sk) as (H1'&H2'&H3').
  { unfold safekeeper.Service, safekeeper.HeadlessService, safekeeper.service, safekeeper.StatefulSet, safekeeper.podSpec,
      safekeeper.HeadlessName, safekeeper.selectorLabels, safekeeper.labels. by rewrite !Hn, ?Hname, !Hns, !Hspec. }
  split.
  - unfold safekeeper_in_place, safekeeper.HeadlessName, child_key, cluster_key. by rewrite H1', H2', H3', Hn, Hns, Hspec.
  - unfold safekeeper_wants, sts_wants, sts_key, pod_key.
    change (meta (k := KSafekeeper) sk') with (sk_Meta sk'). by rewrite Hn, Hns.
Qed.

Lemma safekeeper_settling req :
  settling (k := KSafekeeper) req (λ sk _, size_ok sk)
    (λ sk v, ∃ cluster, found (k := KCluster) v (cluster_key sk) cluster) safekeeper_in_place
    (λ sk, status_settled (k := KSafekeeper) req (safekeeper_wants sk)) safekeeper_places safekeeper_child_places
    (λ sk, sts_watched (k := KSafekeeper) sk (safekeeper.Name sk))
    (λ sk, runs_in_order (safekeeper_steps sk)) (λ sk, sts_report (k := KSafekeeper) sk (safekeeper.Name sk) "Safekeeper")
    (Reconcile req) (Returned (no_requeue, None)) "not able to create safekeeper resources".
Proof.
  split.
  - apply (wp_reconcile_checked (k := KSafekeeper) req (λ sk, r ← reconcile sk; Ret (finish r))). intros sk.
    destruct (ParseQuantity (stc_Size (sfs_StorageConfig (sk_Spec sk)))) as [q|e] eqn:Hq;
      [|eapply wp_mono; [|apply wp_true]; intros tr out _ [[q Hq'] _]; by rewrite Hq in Hq'].
    eapply wp_mono; [|eapply (wp_create_then_report (k := KSafekeeper) (createSafekeeperResources sk)
      (UpdateSTSBackedStatus (k := KSafekeeper) sk (safekeeper.Name sk) "Safekeeper") _ _
      (sts_report (k := KSafekeeper) sk (safekeeper.Name sk) "Safekeeper"))].
    + intros tr out (r&->&Hp) _. by exists r.
    + apply createSafekeeperResources_steps. by exists q.
    + intros ce. apply wp_sts_report.
    + apply safekeeper_steps_unmarked.
  - intros sk _ Hsize. by apply safekeeper_maintains.
  - intros sk key. unfold safekeeper_places, safekeeper_child_places. set_solver.
  - intros sk _ _. by apply (sts_report_settled (k := KSafekeeper) safekeeper_status_of).
  - intros sk v v'. by apply (sts_settled_local (k := KSafekeeper)).
  - intros sk sk' v Hbut. destruct (safekeeper_same_children sk sk' v Hbut) as [Hplace Hwants]. by rewrite Hwants.
Qed.

(** A Safekeeper settles, in the same sense: with a size that is a quantity and its parent
    Cluster there, an undisturbed call of [Reconcile] succeeds and leaves both Services,
    the StatefulSet and the status as they should be; then it writes nothing. *)
Theorem Reconcile_safekeeper_settles {S : Type} (h : server S) (view_of : S → view) `{!ApiServer h view_of}
    req s sk cluster :
  found (k := KSafekeeper) (view_of s) req sk → size_ok sk →
  found (k := KCluster) (view_of s) (cluster_key sk) cluster →
  let '(s1, tr, out) := exec h s (Reconcile req) in
  calm tr →
  out = Returned (no_requeue, None) ∧ safekeeper_settled req (view_of s1) ∧
  (safekeeper_settled req (view_of s) → writes tr = [] ∧ same (view_of s) (view_of s1)).
Proof.
  intros Hfound Hsize Hcluster.
  pose proof (run_settles h view_of (k := KSafekeeper) req _ _ _ _ _ _ _ _ _ _ _ _ s sk (safekeeper_settling req) Hfound
    (ex_intro _ cluster Hcluster)) as Hrun.
  destruct (exec h s (Reconcile req)) as [[s1 tr] out]. auto.
Qed.
End safekeeper.

(** ** A Pageserver *)

Section pageserver.
Context `{ConditionLaws} `{OwnerLaws} `{QuantityOps} `{SemanticEqualLaws Status}.
Context `{SemanticDerivative DeploymentSpec} `{SemanticDerivative StatefulSetSpec}
  `{SemanticDerivative ServiceSpec} `{SemanticDerivative smap}.
Import PageserverReconciler.

Definition pageserver_wants (ps : Pageserver) : view → Z → list Condition :=
  sts_wants (k := KPageserver) ps (pageserver.Name ps) "Pageserver".
Definition pageserver_settled (req : Request) : view → Prop :=
  all_settled (k := KPageserver) req pageserver_in_place (λ ps, status_settled (k := KPageserver) req (pageserver_wants ps)).

Lemma pageserver_status_of (ps : obj KPageserver) : status_of ps = Some (StatusValue ps).
Proof. done. Qed.

(** A Pageserver that differs in its status only has the same children and report. *)
Lemma pageserver_same_children (ps ps' : Pageserver) v :
  same_but_status (k := KPageserver) ps ps' →
  (pageserver_in_place ps v → pageserver_in_place ps' v) ∧ pageserver_wants ps' = pageserver_wants ps.
Proof.
  intros [(Hname&Hns&_) Hspec].
  assert (pageserver.Name ps' = pageserver.Name ps) as Hn by (unfold pageserver.Name; by rewrite ?Hname, ?Hspec).
  assert (pageserver.Service ps' = pageserver.Service ps ∧ pageserver.HeadlessService ps' = pageserver.HeadlessService ps ∧
    pageserver.StatefulSet ps' = pageserver.StatefulSet ps ∧ pageserver.ConfigMap ps' = pageserver.ConfigMap ps)
    as (H1'&H2'&H3'&H4').
  { unfold pageserver.Service, pageserver.HeadlessService, pageserver.service, pageserver.StatefulSet, pageserver.podSpec,
      pageserver.bucketEnv, pageserver.ConfigMap, pageserver.pageserverToml,
      pageserver.HeadlessName, pageserver.selectorLabels, pageserver.labels. by rewrite !Hn, ?Hname, !Hns, !Hspec. }
  split.
  - unfold pageserver_in_place, pageserver.HeadlessName, in_namespace, bucket_key, in_namespace.
    by rewrite H1', H2', H3', H4', Hn, Hns, Hspec.
  - unfold pageserver_wants, sts_wants, sts_key, pod_key.
    change (meta (k := KPageserver) ps') with (pgs_Meta ps'). by rewrite Hn, Hns.
Qed.

Definition pageserver_parents (ps : Pageserver) (v : view) : Prop :=
  (∃ secret, found (k := KSecret) v (bucket_key ps) secret) ∧
  ∃ cluster, found (k := KCluster) v (in_namespace ps (pss_Cluster (pgs_Spec ps))) cluster.

Lemma pageserver_settling req :
  settling (k := KPageserver) req (λ ps _, spec_ok ps) pageserver_parents pageserver_in_place
    (λ ps, status_settled (k := KPageserver) req (pageserver_wants ps)) pageserver_places PageserverReconciler.pageserver_children
    (λ ps, sts_watched (k := KPageserver) ps (pageserver.Name ps))
    (λ ps, runs_in_order (pageserver_steps ps)) (λ ps, sts_report (k := KPageserver) ps (pageserver.Name ps) "Pageserver")
    (Reconcile req) (Returned (no_requeue, None)) "not able to create pageserver resources".
Proof.
  split.
  - apply (wp_reconcile_checked (k := KPageserver) req (λ ps, r ← reconcile ps; Ret (finish r))). intros ps.
    destruct (decide (spec_ok ps)) as [Hok|Hok]; [|eapply wp_mono; [|apply wp_true]; by intros tr out _ [Hok' _]].
    eapply wp_mono; [|eapply (wp_create_then_report (k := KPageserver) (createPageserverResources ps)
      (UpdateSTSBackedStatus (k := KPageserver) ps (pageserver.Name ps) "Pageserver") _ _
      (sts_report (k := KPageserver) ps (pageserver.Name ps) "Pageserver"))].
    + intros tr out (r&->&Hp) _. by exists r.
    + by apply createPageserverResources_steps.
    + intros ce. apply wp_sts_report.
    + apply pageserver_steps_unmarked.
  - intros ps _ Hok. by apply pageserver_maintains.
  - intros ps key. unfold pageserver_places, PageserverReconciler.pageserver_children. set_solver.
  - intros ps _ _. by apply (sts_report_settled (k := KPageserver) pageserver_status_of).
  - intros ps v v'. by apply (sts_settled_local (k := KPageserver)).
  - intros ps ps' v Hbut. destruct (pageserver_same_children ps ps' v Hbut) as [Hplace Hwants]. by rewrite Hwants.
Qed.

(** A Pageserver settles, in the same sense: with a valid spec, its bucket secret and its
    parent Cluster there, an undisturbed call of [Reconcile] succeeds and leaves the
    ConfigMap, both Services, the StatefulSet and the status as they should be; then it
    writes nothing. *)
Theorem Reconcile_pageserver_settles {S : Type} (h : server S) (view_of : S → view) `{!ApiServer h view_of}
    req s ps secret cluster :
  found (k := KPageserver) (view_of s) req ps → spec_ok ps →
  found (k := KSecret) (view_of s) (bucket_key ps) secret →
  found (k := KCluster) (view_of s) (in_namespace ps (pss_Cluster (pgs_Spec ps))) cluster →
  let '(s1, tr, out) := exec h s (Reconcile req) in
  calm tr →
  out = Returned (no_requeue, None) ∧ pageserver_settled req (view_of s1) ∧
  (pageserver_settled req (view_of s) → writes tr = [] ∧ same (view_of s) (view_of s1)).
Proof.
  intros Hfound Hok Hsecret Hcluster.
  pose proof (run_settles h view_of (k := KPageserver) req _ _ _ _ _ _ _ _ _ _ _ _ s ps (pageserver_settling req) Hfound
    (conj (ex_intro _ secret Hsecret) (ex_intro _ cluster Hcluster))) as Hrun.
  destruct (exec h s (Reconcile req)) as [[s1 tr] out]. auto.
Qed.
End pageserver.

(** ** A Branch *)

Section branch.
Context `{ConditionLaws} `{OwnerLaws} `{CryptoOps} `{QuantityLaws} `{SemanticEqualLaws Status}.
Context `{SemanticDerivative DeploymentSpec} `{SemanticDerivative StatefulSetSpec}
  `{SemanticDerivative ServiceSpec} `{SemanticDerivative smap}.
Context (StorageControllerBaseURL : string).
Import BranchReconciler.
Abbreviation condition := Settling.condition.

Definition branch_conditions (g : Z) (compute : ConditionStatus * string * string) : list Condition :=
  [ condition g ConditionTimelineIDAssigned ConditionTrue ReasonAsExpected "Timeline ID is assigned";
    condition g ConditionTimelineCreated ConditionTrue ReasonAsExpected "Timeline created on storage controller";
    condition g ConditionComputeReady compute.1.1 compute.1.2 compute.2 ] ++
  (if decide (compute.1.1 = ConditionTrue)
   then [ condition g ConditionAvailable ConditionTrue ReasonAsExpected "Branch is Available";
          condition g ConditionProgressing ConditionFalse ReasonAsExpected "Branch is at desired state" ]
   else [ condition g ConditionAvailable ConditionFalse compute.1.2 compute.2;
          condition g ConditionProgressing ConditionTrue ReasonReconciling "Working toward desired state" ]).

Definition compute_key (branch : Branch) : NamespacedName :=
  in_namespace branch (om_Name (br_Meta branch) +:+ "-compute-node").

Definition branch_wants (branch : Branch) (v : view) (g : Z) : list Condition :=
  branch_conditions g (compute_state None (seen (k := KDeployment) v (compute_key branch))).

Lemma branch_wants_distinct branch v g : NoDup (cond_Type <$> branch_wants branch v g).
Proof.
  unfold branch_wants, branch_conditions. case_decide; cbn; repeat apply NoDup_cons_2; try apply NoDup_nil_2; set_solver.
Qed.

Lemma branch_wants_local branch req v v' g :
  unchanged_but (KBranch, req) v v' → branch_wants branch v' g = branch_wants branch v g.
Proof. intros Hun. unfold branch_wants, seen. by rewrite (Hun KDeployment). Qed.

Definition branch_shows (compute : ConditionStatus * string * string) (g : Z) (_ : trace) (l : list Condition) : Prop :=
  l = branch_conditions g compute.

(** The closure of a pass whose timeline and children succeeded. *)
Lemma wp_branch_status_rewrites depr (cur : obj KBranch) :
  wp (branch_status None None depr cur) (λ trm out, ∃ cs, out = Returned (refreshed cur cs) ∧
    (brs_TimelineID (br_Spec cur) ≠ "" → rewrites (branch_shows (compute_state None depr)) cur trm cs)).
Proof.
  destruct (decide (brs_TimelineID (br_Spec cur) = "")) as [Hid|Hid].
  { eapply wp_mono; [|apply wp_branch_status]. intros tr out (_&_&cs&->&_). by exists cs. }
  unfold branch_status, SetCondition, rewrites, branch_shows, branch_conditions.
  rewrite meta_SetObservedGeneration, StatusConditions_SetObservedGeneration.
  change (br_Spec (SetObservedGeneration cur _)) with (br_Spec cur). rewrite decide_True by done.
  destruct (compute_state None depr) as [[ready reason] message]. cbn [fst snd].
  wp_call t1. wp_call t2. wp_call t3. wp_one. destruct (decide (ready = ConditionTrue)) as [Hr|Hr];
    [rewrite decide_True by done|rewrite decide_False by naive_solver];
    wp_call t4; wp_call t5; wp_steps; (eexists; split; [reflexivity|]); intros _; (split; [done|]).
  - by eexists [(t1, _); (t2, _); (t3, _); (t4, _); (t5, _)].
  - by eexists [(t1, _); (t2, _); (t3, _); (t4, _); (t5, _)].
Qed.

(** The report of a pass whose timeline and children succeeded. *)
Definition branch_report (branch : Branch) (te ce : option error) (tr : trace) (f : option fault) : Prop :=
  te = None → ce = None → ∃ depr rest,
    tr = Ev (CGet KDeployment (compute_key branch)) depr :: rest ∧
    report_run (k := KBranch) (key_of (br_Meta branch)) (λ cur trm cs,
      brs_TimelineID (br_Spec cur) ≠ "" → rewrites (branch_shows (compute_state None (from_env depr))) cur trm cs) rest f.

Lemma wp_branch_report branch te ce :
  wp (updateStatus branch te ce) (λ tr out, ∃ o f, out = Returned (o, Foreign <$> f) ∧ branch_report branch te ce tr f).
Proof.
  destruct te as [e|]; [|destruct ce as [e|]].
  1,2: eapply wp_mono; [|apply wp_branch_updateStatus]; intros tr out (o&f&->&_); by exists o, f.
  unfold updateStatus. wp_call depr.
  eapply wp_mono; [|apply (wp_PatchStatus_report (k := KBranch)); intros cur; apply wp_branch_status_rewrites].
  intros tr out (o&f&->&Hrun). exists o, f. split; [done|]. intros _ _. by exists depr, tr.
Qed.

Lemma compute_state_read v key a v' :
  api_step v (Ev (CGet KDeployment key) a) v' → answered (Ev (CGet KDeployment key) a) →
  same v v' ∧ compute_state None (from_env a) = compute_state None (seen (k := KDeployment) v key).
Proof.
  intros Hs Ha. destruct (answered_read _ _ _ _ Hs Ha) as [Hv Hd]. split; [done|].
  destruct a as [d|f]; [by rewrite Hd|]. destruct Hd as [Hf ->]. cbn [from_env].
  unfold compute_state. by rewrite (Hf : IsNotFound (Foreign f) = true).
Qed.

Lemma branch_status_of (b : obj KBranch) : status_of b = Some (StatusValue b).
Proof. done. Qed.

Lemma branch_report_settled req branch :
  brs_TimelineID (br_Spec branch) ≠ "" → key_of (br_Meta branch) = req →
  reports_settled (k := KBranch) req branch (status_settled (k := KBranch) req (branch_wants branch))
    (branch_report branch None None).
Proof.
  intros Hid Hreq v tr f v' Hfound Hrep Hc Hcalm.
  destruct (Hrep eq_refl eq_refl) as (depr&rest&->&Hrun). rewrite Hreq in Hrun.
  destruct Hc as (v1&Hs1&Hc). apply Forall_cons in Hcalm as [Ha1 Hcalm].
  destruct (compute_state_read _ _ _ _ Hs1 Ha1) as [Hv Hstate].
  assert (found (k := KBranch) v1 req branch) as Hfound1
    by (destruct Hfound as [Hx Hk]; split; [by rewrite (Hv KBranch _)|done]).
  set (compute := compute_state None (from_env depr)) in *.
  destruct (report_settles (k := KBranch) branch_status_of (branch_shows compute) req (branch_wants branch)
    (λ v, compute = compute_state None (seen (k := KDeployment) v (compute_key branch)))) with
    (v := v1) (tr := rest) (f := f) (v' := v') (o := branch) as (->&Hset&Hun&Ho'&Hquiet); try done.
  - intros x y Hxy. by rewrite (seen_same x y).
  - intros x trm x' g l -> _ _ ->. done.
  - intros x y g. apply branch_wants_local.
  - apply branch_wants_distinct.
  - by rewrite (seen_same v v1).
  - eapply report_run_found; [exact Hrun|exact Hc|exact Hfound1|]. intros trm cs HR. by apply HR.
  - split_and!; [done|done|intros k' key' Hne; by rewrite (Hun k' key' Hne), (Hv k' key')|done|].
    intros Hs. apply Hquiet. by eapply (status_settled_same _ _ (branch_wants_local branch req)).
Qed.

(** The children of a Branch, once its project has been read and its timeline is there. *)
Context (project : Project).

Definition branch_children (branch : Branch) (t : trace) (e : option error) : Prop :=
  ∃ t', t = Ev (CGet KProject (project_key branch)) (Ok project) :: t' ∧
  ∃ r t'', t' = Ev (CHttp (timeline_request StorageControllerBaseURL branch project)) r :: t'' ∧
  ∃ dep, compute.Deployment branch project = Returned dep ∧ runs_in_order (branch_steps branch project dep) t'' e.

(** What other programs answer: the storage controller takes the timeline, or has it. *)
Definition storage_accepts (tr : trace) : Prop :=
  Forall (λ e, (match ev_call e as c return answer c → Prop with
    | CHttp _ => λ a, ∃ resp, a = Ok resp ∧ (rs_StatusCode resp = 200 ∨ rs_StatusCode resp = 201 ∨ rs_StatusCode resp = 409)
    | _ => λ _, True
    end) (ev_answer e)) tr.

Definition branch_ok (branch : Branch) (tr : trace) : Prop :=
  brs_TimelineID (br_Spec branch) ≠ "" ∧ storage_accepts tr.

Definition branch_needs (branch : Branch) (v : view) : Prop :=
  found (k := KProject) v (project_key branch) project ∧ branch_parents project v.
Definition branch_ready (branch : Branch) (v : view) : Prop :=
  found (k := KProject) v (project_key branch) project ∧ branch_in_place branch project v.
Definition branch_settled (req : Request) : view → Prop :=
  all_settled (k := KBranch) req branch_ready (λ branch, status_settled (k := KBranch) req (branch_wants branch)).

Lemma branch_children_maintained branch :
  maintains ((KProject, project_key branch) :: branch_places branch project) (BranchReconciler.branch_children branch)
    (branch_needs branch) (branch_ready branch) (branch_children branch).
Proof.
  destruct (compute.Deployment_returns branch project) as (dep&Hdep&_).
  pose proof (branch_maintains branch project dep Hdep) as HM.
  eapply maintains_ext; [done|done| |apply (maintains_after_read (k := KProject)); [by apply maintains_after_http, HM|]].
  - intros t e. unfold branch_children. split.
    + intros (t'&->&r&t''&->&dep'&Hdep'&Hrun). assert (dep' = dep) as -> by congruence. eauto 10.
    + intros (t'&->&r&t''&->&Hrun). eauto 10.
  - unfold BranchReconciler.branch_children. set_solver.
Qed.

(** A Branch that differs in its status only has the same children and report. *)
Lemma branch_same_children (b b' : Branch) v :
  same_but_status (k := KBranch) b b' →
  (branch_ready b v → branch_ready b' v) ∧ branch_wants b' = branch_wants b.
Proof.
  intros [(Hname&Hns&_) Hspec].
  assert (in_namespace b' = in_namespace b) as Hin by (unfold in_namespace; by rewrite Hns).
  assert (compute.Deployment b' project = compute.Deployment b project ∧
    compute.AdminService b' project = compute.AdminService b project ∧
    compute.PostgresService b' project = compute.PostgresService b project ∧
    compute.ConfigMap b' project = compute.ConfigMap b project) as (H1'&H2'&H3'&H4').
  { unfold compute.Deployment, compute.AdminService, compute.PostgresService, compute.createService, compute.ConfigMap.
    by rewrite ?Hname, ?Hns, ?Hspec. }
  split.
  - unfold branch_ready, branch_in_place, project_key. by rewrite Hin, H1', H2', H3', H4', Hname, Hspec.
  - unfold branch_wants, compute_key. by rewrite Hin, Hname.
Qed.

Lemma timeline_accepted_only branch trt te trc :
  timeline_run StorageControllerBaseURL branch project trt te → storage_accepts (trt ++ trc) →
  te = None ∧ ∃ r, trt = [Ev (CHttp (timeline_request StorageControllerBaseURL branch project)) r].
Proof.
  intros Hrun [Hacc _]%Forall_app. destruct Hrun as [f|resp Hcode|resp H1' H2' H3'].
  - apply Forall_cons in Hacc as [(?&?&_) _]. done.
  - split; [done|]. by eexists.
  - apply Forall_cons in Hacc as [(resp'&Hr&Hcode) _]. cbn [ev_answer] in Hr. injection Hr as <-. naive_solver.
Qed.

(** An undisturbed pass of a Branch is its children and their report. *)
Lemma branch_pass_undisturbed branch tr r v v' :
  branch_pass_with StorageControllerBaseURL branch_report branch tr r → branch_ok branch tr →
  branch_needs branch v → consistent v tr v' → calm tr →
  pass "not able to create branch resources" (branch_children branch) (branch_report branch None) tr r.
Proof.
  intros Hpass [Hid Hacc] [[Hproject _] _] Hc Hcalm.
  assert (∀ q trb te ce trs, tr = Ev (CGet KProject (project_key branch)) (Ok q) :: trb ++ trs →
    body_run StorageControllerBaseURL branch q trb te ce →
    te = None ∧ branch_children branch (Ev (CGet KProject (project_key branch)) (Ok q) :: trb) ce) as Hbody.
  { intros q trb te ce trs -> Hrun. destruct Hc as (v1&[_ [Hq _]]&_).
    assert (q = project) as -> by congruence. apply Forall_cons in Hacc as [_ Hacc].
    destruct Hrun as [trt te Ht|trt trc dep ce Ht Hdep Hsteps _].
    - destruct (timeline_accepted_only _ _ _ _ Ht Hacc) as [? _]. done.
    - rewrite <-(app_assoc trt) in Hacc. destruct (timeline_accepted_only _ _ _ _ Ht Hacc) as (_&resp&->).
      split; [done|]. exists (Ev _ resp :: trc). split; [done|]. exists resp, trc. split; [done|]. by exists dep. }
  destruct Hpass as [tr Hid'|tr f Hid'|f e _ _|q trb te ce trs _ Hrun Hrep|q trb te ce trs f _ Hrun Hrep]; [done|done|..].
  - exfalso. destruct Hc as (v1&[_ Hmiss]&_). apply Forall_cons in Hcalm as [Hans _].
    specialize (Hmiss Hans). congruence.
  - destruct (Hbody _ _ _ _ _ eq_refl Hrun) as [-> Hch]. by apply (Controller.pass_reported _ _ _ (_ :: trb)).
  - destruct (Hbody _ _ _ _ _ eq_refl Hrun) as [-> Hch]. by apply (Controller.pass_unreported _ _ _ (_ :: trb) trs ce).
Qed.

Definition branch_watched (branch : Branch) : list place := [(KDeployment, compute_key branch)].

Lemma branch_settling req :
  settling (k := KBranch) req branch_ok branch_needs branch_ready
    (λ branch, status_settled (k := KBranch) req (branch_wants branch))
    (λ branch, (KProject, project_key branch) :: branch_places branch project) BranchReconciler.branch_children branch_watched
    branch_children (λ branch, branch_report branch None)
    (Reconcile StorageControllerBaseURL req) (Returned (no_requeue, None)) "not able to create branch resources".
Proof.
  split.
  - eapply wp_mono; [|apply (wp_Reconcile_branch StorageControllerBaseURL branch_report wp_branch_report)].
    intros tr out [f Hf|f Hf|b tr' out' (r&->&Hp)]; constructor; [done..|].
    intros [Hok (v&v'&_&Hneeds&Hc&Hcalm)]. exists r. split; [done|]. by eapply branch_pass_undisturbed.
  - intros branch tr _. apply branch_children_maintained.
  - intros branch key. unfold branch_places, BranchReconciler.branch_children. set_solver.
  - intros branch tr [Hid _]. by apply branch_report_settled.
  - intros branch v v'. apply (status_settled_local (k := KBranch)). clear v v'. intros v v' g Ha. unfold branch_wants, seen.
    by rewrite (Ha KDeployment (compute_key branch)) by set_solver.
  - intros b b' v Hbut. destruct (branch_same_children b b' v Hbut) as [Hplace Hwants]. by rewrite Hwants.
Qed.

(** C7. A Branch settles, in the same sense: once it has its timeline identifier, with its
    project, its Cluster and readable signing keys there, and a storage controller that
    takes the timeline or has it, an undisturbed call of [Reconcile] succeeds and leaves
    the ConfigMap, the compute node, both Services and the status as they should be; then
    it writes nothing. *)
Theorem Reconcile_branch_settles {S : Type} (h : server S) (view_of : S → view) `{!ApiServer h view_of}
    req s branch :
  found (k := KBranch) (view_of s) req branch → brs_TimelineID (br_Spec branch) ≠ "" →
  found (k := KProject) (view_of s) (project_key branch) project → branch_parents project (view_of s) →
  let '(s1, tr, out) := exec h s (Reconcile StorageControllerBaseURL req) in
  calm tr → storage_accepts tr →
  out = Returned (no_requeue, None) ∧ branch_settled req (view_of s1) ∧
  (branch_settled req (view_of s) → writes tr = [] ∧ same (view_of s) (view_of s1)).
Proof.
  intros Hfound Hid Hproject Hparents.
  pose proof (run_settles h view_of (k := KBranch) req _ _ _ _ _ _ _ _ _ _ _ _ s branch (branch_settling req) Hfound
    (conj Hproject Hparents)) as Hrun.
  destruct (exec h s (Reconcile StorageControllerBaseURL req)) as [[s1 tr] out]. intros Hcalm Hacc. apply Hrun; [done|].
  split; [done|]. destruct Hacc; [constructor|done].
Qed.
End branch.

(** ** A Project *)

Section project.
Context `{ConditionLaws} `{HttpOps} `{SemanticEqualLaws Status}.
Context `{SemanticDerivative DeploymentSpec} `{SemanticDerivative StatefulSetSpec}
  `{SemanticDerivative ServiceSpec} `{SemanticDerivative smap}.
Context (StorageControllerBaseURL : string).
Import ProjectReconciler.
Abbreviation condition := Settling.condition.

(** An attached Project says the same whatever else there is. *)
Definition project_wants (_ : view) (g : Z) : list Condition :=
  [ condition g ConditionTenantIDAssigned ConditionTrue ReasonAsExpected "Tenant ID is assigned";
    condition g ConditionAttached ConditionTrue ReasonAsExpected "Tenant attached on storage controller";
    condition g ConditionAvailable ConditionTrue ReasonAsExpected "Project is Available";
    condition g ConditionProgressing ConditionFalse ReasonAsExpected "Project is at desired state" ].

Definition project_shows (g : Z) (_ : trace) (l : list Condition) : Prop := ∀ v, l = project_wants v g.

Definition attached : projectStatusInputs := {| TenantIDErr := None; AttachErr := None |}.

Lemma wp_project_status_rewrites (cur : obj KProject) :
  wp (project_status attached cur) (λ trm out, ∃ cs, out = Returned (refreshed cur cs) ∧
    (prs_TenantID (pr_Spec cur) ≠ "" → rewrites project_shows cur trm cs)).
Proof.
  destruct (decide (prs_TenantID (pr_Spec cur) = "")) as [Hid|Hid].
  { eapply wp_mono; [|apply wp_project_status]. intros tr out (_&_&cs&->&_). by exists cs. }
  unfold project_status, SetCondition, rewrites, project_shows, project_wants. cbn [attached TenantIDErr AttachErr].
  rewrite meta_SetObservedGeneration, StatusConditions_SetObservedGeneration.
  change (pr_Spec (SetObservedGeneration cur _)) with (pr_Spec cur).
  rewrite (decide_True (P := prs_TenantID (pr_Spec cur) ≠ "")) by done.
  destruct (decide (prs_TenantID (pr_Spec cur) = "")) as [|_]; [done|]. wp_call t1. wp_call t2. wp_one. rewrite decide_True by done. wp_call t3. wp_call t4. wp_steps.
  eexists. split; [reflexivity|]. intros _. split; [done|]. by eexists [(t1, _); (t2, _); (t3, _); (t4, _)].
Qed.

Definition project_report (project : Project) (tr : trace) (f : option fault) : Prop :=
  report_run (k := KProject) (key_of (pr_Meta project)) (λ cur trm cs,
    prs_TenantID (pr_Spec cur) ≠ "" → rewrites project_shows cur trm cs) tr f.

Lemma project_status_of (x : obj KProject) : status_of x = Some (StatusValue x).
Proof. done. Qed.

Lemma project_report_settled req project :
  prs_TenantID (pr_Spec project) ≠ "" → key_of (pr_Meta project) = req →
  reports_settled (k := KProject) req project (status_settled (k := KProject) req project_wants) (project_report project).
Proof.
  intros Hid Hreq v tr f v' Hfound Hrun Hc Hcalm. unfold project_report in Hrun. rewrite Hreq in Hrun.
  apply (report_settles (k := KProject) project_status_of project_shows req project_wants (λ _, True)); try done.
  - intros x g. unfold project_wants. cbn. repeat apply NoDup_cons_2; try apply NoDup_nil_2; set_solver.
  - eapply report_run_found; [exact Hrun|exact Hc|exact Hfound|]. intros trm cs HR. by apply HR.
Qed.

(** The attachment: a request the client can build, and an answer in the 200s. *)
Definition project_ok (project : Project) (tr : trace) : Prop :=
  prs_TenantID (pr_Spec project) ≠ "" ∧
  NewRequest_error "PUT" (rq_URL (attach_request StorageControllerBaseURL project)) = None ∧
  Forall (λ e, (match ev_call e as c return answer c → Prop with
    | CHttp _ => λ a, ∃ resp, a = Ok resp ∧ 200 ≤ rs_StatusCode resp < 300
    | _ => λ _, True
    end) (ev_answer e)) tr.

Definition project_children (project : Project) (t : trace) (e : option error) : Prop :=
  (∃ r, t = [Ev (CHttp (attach_request StorageControllerBaseURL project)) r]) ∧ e = None.

Lemma project_children_maintained project :
  maintains [] [] (λ _, True) (λ _, True) (project_children project).
Proof.
  split; try done.
  - intros t e x [(r&->) _] Hx. by apply not_elem_of_nil in Hx.
  - by intros v t e v' _ [(r&->) ->] _.
  - by intros v t e v' _ [_ ->].
Qed.

Lemma attach_accepted_only project tra err trs :
  attach_run StorageControllerBaseURL project tra err → project_ok project (tra ++ trs) → project_children project tra err.
Proof.
  intros Hrun (_&Hurl&[Hacc _]%Forall_app). destruct Hrun as [f Hf|f|resp Hcode|resp Hcode]; [congruence|..].
  - apply Forall_cons in Hacc as [(?&?&_) _]. done.
  - split; [by eexists|done].
  - apply Forall_cons in Hacc as [(resp'&Hr&Hcode') _]. cbn [ev_answer] in Hr. by injection Hr as <-.
Qed.

Definition project_settled (req : Request) : view → Prop :=
  all_settled (k := KProject) req (λ _ _, True) (λ _, status_settled (k := KProject) req project_wants).

Lemma wp_project_pass req :
  wp (Reconcile StorageControllerBaseURL req) (reconciles (k := KProject) req (Returned (no_requeue, None))
    (λ project tr out, project_ok project tr → ∃ r, out = Returned r ∧
       pass "" (project_children project) (λ _, project_report project) tr r)).
Proof.
  apply (wp_reconcile_checked (k := KProject) req
    (λ project, r ← reconcile StorageControllerBaseURL project; Ret (finish r))). intros project.
  destruct (decide (prs_TenantID (pr_Spec project) = "")) as [Hid|Hid];
    [eapply wp_mono; [|apply wp_true]; by intros tr out _ [? _]|].
  unfold reconcile. rewrite decide_False by done.
  wp_use (wp_ensureTenantOnPageserver StorageControllerBaseURL project); [|done]. intros tra err Hrun. cbn [runs] in Hrun.
  destruct err as [e|].
  { eapply wp_mono; [|apply wp_true]. intros tr out _ Hok. by destruct (attach_accepted_only _ _ _ _ Hrun Hok) as [_ ?]. }
  unfold updateStatus. wp_use (wp_PatchStatus_report (k := KProject) project _ _ wp_project_status_rewrites);
    [|by intros ?? (?&?&?&_)].
  intros trs st (o&sf&[= ->]&Hst). cbn [snd].
  destruct sf as [f|]; cbn [fmap option_fmap option_map]; wp_steps; rewrite app_nil_r; intros Hok;
    pose proof (attach_accepted_only _ _ _ _ Hrun Hok) as Hch; (eexists; split; [done|]).
  - by apply (Controller.pass_unreported _ _ _ tra trs None).
  - by apply (Controller.pass_reported _ _ _ tra trs None).
Qed.

Lemma project_settling req :
  settling (k := KProject) req project_ok (λ _ _, True) (λ _ _, True)
    (λ _, status_settled (k := KProject) req project_wants) (λ _, []) (λ _, []) (λ _, [])
    project_children (λ project _, project_report project)
    (Reconcile StorageControllerBaseURL req) (Returned (no_requeue, None)) "".
Proof.
  split.
  - eapply wp_mono; [|apply wp_project_pass]. intros tr out [f Hf|f Hf|c tr' out' HP]; constructor; [done..|].
    intros [Hok _]. auto.
  - intros project tr _. apply project_children_maintained.
  - set_solver.
  - intros project tr (Hid&_). by apply project_report_settled.
  - intros project v v'. by apply (status_settled_local (k := KProject)).
  - done.
Qed.

(** C9. A Project settles, in the same sense: once it has its tenant identifier and the storage
    controller takes the tenant, an undisturbed call of [Reconcile] succeeds and leaves
    the status of an attached Project; then it writes nothing. *)
Theorem Reconcile_project_settles {S : Type} (h : server S) (view_of : S → view) `{!ApiServer h view_of}
    req s project :
  found (k := KProject) (view_of s) req project →
  let '(s1, tr, out) := exec h s (Reconcile StorageControllerBaseURL req) in
  calm tr → project_ok project tr →
  out = Returned (no_requeue, None) ∧ project_settled req (view_of s1) ∧
  (project_settled req (view_of s) → writes tr = [] ∧ same (view_of s) (view_of s1)).
Proof.
  intros Hfound.
  pose proof (run_settles h view_of (k := KProject) req _ _ _ _ _ _ _ _ _ _ _ _ s project (project_settling req) Hfound I) as Hrun.
  destruct (exec h s (Reconcile StorageControllerBaseURL req)) as [[s1 tr] out]. intros Hcalm (Hid&Hurl&Hacc).
  apply Hrun; [done|]. split_and!; [done|done|]. destruct Hacc; [constructor|done].
Qed.
End project.

(** ** Examples: two whole passes on the in-memory server *)

Import RefInstances.

#[local] Instance status_equal_laws : SemanticEqualLaws Status := ref_equal_laws Status.

(** A call of [p] from [w], and another from where it ends. *)
Definition first_run (w : world) (p : prog (Result * option error)) : world * trace * outcome (Result * option error) :=
  exec world_server w p.
Definition second_run (w : world) (p : prog (Result * option error)) : world * trace * outcome (Result * option error) :=
  exec world_server (first_run w p).1.1 p.

(** The first ends in a settled state, and the second, run from there, writes nothing. *)
Definition settles_at_once (w : world) (p : prog (Result * option error)) (settled : view → Prop) : Prop :=
  length (writes (first_run w p).1.2) ≠ 0%nat ∧ settled (world_view (first_run w p).1.1) ∧
  (second_run w p).2 = Returned (no_requeue, None) ∧ writes (second_run w p).1.2 = [].

Ltac computed := vm_compute; reflexivity.
Ltac calm := apply calm_decided; computed.

(** Every HTTP answer has status 200. *)
Definition http_okb (e : event) : bool :=
  (match ev_call e as c return answer c → bool with
   | CHttp _ => λ a, match a with Ok resp => bool_decide (rs_StatusCode resp = 200) | Err _ => false end
   | _ => λ _, true
   end) (ev_answer e).

Lemma http_decided tr : forallb http_okb tr = true → storage_accepts tr ∧
  Forall (λ e, (match ev_call e as c return answer c → Prop with
    | CHttp _ => λ a, ∃ resp, a = Ok resp ∧ 200 ≤ rs_StatusCode resp < 300
    | _ => λ _, True
    end) (ev_answer e)) tr.
Proof.
  intros Hall. rewrite forallb_forall in Hall.
  assert (∀ e, e ∈ tr → http_okb e = true) as Hok by (intros e He; by apply Hall, list_elem_of_In).
  unfold storage_accepts. rewrite !Forall_forall. split; intros [c a] He%Hok;
    destruct c; try done; destruct a as [resp|f]; try done; apply bool_decide_eq_true in He;
    (exists resp; split; [done|]); [by left|lia].
Qed.
Ltac accepted := apply http_decided; computed.

Lemma twice w p settled :
  length (writes (first_run w p).1.2) ≠ 0%nat → settled (world_view (first_run w p).1.1) →
  (second_run w p).2 = Returned (no_requeue, None) ∧ settled (world_view (second_run w p).1.1) ∧
  (settled (world_view (first_run w p).1.1) → writes (second_run w p).1.2 = [] ∧
   same (world_view (first_run w p).1.1) (world_view (second_run w p).1.1)) →
  settles_at_once w p settled.
Proof. intros Hw Hset (Hout&_&Hquiet). destruct (Hquiet Hset) as [Hw2 _]. by split_and!. Qed.

Lemma Reconcile_cluster_settles_witness :
  let req := Samples.request "prod" in
  settles_at_once Samples.start (ClusterReconciler.Reconcile req) (cluster_settled req).
Proof.
  intros req. apply twice; [by vm_compute|..].
  - refine (proj1 (proj2 (run_parts _ _ (Reconcile_cluster_settles world_server world_view req Samples.start
      Samples.cluster _ (conj eq_refl eq_refl) eq_refl) _))). calm.
  - refine (run_parts _ _ (Reconcile_cluster_settles world_server world_view req
      (first_run Samples.start (ClusterReconciler.Reconcile req)).1.1 _ _ _ _) _); [split; computed|computed|calm].
Defined.

Lemma Reconcile_safekeeper_settles_witness :
  let req := Samples.request "sk-1" in
  settles_at_once Samples.start (SafekeeperReconciler.Reconcile req) (safekeeper_settled req).
Proof.
  intros req. apply twice; [by vm_compute|..].
  - refine (proj1 (proj2 (run_parts _ _ (Reconcile_safekeeper_settles world_server world_view req Samples.start
      (Samples.safekeeper_with "10Gi") Samples.cluster (conj eq_refl eq_refl) _ (conj eq_refl eq_refl)) _)));
      [by eexists|calm].
  - refine (run_parts _ _ (Reconcile_safekeeper_settles world_server world_view req
      (first_run Samples.start (SafekeeperReconciler.Reconcile req)).1.1 _ _ _ _ _) _);
      [split; computed|by eexists|split; computed|calm].
Defined.

Lemma Reconcile_pageserver_settles_witness :
  let req := Samples.request "ps-1" in
  settles_at_once Samples.start (PageserverReconciler.Reconcile req) (pageserver_settled req).
Proof.
  intros req. apply twice; [by vm_compute|..].
  - refine (proj1 (proj2 (run_parts _ _ (Reconcile_pageserver_settles world_server world_view req Samples.start
      Samples.pageserver Samples.bucket Samples.cluster (conj eq_refl eq_refl) _ (conj eq_refl eq_refl) (conj eq_refl eq_refl)) _)));
      [split; by eexists|calm].
  - refine (run_parts _ _ (Reconcile_pageserver_settles world_server world_view req
      (first_run Samples.start (PageserverReconciler.Reconcile req)).1.1 _ _ _ _ _ _ _) _);
      [split; computed|split; by eexists|split; computed|split; computed|calm].
Defined.

Lemma Reconcile_branch_settles_witness :
  let req := Samples.request "main" in
  settles_at_once BranchReconciler.with_keys (BranchReconciler.Reconcile "" req) (branch_settled (Samples.project_with "0badcafe") req).
Proof.
  intros req. apply twice; [by vm_compute|..].
  - refine (proj1 (proj2 (run_parts _ _ (Reconcile_branch_settles "" (Samples.project_with "0badcafe") world_server world_view req
      BranchReconciler.with_keys (Samples.branch_with "0badbeef") (conj eq_refl eq_refl) _ (conj eq_refl eq_refl) _) _ _)));
      [done|do 3 eexists; split_and!; [split; computed|split; computed|computed]|calm|accepted].
  - refine (run_parts _ _ (Reconcile_branch_settles "" (Samples.project_with "0badcafe") world_server world_view req
      (first_run BranchReconciler.with_keys (BranchReconciler.Reconcile "" req)).1.1 _ _ _ _ _) _ _);
      [split; computed|done|split; computed|do 3 eexists; split_and!; [split; computed|split; computed|computed]|calm|accepted].
Defined.

Lemma Reconcile_project_settles_witness :
  let req := Samples.request "shop" in
  settles_at_once Samples.start (ProjectReconciler.Reconcile "" req) (project_settled req).
Proof.
  intros req. apply twice; [by vm_compute|..].
  - refine (proj1 (proj2 (run_parts _ _ (Reconcile_project_settles "" world_server world_view req Samples.start
      (Samples.project_with "0badcafe") (conj eq_refl eq_refl)) _ _)));
      [calm|split_and!; [done|done|accepted]].
  - refine (run_parts _ _ (Reconcile_project_settles "" world_server world_view req
      (first_run Samples.start (ProjectReconciler.Reconcile "" req)).1.1 _ _) _ _);
      [split; computed|calm|split_and!; [done|done|accepted]].
Defined.
