(* ===== verification/Fleet.v ===== *)
(** * The whole operator settles

    A fleet of Clusters, Safekeepers, Pageservers, Projects and Branches with their
    identifiers, handled by their five controllers on a server that keeps what is written.
    Each pass leaves what the next ones need and none disturbs what another has settled:
    every schedule with the fleet in it, parents before children, settles the fleet, and
    then no pass writes anything. *)

From S2P Require Import Prelude GoLib KubeTypes Api Interfaces Reference Prog Calls Server Status Jwt Reconcile.
From S2P Require Import StorageBroker StorageController SafekeeperRes PageserverRes ComputeRes Naming.
From S2P Require Import Controller ApiServer ClusterController SafekeeperController PageserverController.
From S2P Require Import ProjectController BranchController Operator.
From S2P Require Import Convergence Settling Effects Places Rounds Passes.

(** ** Resources *)

(** A Branch comes with the Project it names. *)
Inductive resource :=
  | ACluster (c : Cluster)
  | ASafekeeper (sk : Safekeeper)
  | APageserver (ps : Pageserver)
  | AProject (p : Project)
  | ABranch (b : Branch) (p : Project).

Definition kind_of (x : resource) : Kind :=
  match x with
  | ACluster _ => KCluster | ASafekeeper _ => KSafekeeper | APageserver _ => KPageserver
  | AProject _ => KProject | ABranch _ _ => KBranch
  end.

Definition object_of (x : resource) : obj (kind_of x) :=
  match x with
  | ACluster c => c | ASafekeeper sk => sk | APageserver ps => ps | AProject p => p | ABranch b _ => b
  end.

Definition request_of (x : resource) : Request := key_of (meta (object_of x)).
Definition place_of (x : resource) : place := (kind_of x, request_of x).

(** What the children are named after. *)
Definition owner_of (x : resource) : string * owner :=
  match x with
  | ACluster c => (om_Namespace (cl_Meta c), OfCluster (om_Name (cl_Meta c)))
  | ASafekeeper sk => (om_Namespace (sk_Meta sk), OfSafekeeper (sfs_Cluster (sk_Spec sk)) (sfs_ID (sk_Spec sk)))
  | APageserver ps => (om_Namespace (pgs_Meta ps), OfPageserver (pss_Cluster (pgs_Spec ps)) (pss_ID (pgs_Spec ps)))
  | AProject p => (om_Namespace (pr_Meta p), OfProject (om_Name (pr_Meta p)))
  | ABranch b _ => (om_Namespace (br_Meta b), OfBranch (om_Name (br_Meta b)))
  end.

Definition child_places (x : resource) : list place :=
  match x with
  | ACluster c => cluster_places c
  | ASafekeeper sk => safekeeper_child_places sk
  | APageserver ps => PageserverReconciler.pageserver_children ps
  | AProject _ => []
  | ABranch b _ => BranchReconciler.branch_children b
  end.

(** The resources a resource refers to. *)
Definition parents (x : resource) : list place :=
  match x with
  | ACluster _ | AProject _ => []
  | ASafekeeper sk => [(KCluster, SafekeeperReconciler.cluster_key sk)]
  | APageserver ps => [(KCluster, PageserverReconciler.in_namespace ps (pss_Cluster (pgs_Spec ps)))]
  | ABranch b p => [(KProject, BranchReconciler.project_key b); (KCluster, BranchReconciler.cluster_key p)]
  end.

(** And the secrets it reads. *)
Definition secrets (x : resource) : list place :=
  match x with
  | APageserver ps => [(KSecret, PageserverReconciler.bucket_key ps)]
  | ABranch _ p => [tag_place "neon" (SigningKeys (prs_ClusterName (pr_Spec p)))]
  | _ => []
  end.

Section fleet.
Context `{ConditionLaws} `{OwnerLaws} `{CryptoLaws} `{QuantityLaws} `{HttpOps} `{SemanticEqualLaws Status}.
Context `{SemanticDerivative DeploymentSpec} `{SemanticDerivative StatefulSetSpec}
  `{SemanticDerivative ServiceSpec} `{SemanticDerivative smap}.
Context (StorageControllerBaseURL : string).

(** What the API server and the passes that assign identifiers see to: a Cluster has its
    database secret, sizes are quantities, ids are unsigned, and there are identifiers. *)
Definition valid (x : resource) : Prop :=
  match x with
  | ACluster c => ∃ secret, cls_StorageControllerDatabaseSecret (cl_Spec c) = Some secret
  | ASafekeeper sk => SafekeeperReconciler.size_ok sk ∧ 0 ≤ sfs_ID (sk_Spec sk)
  | APageserver ps => PageserverReconciler.spec_ok ps ∧ 0 ≤ pss_ID (pgs_Spec ps)
  | AProject p => prs_TenantID (pr_Spec p) ≠ "" ∧
      NewRequest_error "PUT" (rq_URL (ProjectReconciler.attach_request StorageControllerBaseURL p)) = None
  | ABranch b p => brs_TimelineID (br_Spec b) ≠ "" ∧ key_of (pr_Meta p) = BranchReconciler.project_key b
  end.

Lemma child_places_owned x : valid x → Forall (owned_by (owner_of x).1 (owner_of x).2) (child_places x).
Proof.
  destruct x; cbn [valid owner_of child_places fst snd]; intros Hv.
  - apply cluster_owns.
  - by apply safekeeper_owns, Hv.
  - by apply pageserver_owns, Hv.
  - constructor.
  - apply branch_owns.
Qed.

(** Every resource after its parents, and no two with the same place or the same names
    for their children; [ok] is what holds of each for itself. *)
Fixpoint arranged (ok : resource → Prop) (before l : list resource) : Prop :=
  match l with
  | [] => True
  | x :: l =>
      ok x ∧ (place_of x ∉ place_of <$> before) ∧ (owner_of x ∉ owner_of <$> before) ∧
      (parents x ⊆ place_of <$> before) ∧
      (∀ b p, x = ABranch b p → AProject p ∈ before) ∧
      arranged ok (before ++ [x]) l
  end.

(** What is in the cluster: every resource, as the objects found compare to it; the bucket
    secrets, which are not signing keys; and signing keys, if there are any yet, that can
    be read. *)
Definition keys_readable (key : NamespacedName) (v : view) : Prop :=
  ∀ s : Secret, v KSecret key = Some s → ∃ jm, NewJWTManagerFromSecret s = Ok jm.

Definition present (R : ∀ x, obj (kind_of x) → Prop) (x : resource) (v : view) : Prop :=
  ∃ o, found v (request_of x) o ∧ R x o.

Record deployed (R : ∀ x, obj (kind_of x) → Prop) (fleet : list resource) (v : view) : Prop := {
  dp_objects : ∀ x, x ∈ fleet → present R x v;
  dp_buckets : ∀ ps, APageserver ps ∈ fleet → ∃ secret : obj KSecret, found v (PageserverReconciler.bucket_key ps) secret;
  dp_keys : ∀ c, ACluster c ∈ fleet → keys_readable (ClusterReconciler.jwt_secret_key c) v;
}.

(** But for their status they are the resources. *)
Definition as_is (x : resource) : obj (kind_of x) → Prop := same_but_status (object_of x).

Definition buckets_apart (fleet : list resource) : Prop :=
  ∀ ps c, APageserver ps ∈ fleet → ACluster c ∈ fleet →
    PageserverReconciler.bucket_key ps ≠ ClusterReconciler.jwt_secret_key c.

(** The storage controller answers every request with a success. *)
Definition accepted (e : event) : Prop :=
  (match ev_call e as c return answer c → Prop with
   | CHttp _ => λ a, ∃ resp, a = Ok resp ∧ (rs_StatusCode resp = 200 ∨ rs_StatusCode resp = 201)
   | _ => λ _, True
   end) (ev_answer e).

(** ** Their passes, as jobs *)

Definition run_of (x : resource) : prog (Result * option error) :=
  match x with
  | ACluster _ => ClusterReconciler.Reconcile (request_of x)
  | ASafekeeper _ => SafekeeperReconciler.Reconcile (request_of x)
  | APageserver _ => PageserverReconciler.Reconcile (request_of x)
  | AProject _ => ProjectReconciler.Reconcile StorageControllerBaseURL (request_of x)
  | ABranch _ _ => BranchReconciler.Reconcile StorageControllerBaseURL (request_of x)
  end.

(** The Project of a Branch, as it is now. *)
Definition with_project (b : Branch) (p : Project) (P : Project → view → Prop) (v : view) : Prop :=
  ∃ p', found (k := KProject) v (BranchReconciler.project_key b) p' ∧ same_but_status (k := KProject) p p' ∧ P p' v.

Definition needs_of (x : resource) : view → Prop :=
  match x with
  | ACluster c => object_ready (k := KCluster) (request_of x) c (λ _ _, True)
  | ASafekeeper sk => object_ready (k := KSafekeeper) (request_of x) sk
      (λ sk v, ∃ cluster, found (k := KCluster) v (SafekeeperReconciler.cluster_key sk) cluster)
  | APageserver ps => object_ready (k := KPageserver) (request_of x) ps pageserver_parents
  | AProject p => object_ready (k := KProject) (request_of x) p (λ _ _, True)
  | ABranch b p => with_project b p (λ p, object_ready (k := KBranch) (request_of x) b (branch_needs p))
  end.

(** Settled: the object is there, its children are as intended and its status says what
    there is to say (Passes.v). *)
Definition settled_of (x : resource) : view → Prop :=
  match x with
  | ACluster c => object_settled (k := KCluster) (request_of x) c cluster_in_place
      (λ c, status_settled (k := KCluster) (request_of x) (cluster_wants c))
  | ASafekeeper sk => object_settled (k := KSafekeeper) (request_of x) sk safekeeper_in_place
      (λ sk, status_settled (k := KSafekeeper) (request_of x) (safekeeper_wants sk))
  | APageserver ps => object_settled (k := KPageserver) (request_of x) ps pageserver_in_place
      (λ ps, status_settled (k := KPageserver) (request_of x) (pageserver_wants ps))
  | AProject p => object_settled (k := KProject) (request_of x) p (λ _ _, True)
      (λ _, status_settled (k := KProject) (request_of x) project_wants)
  | ABranch b p => with_project b p (λ p, object_settled (k := KBranch) (request_of x) b (branch_ready p)
      (λ b, status_settled (k := KBranch) (request_of x) (branch_wants b)))
  end.

Definition reads_of (x : resource) : list place :=
  place_of x ::
  match x with
  | ACluster c => cluster_places c ++ cluster_watched c
  | ASafekeeper sk => safekeeper_places sk ++ sts_watched (k := KSafekeeper) sk (safekeeper.Name sk)
  | APageserver ps => pageserver_places ps ++ sts_watched (k := KPageserver) ps (pageserver.Name ps)
  | AProject _ => []
  | ABranch b p => ((KProject, BranchReconciler.project_key b) :: branch_places b p) ++ branch_watched b
  end.

Definition writes_of (x : resource) : list place := place_of x :: child_places x.

Definition job_of (x : resource) : job :=
  {| jb_run := run_of x; jb_needs := needs_of x; jb_settled := settled_of x;
     jb_reads := reads_of x; jb_writes := writes_of x |}.
(** ** Each of them settles *)

Lemma accepted_storage tr : Forall accepted tr → storage_accepts tr.
Proof.
  intros Hall. eapply Forall_impl; [exact Hall|]. intros [c a]. destruct c; try done. cbn [accepted ev_call ev_answer].
  intros (resp&->&Hr). exists resp. naive_solver.
Qed.

Lemma accepted_range tr : Forall accepted tr →
  Forall (λ e, (match ev_call e as c return answer c → Prop with
    | CHttp _ => λ a, ∃ resp, a = Ok resp ∧ 200 ≤ rs_StatusCode resp < 300
    | _ => λ _, True
    end) (ev_answer e)) tr.
Proof.
  intros Hall. eapply Forall_impl; [exact Hall|]. intros [c a]. destruct c; try done. cbn [accepted ev_call ev_answer].
  intros (resp&->&Hr). exists resp. split; [done|]. lia.
Qed.

(** Objects that differ in the status have the same places. *)
Lemma cluster_same_places (c c' : obj KCluster) : same_but_status c c' →
  cluster_places c' = cluster_places c ∧ cluster_watched c' = cluster_watched c.
Proof.
  intros [(Hname&Hns&_) _]. unfold cluster_places, cluster_watched, sc_key, sb_key,
    ClusterReconciler.child_key, ClusterReconciler.jwt_secret_key. by rewrite Hname, Hns.
Qed.

Lemma safekeeper_same_places (sk sk' : obj KSafekeeper) : same_but_status sk sk' →
  safekeeper_places sk' = safekeeper_places sk ∧ safekeeper_child_places sk' = safekeeper_child_places sk ∧
  sts_watched (k := KSafekeeper) sk' (safekeeper.Name sk') = sts_watched (k := KSafekeeper) sk (safekeeper.Name sk).
Proof.
  intros [(Hname&Hns&_) Hspec]. unfold safekeeper_places, safekeeper_child_places, sts_watched, sts_key, pod_key,
    safekeeper.HeadlessName, safekeeper.Name, SafekeeperReconciler.child_key, SafekeeperReconciler.cluster_key.
  cbn [meta]. by rewrite Hns, Hspec.
Qed.

Lemma pageserver_same_places (ps ps' : obj KPageserver) : same_but_status ps ps' →
  pageserver_places ps' = pageserver_places ps ∧ PageserverReconciler.pageserver_children ps' = PageserverReconciler.pageserver_children ps ∧
  sts_watched (k := KPageserver) ps' (pageserver.Name ps') = sts_watched (k := KPageserver) ps (pageserver.Name ps).
Proof.
  intros [(Hname&Hns&_) Hspec]. unfold pageserver_places, PageserverReconciler.pageserver_children, sts_watched, sts_key, pod_key,
    pageserver.HeadlessName, pageserver.Name, PageserverReconciler.bucket_key, PageserverReconciler.in_namespace.
  cbn [meta]. by rewrite Hns, Hspec.
Qed.

Lemma branch_project_key (b b' : obj KBranch) :
  same_but_status b b' → BranchReconciler.project_key b' = BranchReconciler.project_key b.
Proof.
  intros [(_&Hns&_) Hspec]. unfold BranchReconciler.project_key, BranchReconciler.in_namespace. by rewrite Hns, Hspec.
Qed.

Lemma branch_same_places (b b' : obj KBranch) p : same_but_status b b' →
  (KProject, BranchReconciler.project_key b') :: branch_places b' p =
    (KProject, BranchReconciler.project_key b) :: branch_places b p ∧
  BranchReconciler.branch_children b' = BranchReconciler.branch_children b ∧ branch_watched b' = branch_watched b.
Proof.
  intros [(Hname&Hns&_) Hspec]. unfold branch_places, BranchReconciler.branch_children, branch_watched, compute_key,
    BranchReconciler.project_key, BranchReconciler.in_namespace. by rewrite Hname, Hns, Hspec.
Qed.

Definition settles_locally (x : resource) : Prop :=
  job_settles accepted (job_of x) ∧ job_local (job_of x).

Lemma cluster_settles_locally c : valid (ACluster c) → settles_locally (ACluster c).
Proof.
  intros [secret Hsecret]. apply (object_job (k := KCluster) accepted _ _ _ _ _ _ _ _ _ _ _ _ _ _ (cluster_settling _)).
  - intros o tr [_ Hspec] _. unfold cluster_ok, storagecontroller.Deployment. rewrite Hspec, Hsecret. by eexists.
  - intros o Ho. by destruct (cluster_same_places c o Ho).
Qed.

Lemma safekeeper_settles_locally sk : valid (ASafekeeper sk) → settles_locally (ASafekeeper sk).
Proof.
  intros [Hsize _]. apply (object_job (k := KSafekeeper) accepted _ _ _ _ _ _ _ _ _ _ _ _ _ _ (safekeeper_settling _)).
  - intros o tr [_ Hspec] _. unfold SafekeeperReconciler.size_ok. by rewrite Hspec.
  - intros o Ho. by apply safekeeper_same_places.
Qed.

Lemma pageserver_settles_locally ps : valid (APageserver ps) → settles_locally (APageserver ps).
Proof.
  intros [Hok _]. apply (object_job (k := KPageserver) accepted _ _ _ _ _ _ _ _ _ _ _ _ _ _ (pageserver_settling _)).
  - intros o tr [_ Hspec] _. unfold PageserverReconciler.spec_ok. by rewrite Hspec.
  - intros o Ho. by apply pageserver_same_places.
Qed.

Lemma project_settles_locally p : valid (AProject p) → settles_locally (AProject p).
Proof.
  intros [Hid Hurl]. apply (object_job (k := KProject) accepted _ _ _ _ _ _ _ _ _ _ _ _ _ _
    (project_settling StorageControllerBaseURL _)).
  - intros o tr [(Hname&Hns&_) Hspec] Hall. unfold project_ok. split_and!; [by rewrite Hspec| |by apply accepted_range].
    rewrite <-Hurl. f_equal. cbn [ProjectReconciler.attach_request rq_URL].
    unfold ProjectReconciler.base_url. by rewrite Hspec.
  - done.
Qed.

(** The Branch, with its Project as it is now. *)
Definition branch_as_job (b : Branch) (p p' : Project) : job :=
  object_as_job (k := KBranch) (request_of (ABranch b p)) b (branch_needs p') (branch_ready p')
    (λ b', status_settled (k := KBranch) (request_of (ABranch b p)) (branch_wants b'))
    (λ b', (KProject, BranchReconciler.project_key b') :: branch_places b' p') BranchReconciler.branch_children branch_watched
    (BranchReconciler.Reconcile StorageControllerBaseURL (request_of (ABranch b p))).

Lemma branch_job b p p' : same_but_status (k := KProject) p p' → valid (ABranch b p) →
  job_settles accepted (branch_as_job b p p') ∧ job_local (branch_as_job b p p').
Proof.
  intros Hp [Hid _]. apply (object_job (k := KBranch) accepted _ _ _ _ _ _ _ _ _ _ _ _ _ _
    (branch_settling StorageControllerBaseURL p' _)).
  - intros o tr [_ Hspec] Hall. split; [by rewrite Hspec|by apply accepted_storage].
  - intros o Ho. by apply branch_same_places.
Qed.

Lemma branch_places_project b (p p' : obj KProject) : same_but_status p p' → branch_places b p' = branch_places b p.
Proof. intros [_ Hspec]. unfold branch_places, BranchReconciler.cluster_key. by rewrite Hspec. Qed.

Lemma branch_settles_locally b p : valid (ABranch b p) → settles_locally (ABranch b p).
Proof.
  intros Hv. split.
  - eapply wp_mono; [|apply (wp_forall _ (λ s : { p' | same_but_status (k := KProject) p p' },
      job_result accepted (branch_as_job b p (proj1_sig s)))); intros [p' Hp]; exact (proj1 (branch_job b p p' Hp Hv))].
    intros tr out Hrun v v' ((p'&Hfound&Hp&Hneeds)&Hc&Hcalm&Htaken).
    destruct (Hrun (exist _ p' Hp) v v') as (->&Hset&Hframe&Hquiet); [done|]. cbn [proj1_sig jb_settled jb_writes object_as_job] in *.
    split_and!; [done| |done|].
    + destruct Hset as (b'&Hb'&Hbut&Hready&Hstatus). exists p'. split_and!; [|done|by exists b'].
      rewrite <-(branch_project_key b b') by done. apply Hready.
    + intros (p2&[Hp2 _]&_&Hset2). assert (p2 = p') as -> by (destruct Hfound; congruence). auto.
  - intros v v' Ha (p'&[Hp Hk]&Hbut&Hset). exists p'. split_and!; [split; [|done]|done|].
    + rewrite (Ha KProject (BranchReconciler.project_key b)); [done|]. unfold reads_of. set_solver.
    + eapply (proj2 (branch_job b p p' Hbut Hv)); [|exact Hset]. unfold branch_as_job, object_as_job. cbn [jb_reads].
      rewrite (branch_places_project b p p') by done. exact Ha.
Qed.

Lemma resource_settles x : valid x → settles_locally x.
Proof.
  destruct x; [apply cluster_settles_locally|apply safekeeper_settles_locally|apply pageserver_settles_locally
    |apply project_settles_locally|apply branch_settles_locally].
Qed.

(** ** Signing keys stay readable *)

(** The only Secrets the controllers write are created, of marshalled keys. *)
Definition writes_readable (c : call) : Prop :=
  match c with
  | CCreate k o _ =>
      match k return obj k → Prop with KSecret => λ o, ∃ jm, NewJWTManagerFromSecret o = Ok jm | _ => λ _, True end o
  | CApply k _ _ _ | CMergePatch k _ _ _ | CStatusPatch k _ _ => k ≠ KSecret
  | _ => True
  end.

Lemma run_writes_readable x : calls_only writes_readable (run_of x).
Proof.
  destruct x; cbn [run_of]; all_calls ltac:(first [done |
    cbn [writes_readable]; eexists; by apply manager_of_marshalled]).
Qed.

Lemma readable_stored (o s : obj KSecret) : stored o s →
  (∃ jm, NewJWTManagerFromSecret o = Ok jm) → ∃ jm, NewJWTManagerFromSecret s = Ok jm.
Proof. intros [_ Hdata] [jm Hjm]. exists jm. rewrite <-Hjm. unfold NewJWTManagerFromSecret. by rewrite Hdata. Qed.

Lemma step_keeps_readable key e v v' :
  writes_readable (ev_call e) → api_step v e v' → answered e → keys_readable key v → keys_readable key v'.
Proof.
  intros Hw Hstep Hans Hkeys s Hs.
  destruct (decide (Some (KSecret, key) = target (ev_call e))) as [Ht|Ht];
    [|apply Hkeys; by rewrite <-(api_step_frame _ _ _ _ _ Hstep Ht)].
  destruct e as [[| |k o fm|k o force fm|k base o fm|k base o| | | |] a]; cbn [ev_call target writes_readable] in *;
    try done; injection Ht as <- ->; try done.
  destruct Hstep as [[_ Hst] _]. destruct Hans as [o' Ho']. cbn [ev_answer] in *.
  destruct (Hst o' Ho') as [Hstored Hv]. assert (s = o') as -> by congruence.
  by eapply readable_stored.
Qed.

Lemma trace_keeps_readable key tr : ∀ v v',
  Forall (λ e, writes_readable (ev_call e)) tr → consistent v tr v' → calm tr → keys_readable key v → keys_readable key v'.
Proof.
  induction tr as [|e tr IH]; intros v v' Hw Hc Hcalm Hkeys.
  - intros s Hs. apply Hkeys. by rewrite <-(Hc KSecret key).
  - apply Forall_cons in Hw as [He Hw], Hcalm as [Ha Hcalm]. destruct Hc as (v1&Hs&Hc).
    eapply (IH v1 v'); [done..|]. by eapply step_keeps_readable.
Qed.

(** ** The places of two resources *)

Definition child_kinds : list Kind := [KService; KStatefulSet; KDeployment; KConfigMap; KSecret].

Lemma child_place_kind x y : y ∈ child_places x → y.1 ∈ child_kinds.
Proof.
  destruct x; cbn [child_places]; unfold cluster_places, safekeeper_child_places, PageserverReconciler.pageserver_children,
    BranchReconciler.branch_children, child_kinds; set_solver.
Qed.

Lemma place_of_kind x : kind_of x ∉ child_kinds.
Proof. destruct x; unfold child_kinds; set_solver. Qed.

Lemma place_of_no_child x y : place_of x ∉ child_places y.
Proof. intros Hin%child_place_kind. by apply (place_of_kind x). Qed.

Lemma secret_place_of_cluster x y : y ∈ child_places x → y.1 = KSecret →
  ∃ c, x = ACluster c ∧ (y = (KSecret, ClusterReconciler.jwt_secret_key c)).
Proof.
  intros Hin Hk. destruct x as [c|sk|ps|p|b p]; cbn [child_places] in Hin.
  1: { exists c. split; [done|]. unfold cluster_places in Hin. set_solver. }
  all: unfold safekeeper_child_places, PageserverReconciler.pageserver_children, BranchReconciler.branch_children in Hin; set_solver.
Qed.

(** What a settled state depends on. *)
Lemma reads_of_parts x y : y ∈ reads_of x →
  y = place_of x ∨ y ∈ child_places x ∨ y ∈ parents x ∨ y ∈ secrets x ∨ y.1 = KPod.
Proof.
  destruct x; unfold reads_of; cbn [child_places parents secrets];
    unfold cluster_watched, sts_watched, branch_watched, cluster_places, sc_key, sb_key, safekeeper_places, safekeeper_child_places,
      pageserver_places, PageserverReconciler.pageserver_children, branch_places, BranchReconciler.branch_children, compute_key, sts_key, tag_place; cbn [meta]; set_solver.
Qed.

Lemma secrets_kind x y : y ∈ secrets x → y.1 = KSecret.
Proof.
  destruct x; cbn [secrets]; intros Hin; try (by apply not_elem_of_nil in Hin); by apply list_elem_of_singleton in Hin as ->.
Qed.

(** A resource that comes later writes nowhere an earlier one looks. *)
Lemma later_writes_apart x y before pl :
  x ∈ before → valid x → valid y → (parents x ⊆ place_of <$> before) →
  (place_of y ∉ place_of <$> before) → (owner_of y ∉ owner_of <$> before) →
  (∀ ps c, x = APageserver ps → y = ACluster c →
    PageserverReconciler.bucket_key ps ≠ ClusterReconciler.jwt_secret_key c) →
  pl ∈ reads_of x → pl ∉ writes_of y.
Proof.
  intros Hx Hvx Hvy Hparents Hplace Howner Hbucket Hreads Hwrites.
  pose proof (list_elem_of_fmap_2 place_of _ _ Hx) as Hxp. pose proof (list_elem_of_fmap_2 owner_of _ _ Hx) as Hxo.
  assert (pl ∉ parents x) as Hnoparent.
  { intros Hin%Hparents. apply elem_of_cons in Hwrites as [->|Hchild]; [done|].
    apply list_elem_of_fmap_1 in Hin as (z&->&_). by apply (place_of_no_child z y). }
  apply elem_of_cons in Hwrites as [->|Hchild].
  - apply reads_of_parts in Hreads as [Heq|[Hc|[Hp|[Hs|Hpod]]]]; [congruence|by eapply place_of_no_child|done|..].
    + apply secrets_kind in Hs. destruct y; discriminate Hs.
    + destruct y; discriminate Hpod.
  - pose proof (child_place_kind _ _ Hchild) as Hkind.
    apply reads_of_parts in Hreads as [->|[Hc|[Hp|[Hs|Hpod]]]]; [by eapply place_of_no_child| |done|..].
    + pose proof (child_places_owned _ Hvx) as Hox. pose proof (child_places_owned _ Hvy) as Hoy.
      rewrite Forall_forall in Hox, Hoy. pose proof (owned_by_inj _ _ _ _ _ (Hox _ Hc) (Hoy _ Hchild)) as Heq.
      apply Howner. rewrite (surjective_pairing (owner_of y)), <-Heq. by rewrite <-surjective_pairing.
    + destruct (secret_place_of_cluster y pl Hchild (secrets_kind _ _ Hs)) as (c&->&->).
      destruct x as [?|?|ps|?|b p]; cbn [secrets] in Hs; try (by apply not_elem_of_nil in Hs).
      * apply list_elem_of_singleton in Hs. apply (Hbucket ps c eq_refl eq_refl). congruence.
      * apply list_elem_of_singleton in Hs. injection Hs as Hns Hn.
        unfold ClusterReconciler.jwt_secret_name in Hn. apply string_app_inj_l, string_app_inj_r in Hn.
        assert (place_of (ACluster c) = (KCluster, BranchReconciler.cluster_key p)) as Heq
          by (unfold place_of, request_of, key_of, BranchReconciler.cluster_key; cbn; by rewrite Hns, Hn).
        apply Hplace. rewrite Heq. apply Hparents. right. left.
    + rewrite Hpod in Hkind. unfold child_kinds in Hkind. set_solver.
Qed.

(** ** What the passes need *)

(** A resource whose parents are among those before it. *)
Definition linked (before : list resource) (x : resource) : Prop :=
  valid x ∧ (parents x ⊆ place_of <$> before) ∧ (∀ b p, x = ABranch b p → AProject p ∈ before).

Lemma linked_app before l x : linked before x → linked (before ++ l) x.
Proof. intros (Hv&Hp&Hb). split_and!; [done| |]; [rewrite fmap_app; set_solver|intros b p E; apply elem_of_app; left; eauto]. Qed.

(** The Cluster at a place among the resources. *)
Lemma cluster_at (l : list resource) key : (KCluster, key) ∈ place_of <$> l → ∃ c, ACluster c ∈ l ∧ key_of (cl_Meta c) = key.
Proof. intros ([c| | | | ]&Heq&Hin)%list_elem_of_fmap_1; try done. injection Heq as ->. by exists c. Qed.

Lemma cluster_deployed fleet v key :
  deployed as_is fleet v → (KCluster, key) ∈ place_of <$> fleet → ∃ c : obj KCluster, found v key c.
Proof. intros Hd (c&Hin&<-)%cluster_at. destruct (dp_objects _ _ _ Hd _ Hin) as (o&Ho&_). by exists o. Qed.

(** A settled Cluster has keys, and they can be read. *)
Lemma branch_parents_ready fleet (before : list resource) p p' v :
  deployed as_is fleet v → (∀ x, x ∈ before → x ∈ fleet) → (∀ x, x ∈ before → settled_of x v) →
  same_but_status (k := KProject) p p' → (KCluster, BranchReconciler.cluster_key p) ∈ place_of <$> before →
  branch_parents p' v.
Proof.
  intros Hd Hsub Hset [_ Hspec] (c&Hin&Hkey)%cluster_at.
  destruct (Hset _ Hin) as (o&Hfound&[(Hname&Hns&_) _]&[(secret&Hsecret) _]&_).
  change (request_of (ACluster c)) with (key_of (cl_Meta c)) in Hfound. rewrite Hkey in Hfound.
  assert (ClusterReconciler.jwt_secret_key o = ClusterReconciler.jwt_secret_key c) as Hjwt
    by (unfold ClusterReconciler.jwt_secret_key; by rewrite Hname, Hns).
  rewrite Hjwt in Hsecret. destruct (dp_keys _ _ _ Hd c (Hsub _ Hin) secret) as [jm Hjm]; [apply Hsecret|].
  unfold ClusterReconciler.jwt_secret_key in Hsecret. injection Hkey as Hns' Hname'. rewrite Hns', Hname' in Hsecret.
  exists o, secret, jm. unfold BranchReconciler.cluster_key in *. rewrite Hspec. by split_and!.
Qed.

Lemma needs_met fleet (before : list resource) x v :
  deployed as_is fleet v → x ∈ fleet → (∀ y, y ∈ before → y ∈ fleet) → (∀ y, y ∈ before → settled_of y v) →
  linked before x → needs_of x v.
Proof.
  intros Hd Hx Hsub Hset (Hv&Hparents&Hproject). destruct (dp_objects _ _ _ Hd _ Hx) as (o&Hfound&Hbut).
  assert (∀ key, (KCluster, key) ∈ parents x → ∃ c : obj KCluster, found v key c) as Hcluster.
  { intros key Hin%Hparents. eapply cluster_deployed; [done|].
    apply list_elem_of_fmap_1 in Hin as (y&->&Hy). by apply list_elem_of_fmap_2, Hsub. }
  destruct x as [c|sk|ps|p|b p]; cbn [needs_of].
  - by exists o.
  - exists o. split_and!; [done..|]. destruct Hbut as [(_&Hns&_) Hspec].
    unfold SafekeeperReconciler.cluster_key. rewrite Hns, Hspec. apply Hcluster. left.
  - exists o. split_and!; [done..|]. destruct Hbut as [(_&Hns&_) Hspec].
    unfold pageserver_parents, PageserverReconciler.bucket_key, PageserverReconciler.in_namespace. rewrite Hns, Hspec.
    split; [by apply (dp_buckets _ _ _ Hd)|apply Hcluster; left].
  - by exists o.
  - pose proof (Hproject b p eq_refl) as Hin. destruct (dp_objects _ _ _ Hd _ (Hsub _ Hin)) as (p'&Hp'&Hbut').
    destruct Hv as [_ Hkey]. change (request_of (AProject p)) with (key_of (pr_Meta p)) in Hp'. rewrite Hkey in Hp'.
    exists p'. split_and!; [done..|]. exists o. split_and!; [done..|]. split; [by rewrite (branch_project_key b o)|].
    eapply branch_parents_ready; [done|exact Hsub|exact Hset|exact Hbut'|]. apply Hparents. right. left.
Qed.

(** ** A pass leaves the rest as it was *)

Definition next_of (x : resource) : obj (kind_of x) → obj (kind_of x) → Prop :=
  match x return obj (kind_of x) → obj (kind_of x) → Prop with
  | AProject _ => project_next
  | ABranch _ _ => branch_next
  | ACluster _ => same_but_status (k := KCluster)
  | ASafekeeper _ => same_but_status (k := KSafekeeper)
  | APageserver _ => same_but_status (k := KPageserver)
  end.

Definition ok_of (x : resource) : obj (kind_of x) → Prop :=
  match x return obj (kind_of x) → Prop with
  | ACluster _ => cluster_valid
  | ASafekeeper _ => SafekeeperReconciler.size_ok
  | APageserver _ => PageserverReconciler.spec_ok
  | AProject _ | ABranch _ _ => λ _, True
  end.

Definition children_of (x : resource) : obj (kind_of x) → list place :=
  match x return obj (kind_of x) → list place with
  | ACluster _ => cluster_places
  | ASafekeeper _ => safekeeper_child_places
  | APageserver _ => PageserverReconciler.pageserver_children
  | AProject _ => λ _, []
  | ABranch _ _ => BranchReconciler.branch_children
  end.

Lemma resource_effect x : wp (run_of x) (pass_does (request_of x) (ok_of x) (next_of x) (children_of x)).
Proof.
  destruct x; [apply cluster_effect|apply safekeeper_effect|apply pageserver_effect|apply project_effect|apply branch_effect].
Qed.

(** The objects compare to the resource in the same way after its passes. *)
Record steady (R : ∀ x, obj (kind_of x) → Prop) (x : resource) : Prop := {
  sd_ok : ∀ o, R x o → ok_of x o;
  sd_children : ∀ o, R x o → children_of x o = child_places x;
  sd_next : ∀ o o', R x o → next_of x o o' → R x o';
}.

Lemma present_local R x (v v' : view) : v' (place_of x).1 (place_of x).2 = v (place_of x).1 (place_of x).2 →
  present R x v → present R x v'.
Proof. intros Hv (o&[Ho Hk]&HR). exists o. split; [split; [|done]|done]. rewrite <-Ho. exact Hv. Qed.

Lemma deployed_same R fleet v v' : same v v' → deployed R fleet v → deployed R fleet v'.
Proof.
  intros Hs [Hobj Hbucket Hkeys]. split.
  - intros x Hx. eapply present_local; [apply Hs|auto].
  - intros ps Hps. destruct (Hbucket ps Hps) as (secret&[Hv Hk]). exists secret. split; [|done]. by rewrite (Hs KSecret _).
  - intros c Hc s. rewrite (Hs KSecret _). by apply Hkeys.
Qed.

Lemma NoDup_fmap_inj {A B} (f : A → B) (l : list A) x y : NoDup (f <$> l) → x ∈ l → y ∈ l → f x = f y → x = y.
Proof.
  intros Hnd (i&Hi)%list_elem_of_lookup (j&Hj)%list_elem_of_lookup Hf.
  assert (i = j) as <-; [|congruence]. eapply NoDup_lookup; [exact Hnd| |];
    rewrite list_lookup_fmap; [by rewrite Hi|by rewrite Hj, Hf].
Qed.

(** Whatever a pass finds, it returns and keeps the fleet. *)
Lemma pass_keeps_deployed R fleet x :
  x ∈ fleet → NoDup (place_of <$> fleet) → buckets_apart fleet → steady R x →
  wp (run_of x) (λ tr out, ∀ v v', deployed R fleet v → clean accepted tr v v' →
    returns out ∧ deployed R fleet v' ∧ outside (writes_of x) v v' ∧
    ∃ o o', found v (request_of x) o ∧ R x o ∧ found v' (request_of x) o' ∧ next_of x o o').
Proof.
  intros Hx Hnd Hapart Hsteady.
  eapply wp_mono; [|exact (wp_and _ _ _ (resource_effect x) (calls_only_wp _ _ (run_writes_readable x)))].
  intros tr out [Hrun Hwrites] v v' [Hobj Hbucket Hkeys] (Hc&Hcalm&_). destruct (Hobj x Hx) as (o&Ho&HR).
  destruct (Hrun o v v' Ho (sd_ok _ _ Hsteady o HR) Hc Hcalm) as (Hret&Hout&o'&Ho'&Hnext).
  rewrite (sd_children _ _ Hsteady o HR) in Hout. change ((kind_of x, request_of x) :: child_places x) with (writes_of x) in Hout.
  split_and!; [done| |done|by exists o, o']. split.
  - intros y Hy. destruct (decide (place_of y = place_of x)) as [Heq|Hne].
    + rewrite (NoDup_fmap_inj place_of fleet y x) by done. exists o'. split; [done|]. by eapply sd_next.
    + eapply present_local; [apply Hout|auto]. intros [?|Hchild]%elem_of_cons; [done|]. by apply (place_of_no_child y x).
  - intros ps Hps. destruct (Hbucket ps Hps) as (secret&[Hsecret Hk]). exists secret. split; [|done].
    rewrite <-Hsecret. apply (Hout (KSecret, PageserverReconciler.bucket_key ps)).
    intros [Heq|Hchild]%elem_of_cons; [by destruct x|].
    destruct (secret_place_of_cluster x _ Hchild eq_refl) as (c&->&Heq). apply (Hapart ps c); [done|done|congruence].
  - intros c Hin. eapply trace_keeps_readable; [exact Hwrites|done..|auto].
Qed.

(** With their identifiers there, the objects stay the same but for their status. *)
Lemma valid_steady x : valid x → steady as_is x.
Proof.
  intros Hv. destruct x as [c|sk|ps|p|b p]; split; intros o; unfold as_is; cbn [object_of kind_of ok_of children_of child_places next_of].
  - intros [_ Hspec]. unfold cluster_valid. by rewrite Hspec.
  - intros Ho. by apply cluster_same_places.
  - intros o'. apply same_but_status_trans.
  - intros [_ Hspec]. unfold SafekeeperReconciler.size_ok. rewrite Hspec. apply Hv.
  - intros Ho. by apply safekeeper_same_places.
  - intros o'. apply same_but_status_trans.
  - intros [_ Hspec]. unfold PageserverReconciler.spec_ok. rewrite Hspec. apply Hv.
  - intros Ho. by apply pageserver_same_places.
  - intros o'. apply same_but_status_trans.
  - done.
  - done.
  - intros o' Ho. unfold project_next. rewrite decide_False by (rewrite (proj2 Ho); apply Hv). by apply same_but_status_trans.
  - done.
  - intros Ho. by apply (branch_same_places b o p).
  - intros o' Ho. unfold branch_next. rewrite decide_False by (rewrite (proj2 Ho); apply Hv). by apply same_but_status_trans.
Qed.

(** ** Round after round *)

Lemma arranged_distinct ok before l :
  arranged ok before l → NoDup (place_of <$> before) → NoDup (place_of <$> before ++ l).
Proof.
  revert before. induction l as [|x l IH]; intros before; [by rewrite app_nil_r|].
  intros (_&Hplace&_&_&_&Hrest) Hnd. replace (before ++ x :: l) with ((before ++ [x]) ++ l) by by rewrite <-app_assoc.
  apply IH; [done|]. rewrite fmap_app. apply NoDup_app. split_and!; [done| |apply NoDup_singleton].
  intros y Hy Hin%list_elem_of_singleton. subst y. done.
Qed.

(** What is known of a resource in the middle of the list. *)
Lemma arranged_app ok before l l' :
  arranged ok before (l ++ l') ↔ arranged ok before l ∧ arranged ok (before ++ l) l'.
Proof.
  revert before. induction l as [|x l IH]; intros before; cbn [app arranged]; [rewrite app_nil_r; tauto|].
  rewrite IH, <-app_assoc. cbn [app]. tauto.
Qed.

Lemma arranged_linked before l : arranged valid before l → Forall (linked before) before → Forall (linked (before ++ l)) (before ++ l).
Proof.
  revert before. induction l as [|x l IH]; intros before; [by rewrite app_nil_r|].
  intros (Hv&_&_&Hparents&Hproject&Hrest) Hbefore.
  replace (before ++ x :: l) with ((before ++ [x]) ++ l) by by rewrite <-app_assoc. apply IH; [done|].
  apply Forall_app. split; [eapply Forall_impl; [exact Hbefore|]; intros y; apply linked_app|].
  constructor; [apply linked_app; by split_and!|constructor].
Qed.

Lemma fleet_stages fleet :
  arranged valid [] fleet → buckets_apart fleet → stages accepted (deployed as_is fleet) (job_of <$> fleet).
Proof.
  intros Harr Hapart before J after Hsplit. apply fmap_app_inv in Hsplit as (bx&rest&->&Hrest&Hfleet).
  destruct rest as [|x ax]; [done|]. injection Hrest as -> _.
  assert (NoDup (place_of <$> fleet)) as Hnd by (apply (arranged_distinct valid []); [done|constructor]).
  rewrite Hfleet in Harr. apply arranged_app in Harr as [Hbefore (Hv&Hplace&Howner&Hparents&Hproject&_)].
  pose proof (arranged_linked [] bx Hbefore (List.Forall_nil _)) as Hlinked. cbn [app] in *.
  assert (x ∈ fleet) as Hx by (rewrite Hfleet; apply elem_of_app; right; left).
  assert (∀ y, y ∈ bx → y ∈ fleet) as Hsub by (intros y Hy; rewrite Hfleet; apply elem_of_app; by left).
  destruct (resource_settles x Hv) as [Hset Hlocal]. split_and!; [done|done|..].
  - eapply wp_mono; [|exact (pass_keeps_deployed as_is fleet x Hx Hnd Hapart (valid_steady x Hv))].
    intros tr out Hrun v v' Hd Hc. by destruct (Hrun v v' Hd Hc) as (?&?&?&_).
  - intros v Hd Hall. apply (needs_met fleet bx); [done..| |by split_and!]. intros y Hy. unfold all_jobs_settled in Hall.
    rewrite Forall_fmap, Forall_forall in Hall. by apply (Hall y).
  - intros K pl (y&->&Hy)%list_elem_of_fmap_1. rewrite Forall_forall in Hlinked.
    destruct (Hlinked y Hy) as (Hvy&Hpy&_). apply (later_writes_apart y x bx); try done.
    intros ps c -> ->. apply Hapart; [by apply Hsub|done].
Qed.

Definition all_settled (fleet : list resource) (v : view) : Prop := ∀ x, x ∈ fleet → settled_of x v.

Lemma all_settled_jobs fleet v : all_jobs_settled (job_of <$> fleet) v ↔ all_settled fleet v.
Proof. unfold all_jobs_settled. by rewrite Forall_fmap, Forall_forall. Qed.

(** Every schedule with the fleet in it settles the fleet; the fleet in its order does so
    without a failure on the way. *)
Lemma wp_fleet_settles fleet sch :
  arranged valid [] fleet → buckets_apart fleet → fleet `sublist_of` sch → sch ⊆ fleet →
  wp (round (run_of <$> sch)) (λ tr out, ∀ v v', deployed as_is fleet v → clean accepted tr v v' →
    returns out ∧ deployed as_is fleet v' ∧ all_settled fleet v' ∧
    (sch = fleet → out = Returned (replicate (length fleet) (no_requeue, None)))).
Proof.
  intros Harr Hapart Hsub Hin. change run_of with (jb_run ∘ job_of). rewrite list_fmap_compose.
  pose proof (fleet_stages fleet Harr Hapart) as Hstages.
  assert (wp (round (jb_run <$> (job_of <$> sch))) (λ tr out, ∀ v v', deployed as_is fleet v → clean accepted tr v v' →
    returns out ∧ deployed as_is fleet v' ∧ all_settled fleet v')) as Hschedule.
  { eapply wp_mono; [|apply (wp_schedule accepted (deployed as_is fleet) (deployed_same as_is fleet) (job_of <$> fleet)
      Hstages [] (job_of <$> fleet))].
    - intros tr out Hrun v v' Hd Hc. destruct (Hrun v v' Hd (List.Forall_nil _) Hc) as (Hret&Hd'&Hset).
      by rewrite all_settled_jobs in Hset.
    - done.
    - by apply fmap_sublist.
    - intros J (x&->&Hx)%list_elem_of_fmap_1. by apply list_elem_of_fmap_2, Hin. }
  assert (sch = fleet → wp (round (jb_run <$> (job_of <$> sch))) (λ tr out, ∀ v v', deployed as_is fleet v →
    clean accepted tr v v' → out = Returned (replicate (length fleet) (no_requeue, None)))) as Horder.
  { intros ->. eapply wp_mono; [|apply (wp_in_order accepted (deployed as_is fleet) (job_of <$> fleet) Hstages []); done].
    intros tr out Hrun v v' Hd Hc. rewrite length_fmap in Hrun. by apply (Hrun v v' Hd (List.Forall_nil _)). }
  eapply wp_mono; [|exact (wp_and _ _ _ Hschedule (wp_assume _ _ _ Horder))]. intros tr out [Hrun Ho] v v' Hd Hc.
  destruct (Hrun v v' Hd Hc) as (?&?&?). split_and!; eauto.
Qed.

(** And from then on no pass writes anything. *)
Lemma wp_fleet_settled fleet sch :
  arranged valid [] fleet → buckets_apart fleet → sch ⊆ fleet →
  wp (round (run_of <$> sch)) (λ tr out, ∀ v v', deployed as_is fleet v → all_settled fleet v → clean accepted tr v v' →
    out = Returned (replicate (length sch) (no_requeue, None)) ∧ writes tr = []).
Proof.
  intros Harr Hapart Hin. change run_of with (jb_run ∘ job_of). rewrite list_fmap_compose.
  eapply wp_mono; [|apply (wp_settled_schedule accepted (deployed as_is fleet) (job_of <$> fleet)
    (fleet_stages fleet Harr Hapart) (job_of <$> sch))].
  - intros tr out Hrun v v' Hd Hset Hc. rewrite length_fmap in Hrun. apply Hrun with (v := v) (v' := v'); [done| |done].
    by apply all_settled_jobs.
  - intros J (x&->&Hx)%list_elem_of_fmap_1. by apply list_elem_of_fmap_2, Hin.
Qed.
End fleet.
