(* ===== verification/Lifecycle.v ===== *)
(** * From new resources to a settled operator

    A fleet as it is created: Projects without a tenant id and Branches without a
    timeline id among the others.  The first passes assign what is missing, whatever else
    they find; identifiers once there stay; and the passes that follow settle the fleet
    with its identifiers (Fleet.v), in any schedule that has every resource after those it
    refers to somewhere in it. *)

From S2P Require Import Prelude GoLib KubeTypes Api Interfaces Reference Prog Calls Server Ids Status Jwt Reconcile.
From S2P Require Import Controller ApiServer ClusterController SafekeeperController PageserverController.
From S2P Require Import ProjectController BranchController Operator.
From S2P Require Import Convergence Settling Effects Places Rounds Passes Fleet.

(** ** Identifiers *)

(** An identifier after the pass that assigns it, and one that may be waiting for it. *)
Definition identifier_from (old id : string) : Prop := if decide (old = "") then neon_id id else id = old.
Definition identifier_kept (old id : string) : Prop := id = old ∨ identifier_from old id.

Lemma identifier_from_kept old id : identifier_kept old id → id ≠ "" → identifier_from old id.
Proof. intros [->|Hid] Hne; [|done]. unfold identifier_from. by rewrite decide_False. Qed.

Lemma identifier_from_nonempty old id : identifier_from old id → id ≠ "".
Proof. unfold identifier_from. case_decide; [apply neon_id_nonempty|by intros ->]. Qed.

(** A Project or Branch that is but for its status and its identifier as it was. *)
Definition project_with (ok : string → string → Prop) (p p' : Project) : Prop :=
  same_name (pr_Meta p) (pr_Meta p') ∧
  ∃ id, ok (prs_TenantID (pr_Spec p)) id ∧ pr_Spec p' = pr_Spec (ProjectReconciler.with_TenantID p id).
Definition branch_with (ok : string → string → Prop) (b b' : Branch) : Prop :=
  same_name (br_Meta b) (br_Meta b') ∧
  ∃ id, ok (brs_TimelineID (br_Spec b)) id ∧ br_Spec b' = br_Spec (BranchReconciler.with_TimelineID b id).

(** The objects found, while identifiers may be missing. *)
Definition kept (x : resource) : obj (kind_of x) → Prop :=
  match x return obj (kind_of x) → Prop with
  | AProject p => project_with identifier_kept p
  | ABranch b _ => branch_with identifier_kept b
  | ACluster c => same_but_status (k := KCluster) c
  | ASafekeeper sk => same_but_status (k := KSafekeeper) sk
  | APageserver ps => same_but_status (k := KPageserver) ps
  end.

Definition identified (x : resource) : obj (kind_of x) → Prop :=
  match x return obj (kind_of x) → Prop with
  | AProject _ => λ p, prs_TenantID (pr_Spec p) ≠ ""
  | ABranch _ _ => λ b, brs_TimelineID (br_Spec b) ≠ ""
  | _ => λ _, True
  end.

(** The resource with its identifiers. *)
Definition grown (x x' : resource) : Prop :=
  match x, x' with
  | AProject p, AProject p' => project_with identifier_from p p'
  | ABranch b p, ABranch b' p' => branch_with identifier_from b b' ∧ project_with identifier_from p p'
  | _, _ => x' = x
  end.

Lemma same_identity_name m m' : same_identity m m' → same_name m m'.
Proof. unfold same_identity, same_name. tauto. Qed.

Lemma project_kept_refl (p p' : obj KProject) : same_but_status p p' → project_with identifier_kept p p'.
Proof.
  intros [Hname Hspec]. split; [by apply same_identity_name|]. exists (prs_TenantID (pr_Spec p)).
  split; [by left|]. rewrite Hspec. cbn. by destruct (pr_Spec p).
Qed.
Lemma branch_kept_refl (b b' : obj KBranch) : same_but_status b b' → branch_with identifier_kept b b'.
Proof.
  intros [Hname Hspec]. split; [by apply same_identity_name|]. exists (brs_TimelineID (br_Spec b)).
  split; [by left|]. rewrite Hspec. cbn. by destruct (br_Spec b).
Qed.

Lemma as_is_kept x o : as_is x o → kept x o.
Proof. destruct x; [done..|apply project_kept_refl|apply branch_kept_refl]. Qed.

(** Identifiers do not change again. *)
Lemma identifier_kept_again old id id' : identifier_kept old id → identifier_kept id id' → identifier_kept old id'.
Proof.
  intros Hid [->|Hid']; [done|]. unfold identifier_from in Hid'. case_decide as Hnone; [|by subst id'].
  subst id. right. destruct Hid as [<-|Hid]; [unfold identifier_from; by rewrite decide_True|].
  by apply identifier_from_nonempty in Hid.
Qed.

Lemma project_kept_next (p q q' : obj KProject) :
  project_with identifier_kept p q → project_next q q' → project_with identifier_kept p q' ∧ prs_TenantID (pr_Spec q') ≠ "".
Proof.
  intros [Hname (id&Hid&Hspec)] Hnext. unfold project_next in Hnext. case_decide as Hnone.
  - destruct Hnext as [Hname' (id'&Hneon&Hspec')]. split.
    + split; [unfold same_name in *; naive_solver congruence|]. exists id'. split; [|rewrite Hspec'; cbn; by rewrite Hspec].
      eapply identifier_kept_again; [exact Hid|]. rewrite Hspec in Hnone. cbn in Hnone. subst id.
      right. unfold identifier_from. by rewrite decide_True.
    + rewrite Hspec'. by apply neon_id_nonempty.
  - destruct Hnext as [Hname'%same_identity_name Hspec']. split; [|by rewrite Hspec'].
    split; [unfold same_name in *; naive_solver congruence|]. exists id. by rewrite Hspec'.
Qed.

Lemma branch_kept_next (b c c' : obj KBranch) :
  branch_with identifier_kept b c → branch_next c c' → branch_with identifier_kept b c' ∧ brs_TimelineID (br_Spec c') ≠ "".
Proof.
  intros [Hname (id&Hid&Hspec)] Hnext. unfold branch_next in Hnext. case_decide as Hnone.
  - destruct Hnext as [Hname' (id'&Hneon&Hspec')]. split.
    + split; [unfold same_name in *; naive_solver congruence|]. exists id'. split; [|rewrite Hspec'; cbn; by rewrite Hspec].
      eapply identifier_kept_again; [exact Hid|]. rewrite Hspec in Hnone. cbn in Hnone. subst id.
      right. unfold identifier_from. by rewrite decide_True.
    + rewrite Hspec'. by apply neon_id_nonempty.
  - destruct Hnext as [Hname'%same_identity_name Hspec']. split; [|by rewrite Hspec'].
    split; [unfold same_name in *; naive_solver congruence|]. exists id. by rewrite Hspec'.
Qed.

Section lifecycle.
Context `{ConditionLaws} `{OwnerLaws} `{CryptoLaws} `{QuantityLaws} `{HttpOps} `{SemanticEqualLaws Status}.
Context `{SemanticDerivative DeploymentSpec} `{SemanticDerivative StatefulSetSpec}
  `{SemanticDerivative ServiceSpec} `{SemanticDerivative smap}.
Context (StorageControllerBaseURL : string).

(** What a resource is created with: as [valid], but the identifiers come later, and the
    storage controller's URL has to parse with whichever it is. *)
Definition admissible (x : resource) : Prop :=
  match x with
  | AProject p => ∀ id, identifier_from (prs_TenantID (pr_Spec p)) id →
      NewRequest_error "PUT" (rq_URL (ProjectReconciler.attach_request StorageControllerBaseURL
        (ProjectReconciler.with_TenantID p id))) = None
  | ABranch b p => key_of (pr_Meta p) = BranchReconciler.project_key b
  | _ => valid StorageControllerBaseURL x
  end.

(** ** The first passes *)

Lemma kept_steady x : admissible x → steady kept x.
Proof.
  intros Hv. destruct x as [c|sk|ps|p|b p].
  1-3: cbn [admissible] in Hv; by destruct (valid_steady StorageControllerBaseURL _ Hv) as [? ? ?].
  all: split; intros o; cbn [kept kind_of ok_of children_of child_places next_of].
  - done.
  - done.
  - intros o' Ho Hnext. by apply (project_kept_next p o o').
  - done.
  - intros [(Hname&Hns&_) _]. unfold BranchReconciler.branch_children, compute_key, BranchReconciler.in_namespace. by rewrite Hname, Hns.
  - intros o' Ho Hnext. by apply (branch_kept_next b o o').
Qed.

Lemma next_identified x o o' : kept x o → next_of x o o' → identified x o'.
Proof. destruct x; [done..| |]; intros Ho Hn; [by apply (project_kept_next p o o')|by apply (branch_kept_next b o o')]. Qed.

Definition named (x : resource) : view → Prop := present identified x.

(** A pass of [x] leaves [x] with its identifier, and the others with theirs. *)
Lemma pass_names fleet x :
  x ∈ fleet → NoDup (place_of <$> fleet) → buckets_apart fleet → admissible x →
  wp (run_of StorageControllerBaseURL x) (λ tr out, ∀ v v', deployed kept fleet v → clean accepted tr v v' →
    returns out ∧ deployed kept fleet v' ∧ (x ∈ fleet → named x v') ∧
    ∀ y, (y ∈ fleet → named y v) → y ∈ fleet → named y v').
Proof.
  intros Hx Hnd Hapart Hok.
  eapply wp_mono; [|exact (pass_keeps_deployed StorageControllerBaseURL kept fleet x Hx Hnd Hapart (kept_steady x Hok))].
  intros tr out Hrun v v' Hd Hc. destruct (Hrun v v' Hd Hc) as (Hret&Hd'&Hout&o&o'&_&Ho&Ho'&Hnext).
  assert (named x v') as Hnamed by (exists o'; split; [done|by eapply next_identified]).
  split_and!; [done..|]. intros y Hy Hin. destruct (decide (place_of y = place_of x)) as [Heq|Hne].
  - by rewrite (NoDup_fmap_inj place_of fleet y x).
  - eapply present_local; [apply Hout|by apply Hy]. intros [?|Hchild]%elem_of_cons; [done|]. by apply (place_of_no_child y x).
Qed.

Lemma arranged_ok ok before l x : arranged ok before l → x ∈ l → ok x.
Proof.
  revert before. induction l as [|y l IH]; intros before; [by intros _ ?%not_elem_of_nil|].
  intros (Hy&_&_&_&_&Hrest) [->|Hx]%elem_of_cons; [done|by eapply IH].
Qed.

Lemma arranged_project ok before l b p : arranged ok before l → ABranch b p ∈ l → AProject p ∈ before ++ l.
Proof.
  revert before. induction l as [|y l IH]; intros before; [by intros _ ?%not_elem_of_nil|].
  intros (_&_&_&_&Hproject&Hrest) [Heq|Hx]%elem_of_cons.
  - apply elem_of_app. left. by eapply Hproject.
  - specialize (IH _ Hrest Hx). rewrite <-app_assoc in IH. exact IH.
Qed.

(** A round of passes of any resources, in any order, assigns their identifiers. *)
Lemma wp_identifiers fleet early :
  arranged admissible [] fleet → buckets_apart fleet → early ⊆ fleet →
  wp (round (run_of StorageControllerBaseURL <$> early)) (λ tr out, ∀ v v', deployed kept fleet v → clean accepted tr v v' →
    returns out ∧ deployed kept fleet v' ∧ ∀ x, x ∈ fleet → x ∈ early ∨ named x v → named x v').
Proof.
  intros Harr Hapart Hin.
  eapply wp_mono; [|apply (wp_round_each accepted (run_of StorageControllerBaseURL) (deployed kept fleet)
    (λ x v, x ∈ fleet → named x v))].
  - intros tr out Hrun v v' Hd Hc. destruct (Hrun v v' Hd Hc) as (Hret&Hd'&Hearly&Hothers).
    split_and!; [done..|]. intros x Hx [He|Hn]; [by apply Hearly|by apply (Hothers x)].
  - apply deployed_same.
  - intros x v v' Hs Hx Hin'. eapply present_local; [apply Hs|apply Hx, Hin'].
  - intros x Hx%Hin. apply pass_names; [done| |done|by eapply arranged_ok].
    eapply (arranged_distinct admissible []); [done|constructor].
Qed.

(** ** The fleet with its identifiers *)

(** An object as it is now. *)
Definition current {k : Kind} (v : view) (o : obj k) : obj k := default o (v k (key_of (meta o))).

Definition now (v : view) (x : resource) : resource :=
  match x with
  | AProject p => AProject (current (k := KProject) v p)
  | ABranch b p => ABranch (current (k := KBranch) v b) (current (k := KProject) v p)
  | _ => x
  end.

Lemma current_found {k : Kind} v (o c : obj k) : found v (key_of (meta o)) c → current v o = c.
Proof. intros [Hv _]. unfold current. by rewrite Hv. Qed.

Lemma project_now fleet v p :
  deployed kept fleet v → (∀ x, x ∈ fleet → named x v) → AProject p ∈ fleet →
  found (k := KProject) v (key_of (pr_Meta p)) (current (k := KProject) v p) ∧
  project_with identifier_from p (current (k := KProject) v p).
Proof.
  intros Hd Hn Hin. destruct (dp_objects _ _ _ Hd _ Hin) as (o&Ho&Hname&id&Hid&Hspec).
  destruct (Hn _ Hin) as (o'&Ho'&Hne). assert (o' = o) as -> by (destruct Ho, Ho'; congruence).
  rewrite (current_found (k := KProject) v p o) by done. split; [done|]. split; [done|]. exists id. split; [|done].
  apply identifier_from_kept; [done|]. cbn [identified] in Hne. by rewrite Hspec in Hne.
Qed.

Lemma branch_now fleet v b p :
  deployed kept fleet v → (∀ x, x ∈ fleet → named x v) → ABranch b p ∈ fleet →
  found (k := KBranch) v (key_of (br_Meta b)) (current (k := KBranch) v b) ∧
  branch_with identifier_from b (current (k := KBranch) v b).
Proof.
  intros Hd Hn Hin. destruct (dp_objects _ _ _ Hd _ Hin) as (o&Ho&Hname&id&Hid&Hspec).
  destruct (Hn _ Hin) as (o'&Ho'&Hne). assert (o' = o) as -> by (destruct Ho, Ho'; congruence).
  rewrite (current_found (k := KBranch) v b o) by done. split; [done|]. split; [done|]. exists id. split; [|done].
  apply identifier_from_kept; [done|]. cbn [identified] in Hne. by rewrite Hspec in Hne.
Qed.

(** Places, names and references are as before; and now it is valid. *)
Record renewed (v : view) (x : resource) : Prop := {
  rn_place : place_of (now v x) = place_of x;
  rn_owner : owner_of (now v x) = owner_of x;
  rn_parents : parents (now v x) = parents x;
  rn_valid : valid StorageControllerBaseURL (now v x);
  rn_grown : grown x (now v x);
  rn_there : present as_is (now v x) v;
}.

Lemma fleet_renewed fleet v x :
  arranged admissible [] fleet → deployed kept fleet v → (∀ x, x ∈ fleet → named x v) → x ∈ fleet → renewed v x.
Proof.
  intros Harr Hd Hn Hin. pose proof (arranged_ok _ _ _ _ Harr Hin) as Hok.
  destruct x as [c|sk|ps|p|b p]; [by split; try done; apply (dp_objects _ _ _ Hd _ Hin)..| |].
  - destruct (project_now fleet v p Hd Hn Hin) as [Hfound Hgrown]. pose proof Hgrown as [(Hname&Hns&_) (id&Hid&Hspec)].
    assert (key_of (pr_Meta (current (k := KProject) v p)) = key_of (pr_Meta p)) as Hkey by apply Hfound.
    split; cbn [now kind_of parents owner_of]; [| | | |done|].
    + unfold place_of, request_of. cbn [kind_of object_of meta]. by rewrite Hkey.
    + by rewrite Hname, Hns.
    + done.
    + split; [rewrite Hspec; by eapply identifier_from_nonempty|]. rewrite <-(Hok id Hid). f_equal.
      cbn [ProjectReconciler.attach_request rq_URL]. unfold ProjectReconciler.base_url. by rewrite Hspec.
    + exists (current (k := KProject) v p). split; [|apply same_but_status_refl].
      unfold request_of. cbn [kind_of object_of meta]. by rewrite Hkey.
  - pose proof (arranged_project _ _ _ _ _ Harr Hin) as Hp. cbn [app] in Hp.
    destruct (project_now fleet v p Hd Hn Hp) as [Hpfound Hpgrown]. pose proof Hpgrown as [(Hpname&Hpns&_) (pid&Hpid&Hpspec)].
    destruct (branch_now fleet v b p Hd Hn Hin) as [Hfound Hgrown]. pose proof Hgrown as [(Hname&Hns&_) (id&Hid&Hspec)].
    assert (key_of (br_Meta (current (k := KBranch) v b)) = key_of (br_Meta b)) as Hkey by apply Hfound.
    assert (key_of (pr_Meta (current (k := KProject) v p)) = key_of (pr_Meta p)) as Hpkey by apply Hpfound.
    assert (BranchReconciler.project_key (current (k := KBranch) v b) = BranchReconciler.project_key b) as Hproject
      by (unfold BranchReconciler.project_key, BranchReconciler.in_namespace; by rewrite Hns, Hspec).
    split; cbn [now kind_of parents owner_of]; [| | | |done|].
    + unfold place_of, request_of. cbn [kind_of object_of meta]. by rewrite Hkey.
    + by rewrite Hname, Hns.
    + rewrite Hproject. unfold BranchReconciler.cluster_key. by rewrite Hpspec.
    + split; [rewrite Hspec; by eapply identifier_from_nonempty|]. by rewrite Hpkey, Hproject.
    + exists (current (k := KBranch) v b). split; [|apply same_but_status_refl].
      unfold request_of. cbn [kind_of object_of meta]. by rewrite Hkey.
Qed.

Lemma arranged_now v before l :
  (∀ x, x ∈ before ++ l → renewed v x) → arranged admissible before l → arranged (valid StorageControllerBaseURL) (now v <$> before) (now v <$> l).
Proof.
  revert before. induction l as [|x l IH]; intros before Hall; [done|].
  intros (_&Hplace&Howner&Hparents&Hproject&Hrest).
  assert (renewed v x) as Hx by (apply Hall, elem_of_app; right; left).
  assert (place_of <$> (now v <$> before) = place_of <$> before) as Hplaces.
  { rewrite <-list_fmap_compose. apply list_fmap_ext. intros i y Hy%list_elem_of_lookup_2.
    apply (rn_place v y), Hall, elem_of_app. by left. }
  assert (owner_of <$> (now v <$> before) = owner_of <$> before) as Howners.
  { rewrite <-list_fmap_compose. apply list_fmap_ext. intros i y Hy%list_elem_of_lookup_2.
    apply (rn_owner v y), Hall, elem_of_app. by left. }
  change (now v <$> x :: l) with (now v x :: (now v <$> l)). cbn [arranged]. split_and!.
  - apply Hx.
  - rewrite (rn_place v x Hx). by rewrite Hplaces.
  - rewrite (rn_owner v x Hx). by rewrite Howners.
  - rewrite (rn_parents v x Hx). by rewrite Hplaces.
  - intros b' p' Heq. destruct x as [?|?|?|?|b p]; try done. cbn [now] in Heq. injection Heq as <- <-.
    apply (list_elem_of_fmap_2 (now v) before (AProject p)). by eapply Hproject.
  - specialize (IH (before ++ [x])). rewrite fmap_app in IH. apply IH; [|done]. by rewrite <-app_assoc.
Qed.

Lemma pageserver_of_now v (fleet : list resource) ps : APageserver ps ∈ now v <$> fleet → APageserver ps ∈ fleet.
Proof. intros ([?|?|?|?|? ?]&Heq&Hin)%list_elem_of_fmap_1; try done. by rewrite Heq. Qed.
Lemma cluster_of_now v (fleet : list resource) c : ACluster c ∈ now v <$> fleet → ACluster c ∈ fleet.
Proof. intros ([?|?|?|?|? ?]&Heq&Hin)%list_elem_of_fmap_1; try done. by rewrite Heq. Qed.

Lemma fleet_now fleet v :
  arranged admissible [] fleet → buckets_apart fleet → deployed kept fleet v → (∀ x, x ∈ fleet → named x v) →
  arranged (valid StorageControllerBaseURL) [] (now v <$> fleet) ∧ buckets_apart (now v <$> fleet) ∧
  deployed as_is (now v <$> fleet) v ∧ Forall2 grown fleet (now v <$> fleet).
Proof.
  intros Harr Hapart Hd Hn.
  assert (∀ x, x ∈ fleet → renewed v x) as Hall by (intros x; by apply fleet_renewed).
  split_and!.
  - by apply (arranged_now v []).
  - intros ps c Hps%pageserver_of_now Hc%cluster_of_now. by apply Hapart.
  - split.
    + intros y (x&->&Hx)%list_elem_of_fmap_1. by apply Hall.
    + intros ps Hps%pageserver_of_now. by apply (dp_buckets _ _ _ Hd).
    + intros c Hc%cluster_of_now. by apply (dp_keys _ _ _ Hd).
  - apply Forall2_fmap_r, Forall_Forall2_diag, Forall_forall. intros x Hx. by apply Hall.
Qed.

(** The passes are called for by kind and name. *)
Lemma run_of_place x y : place_of x = place_of y → run_of StorageControllerBaseURL x = run_of StorageControllerBaseURL y.
Proof.
  intros Heq. pose proof (f_equal fst Heq) as Hkind. pose proof (f_equal snd Heq) as Hreq. cbn [place_of fst snd] in Hkind, Hreq.
  destruct x, y; try done; cbn [run_of]; by rewrite Hreq.
Qed.

Lemma runs_now v (l : list resource) : (∀ x, x ∈ l → renewed v x) →
  run_of StorageControllerBaseURL <$> (now v <$> l) = run_of StorageControllerBaseURL <$> l.
Proof.
  intros Hall. rewrite <-list_fmap_compose. apply list_fmap_ext. intros i x Hx%list_elem_of_lookup_2.
  by apply run_of_place, rn_place, Hall.
Qed.

(** Passes of these resources, one after the other. *)
Definition rounds (l : list resource) : prog (list (Result * option error)) := round (run_of StorageControllerBaseURL <$> l).

Lemma identified_as_is x o : as_is x o → identified x (object_of x) → identified x o.
Proof. destruct x; [done..| |]; intros [_ Hspec]; cbn [identified]; by rewrite Hspec. Qed.

(** A schedule of the fleet is one of the fleet with its identifiers. *)
Lemma schedule_now fleet v (l : list resource) :
  arranged admissible [] fleet → deployed kept fleet v → (∀ x, x ∈ fleet → named x v) → l ⊆ fleet →
  (now v <$> l) ⊆ now v <$> fleet ∧
  run_of StorageControllerBaseURL <$> (now v <$> l) = run_of StorageControllerBaseURL <$> l.
Proof.
  intros Harr Hd Hn Hin. split.
  - intros y (x&->&Hx)%list_elem_of_fmap_1. by apply list_elem_of_fmap_2, Hin.
  - apply runs_now. intros x Hx. by eapply fleet_renewed, Hin.
Qed.

(** C1. The operator settles.  Take any number of Clusters, Safekeepers, Pageservers,
    Projects and Branches that are in the cluster, with valid specs, names and ids of
    their own and bucket Secrets other than those of the keys, some or all of the
    identifiers still missing, on every server that keeps what is written, with no call
    failing, readable keys and requests answered 200 or 201.  Passes in any order and as often as one likes, in which every
    resource without its identifier has a turn, return and leave all identifiers assigned,
    those there were as they were.  Then any schedule that has the fleet in it, parents
    before children, with whatever passes in between, returns and leaves all settled at
    once: no pass undoes what another has done.  If it is the fleet in its order every
    pass succeeds.  After that no schedule writes anything or changes anything. *)
Theorem operator_settles {S : Type} (h : server S) (view_of : S → view) `{!ApiServer h view_of} fleet early late later s :
  arranged admissible [] fleet → buckets_apart fleet → deployed as_is fleet (view_of s) →
  early ⊆ fleet → (∀ x, x ∈ fleet → x ∈ early ∨ identified x (object_of x)) →
  fleet `sublist_of` late → late ⊆ fleet → later ⊆ fleet →
  let '(s1, tr1, out1) := exec h s (rounds early) in
  calm tr1 → Forall accepted tr1 →
  returns out1 ∧ ∃ fleet', Forall2 grown fleet fleet' ∧
  let '(s2, tr2, out2) := exec h s1 (rounds late) in
  calm tr2 → Forall accepted tr2 →
  returns out2 ∧ (late = fleet → out2 = Returned (replicate (length fleet) (no_requeue, None))) ∧
  all_settled fleet' (view_of s2) ∧
  let '(s3, tr3, out3) := exec h s2 (rounds later) in
  calm tr3 → Forall accepted tr3 →
  out3 = Returned (replicate (length later) (no_requeue, None)) ∧ writes tr3 = [] ∧ same (view_of s2) (view_of s3).
Proof.
  intros Harr Hapart Hd Hearly Hnames Hsub Hlate Hlater.
  assert (deployed kept fleet (view_of s)) as Hd0.
  { destruct Hd as [Hobj ? ?]. split; [|done..]. intros x Hx. destruct (Hobj x Hx) as (o&Ho&Has).
    exists o. split; [done|by apply as_is_kept]. }
  pose proof (wp_exec h s _ _ (wp_identifiers fleet early Harr Hapart Hearly)) as Hfirst.
  pose proof (exec_consistent h view_of (rounds early) s) as Hc1. fold (rounds early) in Hfirst.
  destruct (exec h s (rounds early)) as [[s1 tr1] out1]. intros Hcalm1 Htaken1.
  destruct (Hfirst _ _ Hd0 (conj Hc1 (conj Hcalm1 Htaken1))) as (Hret1&Hd1&Hnamed). split; [done|].
  assert (∀ x, x ∈ fleet → named x (view_of s1)) as Hall.
  { intros x Hx. apply Hnamed; [done|]. destruct (Hnames x Hx) as [?|Hid]; [by left|right].
    destruct (dp_objects _ _ _ Hd x Hx) as (o&Ho&Has). exists o. split; [done|by eapply identified_as_is]. }
  destruct (fleet_now fleet (view_of s1) Harr Hapart Hd1 Hall) as (Harr'&Hapart'&Hd'&Hgrown).
  set (fleet' := now (view_of s1) <$> fleet) in *. exists fleet'. split; [done|].
  destruct (schedule_now fleet (view_of s1) late Harr Hd1 Hall Hlate) as (Hlate'&Hruns).
  pose proof (wp_exec h s1 _ _ (wp_fleet_settles StorageControllerBaseURL fleet' (now (view_of s1) <$> late)
    Harr' Hapart' (fmap_sublist _ _ _ Hsub) Hlate')) as Hsecond.
  rewrite Hruns in Hsecond. fold (rounds late) in Hsecond.
  pose proof (exec_consistent h view_of (rounds late) s1) as Hc2.
  destruct (exec h s1 (rounds late)) as [[s2 tr2] out2]. intros Hcalm2 Htaken2.
  destruct (Hsecond _ _ Hd' (conj Hc2 (conj Hcalm2 Htaken2))) as (Hret2&Hd2&Hset&Horder).
  split_and!; [done| |done|].
  { intros ->. rewrite Horder by done. unfold fleet'. by rewrite length_fmap. }
  destruct (schedule_now fleet (view_of s1) later Harr Hd1 Hall Hlater) as (Hlater'&Hruns').
  pose proof (wp_exec h s2 _ _ (wp_fleet_settled StorageControllerBaseURL fleet' (now (view_of s1) <$> later)
    Harr' Hapart' Hlater')) as Hthird.
  rewrite Hruns', length_fmap in Hthird. fold (rounds later) in Hthird.
  pose proof (exec_consistent h view_of (rounds later) s2) as Hc3.
  destruct (exec h s2 (rounds later)) as [[s3 tr3] out3]. intros Hcalm3 Htaken3.
  destruct (Hthird _ _ Hd2 Hset (conj Hc3 (conj Hcalm3 Htaken3))) as [Hout Hw].
  split_and!; [done|done|by eapply consistent_quiet].
Qed.
End lifecycle.

(** ** An example: the sample cluster, created without identifiers *)

Section example.
Import RefInstances.

#[local] Instance status_equal_laws : SemanticEqualLaws Status := ref_equal_laws Status.

Definition new_project : Project := Samples.project_with "".
Definition new_branch : Branch := Samples.branch_with "".
Definition sample_start : world := put (put Samples.start KProject new_project) KBranch new_branch.

Definition sample_cluster : resource := ACluster Samples.cluster.
Definition sample_safekeeper : resource := ASafekeeper (Samples.safekeeper_with "10Gi").
Definition sample_pageserver : resource := APageserver Samples.pageserver.
Definition sample_project : resource := AProject new_project.
Definition sample_branch : resource := ABranch new_branch new_project.
Definition sample_fleet : list resource :=
  [sample_cluster; sample_safekeeper; sample_pageserver; sample_project; sample_branch].

(** Children first, and again, before everything is there. *)
Definition sample_early : list resource := [sample_branch; sample_branch; sample_pageserver; sample_project].
Definition sample_late : list resource :=
  [sample_branch; sample_cluster; sample_pageserver; sample_safekeeper; sample_cluster; sample_pageserver;
   sample_branch; sample_project; sample_branch; sample_safekeeper].
Definition sample_later : list resource := reverse sample_fleet ++ sample_fleet.

Definition sample_run (l : list resource) (w : world) : world * trace * outcome (list (Result * option error)) :=
  exec world_server w (rounds "" l).

Definition acceptedb (e : event) : bool :=
  (match ev_call e as c return answer c → bool with
   | CHttp _ => λ a, match a with Ok resp => bool_decide (rs_StatusCode resp = 200) | Err _ => false end
   | _ => λ _, true
   end) (ev_answer e).

Lemma accepted_decided tr : forallb acceptedb tr = true → Forall accepted tr.
Proof.
  intros Hall. apply Forall_forall. intros [c a] He. rewrite forallb_forall in Hall.
  specialize (Hall _ (proj1 (list_elem_of_In _ _) He)). destruct c; try done. destruct a as [resp|]; [|done].
  apply bool_decide_eq_true in Hall. exists resp. split; [done|by left].
Qed.

Ltac decided := apply (bool_decide_unpack _); vm_compute; exact I.

Lemma sample_arranged : arranged (admissible "") [] sample_fleet.
Proof.
  unfold sample_fleet, sample_cluster, sample_safekeeper, sample_pageserver, sample_project, sample_branch.
  cbn [arranged app admissible valid]. split_and!; try exact I; try decided; try (by intros b p [=]).
  - by eexists.
  - split; by eexists.
  - done.
  - intros b p [= <- <-]. do 3 right. left.
Qed.

(** Membership in the fleet, one resource at a time. *)
Ltac fleet_member Hx :=
  unfold sample_fleet, sample_cluster, sample_safekeeper, sample_pageserver, sample_project, sample_branch in Hx;
  repeat (apply elem_of_cons in Hx as [Hx|Hx]; [try discriminate Hx|]); [..|by apply not_elem_of_nil in Hx].

Lemma sample_deployed : deployed as_is sample_fleet (world_view sample_start).
Proof.
  split.
  - intros x Hx. exists (object_of x). split; [|destruct x; apply same_but_status_refl].
    fleet_member Hx; subst x; (split; vm_compute; reflexivity).
  - intros ps Hps. exists Samples.bucket. fleet_member Hps. injection Hps as ->. split; vm_compute; reflexivity.
  - intros c Hc secret Hs. fleet_member Hc. injection Hc as ->. vm_compute in Hs. discriminate Hs.
Qed.

Lemma sample_apart : buckets_apart sample_fleet.
Proof.
  intros ps c Hps Hc. fleet_member Hps. fleet_member Hc. injection Hps as ->. injection Hc as ->. vm_compute. discriminate.
Qed.

Lemma sample_named x : x ∈ sample_fleet → x ∈ sample_early ∨ identified x (object_of x).
Proof.
  intros Hx. fleet_member Hx; subst x; [by right|by right|by right|left..]; unfold sample_early; set_solver.
Qed.

Ltac list_member := first [apply list_elem_of_here | apply list_elem_of_further; list_member].
Ltac sublist_members := intros x Hx;
  repeat (apply elem_of_cons in Hx as [->|Hx]; [list_member|]); by apply not_elem_of_nil in Hx.

Lemma sample_early_fleet : sample_early ⊆ sample_fleet.
Proof. unfold sample_early, sample_fleet. sublist_members. Qed.
Lemma sample_late_fleet : sample_late ⊆ sample_fleet.
Proof. unfold sample_late, sample_fleet. sublist_members. Qed.
Lemma sample_later_fleet : sample_later ⊆ sample_fleet.
Proof. intros x. unfold sample_later. rewrite elem_of_app, elem_of_reverse. tauto. Qed.
Lemma sample_fleet_late : sample_fleet `sublist_of` sample_late.
Proof.
  unfold sample_fleet, sample_late. apply sublist_cons, sublist_skip, sublist_cons, sublist_skip, sublist_cons, sublist_skip.
  apply sublist_cons, sublist_skip, sublist_skip, sublist_nil_l.
Qed.

Lemma exec_parts {A} (w : world) (p : prog A) s tr out :
  exec world_server w p = (s, tr, out) →
  s = (exec world_server w p).1.1 ∧ tr = (exec world_server w p).1.2 ∧ out = (exec world_server w p).2.
Proof. by intros ->. Qed.

Ltac undisturbed Hrun :=
  match type of Hrun with ?P → _ => let Hc := fresh in assert P as Hc by calm; specialize (Hrun Hc); clear Hc end;
  match type of Hrun with ?P → _ =>
    let Hc := fresh in assert P as Hc by (apply accepted_decided; computed); specialize (Hrun Hc); clear Hc end.

(** The first passes, a Branch without its Project among them, assign two identifiers;
    the next ones settle the five; then nothing is written. *)
Lemma operator_settles_witness :
  let first := sample_run sample_early sample_start in
  let second := sample_run sample_late first.1.1 in
  let third := sample_run sample_later second.1.1 in
  (∃ fleet', Forall2 grown sample_fleet fleet' ∧ all_settled fleet' (world_view second.1.1)) ∧
  length (writes first.1.2) = 8%nat ∧ length (writes second.1.2) = 16%nat ∧
  third.2 = Returned (replicate 10 (no_requeue, None)) ∧ writes third.1.2 = [].
Proof.
  intros first second third.
  pose proof (operator_settles "" world_server world_view sample_fleet sample_early sample_late sample_later
    sample_start sample_arranged sample_apart sample_deployed sample_early_fleet sample_named sample_fleet_late
    sample_late_fleet sample_later_fleet) as Hsettles.
  destruct (exec world_server sample_start (rounds "" sample_early)) as [[s1 tr1] out1] eqn:E1.
  apply exec_parts in E1 as (E1&->&->).
  undisturbed Hsettles. destruct Hsettles as (_&fleet'&Hgrown&Hsecond).
  destruct (exec world_server s1 (rounds "" sample_late)) as [[s2 tr2] out2] eqn:E2.
  apply exec_parts in E2 as (E2&->&->). subst s1. undisturbed Hsecond. destruct Hsecond as (_&_&Hset&Hthird).
  destruct (exec world_server s2 (rounds "" sample_later)) as [[s3 tr3] out3] eqn:E3.
  apply exec_parts in E3 as (_&->&->). subst s2. undisturbed Hthird. destruct Hthird as (Hout&Hw&_).
  split; [exists fleet'; split; [exact Hgrown|exact Hset]|]. split; [computed|]. split; [computed|]. split; [exact Hout|exact Hw].
Defined.
End example.
