(* ===== verification/Races.v ===== *)
(** * An identifier that is lost

    The Branch and Project controllers assign an identifier to an object that has none:
    they test the object of the first read, then read it again and overwrite whatever
    identifier it has by then, with a merge patch that carries no resource version.  An
    identifier that somebody else sets between the two reads is lost: here is such an
    execution, call by call. *)

From S2P Require Import Prelude GoLib KubeTypes Api Interfaces Reference Prog Calls Concurrency Server.
From S2P Require Import Controller ApiServer ProjectController BranchController.
From stdpp Require Import relations.

Import RefInstances.

(** Somebody gives the sample branch, or project, an identifier of theirs. *)
Definition set_by_hand : string := "0badbeef0badbeef0badbeef0badbeef".
Inductive by_hand : world → world → Prop :=
  | branch_by_hand w : by_hand w (put w KBranch (Samples.branch_with set_by_hand))
  | project_by_hand w : by_hand w (put w KProject (Samples.project_with set_by_hand)).

Definition timeline_of (w : world) : option string :=
  (λ b : Branch, brs_TimelineID (br_Spec b)) <$> find_item KBranch (Samples.request "main") (w_items w).
Definition tenant_of (w : world) : option string :=
  (λ p : Project, prs_TenantID (pr_Spec p)) <$> find_item KProject (Samples.request "shop") (w_items w).

(** The two passes, and nothing else. *)
Definition passes (t : thread) : Prop :=
  t = Thread (BranchReconciler.Reconcile "" (Samples.request "main")) ∨
  t = Thread (ProjectReconciler.Reconcile "" (Samples.request "shop")).
Definition nobody (_ _ : world) : Prop := False.

(** An identifier is there, and a pass that is under way replaces it. *)
Definition loses (read_id : world → option string) (w : world) : Prop :=
  ∃ w1 ts w2 ts' id,
    rtc (pool_step world_server passes by_hand) (Pool w []) (Pool w1 ts) ∧ read_id w1 = Some set_by_hand ∧
    rtc (pool_step world_server passes nobody) (Pool w1 ts) (Pool w2 ts') ∧ read_id w2 = Some id ∧ id ≠ set_by_hand.

Lemma loses_after_first {A} (read_id : world → option string) w (p : prog A) f :
  passes (Thread p) → (∀ w, by_hand w (f w)) →
  read_id (f (first_call world_server w p).1) = Some set_by_hand →
  (∃ id, read_id (exec world_server (f (first_call world_server w p).1) (first_call world_server w p).2).1.1 = Some id ∧
     id ≠ set_by_hand) →
  loses read_id w.
Proof.
  intros Hp Hf H1 (id&H2&Hne).
  destruct (pool_exec world_server passes nobody (first_call world_server w p).2
    (f (first_call world_server w p).1) []) as [t Ht].
  do 4 eexists. exists id. split_and!; [|exact H1|exact Ht|exact H2|exact Hne].
  eapply rtc_l; [by apply pool_begin|].
  eapply rtc_r; [exact (pool_thread_call world_server passes by_hand w (Thread p) [] [])|].
  cbn [thread_call]. destruct (first_call world_server w p). apply pool_external, Hf.
Qed.

(** Both controllers lose an identifier that was set by hand while they were about to
    assign one. *)
Theorem identifiers_lost :
  loses timeline_of (put Samples.start KBranch (Samples.branch_with "")) ∧
  loses tenant_of (put Samples.start KProject (Samples.project_with "")).
Proof.
  split.
  - apply (loses_after_first _ _ (BranchReconciler.Reconcile "" (Samples.request "main"))
      (λ w, put w KBranch (Samples.branch_with set_by_hand))); [by left|by constructor|by vm_compute|].
    eexists. split; [vm_compute; reflexivity|done].
  - apply (loses_after_first _ _ (ProjectReconciler.Reconcile "" (Samples.request "shop"))
      (λ w, put w KProject (Samples.project_with set_by_hand))); [by right|by constructor|by vm_compute|].
    eexists. split; [vm_compute; reflexivity|done].
Qed.
