(* ===== verification/Memory.v ===== *)
(** * Go's memory: pointers, slices, and what a value in memory stands for

    Elsewhere an object is a value.  Here it is what the program holds: structs with
    pointers and slices into a heap of typed variables.  [view] functions read the value
    a piece of memory stands for, [copies] is the contract of a deep copy. *)

From S2P Require Import Prelude GoLib KubeTypes Api.

(** ** Types of variables *)

(** The custom resources. *)
Inductive crd := RCluster | RProject | RBranch | RPageserver | RSafekeeper.

#[export] Instance crd_eq_dec : EqDecision crd.
Proof. solve_decision. Defined.

Definition kind_of (k : crd) : Kind :=
  match k with
  | RCluster => KCluster
  | RProject => KProject
  | RBranch => KBranch
  | RPageserver => KPageserver
  | RSafekeeper => KSafekeeper
  end.

Inductive gotype :=
  | TString | TBool | TInt64 | TStringMap
  | TOwnerReference | TCondition | TSecretReference | TSecretKeySelector
  | TStorageConfig | TSpec (k : crd) | TStatus (k : crd) | TObject (k : crd) | TList (k : crd).

#[export] Instance gotype_eq_dec : EqDecision gotype.
Proof. solve_decision. Defined.

Abbreviation loc := nat (only parsing).

(** A pointer that is not nil, and a slice that is not nil; nil is [None]. *)
Record ptr (t : gotype) := Ptr { addr : loc }.
Record slice (t : gotype) := Slice { sl_array : loc; sl_off : nat; sl_len : nat }.
Arguments Ptr {t} _.
Arguments addr {t} _.
Arguments Slice {t} _ _ _.
Arguments sl_array {t} _.
Arguments sl_off {t} _.
Arguments sl_len {t} _.

#[export] Instance ptr_eq_dec t : EqDecision (ptr t).
Proof. solve_decision. Defined.

(** ** Structs in memory: those of KubeTypes.v and Api.v with their references *)

Record OwnerReferenceM := {
  orm_APIVersion : string;
  orm_Kind : string;
  orm_Name : string;
  orm_UID : string;
  orm_Controller : option (ptr TBool);
}.

Record ObjectMetaM := {
  omm_Name : string;
  omm_Namespace : string;
  omm_UID : string;
  omm_Generation : Z;
  omm_ResourceVersion : string;
  omm_Labels : option (ptr TStringMap);
  omm_Annotations : option (ptr TStringMap);
  omm_OwnerReferences : option (slice TOwnerReference);
  omm_ManagedFields : option (slice TString);
}.

Record ListMetaM := {
  lmm_ResourceVersion : string;
  lmm_Continue : string;
  lmm_RemainingItemCount : option (ptr TInt64);
}.

Record StatusM := {
  stm_ObservedGeneration : Z;
  stm_Conditions : option (slice TCondition);
}.

Record StorageConfigM := {
  stcm_StorageClass : option (ptr TString);
  stcm_Size : string;
}.

Record ClusterSpecM := {
  clsm_NumSafekeepers : Z;
  clsm_DefaultPGVersion : Z;
  clsm_NeonImage : string;
  clsm_BucketCredentialsSecret : option (ptr TSecretReference);
  clsm_StorageControllerDatabaseSecret : option (ptr TSecretKeySelector);
}.

Record PageserverSpecM := {
  pssm_ID : Z;
  pssm_Cluster : string;
  pssm_BucketCredentialsSecret : option (ptr TSecretReference);
  pssm_StorageConfig : StorageConfigM;
}.

Record SafekeeperSpecM := {
  sfsm_ID : Z;
  sfsm_Cluster : string;
  sfsm_StorageConfig : StorageConfigM;
}.

Definition SpecM (k : crd) : Type :=
  match k with
  | RCluster => ClusterSpecM
  | RProject => ProjectSpec
  | RBranch => BranchSpec
  | RPageserver => PageserverSpecM
  | RSafekeeper => SafekeeperSpecM
  end.

(** The five resources have the same four fields, the five lists the same three. *)
Record ObjectM (k : crd) := {
  om_type : TypeMeta;
  om_meta : ObjectMetaM;
  om_spec : SpecM k;
  om_status : StatusM;
}.
Arguments om_type {k} _.
Arguments om_meta {k} _.
Arguments om_spec {k} _.
Arguments om_status {k} _.

Record ListM (k : crd) := {
  li_type : TypeMeta;
  li_meta : ListMetaM;
  li_items : option (slice (TObject k));
}.
Arguments li_type {k} _.
Arguments li_meta {k} _.
Arguments li_items {k} _.

(** What a variable of each type holds. *)
Definition den (t : gotype) : Type :=
  match t with
  | TString => string
  | TBool => bool
  | TInt64 => Z
  | TStringMap => smap
  | TOwnerReference => OwnerReferenceM
  | TCondition => Condition
  | TSecretReference => SecretReference
  | TSecretKeySelector => SecretKeySelector
  | TStorageConfig => StorageConfigM
  | TSpec k => SpecM k
  | TStatus _ => StatusM
  | TObject k => ObjectM k
  | TList k => ListM k
  end.

(** ** Zero values *)

Definition zero_meta : ObjectMetaM :=
  {| omm_Name := ""; omm_Namespace := ""; omm_UID := ""; omm_Generation := 0;
     omm_ResourceVersion := ""; omm_Labels := None; omm_Annotations := None;
     omm_OwnerReferences := None; omm_ManagedFields := None |}.
Definition zero_storage : StorageConfigM := {| stcm_StorageClass := None; stcm_Size := "" |}.
Definition zero_status : StatusM := {| stm_ObservedGeneration := 0; stm_Conditions := None |}.

Definition zero_spec (k : crd) : SpecM k :=
  match k with
  | RCluster =>
      {| clsm_NumSafekeepers := 0; clsm_DefaultPGVersion := 0; clsm_NeonImage := "";
         clsm_BucketCredentialsSecret := None; clsm_StorageControllerDatabaseSecret := None |}
  | RProject => {| prs_ClusterName := ""; prs_TenantID := ""; prs_PGVersion := 0 |}
  | RBranch => {| brs_TimelineID := ""; brs_PGVersion := 0; brs_ProjectID := "" |}
  | RPageserver =>
      {| pssm_ID := 0; pssm_Cluster := ""; pssm_BucketCredentialsSecret := None;
         pssm_StorageConfig := zero_storage |}
  | RSafekeeper => {| sfsm_ID := 0; sfsm_Cluster := ""; sfsm_StorageConfig := zero_storage |}
  end.

Definition zero (t : gotype) : den t :=
  match t with
  | TString => ""
  | TBool => false
  | TInt64 => 0
  | TStringMap => ∅
  | TOwnerReference =>
      {| orm_APIVersion := ""; orm_Kind := ""; orm_Name := ""; orm_UID := ""; orm_Controller := None |}
  | TCondition =>
      {| cond_Type := ""; cond_Status := ConditionUnknown; cond_ObservedGeneration := 0;
         cond_LastTransitionTime := 0; cond_Reason := ""; cond_Message := "" |}
  | TSecretReference => {| sr_Name := ""; sr_Namespace := "" |}
  | TSecretKeySelector => {| sks_Name := ""; sks_Key := "" |}
  | TStorageConfig => zero_storage
  | TSpec k => zero_spec k
  | TStatus _ => zero_status
  | TObject k =>
      {| om_type := no_TypeMeta; om_meta := zero_meta; om_spec := zero_spec k; om_status := zero_status |}
  | TList k =>
      {| li_type := no_TypeMeta;
         li_meta := {| lmm_ResourceVersion := ""; lmm_Continue := ""; lmm_RemainingItemCount := None |};
         li_items := None |}
  end.

(** ** The heap

    A block is the variables of one allocation: one for [new], [n] for [make]. *)

Record block := Block { b_type : gotype; b_vars : list (den b_type) }.
Abbreviation heap := (gmap loc block).

Definition vars (t : gotype) (b : block) : option (list (den t)) :=
  match decide (b_type b = t) with
  | left e => Some (eq_rect _ (λ t, list (den t)) (b_vars b) _ e)
  | right _ => None
  end.

Lemma vars_Block t l : vars t (Block t l) = Some l.
Proof.
  unfold vars. simpl. destruct (decide (t = t)) as [e|]; [|done].
  by rewrite (proof_irrel e eq_refl).
Qed.

Lemma vars_Some t b l : vars t b = Some l ↔ b = Block t l.
Proof.
  split; [|intros ->; apply vars_Block].
  destruct b as [t' l']. unfold vars. simpl. destruct (decide (t' = t)) as [e|]; [|done].
  destruct e. simpl. by intros [= ->].
Qed.

(** ** Places: what can be assigned to *)

(** A variable or a part of one: a block, and how to read it and write it there. *)
Record place (A : Type) := Place {
  pl_base : loc;
  pl_get : block → option A;
  pl_put : A → block → option block;
  pl_get_put : ∀ a b b', pl_put a b = Some b' → pl_get b' = Some a;
  pl_put_get : ∀ a a' b, pl_get b = Some a → is_Some (pl_put a' b);
  pl_put_put : ∀ a a' b b', pl_put a b = Some b' → pl_put a' b' = pl_put a' b;
  pl_put_same : ∀ a b, pl_get b = Some a → pl_put a b = Some b;
}.
Arguments pl_base {A} _.
Arguments pl_get {A} _ _.
Arguments pl_put {A} _ _ _.
Arguments pl_get_put {A} _ _ _ _ _.
Arguments pl_put_get {A} _ _ _ _ _.
Arguments pl_put_put {A} _ _ _ _ _ _.
Arguments pl_put_same {A} _ _ _ _.

Section var.
Context {t : gotype} (l : loc) (i : nat).

Definition var_get (b : block) : option (den t) := vars t b ≫= λ vs, vs !! i.
Definition var_put (a : den t) (b : block) : option block :=
  vs ← vars t b;
  if decide (i < length vs)%nat then Some (Block t (<[i := a]> vs)) else None.

Lemma var_put_Some a b b' :
  var_put a b = Some b' ↔ ∃ vs, b = Block t vs ∧ (i < length vs)%nat ∧ b' = Block t (<[i := a]> vs).
Proof.
  unfold var_put. rewrite bind_Some. split.
  - intros (vs & ->%vars_Some & H). case_decide; [|done]. simplify_eq. eauto.
  - intros (vs & -> & Hi & ->). exists vs. by rewrite vars_Block, decide_True.
Qed.

Lemma var_get_Some a b : var_get b = Some a ↔ ∃ vs, b = Block t vs ∧ vs !! i = Some a.
Proof.
  unfold var_get. rewrite bind_Some. split.
  - intros (vs & ->%vars_Some & H). eauto.
  - intros (vs & -> & H). exists vs. by rewrite vars_Block.
Qed.

(** The [i]-th variable of the block at [l]. *)
Program Definition var_at : place (den t) := {| pl_base := l; pl_get := var_get; pl_put := var_put |}.
Next Obligation.
  intros a b b' (vs & -> & Hi & ->)%var_put_Some. apply var_get_Some.
  eexists. split; [done|]. by apply list_lookup_insert_eq.
Qed.
Next Obligation.
  intros a a' b (vs & -> & Hi%lookup_lt_Some)%var_get_Some.
  eexists. apply var_put_Some. eauto.
Qed.
Next Obligation.
  intros a a' b b' (vs & -> & Hi & ->)%var_put_Some. unfold var_put.
  rewrite !vars_Block. simpl. rewrite length_insert. by rewrite list_insert_insert_eq.
Qed.
Next Obligation.
  intros a b (vs & -> & Hi)%var_get_Some. apply var_put_Some.
  exists vs. split_and!; [done|by eapply lookup_lt_Some|]. by rewrite list_insert_id.
Qed.
End var.

(** [*p], and the [i]-th element of a slice. *)
Definition deref {t} (p : ptr t) : place (den t) := var_at (addr p) 0.
Definition elem {t} (s : slice t) (i : nat) : place (den t) := var_at (sl_array s) (sl_off s + i).

(** *** Fields *)

Record field (S A : Type) := Field {
  fl_get : S → A;
  fl_set : A → S → S;
  fl_get_set : ∀ a s, fl_get (fl_set a s) = a;
  fl_set_set : ∀ a a' s, fl_set a (fl_set a' s) = fl_set a s;
  fl_set_get : ∀ s, fl_set (fl_get s) s = s;
}.
Arguments fl_get {S A} _ _.
Arguments fl_set {S A} _ _ _.
Arguments fl_get_set {S A} _ _ _.
Arguments fl_set_set {S A} _ _ _ _.
Arguments fl_set_get {S A} _ _.

(** [p.f] *)
Program Definition fld {S A} (f : field S A) (p : place S) : place A :=
  {| pl_base := pl_base p;
     pl_get := λ b, fl_get f <$> pl_get p b;
     pl_put := λ a b, s ← pl_get p b; pl_put p (fl_set f a s) b |}.
Next Obligation.
  intros S A f p a b b' (s & Hs & Hb)%bind_Some. simpl.
  by rewrite (pl_get_put _ _ _ _ Hb); simpl; rewrite fl_get_set.
Qed.
Next Obligation.
  intros S A f p a a' b (s & Hs & _)%fmap_Some. simpl. rewrite Hs. simpl.
  by eapply pl_put_get.
Qed.
Next Obligation.
  intros S A f p a a' b b' (s & Hs & Hb)%bind_Some. simpl. rewrite Hs. simpl.
  rewrite (pl_get_put _ _ _ _ Hb). simpl. rewrite fl_set_set. by eapply pl_put_put.
Qed.
Next Obligation.
  intros S A f p a b (s & Hs & ->)%fmap_Some. simpl. rewrite Hs. simpl.
  rewrite fl_set_get. by apply pl_put_same.
Qed.

(** ** Code that reads and writes the heap

    [None] is a fault: a nil pointer followed, an index out of range.  (A pointer to
    nothing, which Go does not have, is a fault as well.) *)

Definition mem (A : Type) : Type := heap → option (heap * A).

#[export] Instance mem_ret : MRet mem := λ A a h, Some (h, a).
#[export] Instance mem_bind : MBind mem := λ A B f m h,
  match m h with Some (h', a) => f a h' | None => None end.

Definition fault {A} : mem A := λ _, None.

Definition pget {A} (h : heap) (p : place A) : option A := h !! pl_base p ≫= pl_get p.

Definition load {A} (p : place A) : mem A := λ h, (λ a, (h, a)) <$> pget h p.

Definition store {A} (p : place A) (a : A) : mem unit := λ h,
  b ← h !! pl_base p; b' ← pl_put p a b; Some (<[pl_base p := b']> h, tt).

(** [new(T)] and [make([]T, n)] *)
Definition alloc (b : block) : mem loc := λ h,
  let l := fresh (dom h) in Some (<[l := b]> h, l).
Definition new (t : gotype) : mem (ptr t) := l ← alloc (Block t [zero t]); mret (Ptr l).
Definition make (t : gotype) (n : nat) : mem (slice t) :=
  l ← alloc (Block t (replicate n (zero t))); mret (Slice l 0 n).

(** [*p] for the pointer held at [p], and [( *p)[i]] for the slice held there. *)
Definition at_ptr {t} (p : place (option (ptr t))) : mem (place (den t)) :=
  o ← load p; match o with Some q => mret (deref q) | None => fault end.
Definition at_index {t} (p : place (option (slice t))) (i : nat) : mem (place (den t)) :=
  o ← load p;
  match o with
  | Some s => if decide (i < sl_len s)%nat then mret (elem s i) else fault
  | None => fault
  end.

(** [for i := range s] for the [n] indices from [i] on. *)
Fixpoint for_range (i n : nat) (body : nat → mem unit) : mem unit :=
  match n with
  | O => mret tt
  | S n => _ ← body i; for_range (S i) n body
  end.

Lemma mem_bind_run {A B} (m : mem A) (f : A → mem B) h h' a :
  m h = Some (h', a) → (m ≫= f) h = f a h'.
Proof. intros H. unfold mbind, mem_bind. by rewrite H. Qed.

Lemma load_run {A} (p : place A) h a : pget h p = Some a → load p h = Some (h, a).
Proof. unfold load. by intros ->. Qed.

Lemma alloc_run b h : ∃ l, h !! l = None ∧ alloc b h = Some (<[l := b]> h, l).
Proof.
  exists (fresh (dom h)). split; [|done]. apply not_elem_of_dom, is_fresh.
Qed.

(** ** What a piece of memory stands for *)

Definition view_fun (A V : Type) : Type := heap → A → option V.

(** A view reads what it needs and nothing else. *)
Class Mono {A V} (vw : view_fun A V) : Prop :=
  view_mono h1 h2 a v : h1 ⊆ h2 → vw h1 a = Some v → vw h2 a = Some v.

Section views.
Context {A V : Type} (vw : view_fun A V).

Definition view_flat : view_fun A A := λ _ a, Some a.
Definition view_opt : view_fun (option A) (option V) := λ h o,
  match o with Some a => Some <$> vw h a | None => Some None end.
End views.

Definition view_ptr {t V} (vw : view_fun (den t) V) : view_fun (ptr t) V := λ h p,
  pget h (deref p) ≫= vw h.
Definition slice_vars {t} (h : heap) (s : slice t) : option (list (den t)) :=
  b ← h !! sl_array s; vs ← vars t b;
  if decide (sl_off s + sl_len s ≤ length vs)%nat then Some (take (sl_len s) (drop (sl_off s) vs)) else None.
Definition view_slice {t V} (vw : view_fun (den t) V) : view_fun (slice t) (list V) := λ h s,
  slice_vars h s ≫= mapM (vw h).
(** A nil slice has no elements. *)
Definition view_list {t V} (vw : view_fun (den t) V) : view_fun (option (slice t)) (list V) := λ h o,
  default [] <$> view_opt (view_slice vw) h o.
Definition view_map : view_fun (option (ptr TStringMap)) smap := λ h o,
  default ∅ <$> view_opt (view_ptr (t := TStringMap) view_flat) h o.

Lemma pget_mono {A} h1 h2 (p : place A) a : h1 ⊆ h2 → pget h1 p = Some a → pget h2 p = Some a.
Proof.
  unfold pget. intros Hs (b & Hb & Ha)%bind_Some. rewrite (lookup_weaken _ _ _ _ Hb Hs). done.
Qed.

#[export] Instance view_flat_mono {A} : Mono (@view_flat A).
Proof. by intros h1 h2 a v _. Qed.
#[export] Instance view_opt_mono {A V} (vw : view_fun A V) : Mono vw → Mono (view_opt vw).
Proof.
  intros Hm h1 h2 [a|] v Hs; simpl; [|done]. intros (x & Hx & ->)%fmap_Some.
  by rewrite (view_mono _ _ _ _ Hs Hx).
Qed.
#[export] Instance view_ptr_mono {t V} (vw : view_fun (den t) V) : Mono vw → Mono (view_ptr vw).
Proof.
  intros Hm h1 h2 p v Hs. unfold view_ptr. intros (x & Hx & Hv)%bind_Some.
  rewrite (pget_mono _ _ _ _ Hs Hx). simpl. by eapply view_mono.
Qed.

Lemma slice_vars_mono {t} h1 h2 (s : slice t) l :
  h1 ⊆ h2 → slice_vars h1 s = Some l → slice_vars h2 s = Some l.
Proof.
  unfold slice_vars. intros Hs (b & Hb & Hl)%bind_Some. by rewrite (lookup_weaken _ _ _ _ Hb Hs).
Qed.

Lemma mapM_mono {A V} (f g : A → option V) l k :
  (∀ a v, f a = Some v → g a = Some v) → mapM f l = Some k → mapM g l = Some k.
Proof.
  intros Hfg. rewrite !mapM_Some. intros H. eapply Forall2_impl; eauto.
Qed.

#[export] Instance view_slice_mono {t V} (vw : view_fun (den t) V) : Mono vw → Mono (view_slice vw).
Proof.
  intros Hm h1 h2 s v Hs. unfold view_slice. intros (l & Hl & Hv)%bind_Some.
  rewrite (slice_vars_mono _ _ _ _ Hs Hl). simpl. eapply mapM_mono; [|done].
  intros. by eapply view_mono.
Qed.
#[export] Instance view_list_mono {t V} (vw : view_fun (den t) V) : Mono vw → Mono (view_list vw).
Proof.
  intros Hm h1 h2 o v Hs. unfold view_list. intros (x & Hx & ->)%fmap_Some.
  by rewrite (view_mono _ _ _ _ Hs Hx).
Qed.
#[export] Instance view_map_mono : Mono view_map.
Proof.
  intros h1 h2 o v Hs. unfold view_map. intros (x & Hx & ->)%fmap_Some.
  by rewrite (view_mono _ _ _ _ Hs Hx).
Qed.

(** A view of a struct reads its fields one after the other. *)
Lemma bind_mono {A B} (x x' : option A) (f f' : A → option B) b :
  (∀ a, x = Some a → x' = Some a) → (∀ a, f a = Some b → f' a = Some b) →
  x ≫= f = Some b → x' ≫= f' = Some b.
Proof. intros Hx Hf (a & ->%Hx & Hb)%bind_Some. simpl. auto. Qed.

Ltac solve_mono d :=
  intros ? ? ? ? Hsub; unfold d;
  repeat first [ apply bind_mono; [intros ?; exact (view_mono _ _ _ _ Hsub) | intros ?] | done ].

(** *** The structs *)

Definition view_OwnerReference : view_fun OwnerReferenceM OwnerReference := λ h r,
  c ← view_opt (view_ptr (t := TBool) view_flat) h (orm_Controller r);
  Some {| or_APIVersion := orm_APIVersion r; or_Kind := orm_Kind r; or_Name := orm_Name r;
          or_UID := orm_UID r; or_Controller := c |}.

Definition view_ObjectMeta : view_fun ObjectMetaM ObjectMeta := λ h m,
  labels ← view_map h (omm_Labels m);
  annotations ← view_map h (omm_Annotations m);
  owners ← view_list (t := TOwnerReference) view_OwnerReference h (omm_OwnerReferences m);
  managed ← view_list (t := TString) view_flat h (omm_ManagedFields m);
  Some {| om_Name := omm_Name m; om_Namespace := omm_Namespace m; om_UID := omm_UID m;
          om_Generation := omm_Generation m; om_ResourceVersion := omm_ResourceVersion m;
          om_Labels := labels; om_Annotations := annotations;
          om_OwnerReferences := owners; om_ManagedFields := managed |}.

(** A list's own metadata, and a list, as values. *)
Record ListMeta := {
  lm_ResourceVersion : string;
  lm_Continue : string;
  lm_RemainingItemCount : option Z;
}.

Record ListOf (k : crd) := {
  lo_Type : TypeMeta;
  lo_Meta : ListMeta;
  lo_Items : list (obj (kind_of k));
}.
Arguments Build_ListOf {k} _ _ _.
Arguments lo_Type {k} _.
Arguments lo_Meta {k} _.
Arguments lo_Items {k} _.

Definition view_ListMeta : view_fun ListMetaM ListMeta := λ h m,
  n ← view_opt (view_ptr (t := TInt64) view_flat) h (lmm_RemainingItemCount m);
  Some {| lm_ResourceVersion := lmm_ResourceVersion m; lm_Continue := lmm_Continue m;
          lm_RemainingItemCount := n |}.

Definition view_Status : view_fun StatusM Status := λ h s,
  cs ← view_list (t := TCondition) view_flat h (stm_Conditions s);
  Some {| st_ObservedGeneration := stm_ObservedGeneration s; st_Conditions := cs |}.

Definition view_StorageConfig : view_fun StorageConfigM StorageConfig := λ h c,
  class ← view_opt (view_ptr (t := TString) view_flat) h (stcm_StorageClass c);
  Some {| stc_StorageClass := class; stc_Size := stcm_Size c |}.

Definition view_ClusterSpec : view_fun ClusterSpecM ClusterSpec := λ h s,
  bucket ← view_opt (view_ptr (t := TSecretReference) view_flat) h (clsm_BucketCredentialsSecret s);
  database ← view_opt (view_ptr (t := TSecretKeySelector) view_flat) h (clsm_StorageControllerDatabaseSecret s);
  Some {| cls_NumSafekeepers := clsm_NumSafekeepers s; cls_DefaultPGVersion := clsm_DefaultPGVersion s;
          cls_NeonImage := clsm_NeonImage s; cls_BucketCredentialsSecret := bucket;
          cls_StorageControllerDatabaseSecret := database |}.

Definition view_PageserverSpec : view_fun PageserverSpecM PageserverSpec := λ h s,
  bucket ← view_opt (view_ptr (t := TSecretReference) view_flat) h (pssm_BucketCredentialsSecret s);
  storage ← view_StorageConfig h (pssm_StorageConfig s);
  Some {| pss_ID := pssm_ID s; pss_Cluster := pssm_Cluster s; pss_BucketCredentialsSecret := bucket;
          pss_StorageConfig := storage |}.

Definition view_SafekeeperSpec : view_fun SafekeeperSpecM SafekeeperSpec := λ h s,
  storage ← view_StorageConfig h (sfsm_StorageConfig s);
  Some {| sfs_ID := sfsm_ID s; sfs_Cluster := sfsm_Cluster s; sfs_StorageConfig := storage |}.

#[export] Instance view_OwnerReference_mono : Mono view_OwnerReference.
Proof. solve_mono view_OwnerReference. Qed.
#[export] Instance view_ObjectMeta_mono : Mono view_ObjectMeta.
Proof. solve_mono view_ObjectMeta. Qed.
#[export] Instance view_ListMeta_mono : Mono view_ListMeta.
Proof. solve_mono view_ListMeta. Qed.
#[export] Instance view_Status_mono : Mono view_Status.
Proof. solve_mono view_Status. Qed.
#[export] Instance view_StorageConfig_mono : Mono view_StorageConfig.
Proof. solve_mono view_StorageConfig. Qed.
#[export] Instance view_ClusterSpec_mono : Mono view_ClusterSpec.
Proof. solve_mono view_ClusterSpec. Qed.
#[export] Instance view_PageserverSpec_mono : Mono view_PageserverSpec.
Proof. solve_mono view_PageserverSpec. Qed.
#[export] Instance view_SafekeeperSpec_mono : Mono view_SafekeeperSpec.
Proof. solve_mono view_SafekeeperSpec. Qed.

(** *** The resources *)

Definition SpecV (k : crd) : Type :=
  match k with
  | RCluster => ClusterSpec
  | RProject => ProjectSpec
  | RBranch => BranchSpec
  | RPageserver => PageserverSpec
  | RSafekeeper => SafekeeperSpec
  end.

Definition view_Spec (k : crd) : view_fun (SpecM k) (SpecV k) :=
  match k with
  | RCluster => view_ClusterSpec
  | RProject => view_flat
  | RBranch => view_flat
  | RPageserver => view_PageserverSpec
  | RSafekeeper => view_SafekeeperSpec
  end.

#[export] Instance view_Spec_mono k : Mono (view_Spec k).
Proof. destruct k; apply _. Qed.

Definition mk_obj (k : crd) : TypeMeta → ObjectMeta → SpecV k → Status → obj (kind_of k) :=
  match k with
  | RCluster => Build_Cluster
  | RProject => Build_Project
  | RBranch => Build_Branch
  | RPageserver => Build_Pageserver
  | RSafekeeper => Build_Safekeeper
  end.

Definition view_Object (k : crd) : view_fun (ObjectM k) (obj (kind_of k)) := λ h o,
  m ← view_ObjectMeta h (om_meta o);
  spec ← view_Spec k h (om_spec o);
  status ← view_Status h (om_status o);
  Some (mk_obj k (om_type o) m spec status).

#[export] Instance view_Object_mono k : Mono (view_Object k).
Proof. solve_mono view_Object. Qed.

Definition view_List (k : crd) : view_fun (ListM k) (ListOf k) := λ h l,
  m ← view_ListMeta h (li_meta l);
  items ← view_list (t := TObject k) (view_Object k) h (li_items l);
  Some (Build_ListOf (li_type l) m items).

#[export] Instance view_List_mono k : Mono (view_List k).
Proof. solve_mono view_List. Qed.
