(* ===== verification/Copying.v ===== *)
(** * Copying in memory: the statements of a deep copy and its contract

    The handful of statements generated deep copies are made of, the contract [copies]
    of one that shares nothing with its original, and the lemmas that put the contracts
    of the parts of a struct together to that of the struct. *)

From S2P Require Import Prelude GoLib KubeTypes Api Memory.

(** ** Statements of the generated code *)

(** [*out = *in] *)
Definition assign {A} (inp out : place A) : mem unit := a ← load inp; store out a.

(** [if *in != nil { *out = new(T); copy( *in, *out) }] *)
Definition copy_ptr {t} (copy : place (den t) → place (den t) → mem unit)
    (inp out : place (option (ptr t))) : mem unit :=
  o ← load inp;
  match o with
  | None => mret tt
  | Some _ =>
      q ← new t;
      _ ← store out (Some q);
      from ← at_ptr inp;
      to ← at_ptr out;
      copy from to
  end.

(** [if *in != nil { *out = make([]T, len( *in)); for i := range *in { copy(&( *in)[i], &( *out)[i]) } }] *)
Definition copy_slice {t} (copy : place (den t) → place (den t) → mem unit)
    (inp out : place (option (slice t))) : mem unit :=
  o ← load inp;
  match o with
  | None => mret tt
  | Some s =>
      r ← make t (sl_len s);
      _ ← store out (Some r);
      for_range 0 (sl_len s) (λ i,
        from ← at_index inp i;
        to ← at_index out i;
        copy from to)
  end.

(** [DeepCopy]: a new variable, unless the receiver is nil. *)
Definition copy_new {t} (copy : place (den t) → place (den t) → mem unit)
    (inp : option (ptr t)) : mem (option (ptr t)) :=
  match inp with
  | None => mret None
  | Some p =>
      out ← new t;
      _ ← copy (deref p) (deref out);
      mret (Some out)
  end.

(** ** The contract of a copy

    [updates out h b hn h']: from [h] to [h'] the place [out] got [b], fresh variables
    [hn] appeared, and nothing else happened.  [copies vw copy]: [copy] succeeds whatever
    it is given, and what it leaves in [out] stands for the value it was given although
    it only reads fresh variables.  [refreshes] is the same for a place that already
    holds what [inp] holds. *)

Definition updates {A} (out : place A) (h : heap) (b : A) (hn h' : heap) : Prop :=
  hn ##ₘ h ∧ ∃ c c', h !! pl_base out = Some c ∧ pl_put out b c = Some c' ∧
  h' = <[pl_base out := c']> h ∪ hn.

(** The copy goes from one variable to another. *)
Definition ready {A} (h : heap) (inp out : place A) (a s : A) : Prop :=
  pget h inp = Some a ∧ pget h out = Some s ∧ pl_base inp ≠ pl_base out.

Definition copied {A V} (vw : view_fun A V) (copy : place A → place A → mem unit)
    (h : heap) (inp out : place A) (v : V) : Prop :=
  ∃ b hn h', copy inp out h = Some (h', tt) ∧ updates out h b hn h' ∧ vw hn b = Some v.

Definition copies {A V} (vw : view_fun A V) (copy : place A → place A → mem unit) : Prop :=
  ∀ h inp out a s v, ready h inp out a s → vw (delete (pl_base out) h) a = Some v →
  copied vw copy h inp out v.

Definition refreshes {A V} (vw : view_fun A V) (copy : place A → place A → mem unit) : Prop :=
  ∀ h inp out a v, ready h inp out a a → vw (delete (pl_base out) h) a = Some v →
  copied vw copy h inp out v.

Lemma copies_refreshes {A V} (vw : view_fun A V) copy : copies vw copy → refreshes vw copy.
Proof. intros H h inp out a v. apply H. Qed.

(** *** Updates *)

Section updates.
Context {A : Type} (out : place A).
Implicit Types (h hn : heap) (b : A).

Lemma updates_get h b hn h' : updates out h b hn h' → pget h' out = Some b.
Proof.
  intros (_ & c & c' & _ & Hput & ->). unfold pget.
  rewrite (lookup_union_Some_l _ _ _ c') by (by rewrite lookup_insert_eq).
  simpl. by eapply pl_get_put.
Qed.

Lemma updates_sub h b hn h' : updates out h b hn h' → delete (pl_base out) h ⊆ delete (pl_base out) h'.
Proof.
  intros (Hd & c & c' & _ & _ & ->). rewrite delete_union, delete_insert_eq.
  apply map_union_subseteq_l.
Qed.

Lemma updates_new h b hn h' : updates out h b hn h' → hn ⊆ h'.
Proof.
  intros (Hd & c & c' & Hc & _ & ->). apply map_union_subseteq_r.
  apply map_disjoint_insert_l_2; [|done]. eapply map_disjoint_Some_l; [done|apply Hc].
Qed.

(** Places in other variables keep what they hold. *)
Lemma updates_other {B} (p : place B) h b hn h' x :
  updates out h b hn h' → pl_base p ≠ pl_base out → pget h p = Some x → pget h' p = Some x.
Proof.
  intros Hu Hne Hp. unfold pget in *. apply bind_Some in Hp as (c & Hc & Hx).
  assert (delete (pl_base out) h' !! pl_base p = Some c) as Hc'.
  { eapply lookup_weaken; [|by eapply updates_sub]. by rewrite lookup_delete_ne. }
  rewrite lookup_delete_ne in Hc' by done. by rewrite Hc'.
Qed.

Lemma updates_ready (inp : place A) h a s b hn h' :
  updates out h b hn h' → ready h inp out a s → ready h' inp out a b.
Proof.
  intros Hu (Hi & Ho & Hne). split_and!; [by eapply updates_other|by eapply updates_get|done].
Qed.

Lemma updates_trans h b1 hn1 h1 b2 hn2 h2 :
  updates out h b1 hn1 h1 → updates out h1 b2 hn2 h2 → updates out h b2 (hn1 ∪ hn2) h2.
Proof.
  intros (Hd1 & c & c1 & Hc & Hp1 & ->) (Hd2 & c1' & c2 & Hc1 & Hp2 & ->).
  rewrite (lookup_union_Some_l _ _ _ c1) in Hc1 by (by rewrite lookup_insert_eq). simplify_eq.
  apply map_disjoint_union_r in Hd2 as [Hd2 Hd12].
  assert (hn2 ##ₘ h) as Hd.
  { apply map_disjoint_insert_r in Hd2 as [Hn Hd2]. apply map_disjoint_alt. intros i.
    destruct (decide (i = pl_base out)) as [->|Hne]; [by left|].
    apply map_disjoint_alt with (i := i) in Hd2; destruct Hd2; auto. }
  split; [by apply map_disjoint_union_l_2|]. exists c, c2. split_and!; [done| |].
  - by erewrite <-pl_put_put.
  - rewrite insert_union_l, insert_insert_eq. by rewrite map_union_assoc.
Qed.

Lemma updates_nothing h a : pget h out = Some a → updates out h a ∅ h.
Proof.
  intros (c & Hc & Ha)%bind_Some. split; [apply map_disjoint_empty_l|].
  exists c, c. split_and!; [done|by apply pl_put_same|].
  by rewrite map_union_empty, insert_id.
Qed.

Lemma store_run h b s : pget h out = Some s → ∃ h', store out b h = Some (h', tt) ∧ updates out h b ∅ h'.
Proof.
  intros (c & Hc & Hs)%bind_Some. destruct (pl_put_get out s b c Hs) as [c' Hc'].
  unfold store. rewrite Hc. simpl. rewrite Hc'. eexists. split; [done|].
  split; [apply map_disjoint_empty_l|]. exists c, c'. split_and!; [done..|]. by rewrite map_union_empty.
Qed.
End updates.

(** A change of a field is a change of the struct. *)
Lemma updates_fld {S A} (f : field S A) (out : place S) h s x hn h' :
  pget h out = Some s → updates (fld f out) h x hn h' → updates out h (fl_set f x s) hn h'.
Proof.
  intros (c & Hc & Hs)%bind_Some (Hd & c0 & c' & Hc0 & Hp & ->). simpl in *. simplify_eq.
  rewrite Hs in Hp. simpl in Hp. split; [done|]. eauto.
Qed.

Lemma pget_fld {S A} (f : field S A) (p : place S) h s :
  pget h p = Some s → pget h (fld f p) = Some (fl_get f s).
Proof. unfold pget. intros (c & Hc & Hs)%bind_Some. simpl. rewrite Hc. simpl. by rewrite Hs. Qed.

(** ** Copies of the basic shapes *)

Lemma assign_copies {A} : copies (@view_flat A) assign.
Proof.
  intros h inp out a s v (Hi & Ho & _) Hv. unfold view_flat in Hv. simplify_eq.
  destruct (store_run out h v s Ho) as (h' & Hrun & Hu).
  exists v, ∅, h'. split_and!; [|done|done].
  unfold assign. by rewrite (mem_bind_run _ _ _ _ _ (load_run _ _ _ Hi)).
Qed.

(** A new block [l], reached from [out] alone, whose contents change next. *)
Lemma updates_alloc {A} (out : place A) h (b s : A) l c0 c3 h2 h3 hn :
  pget h out = Some s → h !! l = None → updates out (<[l := c0]> h) b ∅ h2 →
  hn ##ₘ h2 → h3 = <[l := c3]> h2 ∪ hn →
  updates out h b (<[l := c3]> hn) h3.
Proof.
  intros (c & Hc & _)%bind_Some Hl (_ & c1 & c' & Hc1 & Hp & ->) Hd ->.
  rewrite map_union_empty in *.
  assert (pl_base out ≠ l) as Hne by (intros ?; simplify_map_eq).
  rewrite lookup_insert_ne in Hc1 by done. simplify_eq.
  apply map_disjoint_insert_r in Hd as [Hb Hd]. apply map_disjoint_insert_r in Hd as [Hnl Hd].
  split; [by apply map_disjoint_insert_l_2|]. exists c, c'. split_and!; [done..|].
  rewrite (insert_insert_ne _ l) by done. rewrite insert_insert_eq.
  rewrite insert_insert_ne by done.
  rewrite <-insert_union_r by (by rewrite lookup_insert_ne). by rewrite insert_union_l.
Qed.

(** What is readable without [out] stays so, and without the new block. *)
Lemma alloc_sub {A} (out : place A) h b l c0 h2 :
  h !! l = None → updates out (<[l := c0]> h) b ∅ h2 → delete (pl_base out) h ⊆ delete l h2.
Proof.
  intros Hl (_ & c1 & c' & Hc1 & _ & ->). rewrite map_union_empty.
  apply map_subseteq_spec. intros i x [Hb Hx]%lookup_delete_Some.
  assert (l ≠ i) by (intros ->; congruence).
  rewrite lookup_delete_ne, !lookup_insert_ne by done. done.
Qed.

Lemma pget_deref_ne {t} (h : heap) b (q : ptr t) x :
  pget (delete b h) (deref q) = Some x → addr q ≠ b ∧ is_Some (h !! addr q).
Proof.
  intros (c & [Hne Hc]%lookup_delete_Some & _)%bind_Some. split; [done|]. by eexists.
Qed.

Lemma pget_new {t} (h : heap) l (vs : list (den t)) i x :
  h !! l = Some (Block t vs) → vs !! i = Some x → pget h (var_at (t := t) l i) = Some x.
Proof.
  intros Hl Hx. unfold pget. simpl. rewrite Hl. simpl. unfold var_get. rewrite vars_Block. done.
Qed.

(** Run the first statement of the code at hand. *)
Ltac run H := erewrite mem_bind_run; [|exact H]; cbv beta.

Lemma at_ptr_run {t} (p : place (option (ptr t))) h q :
  pget h p = Some (Some q) → at_ptr p h = Some (h, deref q).
Proof. intros H. unfold at_ptr. by run (load_run _ _ _ H). Qed.

(** [*out = new(..)] or [*out = make(..)]: allocate a block [b0], make [out] refer to it. *)
Lemma alloc_store {A} (inp out : place A) h a b0 (x : loc → A) :
  ready h inp out a a →
  ∃ l h2, alloc b0 h = Some (<[l := b0]> h, l) ∧ store out (x l) (<[l := b0]> h) = Some (h2, tt) ∧
    h !! l = None ∧ updates out (<[l := b0]> h) (x l) ∅ h2 ∧ ready h2 inp out a (x l) ∧
    delete (pl_base out) h ⊆ delete l h2 ∧ h2 !! l = Some b0 ∧ pl_base inp ≠ l ∧ pl_base out ≠ l.
Proof.
  intros (Hi & Ho & Hne). destruct (alloc_run b0 h) as (l & Hl & Hrun). exists l.
  assert (h ⊆ <[l := b0]> h) as Hsub by by apply insert_subseteq.
  destruct (store_run out (<[l := b0]> h) (x l) a) as (h2 & Hst & Hu); [by eapply pget_mono|].
  assert (pl_base inp ≠ l ∧ pl_base out ≠ l) as [Hil Hol].
  { apply bind_Some in Hi as (? & Hi & _). apply bind_Some in Ho as (? & Ho & _).
    split; intros <-; congruence. }
  exists h2. split_and!; try done.
  - eapply updates_ready; [done|]. split_and!; [by eapply pget_mono..|done].
  - by eapply alloc_sub.
  - destruct Hu as (_ & c & c' & _ & _ & ->).
    by rewrite map_union_empty, lookup_insert_ne, lookup_insert_eq.
Qed.

Lemma copy_ptr_refreshes {t V} (vw : view_fun (den t) V) `{!Mono vw} copy :
  copies vw copy → refreshes (view_opt (view_ptr vw)) (copy_ptr copy).
Proof.
  intros Hcopy h inp out [q|] v Hr Hv; unfold copied, copy_ptr.
  all: run (load_run _ _ _ (proj1 Hr)).
  2: { simpl in Hv. simplify_eq. exists None, ∅, h. split_and!; [done| |done].
       apply updates_nothing, Hr. }
  simpl in Hv. apply fmap_Some in Hv as (w & (x & Hx & Hw)%bind_Some & ->).
  destruct (alloc_store inp out h (Some q) (Block t [zero t]) (λ l, Some (Ptr l)) Hr)
    as (l & h2 & Hrun & Hst & Hl & Hu & (Hi2 & Ho2 & _) & Hsub & Hl2 & _).
  assert (new t h = Some (<[l := Block t [zero t]]> h, Ptr l)) as Hnew
    by (unfold new; by run Hrun).
  run Hnew. run Hst. run (at_ptr_run _ _ _ Hi2). run (at_ptr_run _ _ _ Ho2).
  destruct (Hcopy h2 (deref q) (deref (Ptr l)) x (zero t) w) as (b & hn & h3 & Hrun3 & Hu3 & Hb).
  - destruct (pget_deref_ne _ _ _ _ Hx) as [_ [? Hq]]. split_and!.
    + eapply (pget_mono (delete (pl_base out) h)); [|done].
      etrans; [exact Hsub|apply delete_subseteq].
    + by apply (pget_new _ l [zero t] 0).
    + simpl. intros Heq. rewrite Heq in Hq. congruence.
  - by eapply view_mono.
  - destruct Hu3 as (Hd & c & c' & Hc & Hp & Hh3). simpl in *.
    exists (Some (Ptr l)), (<[l := c']> hn), h3. split_and!; [done| |].
    + eapply updates_alloc; [apply Hr|exact Hl|exact Hu|exact Hd|exact Hh3].
    + apply var_put_Some in Hp as (vs & -> & Hlen & ->). simpl. unfold view_ptr.
      rewrite (pget_new _ l (<[0%nat := b]> vs) 0 b);
        [|by rewrite lookup_insert_eq|by apply list_lookup_insert_eq].
      simpl. rewrite (view_mono hn _ b w); [done| |done].
      apply insert_subseteq. by eapply map_disjoint_Some_r.
Qed.

(** *** Slices *)

(** All the variables of a block. *)
Program Definition arr {t} (l : loc) : place (list (den t)) :=
  {| pl_base := l; pl_get := vars t; pl_put := λ vs b, _ ← vars t b; Some (Block t vs) |}.
Next Obligation. intros t _ a b b' (? & _ & [= <-])%bind_Some. apply vars_Block. Qed.
Next Obligation. intros t _ a a' b Hb. simpl in *. rewrite Hb. by eexists. Qed.
Next Obligation. intros t _ a a' b b' (? & Hb & [= <-])%bind_Some. by rewrite Hb, vars_Block. Qed.
Next Obligation. intros t _ a b ->%vars_Some. by rewrite vars_Block. Qed.

Lemma updates_arr {t} l i h (b : den t) bs hn h' :
  h !! l = Some (Block t bs) → updates (var_at (t := t) l i) h b hn h' →
  updates (arr (t := t) l) h (<[i := b]> bs) hn h' ∧ (i < length bs)%nat.
Proof.
  intros Hl (Hd & c & c' & Hc & Hp & ->). simpl in *. simplify_eq.
  apply var_put_Some in Hp as (vs & Hvs & Hi & ->).
  apply (f_equal (vars t)) in Hvs. rewrite !vars_Block in Hvs. simplify_eq.
  split; [|done]. split; [done|]. eexists _, _. split_and!; [exact Hl| |done].
  simpl. by rewrite vars_Block.
Qed.

Lemma slice_vars_elem {t} h (s : slice t) xs i x :
  slice_vars h s = Some xs → xs !! i = Some x → pget h (elem s i) = Some x ∧ (i < sl_len s)%nat.
Proof.
  unfold slice_vars. intros (b & Hb & (vs & ->%vars_Some & Hif)%bind_Some)%bind_Some Hx.
  case_decide; simplify_eq. assert (i < sl_len s)%nat as Hi.
  { apply lookup_lt_Some in Hx. rewrite length_take in Hx. lia. }
  split; [|done]. eapply pget_new; [exact Hb|].
  by rewrite lookup_take_lt, lookup_drop in Hx by done.
Qed.

Lemma slice_vars_length {t} h (s : slice t) xs : slice_vars h s = Some xs → length xs = sl_len s.
Proof.
  unfold slice_vars. intros (b & Hb & (vs & ->%vars_Some & Hif)%bind_Some)%bind_Some.
  case_decide; simplify_eq. rewrite length_take, length_drop. lia.
Qed.

Lemma at_index_run {t} (p : place (option (slice t))) h s i :
  pget h p = Some (Some s) → (i < sl_len s)%nat → at_index p i h = Some (h, elem s i).
Proof. intros H Hi. unfold at_index. run (load_run _ _ _ H). cbn beta iota. by rewrite decide_True. Qed.

Definition copy_elem {t} (copy : place (den t) → place (den t) → mem unit)
    (inp out : place (option (slice t))) (i : nat) : mem unit :=
  from ← at_index inp i; to ← at_index out i; copy from to.

(** The slice at [inp] is being copied to the new array [l]. *)
Definition filling {t} (inp out : place (option (slice t))) (s : slice t) (l : loc) (h : heap)
    (xs bs : list (den t)) : Prop :=
  pget h inp = Some (Some s) ∧ pget h out = Some (Some (Slice l 0 (sl_len s))) ∧
  pl_base inp ≠ l ∧ pl_base out ≠ l ∧ sl_array s ≠ l ∧
  slice_vars (delete l h) s = Some xs ∧ pget h (arr (t := t) l) = Some bs.

Lemma filling_step {t V} (vw : view_fun (den t) V) copy inp out s l h xs bs i x v :
  copies vw copy → filling inp out s l h xs bs → length bs = sl_len s →
  xs !! i = Some x → vw (delete l h) x = Some v →
  ∃ b hn h', copy_elem copy inp out i h = Some (h', tt) ∧ vw hn b = Some v ∧
    updates (arr (t := t) l) h (<[i := b]> bs) hn h' ∧ filling inp out s l h' xs (<[i := b]> bs).
Proof.
  intros Hcopy (Hi & Ho & Hil & Hol & Hsl & Hxs & Hbs) Hlen Hx Hv.
  destruct (slice_vars_elem _ _ _ _ _ Hxs Hx) as [He His].
  assert (h !! l = Some (Block t bs)) as Hl.
  { apply bind_Some in Hbs as (c & Hc & ->%vars_Some). done. }
  assert (∃ y, bs !! i = Some y) as [y Hy] by (apply lookup_lt_is_Some; lia).
  destruct (Hcopy h (elem s i) (elem (Slice l 0 (sl_len s)) i) x y v) as (b & hn & h' & Hrun & Hu & Hb).
  - split_and!; [|by eapply pget_new|done].
    eapply pget_mono; [apply delete_subseteq|exact He].
  - exact Hv.
  - destruct (updates_arr _ _ _ _ _ _ _ Hl Hu) as [Hua _].
    exists b, hn, h'. split_and!; [|done|done|].
    + unfold copy_elem. run (at_index_run _ _ _ _ Hi His). by run (at_index_run _ _ _ i Ho His).
    + split_and!; [by eapply updates_other|by eapply updates_other|done..| |].
      * eapply slice_vars_mono; [|exact Hxs]. exact (updates_sub _ _ _ _ _ Hua).
      * by eapply updates_get.
Qed.

Lemma copy_loop {t V} (vw : view_fun (den t) V) `{!Mono vw} copy inp out s l xs :
  copies vw copy → ∀ n i h bs vs,
  filling inp out s l h xs bs → length bs = sl_len s → length xs = sl_len s → (i + n = sl_len s)%nat →
  mapM (vw (delete l h)) (drop i xs) = Some vs →
  ∃ bs' hn h', for_range i n (copy_elem copy inp out) h = Some (h', tt) ∧
    updates (arr (t := t) l) h (take i bs ++ bs') hn h' ∧ mapM (vw hn) bs' = Some vs.
Proof.
  intros Hcopy. induction n as [|n IH]; intros i h bs vs Hf Hlb Hlx Hin Hvs.
  - rewrite drop_ge in Hvs by lia. simpl in Hvs. simplify_eq.
    exists [], ∅, h. split_and!; [done| |done].
    rewrite take_ge, app_nil_r by lia. apply updates_nothing, Hf.
  - assert (∃ x, xs !! i = Some x) as [x Hx] by (apply lookup_lt_is_Some; lia).
    rewrite (drop_S _ _ _ Hx) in Hvs. simpl in Hvs.
    apply bind_Some in Hvs as (v & Hv & (vs' & Hvs & [= <-])%bind_Some).
    destruct (filling_step vw copy inp out s l h xs bs i x v Hcopy Hf Hlb Hx Hv)
      as (b & hn1 & h1 & Hrun & Hb & Hu & Hf1).
    destruct (IH (S i) h1 (<[i := b]> bs) vs' Hf1) as (bs' & hn2 & h2 & Hrun2 & Hu2 & Hbs').
    + by rewrite length_insert.
    + done.
    + lia.
    + eapply mapM_mono; [|exact Hvs]. intros ??. apply view_mono.
      exact (updates_sub _ _ _ _ _ Hu).
    + rewrite (take_S_r _ _ b) in Hu2 by (apply list_lookup_insert_eq; lia).
      rewrite take_insert_ge in Hu2 by lia. rewrite <-app_assoc in Hu2. simpl in Hu2.
      exists (b :: bs'), (hn1 ∪ hn2), h2. split_and!.
      * simpl. by run Hrun.
      * by eapply updates_trans.
      * simpl. rewrite (view_mono hn1 _ b v) by (done || apply map_union_subseteq_l). simpl.
        rewrite (mapM_mono (vw hn2) (vw (hn1 ∪ hn2)) bs' vs'); [done| |done].
        intros ??. apply view_mono, map_union_subseteq_r.
        apply map_disjoint_sym. destruct Hu2 as [Hd _]. eapply map_disjoint_weaken_r; [exact Hd|].
        by eapply updates_new.
Qed.

Lemma view_list_new {t V} (vw : view_fun (den t) V) `{!Mono vw} l bs hn n vs :
  hn !! l = None → n = length bs → mapM (vw hn) bs = Some vs →
  view_list vw (<[l := Block t bs]> hn) (Some (Slice l 0 n)) = Some vs.
Proof.
  intros Hl -> Hvs. unfold view_list, view_opt, view_slice, slice_vars. simpl.
  rewrite lookup_insert_eq. simpl. rewrite vars_Block. simpl. rewrite decide_True by lia.
  rewrite drop_0, take_ge by lia. simpl.
  rewrite (mapM_mono (vw hn) _ bs vs); [done| |done].
  intros ??. apply view_mono. by apply insert_subseteq.
Qed.

Lemma copy_slice_refreshes {t V} (vw : view_fun (den t) V) `{!Mono vw} copy :
  copies vw copy → refreshes (view_list vw) (copy_slice copy).
Proof.
  intros Hcopy h inp out [s|] v Hr Hv; unfold copied, copy_slice.
  all: run (load_run _ _ _ (proj1 Hr)).
  2: { unfold view_list in Hv. simpl in Hv. simplify_eq. exists None, ∅, h.
       split_and!; [done| |done]. apply updates_nothing, Hr. }
  unfold view_list in Hv. simpl in Hv.
  apply fmap_Some in Hv as (? & (vs & (xs & Hxs & Hvs)%bind_Some & ->)%fmap_Some & ->). simpl.
  set (n := sl_len s). set (b0 := Block t (replicate n (zero t))).
  destruct (alloc_store inp out h (Some s) b0 (λ l, Some (Slice l 0 n)) Hr)
    as (l & h2 & Hrun & Hst & Hl & Hu & (Hi2 & Ho2 & _) & Hsub & Hl2 & Hil & Hol).
  assert (make t n h = Some (<[l := b0]> h, Slice l 0 n)) as Hmake
    by (unfold make; by run Hrun).
  run Hmake. run Hst.
  assert (slice_vars (delete l h2) s = Some xs) as Hxs2 by (by eapply slice_vars_mono).
  destruct (copy_loop vw copy inp out s l xs Hcopy n 0 h2 (replicate n (zero t)) vs)
    as (bs & hn & h3 & Hrun3 & (Hd & c & c' & Hc & Hp & Hh3) & Hbs).
  - split_and!; try done.
    + unfold slice_vars in Hxs2. apply bind_Some in Hxs2 as (? & [? _]%lookup_delete_Some & _). congruence.
    + unfold pget. simpl. rewrite Hl2. apply vars_Block.
  - by rewrite length_replicate.
  - by eapply slice_vars_length.
  - done.
  - rewrite drop_0. eapply mapM_mono; [|exact Hvs]. intros ??. by apply view_mono.
  - simpl in *. rewrite Hl2 in Hc. injection Hc as <-. unfold b0 in Hp. rewrite vars_Block in Hp. simplify_eq/=.
    eexists (Some (Slice l 0 n)), (<[l := Block t bs]> hn), _. split_and!; [exact Hrun3| |].
    + eapply updates_alloc; [apply Hr|exact Hl|exact Hu|exact Hd|done].
    + apply view_list_new; [done|by eapply map_disjoint_Some_r| |done].
      apply mapM_Some, Forall2_length in Hbs. apply mapM_Some, Forall2_length in Hvs.
      apply slice_vars_length in Hxs. unfold n. congruence.
Qed.

(** *** Structs: [*out = *in], then one field after the other *)

(** [out] was given what [inp] holds, and some of its fields copies of their own. *)
Definition patched {A} (inp out : place A) (a : A) (h0 h : heap) (s : A) (hn : heap) : Prop :=
  updates out h0 s hn h ∧ ready h inp out a s.

Lemma struct_start {A} (inp out : place A) h a s :
  ready h inp out a s → ∃ h', assign inp out h = Some (h', tt) ∧ patched inp out a h h' a ∅.
Proof.
  intros Hr. destruct (store_run out h a s) as (h' & Hst & Hu); [apply Hr|].
  exists h'. split; [unfold assign; by run (load_run _ _ _ (proj1 Hr))|].
  split; [done|]. by eapply updates_ready.
Qed.

Lemma field_run {S A V} (f : field S A) (vw : view_fun A V) `{!Mono vw} copy (inp out : place S) a h0 h s hn v :
  refreshes vw copy → patched inp out a h0 h s hn → fl_get f s = fl_get f a →
  vw (delete (pl_base out) h0) (fl_get f a) = Some v →
  ∃ x h' hn', copy (fld f inp) (fld f out) h = Some (h', tt) ∧
    patched inp out a h0 h' (fl_set f x s) hn' ∧ vw hn' x = Some v ∧ hn ⊆ hn'.
Proof.
  intros Hcopy [Hu (Hi & Ho & Hne)] Hs Hv.
  destruct (Hcopy h (fld f inp) (fld f out) (fl_get f a) v) as (x & hn1 & h' & Hrun & Hu1 & Hx).
  - split_and!; [by apply pget_fld|rewrite <-Hs; by apply pget_fld|done].
  - eapply view_mono; [|exact Hv]. exact (updates_sub _ _ _ _ _ Hu).
  - apply (updates_fld f out h s) in Hu1; [|done].
    exists x, h', (hn ∪ hn1). split_and!; [done| | |apply map_union_subseteq_l].
    + split; [by eapply updates_trans|]. by eapply updates_ready.
    + eapply view_mono; [|exact Hx]. apply map_union_subseteq_r, map_disjoint_sym.
      destruct Hu1 as [Hd _]. eapply map_disjoint_weaken_r; [exact Hd|]. by eapply updates_new.
Qed.

(** Run [assign] at the head of a struct copy, or the copy of a field [f] under the view
    equation [Hv]; the last statement of a body has no continuation. *)
Ltac start_struct Hr h Hp :=
  let Hrun := fresh in
  destruct (struct_start _ _ _ _ _ Hr) as (h & Hrun & Hp); run Hrun; clear Hrun.
Ltac next_field f L Hp Hv x h Hp' Hx Hsub :=
  let Hrun := fresh in let hn := fresh in
  destruct (field_run f _ _ _ _ _ _ _ _ _ _ L Hp eq_refl Hv) as (x & h & hn & Hrun & Hp' & Hx & Hsub);
  clear Hp; first [run Hrun | rewrite Hrun]; clear Hrun; simpl in Hp'.

Ltac read Hx := apply bind_Some; eexists; split; [exact Hx|].

(** *** A new variable *)

Lemma copy_new_isolated {t V} (vw : view_fun (den t) V) `{!Mono vw} copy h (p : ptr t) v :
  copies vw copy → view_ptr vw h p = Some v →
  ∃ q hn, copy_new copy (Some p) h = Some (h ∪ hn, Some q) ∧ hn ##ₘ h ∧ view_ptr vw hn q = Some v.
Proof.
  intros Hcopy (x & Hx & Hv)%bind_Some. unfold copy_new.
  destruct (alloc_run (Block t [zero t]) h) as (l & Hl & Hrun).
  set (h1 := <[l := Block t [zero t]]> h) in *.
  assert (new t h = Some (h1, Ptr l)) as Hnew by (unfold new; by run Hrun).
  run Hnew.
  destruct (Hcopy h1 (deref p) (deref (Ptr l)) x (zero t) v) as (b & hn & h2 & Hrun2 & Hu & Hb).
  - split_and!.
    + eapply pget_mono; [|exact Hx]. by apply insert_subseteq.
    + apply (pget_new _ l [zero t] 0); [|done]. by apply lookup_insert_eq.
    + apply bind_Some in Hx as (? & Hx & _). simpl in *. intros Heq. rewrite Heq in Hx. congruence.
  - eapply view_mono; [|exact Hv]. simpl. unfold h1. by rewrite delete_insert_id.
  - run Hrun2. destruct Hu as (Hd & c & c' & Hc & Hp & ->). simpl in *.
    apply var_put_Some in Hp as (vs & -> & Hlen & ->).
    apply map_disjoint_insert_r in Hd as [Hnl Hd].
    exists (Ptr l), (<[l := Block t (<[0%nat := b]> vs)]> hn). split_and!.
    + unfold h1. rewrite insert_insert_eq. apply (f_equal (λ x, Some (x, _))).
      rewrite <-insert_union_l. by rewrite insert_union_r.
    + by apply map_disjoint_insert_l_2.
    + unfold view_ptr. rewrite (pget_new _ l (<[0%nat := b]> vs) 0 b);
        [|by rewrite lookup_insert_eq|by apply list_lookup_insert_eq].
      simpl. eapply view_mono; [|exact Hb]. by apply insert_subseteq.
Qed.

