(* ===== verification/DeepCopy.v ===== *)
(** * Deep copies: api/v1alpha1/zz_generated.deepcopy.go

    The generated functions, statement by statement, over the memory of Memory.v, and
    what a deep copy is for: a new object that stands for the same value and shares
    nothing with the one it was made from. *)

From S2P Require Import Prelude GoLib KubeTypes Api Memory Copying.

(** ** Fields of the structs *)

Program Definition TypeMeta_ {k} : field (ObjectM k) TypeMeta :=
  {| fl_get := om_type;
     fl_set := λ a s, {| om_type := a; om_meta := om_meta s; om_spec := om_spec s; om_status := om_status s |} |}.
Solve All Obligations with by intros k; intros; try destruct s.
Program Definition ObjectMeta_ {k} : field (ObjectM k) ObjectMetaM :=
  {| fl_get := om_meta;
     fl_set := λ a s, {| om_type := om_type s; om_meta := a; om_spec := om_spec s; om_status := om_status s |} |}.
Solve All Obligations with by intros k; intros; try destruct s.
Program Definition Spec_ {k} : field (ObjectM k) (SpecM k) :=
  {| fl_get := om_spec;
     fl_set := λ a s, {| om_type := om_type s; om_meta := om_meta s; om_spec := a; om_status := om_status s |} |}.
Solve All Obligations with by intros k; intros; try destruct s.
Program Definition Status_ {k} : field (ObjectM k) StatusM :=
  {| fl_get := om_status;
     fl_set := λ a s, {| om_type := om_type s; om_meta := om_meta s; om_spec := om_spec s; om_status := a |} |}.
Solve All Obligations with by intros k; intros; try destruct s.

Program Definition ListTypeMeta_ {k} : field (ListM k) TypeMeta :=
  {| fl_get := li_type; fl_set := λ a s, {| li_type := a; li_meta := li_meta s; li_items := li_items s |} |}.
Solve All Obligations with by intros k; intros; try destruct s.
Program Definition ListMeta_ {k} : field (ListM k) ListMetaM :=
  {| fl_get := li_meta; fl_set := λ a s, {| li_type := li_type s; li_meta := a; li_items := li_items s |} |}.
Solve All Obligations with by intros k; intros; try destruct s.
Program Definition Items_ {k} : field (ListM k) (option (slice (TObject k))) :=
  {| fl_get := li_items; fl_set := λ a s, {| li_type := li_type s; li_meta := li_meta s; li_items := a |} |}.
Solve All Obligations with by intros k; intros; try destruct s.

Program Definition Conditions_ : field StatusM (option (slice TCondition)) :=
  {| fl_get := stm_Conditions;
     fl_set := λ a s, {| stm_ObservedGeneration := stm_ObservedGeneration s; stm_Conditions := a |} |}.
Solve All Obligations with by intros; try destruct s.
Program Definition ObservedGeneration_ : field StatusM Z :=
  {| fl_get := stm_ObservedGeneration;
     fl_set := λ a s, {| stm_ObservedGeneration := a; stm_Conditions := stm_Conditions s |} |}.
Solve All Obligations with by intros; try destruct s.
Program Definition StorageClass_ : field StorageConfigM (option (ptr TString)) :=
  {| fl_get := stcm_StorageClass;
     fl_set := λ a s, {| stcm_StorageClass := a; stcm_Size := stcm_Size s |} |}.
Solve All Obligations with by intros; try destruct s.
Program Definition BucketCredentialsSecret_ : field ClusterSpecM (option (ptr TSecretReference)) :=
  {| fl_get := clsm_BucketCredentialsSecret;
     fl_set := λ a s,
       {| clsm_NumSafekeepers := clsm_NumSafekeepers s; clsm_DefaultPGVersion := clsm_DefaultPGVersion s;
          clsm_NeonImage := clsm_NeonImage s; clsm_BucketCredentialsSecret := a;
          clsm_StorageControllerDatabaseSecret := clsm_StorageControllerDatabaseSecret s |} |}.
Solve All Obligations with by intros; try destruct s.
Program Definition StorageControllerDatabaseSecret_ : field ClusterSpecM (option (ptr TSecretKeySelector)) :=
  {| fl_get := clsm_StorageControllerDatabaseSecret;
     fl_set := λ a s,
       {| clsm_NumSafekeepers := clsm_NumSafekeepers s; clsm_DefaultPGVersion := clsm_DefaultPGVersion s;
          clsm_NeonImage := clsm_NeonImage s; clsm_BucketCredentialsSecret := clsm_BucketCredentialsSecret s;
          clsm_StorageControllerDatabaseSecret := a |} |}.
Solve All Obligations with by intros; try destruct s.
Program Definition PageserverBucket_ : field PageserverSpecM (option (ptr TSecretReference)) :=
  {| fl_get := pssm_BucketCredentialsSecret;
     fl_set := λ a s,
       {| pssm_ID := pssm_ID s; pssm_Cluster := pssm_Cluster s; pssm_BucketCredentialsSecret := a;
          pssm_StorageConfig := pssm_StorageConfig s |} |}.
Solve All Obligations with by intros; try destruct s.
Program Definition PageserverStorage_ : field PageserverSpecM StorageConfigM :=
  {| fl_get := pssm_StorageConfig;
     fl_set := λ a s,
       {| pssm_ID := pssm_ID s; pssm_Cluster := pssm_Cluster s;
          pssm_BucketCredentialsSecret := pssm_BucketCredentialsSecret s; pssm_StorageConfig := a |} |}.
Solve All Obligations with by intros; try destruct s.
Program Definition SafekeeperStorage_ : field SafekeeperSpecM StorageConfigM :=
  {| fl_get := sfsm_StorageConfig;
     fl_set := λ a s, {| sfsm_ID := sfsm_ID s; sfsm_Cluster := sfsm_Cluster s; sfsm_StorageConfig := a |} |}.
Solve All Obligations with by intros; try destruct s.

(** ** The code *)

(** A value of the interface [runtime.Object] that is not nil: one of the types of the
    API with its pointer. *)
Inductive runtime_Object :=
  | Object_ (k : crd) (p : ptr (TObject k))
  | List_ (k : crd) (p : ptr (TList k)).

(** The deep copies of the types of k8s.io/api and k8s.io/apimachinery. *)
Class ForeignCopies := {
  ObjectMeta_DeepCopyInto : place ObjectMetaM → place ObjectMetaM → mem unit;
  ListMeta_DeepCopyInto : place ListMetaM → place ListMetaM → mem unit;
  Condition_DeepCopyInto : place Condition → place Condition → mem unit;
  SecretKeySelector_DeepCopyInto : place SecretKeySelector → place SecretKeySelector → mem unit;
}.

Section code.
Context `{ForeignCopies}.

Definition StorageConfig_DeepCopyInto (inp out : place StorageConfigM) : mem unit :=
  _ ← assign inp out;
  copy_ptr (t := TString) assign (fld StorageClass_ inp) (fld StorageClass_ out).

Definition BranchSpec_DeepCopyInto (inp out : place BranchSpec) : mem unit := assign inp out.
Definition ProjectSpec_DeepCopyInto (inp out : place ProjectSpec) : mem unit := assign inp out.

Definition ClusterSpec_DeepCopyInto (inp out : place ClusterSpecM) : mem unit :=
  _ ← assign inp out;
  _ ← copy_ptr (t := TSecretReference) assign
        (fld BucketCredentialsSecret_ inp) (fld BucketCredentialsSecret_ out);
  copy_ptr (t := TSecretKeySelector) SecretKeySelector_DeepCopyInto
    (fld StorageControllerDatabaseSecret_ inp) (fld StorageControllerDatabaseSecret_ out).

Definition PageserverSpec_DeepCopyInto (inp out : place PageserverSpecM) : mem unit :=
  _ ← assign inp out;
  _ ← copy_ptr (t := TSecretReference) assign (fld PageserverBucket_ inp) (fld PageserverBucket_ out);
  StorageConfig_DeepCopyInto (fld PageserverStorage_ inp) (fld PageserverStorage_ out).

Definition SafekeeperSpec_DeepCopyInto (inp out : place SafekeeperSpecM) : mem unit :=
  _ ← assign inp out;
  StorageConfig_DeepCopyInto (fld SafekeeperStorage_ inp) (fld SafekeeperStorage_ out).

(** The five statuses have the same fields, and so the same function. *)
Definition Status_DeepCopyInto (inp out : place StatusM) : mem unit :=
  _ ← assign inp out;
  copy_slice (t := TCondition) Condition_DeepCopyInto (fld Conditions_ inp) (fld Conditions_ out).

Definition BranchStatus_DeepCopyInto := Status_DeepCopyInto.
Definition ClusterStatus_DeepCopyInto := Status_DeepCopyInto.
Definition PageserverStatus_DeepCopyInto := Status_DeepCopyInto.
Definition ProjectStatus_DeepCopyInto := Status_DeepCopyInto.
Definition SafekeeperStatus_DeepCopyInto := Status_DeepCopyInto.

(** The body the five resources share, but for the copy of the Spec. *)
Definition object_DeepCopyInto {k} (spec_copy : place (SpecM k) → place (SpecM k) → mem unit)
    (status_copy : place StatusM → place StatusM → mem unit) (inp out : place (ObjectM k)) : mem unit :=
  _ ← assign inp out;
  _ ← assign (fld TypeMeta_ inp) (fld TypeMeta_ out);
  _ ← ObjectMeta_DeepCopyInto (fld ObjectMeta_ inp) (fld ObjectMeta_ out);
  _ ← spec_copy (fld Spec_ inp) (fld Spec_ out);
  status_copy (fld Status_ inp) (fld Status_ out).

Definition Branch_DeepCopyInto : place (ObjectM RBranch) → place (ObjectM RBranch) → mem unit :=
  object_DeepCopyInto (k := RBranch) assign BranchStatus_DeepCopyInto.
Definition Cluster_DeepCopyInto : place (ObjectM RCluster) → place (ObjectM RCluster) → mem unit :=
  object_DeepCopyInto (k := RCluster) ClusterSpec_DeepCopyInto ClusterStatus_DeepCopyInto.
Definition Pageserver_DeepCopyInto : place (ObjectM RPageserver) → place (ObjectM RPageserver) → mem unit :=
  object_DeepCopyInto (k := RPageserver) PageserverSpec_DeepCopyInto PageserverStatus_DeepCopyInto.
Definition Project_DeepCopyInto : place (ObjectM RProject) → place (ObjectM RProject) → mem unit :=
  object_DeepCopyInto (k := RProject) assign ProjectStatus_DeepCopyInto.
Definition Safekeeper_DeepCopyInto : place (ObjectM RSafekeeper) → place (ObjectM RSafekeeper) → mem unit :=
  object_DeepCopyInto (k := RSafekeeper) SafekeeperSpec_DeepCopyInto SafekeeperStatus_DeepCopyInto.

(** The body the five lists share, but for the copy of an item. *)
Definition list_DeepCopyInto {k} (item_copy : place (ObjectM k) → place (ObjectM k) → mem unit)
    (inp out : place (ListM k)) : mem unit :=
  _ ← assign inp out;
  _ ← assign (fld ListTypeMeta_ inp) (fld ListTypeMeta_ out);
  _ ← ListMeta_DeepCopyInto (fld ListMeta_ inp) (fld ListMeta_ out);
  copy_slice (t := TObject k) item_copy (fld Items_ inp) (fld Items_ out).

Definition BranchList_DeepCopyInto := list_DeepCopyInto Branch_DeepCopyInto.
Definition ClusterList_DeepCopyInto := list_DeepCopyInto Cluster_DeepCopyInto.
Definition PageserverList_DeepCopyInto := list_DeepCopyInto Pageserver_DeepCopyInto.
Definition ProjectList_DeepCopyInto := list_DeepCopyInto Project_DeepCopyInto.
Definition SafekeeperList_DeepCopyInto := list_DeepCopyInto Safekeeper_DeepCopyInto.

(** *** DeepCopy *)

Definition StorageConfig_DeepCopy := copy_new (t := TStorageConfig) StorageConfig_DeepCopyInto.
Definition BranchSpec_DeepCopy := copy_new (t := TSpec RBranch) BranchSpec_DeepCopyInto.
Definition ClusterSpec_DeepCopy := copy_new (t := TSpec RCluster) ClusterSpec_DeepCopyInto.
Definition PageserverSpec_DeepCopy := copy_new (t := TSpec RPageserver) PageserverSpec_DeepCopyInto.
Definition ProjectSpec_DeepCopy := copy_new (t := TSpec RProject) ProjectSpec_DeepCopyInto.
Definition SafekeeperSpec_DeepCopy := copy_new (t := TSpec RSafekeeper) SafekeeperSpec_DeepCopyInto.
Definition BranchStatus_DeepCopy := copy_new (t := TStatus RBranch) BranchStatus_DeepCopyInto.
Definition ClusterStatus_DeepCopy := copy_new (t := TStatus RCluster) ClusterStatus_DeepCopyInto.
Definition PageserverStatus_DeepCopy := copy_new (t := TStatus RPageserver) PageserverStatus_DeepCopyInto.
Definition ProjectStatus_DeepCopy := copy_new (t := TStatus RProject) ProjectStatus_DeepCopyInto.
Definition SafekeeperStatus_DeepCopy := copy_new (t := TStatus RSafekeeper) SafekeeperStatus_DeepCopyInto.
Definition Branch_DeepCopy := copy_new (t := TObject RBranch) Branch_DeepCopyInto.
Definition Cluster_DeepCopy := copy_new (t := TObject RCluster) Cluster_DeepCopyInto.
Definition Pageserver_DeepCopy := copy_new (t := TObject RPageserver) Pageserver_DeepCopyInto.
Definition Project_DeepCopy := copy_new (t := TObject RProject) Project_DeepCopyInto.
Definition Safekeeper_DeepCopy := copy_new (t := TObject RSafekeeper) Safekeeper_DeepCopyInto.
Definition BranchList_DeepCopy := copy_new (t := TList RBranch) BranchList_DeepCopyInto.
Definition ClusterList_DeepCopy := copy_new (t := TList RCluster) ClusterList_DeepCopyInto.
Definition PageserverList_DeepCopy := copy_new (t := TList RPageserver) PageserverList_DeepCopyInto.
Definition ProjectList_DeepCopy := copy_new (t := TList RProject) ProjectList_DeepCopyInto.
Definition SafekeeperList_DeepCopy := copy_new (t := TList RSafekeeper) SafekeeperList_DeepCopyInto.

(** *** DeepCopyObject: the copy as an interface value, nil for nil *)

Definition Branch_DeepCopyObject (inp : option (ptr (TObject RBranch))) : mem (option runtime_Object) :=
  c ← Branch_DeepCopy inp; mret (Object_ RBranch <$> c).
Definition Cluster_DeepCopyObject (inp : option (ptr (TObject RCluster))) : mem (option runtime_Object) :=
  c ← Cluster_DeepCopy inp; mret (Object_ RCluster <$> c).
Definition Pageserver_DeepCopyObject (inp : option (ptr (TObject RPageserver))) : mem (option runtime_Object) :=
  c ← Pageserver_DeepCopy inp; mret (Object_ RPageserver <$> c).
Definition Project_DeepCopyObject (inp : option (ptr (TObject RProject))) : mem (option runtime_Object) :=
  c ← Project_DeepCopy inp; mret (Object_ RProject <$> c).
Definition Safekeeper_DeepCopyObject (inp : option (ptr (TObject RSafekeeper))) : mem (option runtime_Object) :=
  c ← Safekeeper_DeepCopy inp; mret (Object_ RSafekeeper <$> c).
Definition BranchList_DeepCopyObject (inp : option (ptr (TList RBranch))) : mem (option runtime_Object) :=
  c ← BranchList_DeepCopy inp; mret (List_ RBranch <$> c).
Definition ClusterList_DeepCopyObject (inp : option (ptr (TList RCluster))) : mem (option runtime_Object) :=
  c ← ClusterList_DeepCopy inp; mret (List_ RCluster <$> c).
Definition PageserverList_DeepCopyObject (inp : option (ptr (TList RPageserver))) : mem (option runtime_Object) :=
  c ← PageserverList_DeepCopy inp; mret (List_ RPageserver <$> c).
Definition ProjectList_DeepCopyObject (inp : option (ptr (TList RProject))) : mem (option runtime_Object) :=
  c ← ProjectList_DeepCopy inp; mret (List_ RProject <$> c).
Definition SafekeeperList_DeepCopyObject (inp : option (ptr (TList RSafekeeper))) : mem (option runtime_Object) :=
  c ← SafekeeperList_DeepCopy inp; mret (List_ RSafekeeper <$> c).

(** The call through the interface. *)
Definition DeepCopyObject (o : runtime_Object) : mem (option runtime_Object) :=
  match o with
  | Object_ RBranch p => Branch_DeepCopyObject (Some p)
  | Object_ RCluster p => Cluster_DeepCopyObject (Some p)
  | Object_ RPageserver p => Pageserver_DeepCopyObject (Some p)
  | Object_ RProject p => Project_DeepCopyObject (Some p)
  | Object_ RSafekeeper p => Safekeeper_DeepCopyObject (Some p)
  | List_ RBranch p => BranchList_DeepCopyObject (Some p)
  | List_ RCluster p => ClusterList_DeepCopyObject (Some p)
  | List_ RPageserver p => PageserverList_DeepCopyObject (Some p)
  | List_ RProject p => ProjectList_DeepCopyObject (Some p)
  | List_ RSafekeeper p => SafekeeperList_DeepCopyObject (Some p)
  end.
End code.

(** The foreign copies, as their packages document them. *)
Class ForeignCopyLaws `{ForeignCopies} : Prop := {
  ObjectMeta_copies : copies view_ObjectMeta ObjectMeta_DeepCopyInto;
  ListMeta_copies : copies view_ListMeta ListMeta_DeepCopyInto;
  Condition_copies : copies view_flat Condition_DeepCopyInto;
  SecretKeySelector_copies : copies view_flat SecretKeySelector_DeepCopyInto;
}.

Section copies.
Context `{ForeignCopyLaws}.

Lemma assign_refreshes {A} : refreshes (@view_flat A) assign.
Proof. apply copies_refreshes, assign_copies. Qed.

Lemma flat_ptr_refreshes {t} : refreshes (view_opt (view_ptr (t := t) view_flat)) (copy_ptr assign).
Proof. apply copy_ptr_refreshes; [apply _|apply assign_copies]. Qed.

Lemma StorageConfig_copies : copies view_StorageConfig StorageConfig_DeepCopyInto.
Proof.
  intros h inp out a s v Hr Hv. unfold copied, StorageConfig_DeepCopyInto.
  start_struct Hr h1 Hp. apply bind_Some in Hv as (class & Hc & [= <-]).
  next_field StorageClass_ (flat_ptr_refreshes (t := TString)) Hp Hc x h2 Hp2 Hx Hs2.
  eexists _, _, _. split_and!; [done|apply Hp2|]. by read Hx.
Qed.

Lemma ClusterSpec_copies : copies view_ClusterSpec ClusterSpec_DeepCopyInto.
Proof.
  intros h inp out a s v Hr Hv. unfold copied, ClusterSpec_DeepCopyInto.
  start_struct Hr h1 Hp. apply bind_Some in Hv as (bucket & Hb & Hv).
  apply bind_Some in Hv as (database & Hd & [= <-]).
  next_field BucketCredentialsSecret_ (flat_ptr_refreshes (t := TSecretReference)) Hp Hb x h2 Hp2 Hx Hs2.
  next_field StorageControllerDatabaseSecret_
    (copy_ptr_refreshes (t := TSecretKeySelector) _ _ SecretKeySelector_copies) Hp2 Hd y h3 Hp3 Hy Hs3.
  eexists _, _, _. split_and!; [done|apply Hp3|].
  read (view_mono _ _ _ _ Hs3 Hx). by read Hy.
Qed.

Lemma PageserverSpec_copies : copies view_PageserverSpec PageserverSpec_DeepCopyInto.
Proof.
  intros h inp out a s v Hr Hv. unfold copied, PageserverSpec_DeepCopyInto.
  start_struct Hr h1 Hp. apply bind_Some in Hv as (bucket & Hb & Hv).
  apply bind_Some in Hv as (storage & Hd & [= <-]).
  next_field PageserverBucket_ (flat_ptr_refreshes (t := TSecretReference)) Hp Hb x h2 Hp2 Hx Hs2.
  next_field PageserverStorage_ (copies_refreshes _ _ StorageConfig_copies) Hp2 Hd y h3 Hp3 Hy Hs3.
  eexists _, _, _. split_and!; [done|apply Hp3|].
  read (view_mono _ _ _ _ Hs3 Hx). by read Hy.
Qed.

Lemma SafekeeperSpec_copies : copies view_SafekeeperSpec SafekeeperSpec_DeepCopyInto.
Proof.
  intros h inp out a s v Hr Hv. unfold copied, SafekeeperSpec_DeepCopyInto.
  start_struct Hr h1 Hp. apply bind_Some in Hv as (storage & Hd & [= <-]).
  next_field SafekeeperStorage_ (copies_refreshes _ _ StorageConfig_copies) Hp Hd y h3 Hp3 Hy Hs3.
  eexists _, _, _. split_and!; [done|apply Hp3|]. by read Hy.
Qed.

Lemma Status_copies : copies view_Status Status_DeepCopyInto.
Proof.
  intros h inp out a s v Hr Hv. unfold copied, Status_DeepCopyInto.
  start_struct Hr h1 Hp. apply bind_Some in Hv as (conds & Hc & [= <-]).
  next_field Conditions_ (copy_slice_refreshes (t := TCondition) _ _ Condition_copies) Hp Hc x h2 Hp2 Hx Hs2.
  eexists _, _, _. split_and!; [done|apply Hp2|]. by read Hx.
Qed.

Lemma object_copies k spec_copy status_copy :
  refreshes (view_Spec k) spec_copy → refreshes view_Status status_copy →
  copies (view_Object k) (object_DeepCopyInto spec_copy status_copy).
Proof.
  intros Hspec Hstatus h inp out a s v Hr Hv. unfold copied, object_DeepCopyInto.
  start_struct Hr h1 Hp. apply bind_Some in Hv as (m & Hm & Hv).
  apply bind_Some in Hv as (sp & Hsp & Hv). apply bind_Some in Hv as (st & Hst & [= <-]).
  assert (view_flat (delete (pl_base out) h) (om_type a) = Some (om_type a)) as Ht by done.
  next_field (TypeMeta_ (k := k)) (@assign_refreshes TypeMeta) Hp Ht x0 h2 Hp2 Hx0 Hs2.
  next_field (ObjectMeta_ (k := k)) (copies_refreshes _ _ ObjectMeta_copies) Hp2 Hm x1 h3 Hp3 Hx1 Hs3.
  next_field (Spec_ (k := k)) Hspec Hp3 Hsp x2 h4 Hp4 Hx2 Hs4.
  next_field (Status_ (k := k)) Hstatus Hp4 Hst x3 h5 Hp5 Hx3 Hs5.
  eexists _, _, _. split_and!; [done|apply Hp5|]. injection Hx0 as ->.
  read (view_mono _ _ _ _ (transitivity Hs4 Hs5) Hx1). read (view_mono _ _ _ _ Hs5 Hx2). by read Hx3.
Qed.

Lemma list_copies k item_copy :
  copies (view_Object k) item_copy → copies (view_List k) (list_DeepCopyInto item_copy).
Proof.
  intros Hitem h inp out a s v Hr Hv. unfold copied, list_DeepCopyInto.
  start_struct Hr h1 Hp. apply bind_Some in Hv as (m & Hm & Hv).
  apply bind_Some in Hv as (items & Hit & [= <-]).
  assert (view_flat (delete (pl_base out) h) (li_type a) = Some (li_type a)) as Ht by done.
  next_field (ListTypeMeta_ (k := k)) (@assign_refreshes TypeMeta) Hp Ht x0 h2 Hp2 Hx0 Hs2.
  next_field (ListMeta_ (k := k)) (copies_refreshes _ _ ListMeta_copies) Hp2 Hm x1 h3 Hp3 Hx1 Hs3.
  next_field (Items_ (k := k)) (copy_slice_refreshes (t := TObject k) _ _ Hitem) Hp3 Hit x2 h4 Hp4 Hx2 Hs4.
  eexists _, _, _. split_and!; [done|apply Hp4|]. injection Hx0 as ->.
  read (view_mono _ _ _ _ Hs4 Hx1). by read Hx2.
Qed.
End copies.

(** The value of an object behind the interface. *)
Inductive api_value := VObject (k : crd) (v : obj (kind_of k)) | VList (k : crd) (v : ListOf k).

Definition view_runtime (h : heap) (o : runtime_Object) : option api_value :=
  match o with
  | Object_ k p => VObject k <$> view_ptr (t := TObject k) (view_Object k) h p
  | List_ k p => VList k <$> view_ptr (t := TList k) (view_List k) h p
  end.

Lemma view_runtime_mono h1 h2 o v : h1 ⊆ h2 → view_runtime h1 o = Some v → view_runtime h2 o = Some v.
Proof.
  intros Hs. destruct o as [k p|k p]; simpl; intros (x & Hx & ->)%fmap_Some;
    by rewrite (view_mono (vw := view_ptr _) _ _ _ _ Hs Hx).
Qed.

Section isolated.
Context `{ForeignCopyLaws}.

(** The copy of each of the ten types the interface holds. *)
Definition object_copy (k : crd) : place (ObjectM k) → place (ObjectM k) → mem unit :=
  match k with
  | RCluster => Cluster_DeepCopyInto
  | RProject => Project_DeepCopyInto
  | RBranch => Branch_DeepCopyInto
  | RPageserver => Pageserver_DeepCopyInto
  | RSafekeeper => Safekeeper_DeepCopyInto
  end.

Lemma object_copy_copies k : copies (view_Object k) (object_copy k).
Proof.
  destruct k; apply object_copies; first
    [ apply copies_refreshes, Status_copies | apply copies_refreshes, ClusterSpec_copies
    | apply copies_refreshes, PageserverSpec_copies | apply copies_refreshes, SafekeeperSpec_copies
    | apply (@assign_refreshes ProjectSpec) | apply (@assign_refreshes BranchSpec) ].
Qed.

Lemma DeepCopyObject_copy o :
  DeepCopyObject o =
  match o with
  | Object_ k p => c ← copy_new (t := TObject k) (object_copy k) (Some p); mret (Object_ k <$> c)
  | List_ k p => c ← copy_new (t := TList k) (list_DeepCopyInto (object_copy k)) (Some p); mret (List_ k <$> c)
  end.
Proof. by destruct o as [[]|[]]. Qed.

(** C19. DeepCopyObject, for every type of the API and every object in memory, whatever
    its pointers and slices share: it never faults, changes no existing variable, and
    returns a new object that stands for the same value and is readable from the new
    variables alone.  So whatever is written later through the original leaves the copy
    as it was, and whatever is written through the copy leaves the original. *)
Theorem DeepCopyObject_isolated h o v :
  view_runtime h o = Some v →
  ∃ o' hn, DeepCopyObject o h = Some (h ∪ hn, Some o') ∧ hn ##ₘ h ∧
    (∀ h', hn ⊆ h' → view_runtime h' o' = Some v) ∧ (∀ h', h ⊆ h' → view_runtime h' o = Some v).
Proof.
  intros Hv. rewrite DeepCopyObject_copy.
  assert (∀ h', h ⊆ h' → view_runtime h' o = Some v) as Horig by (intros; by eapply view_runtime_mono).
  destruct o as [k p|k p]; apply fmap_Some in Hv as (x & Hx & ->).
  - destruct (copy_new_isolated (t := TObject k) _ _ _ _ _ (object_copy_copies k) Hx) as (q & hn & Hrun & Hd & Hq).
    exists (Object_ k q), hn. split_and!; [by run Hrun|done| |done].
    intros h'. intros Hs. eapply view_runtime_mono; [exact Hs|]. simpl. by rewrite Hq.
  - destruct (copy_new_isolated (t := TList k) _ _ _ _ _ (list_copies k _ (object_copy_copies k)) Hx)
      as (q & hn & Hrun & Hd & Hq).
    exists (List_ k q), hn. split_and!; [by run Hrun|done| |done].
    intros h'. intros Hs. eapply view_runtime_mono; [exact Hs|]. simpl. by rewrite Hq.
Qed.
End isolated.

(** ** Copies of the foreign types, so that their laws are those of something *)

Program Definition Controller_ : field OwnerReferenceM (option (ptr TBool)) :=
  {| fl_get := orm_Controller;
     fl_set := λ a s, {| orm_APIVersion := orm_APIVersion s; orm_Kind := orm_Kind s;
                         orm_Name := orm_Name s; orm_UID := orm_UID s; orm_Controller := a |} |}.
Solve All Obligations with by intros; try destruct s.
Program Definition RemainingItemCount_ : field ListMetaM (option (ptr TInt64)) :=
  {| fl_get := lmm_RemainingItemCount;
     fl_set := λ a s, {| lmm_ResourceVersion := lmm_ResourceVersion s; lmm_Continue := lmm_Continue s;
                         lmm_RemainingItemCount := a |} |}.
Solve All Obligations with by intros; try destruct s.

(** The four fields of [ObjectMeta] that refer to something. *)
Definition set_refs (s : ObjectMetaM) labels annotations owners managed : ObjectMetaM :=
  {| omm_Name := omm_Name s; omm_Namespace := omm_Namespace s; omm_UID := omm_UID s;
     omm_Generation := omm_Generation s; omm_ResourceVersion := omm_ResourceVersion s;
     omm_Labels := labels; omm_Annotations := annotations; omm_OwnerReferences := owners;
     omm_ManagedFields := managed |}.
Program Definition Labels_ : field ObjectMetaM (option (ptr TStringMap)) :=
  {| fl_get := omm_Labels;
     fl_set := λ a s, set_refs s a (omm_Annotations s) (omm_OwnerReferences s) (omm_ManagedFields s) |}.
Solve All Obligations with by intros; try destruct s.
Program Definition Annotations_ : field ObjectMetaM (option (ptr TStringMap)) :=
  {| fl_get := omm_Annotations;
     fl_set := λ a s, set_refs s (omm_Labels s) a (omm_OwnerReferences s) (omm_ManagedFields s) |}.
Solve All Obligations with by intros; try destruct s.
Program Definition OwnerReferences_ : field ObjectMetaM (option (slice TOwnerReference)) :=
  {| fl_get := omm_OwnerReferences;
     fl_set := λ a s, set_refs s (omm_Labels s) (omm_Annotations s) a (omm_ManagedFields s) |}.
Solve All Obligations with by intros; try destruct s.
Program Definition ManagedFields_ : field ObjectMetaM (option (slice TString)) :=
  {| fl_get := omm_ManagedFields;
     fl_set := λ a s, set_refs s (omm_Labels s) (omm_Annotations s) (omm_OwnerReferences s) a |}.
Solve All Obligations with by intros; try destruct s.

Definition ref_OwnerReference (inp out : place OwnerReferenceM) : mem unit :=
  _ ← assign inp out; copy_ptr (t := TBool) assign (fld Controller_ inp) (fld Controller_ out).

Definition ref_ListMeta (inp out : place ListMetaM) : mem unit :=
  _ ← assign inp out;
  copy_ptr (t := TInt64) assign (fld RemainingItemCount_ inp) (fld RemainingItemCount_ out).

Definition ref_ObjectMeta (inp out : place ObjectMetaM) : mem unit :=
  _ ← assign inp out;
  _ ← copy_ptr (t := TStringMap) assign (fld Labels_ inp) (fld Labels_ out);
  _ ← copy_ptr (t := TStringMap) assign (fld Annotations_ inp) (fld Annotations_ out);
  _ ← copy_slice (t := TOwnerReference) ref_OwnerReference (fld OwnerReferences_ inp) (fld OwnerReferences_ out);
  copy_slice (t := TString) assign (fld ManagedFields_ inp) (fld ManagedFields_ out).

Lemma ref_OwnerReference_copies : copies view_OwnerReference ref_OwnerReference.
Proof.
  intros h inp out a s v Hr Hv. unfold copied, ref_OwnerReference.
  start_struct Hr h1 Hp. apply bind_Some in Hv as (c & Hc & [= <-]).
  next_field Controller_ (flat_ptr_refreshes (t := TBool)) Hp Hc x h2 Hp2 Hx Hs2.
  eexists _, _, _. split_and!; [done|apply Hp2|]. by read Hx.
Qed.

Lemma ref_ListMeta_copies : copies view_ListMeta ref_ListMeta.
Proof.
  intros h inp out a s v Hr Hv. unfold copied, ref_ListMeta.
  start_struct Hr h1 Hp. apply bind_Some in Hv as (c & Hc & [= <-]).
  next_field RemainingItemCount_ (flat_ptr_refreshes (t := TInt64)) Hp Hc x h2 Hp2 Hx Hs2.
  eexists _, _, _. split_and!; [done|apply Hp2|]. by read Hx.
Qed.

Lemma map_refreshes : refreshes view_map (copy_ptr (t := TStringMap) assign).
Proof.
  intros h inp out a v Hr (x & Hx & ->)%fmap_Some.
  destruct (flat_ptr_refreshes (t := TStringMap) h inp out a x Hr Hx) as (b & hn & h' & Hrun & Hu & Hb).
  exists b, hn, h'. split_and!; [done..|]. unfold view_map. by rewrite Hb.
Qed.

Lemma ref_ObjectMeta_copies : copies view_ObjectMeta ref_ObjectMeta.
Proof.
  intros h inp out a s v Hr Hv. unfold copied, ref_ObjectMeta.
  start_struct Hr h1 Hp. apply bind_Some in Hv as (l & Hl & Hv). apply bind_Some in Hv as (n & Hn & Hv).
  apply bind_Some in Hv as (w & Hw & Hv). apply bind_Some in Hv as (m & Hm & [= <-]).
  next_field Labels_ map_refreshes Hp Hl x1 h2 Hp2 Hx1 Hs2.
  next_field Annotations_ map_refreshes Hp2 Hn x2 h3 Hp3 Hx2 Hs3.
  next_field OwnerReferences_ (copy_slice_refreshes (t := TOwnerReference) _ _ ref_OwnerReference_copies)
    Hp3 Hw x3 h4 Hp4 Hx3 Hs4.
  next_field ManagedFields_ (copy_slice_refreshes (t := TString) _ _ assign_copies) Hp4 Hm x4 h5 Hp5 Hx4 Hs5.
  eexists _, _, _. split_and!; [done|apply Hp5|].
  read (view_mono _ _ _ _ (transitivity Hs3 (transitivity Hs4 Hs5)) Hx1).
  read (view_mono _ _ _ _ (transitivity Hs4 Hs5) Hx2). read (view_mono _ _ _ _ Hs5 Hx3). by read Hx4.
Qed.

#[local] Instance reference_copies : ForeignCopies := {|
  ObjectMeta_DeepCopyInto := ref_ObjectMeta;
  ListMeta_DeepCopyInto := ref_ListMeta;
  Condition_DeepCopyInto := assign;
  SecretKeySelector_DeepCopyInto := assign;
|}.
#[local] Instance reference_copies_laws : ForeignCopyLaws.
Proof.
  split; [apply ref_ObjectMeta_copies|apply ref_ListMeta_copies|apply assign_copies..].
Qed.

(** A Branch with a label and a condition, and a second variable that shares its label
    map and its conditions. *)
Definition sample_meta : ObjectMetaM :=
  {| omm_Name := "main"; omm_Namespace := "neon"; omm_UID := "u"; omm_Generation := 1;
     omm_ResourceVersion := "7"; omm_Labels := Some (Ptr 2); omm_Annotations := None;
     omm_OwnerReferences := None; omm_ManagedFields := None |}.
Definition sample_condition : Condition :=
  {| cond_Type := "Available"; cond_Status := ConditionTrue; cond_ObservedGeneration := 1;
     cond_LastTransitionTime := 5; cond_Reason := "AsExpected"; cond_Message := "" |}.
Definition sample_branch : ObjectM RBranch :=
  {| om_type := no_TypeMeta; om_meta := sample_meta;
     om_spec := {| brs_TimelineID := "t"; brs_PGVersion := 17; brs_ProjectID := "p" |} : SpecM RBranch;
     om_status := {| stm_ObservedGeneration := 1; stm_Conditions := Some (Slice 3 0 1) |} |}.
Definition sample_heap : heap :=
  {[ 0%nat := Block (TObject RBranch) [sample_branch];
     1%nat := Block (TObject RBranch) [sample_branch];
     2%nat := Block TStringMap [ {[ "app" := "compute" ]} : smap ];
     3%nat := Block TCondition [sample_condition] ]}.

Lemma DeepCopyObject_isolated_witness :
  ∃ v, view_runtime sample_heap (Object_ RBranch (Ptr 0)) = Some v ∧
  ∃ o' hn, DeepCopyObject (Object_ RBranch (Ptr 0)) sample_heap = Some (sample_heap ∪ hn, Some o') ∧
    hn ##ₘ sample_heap ∧ (∀ h', hn ⊆ h' → view_runtime h' o' = Some v) ∧
    (∀ h', sample_heap ⊆ h' → view_runtime h' (Object_ RBranch (Ptr 0)) = Some v).
Proof.
  eexists. split; [vm_compute; reflexivity|].
  apply (DeepCopyObject_isolated sample_heap (Object_ RBranch (Ptr 0))). vm_compute. reflexivity.
Defined.

(** What [*out = *in] alone would do: a condition written through the copy shows in the
    original. *)
Example shallow_copy_leaks :
  let c := {| cond_Type := "Available"; cond_Status := ConditionFalse; cond_ObservedGeneration := 2;
              cond_LastTransitionTime := 9; cond_Reason := "Broken"; cond_Message := "" |} in
  let write (q : ptr (TObject RBranch)) : mem unit :=
    p ← at_index (fld Conditions_ (fld Status_ (deref q))) 0; store p c in
  let shallow : mem unit :=
    q ← new (TObject RBranch);
    _ ← assign (deref (Ptr (t := TObject RBranch) 0)) (deref q); write q in
  let deep : mem unit :=
    q ← Branch_DeepCopy (Some (Ptr 0)); match q with Some q => write q | None => fault end in
  let status (r : option (heap * unit)) : option Status :=
    match r with
    | Some (h, _) => load (fld Status_ (deref (Ptr (t := TObject RBranch) 0))) h ≫= λ '(h, s), view_Status h s
    | None => None
    end in
  status (shallow sample_heap) = Some {| st_ObservedGeneration := 1; st_Conditions := [c] |} ∧
  status (deep sample_heap) = Some {| st_ObservedGeneration := 1; st_Conditions := [sample_condition] |}.
Proof. split; vm_compute; reflexivity. Qed.
