(* ===== verification/PatchMemory.v ===== *)
(** * PatchStatus in memory

    Status.v has objects as values: [PatchStatus] mutates a copy, compares it with the
    object it was made from, and sends the difference.  That is right only if the copy is
    a copy.  Here [PatchStatus] runs on pointers, with closures that write through them
    and a client that reuses what a struct refers to, and is shown to do what the
    function on values does. *)

From S2P Require Import Prelude GoLib KubeTypes Api Interfaces Reference Prog Server Status.
From S2P Require Import Memory Copying DeepCopy.

(** ** Programs that make the same calls *)

Inductive prog_rel {A B} (R : A → B → Prop) : prog A → prog B → Prop :=
  | rel_ret a b : R a b → prog_rel R (Ret a) (Ret b)
  | rel_panic w : prog_rel R (Panic w) (Panic w)
  | rel_vis c k k' : (∀ r, prog_rel R (k r) (k' r)) → prog_rel R (Vis c k) (Vis c k').

Lemma prog_rel_bind {A B A' B'} (R : A → B → Prop) (R' : A' → B' → Prop) p q f g :
  prog_rel R p q → (∀ a b, R a b → prog_rel R' (f a) (g b)) → prog_rel R' (p ≫= f) (q ≫= g).
Proof. intros H Hfg. induction H; simpl; [by apply Hfg|constructor..]. done. Qed.

(** What every environment makes of the one it makes of the other. *)
Definition outcome_rel {A B} (R : A → B → Prop) (o : outcome A) (o' : outcome B) : Prop :=
  match o, o' with
  | Returned a, Returned b => R a b
  | Panicked w, Panicked w' => w = w'
  | _, _ => False
  end.

Lemma prog_rel_wp {A B} (R : A → B → Prop) p q Q :
  prog_rel R p q → wp q Q → wp p (λ tr o, ∃ o', outcome_rel R o o' ∧ Q tr o').
Proof.
  intros H. revert Q. induction H as [a b Hab|w|c k k' _ IH]; intros Q; simpl.
  - intros HQ. by exists (Returned b).
  - intros HQ. by exists (Panicked w).
  - intros HQ r. apply (IH r (λ tr o, Q (Ev c r :: tr) o)), HQ.
Qed.

(** ** Programs with a memory *)

Definition memprog (A : Type) : Type := heap → prog (heap * A).

#[export] Instance memprog_ret : MRet memprog := λ A a h, Ret (h, a).
#[export] Instance memprog_bind : MBind memprog := λ A B f m h, m h ≫= λ '(h', a), f a h'.

Definition on_memory {A} (m : mem A) : memprog A := λ h,
  match m h with
  | Some r => Ret r
  | None => Panic "runtime error: invalid memory address or nil pointer dereference"
  end.
Definition on_server (c : call) : memprog (received c) := λ h, r ← perform c; Ret (h, r).

Lemma on_memory_run {A B} (m : mem A) (f : A → memprog B) h h' a :
  m h = Some (h', a) → (on_memory m ≫= f) h = f a h'.
Proof. intros H. unfold mbind, memprog_bind, on_memory. by rewrite H. Qed.

(** What the memory says of an object, a fault if it says nothing. *)
Definition read {A V} (vw : view_fun A V) (a : A) : mem V := λ h, (λ v, (h, v)) <$> vw h a.

#[export] Instance crd_StatusObject (k : crd) : StatusObject (kind_of k) :=
  match k with
  | RCluster => Cluster_StatusObject
  | RProject => Project_StatusObject
  | RBranch => Branch_StatusObject
  | RPageserver => Pageserver_StatusObject
  | RSafekeeper => Safekeeper_StatusObject
  end.

(** The object a pointer stands for. *)
Abbreviation view_at k := (view_ptr (t := TObject k) (view_Object k)).

(** Decoding an answer of the API server into the struct the caller passed. *)
Class DecodeOps := decode_into (k : crd) : obj (kind_of k) → ptr (TObject k) → mem unit.

(** ** The code *)

Section code.
Context `{ForeignCopies} `{DecodeOps} `{SemanticEqual Status}.

(** [x.DeepCopyObject().(T)] *)
Definition copy_as (k : crd) (p : ptr (TObject k)) : mem (ptr (TObject k)) :=
  o ← DeepCopyObject (Object_ k p);
  match o with
  | Some (Object_ k' q) =>
      match decide (k' = k) with
      | left e => mret (eq_rect _ (λ k, ptr (TObject k)) q _ e)
      | right _ => fault
      end
  | _ => fault
  end.

(** [o.AssignStatusFrom(other)]: the two share their conditions afterwards. *)
Definition AssignStatusFrom_mem {k} (o other : ptr (TObject k)) : mem unit :=
  s ← load (fld Status_ (deref other));
  store (fld Status_ (deref o)) s.

Definition PatchStatus_mem (k : crd) (o : ptr (TObject k)) (mutate : ptr (TObject k) → memprog unit) :
    memprog (option error) :=
  current ← on_memory (copy_as k o);
  m ← on_memory (load (fld ObjectMeta_ (deref o)));
  r ← on_server (CGet (kind_of k) {| nn_Namespace := omm_Namespace m; nn_Name := omm_Name m |});
  match r with
  | Err e => mret (Some e)
  | Ok answer =>
      _ ← on_memory (decode_into k answer current);
      updated ← on_memory (copy_as k current);
      _ ← mutate updated;
      before ← on_memory (read (view_at k) current);
      after ← on_memory (read (view_at k) updated);
      if DeepEqual (StatusValue before) (StatusValue after) then mret None
      else
        w ← on_server (CStatusPatch (kind_of k) before after);
        match w with
        | Err e => mret (Some e)
        | Ok written =>
            _ ← on_memory (decode_into k written updated);
            _ ← on_memory (AssignStatusFrom_mem o updated);
            mret None
        end
  end.
End code.

(** ** A struct's fields are not in the variable the struct is in *)

(** Blocks of type [t] are not read. *)
Class Skips (t : gotype) {A V} (vw : view_fun A V) : Prop :=
  view_skip h l b a v : h !! l = Some b → b_type b = t → vw h a = Some v → vw (delete l h) a = Some v.

Class Distinct (t t' : gotype) : Prop := distinct : t ≠ t'.
#[local] Hint Extern 0 (Distinct _ _) => (intro; discriminate) : typeclass_instances.

#[export] Instance flat_skips {A} t : Skips t (@view_flat A).
Proof. by intros h l b a v _ _. Qed.
#[export] Instance opt_skips {A V} t (vw : view_fun A V) : Skips t vw → Skips t (view_opt vw).
Proof.
  intros Hs h l b [a|] v Hl Hb; simpl; [|done]. intros (x & Hx & ->)%fmap_Some.
  by rewrite (view_skip _ _ _ _ _ Hl Hb Hx).
Qed.

Lemma vars_type t b l : vars t b = Some l → b_type b = t.
Proof. by intros ->%vars_Some. Qed.

#[export] Instance ptr_skips {t' V} t (vw : view_fun (den t') V) :
  Distinct t' t → Skips t vw → Skips t (view_ptr vw).
Proof.
  intros Hd Hs h l b p v Hl Hb (x & Hx & Hv)%bind_Some. unfold view_ptr, pget in *. simpl in *.
  apply bind_Some in Hx as (c & Hc & Hx). unfold var_get in Hx. apply bind_Some in Hx as (vs & Hvs & Hx).
  rewrite lookup_delete_ne.
  - rewrite Hc. simpl. unfold var_get. rewrite Hvs. simpl. rewrite Hx. simpl. by eapply view_skip.
  - intros ->. rewrite Hc in Hl. injection Hl as ->. apply vars_type in Hvs. by destruct Hd; subst.
Qed.
#[export] Instance slice_skips {t' V} t (vw : view_fun (den t') V) :
  Distinct t' t → Skips t vw → Skips t (view_slice vw).
Proof.
  intros Hd Hs h l b p v Hl Hb (xs & Hxs & Hv)%bind_Some. unfold view_slice, slice_vars in *.
  apply bind_Some in Hxs as (c & Hc & Hxs). apply bind_Some in Hxs as (vs & Hvs & Hxs).
  rewrite lookup_delete_ne.
  - rewrite Hc. simpl. rewrite Hvs. simpl. rewrite Hxs. simpl.
    eapply mapM_mono; [|exact Hv]. intros ??. by eapply view_skip.
  - intros ->. rewrite Hc in Hl. injection Hl as ->. apply vars_type in Hvs. by destruct Hd; subst.
Qed.
#[export] Instance list_skips {t' V} t (vw : view_fun (den t') V) :
  Distinct t' t → Skips t vw → Skips t (view_list vw).
Proof.
  intros Hd Hs h l b o v Hl Hb (x & Hx & ->)%fmap_Some. unfold view_list.
  by rewrite (view_skip _ _ _ _ _ Hl Hb Hx).
Qed.
#[export] Instance map_skips t : Distinct TStringMap t → Skips t view_map.
Proof.
  intros Hd h l b o v Hl Hb (x & Hx & ->)%fmap_Some. unfold view_map.
  by rewrite (view_skip _ _ _ _ _ Hl Hb Hx).
Qed.

Ltac solve_skips d :=
  intros ? ? ? ? ? Hl Hb; unfold d;
  repeat first [ apply bind_mono; [intros ?; exact (view_skip _ _ _ _ _ Hl Hb) | intros ?] | done ].

#[export] Instance OwnerReference_skips k : Skips (TObject k) view_OwnerReference.
Proof. solve_skips view_OwnerReference. Qed.
#[export] Instance ObjectMeta_skips k : Skips (TObject k) view_ObjectMeta.
Proof. solve_skips view_ObjectMeta. Qed.
#[export] Instance Status_skips k : Skips (TObject k) view_Status.
Proof. solve_skips view_Status. Qed.
#[export] Instance StorageConfig_skips k : Skips (TObject k) view_StorageConfig.
Proof. solve_skips view_StorageConfig. Qed.
#[export] Instance Spec_skips k k' : Skips (TObject k') (view_Spec k).
Proof.
  destruct k; simpl; [solve_skips view_ClusterSpec|apply _|apply _|solve_skips view_PageserverSpec|].
  solve_skips view_SafekeeperSpec.
Qed.

(** ** Reading and writing an object *)

Section objects.
Context {k : crd}.
Implicit Types (h : heap) (p : ptr (TObject k)) (v : obj (kind_of k)).

(** What a pointer stands for, field by field. *)
Definition object_parts h (ob : ObjectM k) v : Prop :=
  ∃ m sp st, view_ObjectMeta h (om_meta ob) = Some m ∧ view_Spec k h (om_spec ob) = Some sp ∧
  view_Status h (om_status ob) = Some st ∧ v = mk_obj k (om_type ob) m sp st.

Lemma view_Object_parts h ob v : view_Object k h ob = Some v ↔ object_parts h ob v.
Proof.
  split.
  - intros (m & Hm & (sp & Hsp & (st & Hst & [= <-])%bind_Some)%bind_Some)%bind_Some.
    exists m, sp, st. done.
  - intros (m & sp & st & Hm & Hsp & Hst & ->). unfold view_Object.
    rewrite Hm. simpl. rewrite Hsp. simpl. by rewrite Hst.
Qed.

Lemma view_at_parts h p v :
  view_at k h p = Some v → ∃ ob, pget h (deref p) = Some ob ∧ object_parts h ob v.
Proof.
  intros (ob & Hp & Hv)%bind_Some. exists ob. split; [done|]. by apply view_Object_parts.
Qed.

Lemma mk_obj_meta ty m sp st : meta (mk_obj k ty m sp st) = m.
Proof. by destruct k. Qed.
Lemma mk_obj_status ty m sp st : StatusValue (mk_obj k ty m sp st) = st.
Proof. by destruct k. Qed.
Lemma mk_obj_set_Status ty m sp st st' : set_Status (mk_obj k ty m sp st) st' = mk_obj k ty m sp st'.
Proof. by destruct k. Qed.

Lemma pget_deref_block h p ob :
  pget h (deref p) = Some ob → ∃ b, h !! addr p = Some b ∧ b_type b = TObject k.
Proof.
  intros (b & Hb & Hv)%bind_Some. exists b. split; [done|].
  apply bind_Some in Hv as (vs & Hvs & _). by eapply vars_type.
Qed.

(** A new status in the variable of an object. *)
Lemma store_status_run h p v s st :
  view_at k h p = Some v → view_Status h s = Some st →
  ∃ h', store (fld Status_ (deref p)) s h = Some (h', tt) ∧ delete (addr p) h ⊆ h' ∧
    view_at k h' p = Some (set_Status v st).
Proof.
  intros (ob & Hp & m & sp & st0 & Hm & Hsp & Hst0 & ->)%view_at_parts Hst.
  destruct (pget_deref_block _ _ _ Hp) as (b & Hb & Ht).
  destruct (store_run (fld Status_ (deref p)) h s (om_status ob)) as (h' & Hrun & Hu);
    [exact (pget_fld Status_ (deref p) h ob Hp)|].
  apply (updates_fld Status_ (deref p) h ob) in Hu; [|done].
  assert (delete (addr p) h ⊆ h') as Hsub.
  { etrans; [exact (updates_sub _ _ _ _ _ Hu)|apply delete_subseteq]. }
  exists h'. split_and!; [done..|]. rewrite mk_obj_set_Status.
  apply bind_Some. eexists. split; [exact (updates_get _ _ _ _ _ Hu)|]. apply view_Object_parts. exists m, sp, st. split_and!; [| | |done].
  all: eapply view_mono; [exact Hsub|]; by eapply view_skip.
Qed.

Lemma view_at_status h p v ob :
  pget h (deref p) = Some ob → view_at k h p = Some v → view_Status h (om_status ob) = Some (StatusValue v).
Proof.
  intros Hp (ob' & Hp' & m & sp & st & Hm & Hsp & Hst & ->)%view_at_parts.
  rewrite Hp in Hp'. injection Hp' as <-. by rewrite mk_obj_status.
Qed.
End objects.

(** Code that works in a part of the memory works the same with more around it. *)
Lemma load_frame {A} (p : place A) h hr a : pget h p = Some a → pget (h ∪ hr) p = Some a.
Proof. intros H. eapply pget_mono; [apply map_union_subseteq_l|exact H]. Qed.

Lemma store_frame {A} (p : place A) (a : A) h h' hr :
  store p a h = Some (h', tt) → h ##ₘ hr → store p a (h ∪ hr) = Some (h' ∪ hr, tt) ∧ h' ##ₘ hr.
Proof.
  unfold store. intros (b & Hb & (b' & Hput & [= <-])%bind_Some)%bind_Some Hd.
  rewrite (lookup_union_Some_l _ _ _ _ Hb). simpl. rewrite Hput. simpl.
  rewrite insert_union_l. split; [done|]. apply map_disjoint_insert_l_2; [|done].
  by eapply map_disjoint_Some_r.
Qed.

(** ** The contracts *)

(** The client overwrites a struct and what it refers to, and touches nothing else. *)
Class DecodeLaws `{DecodeOps} : Prop :=
  decode_into_local k v p v0 ho hr :
    ho ##ₘ hr → view_at k ho p = Some v0 →
    ∃ ho', decode_into k v p (ho ∪ hr) = Some (ho' ∪ hr, tt) ∧ ho' ##ₘ hr ∧ view_at k ho' p = Some v.

(** A closure that changes the object it is given, and what that refers to, the way [f]
    changes values. *)
Definition mutates (k : crd) (mutate : ptr (TObject k) → memprog unit)
    (f : obj (kind_of k) → prog (obj (kind_of k))) : Prop :=
  ∀ ho hr p v, ho ##ₘ hr → view_at k ho p = Some v →
  prog_rel (λ r v', ∃ ho', r.1 = ho' ∪ hr ∧ ho' ##ₘ hr ∧ view_at k ho' p = Some v')
    (mutate p (ho ∪ hr)) (f v).

Lemma mutates_seq k m1 m2 f1 f2 :
  mutates k m1 f1 → mutates k m2 f2 →
  mutates k (λ p, _ ← m1 p; m2 p) (λ v, v' ← f1 v; f2 v').
Proof.
  intros H1 H2 ho hr p v Hd Hv. eapply prog_rel_bind; [by apply H1|].
  intros [h []] v' (ho' & Heq & Hd' & Hv'). simpl in Heq. subst h. by apply H2.
Qed.

(** [o.SetObservedGeneration(g)] *)
Definition SetObservedGeneration_mem {k} (g : Z) (p : ptr (TObject k)) : memprog unit :=
  on_memory (store (fld ObservedGeneration_ (fld Status_ (deref p))) g).

(** ** PatchStatus on pointers is PatchStatus on values *)

Section patch.
Context `{ForeignCopyLaws} `{DecodeLaws} `{SemanticEqual Status}.

Lemma copy_as_run k h p v :
  view_at k h p = Some v →
  ∃ q hn, copy_as k p h = Some (h ∪ hn, q) ∧ hn ##ₘ h ∧ view_at k hn q = Some v.
Proof.
  intros Hv. unfold copy_as. rewrite DeepCopyObject_copy.
  destruct (copy_new_isolated (t := TObject k) _ _ _ _ _ (object_copy_copies k) Hv) as (q & hn & Hrun & Hd & Hq).
  exists q, hn. split_and!; [|done..].
  erewrite mem_bind_run; [|by erewrite mem_bind_run; [|exact Hrun]]. simpl.
  destruct (decide (k = k)) as [e|]; [|done]. by rewrite (proof_irrel e eq_refl).
Qed.

Lemma assign_status_run k h (o other : ptr (TObject k)) v w :
  view_at k h o = Some v → view_at k h other = Some w →
  ∃ h', AssignStatusFrom_mem o other h = Some (h', tt) ∧ delete (addr o) h ⊆ h' ∧
    view_at k h' o = Some (AssignStatusFrom v w).
Proof.
  intros Hv Hw. destruct (view_at_parts _ _ _ Hw) as (ob & Hp & _).
  destruct (store_status_run h o v (om_status ob) (StatusValue w) Hv) as (h' & Hrun & Hsub & Hv').
  { by eapply view_at_status. }
  exists h'. split_and!; [|done..]. unfold AssignStatusFrom_mem.
  erewrite mem_bind_run; [exact Hrun|]. apply load_run. by apply (pget_fld Status_ (deref other)).
Qed.

Lemma key_run k h (o : ptr (TObject k)) v :
  view_at k h o = Some v →
  ∃ m, load (fld ObjectMeta_ (deref o)) h = Some (h, m) ∧
    {| nn_Namespace := omm_Namespace m; nn_Name := omm_Name m |} = key_of (meta v).
Proof.
  intros (ob & Hp & m & sp & st & Hm & _ & _ & ->)%view_at_parts.
  exists (om_meta ob). split; [apply load_run; by apply (pget_fld ObjectMeta_ (deref o))|].
  rewrite mk_obj_meta. unfold view_ObjectMeta in Hm.
  repeat (apply bind_Some in Hm as (? & _ & Hm)). by injection Hm as <-.
Qed.

Lemma rel_server {A B} (R : heap * A → B → Prop) c f g h :
  (∀ r, prog_rel R (f r h) (g r)) → prog_rel R ((on_server c ≫= f) h) (perform c ≫= g).
Proof. intros Hk. constructor. intros r. apply Hk. Qed.

Lemma read_run {A V} (vw : view_fun A V) h a v : vw h a = Some v → read vw a h = Some (h, v).
Proof. unfold read. by intros ->. Qed.

(** How the two end: the same error, the object as the value version returns it, and
    everything but the variable the object is in left as it was. *)
Definition patched_as k (h : heap) (o : ptr (TObject k)) (r : heap * option error)
    (r' : obj (kind_of k) * option error) : Prop :=
  r.2 = r'.2 ∧ delete (addr o) h ⊆ r.1 ∧ view_at k (r.1) o = Some (r'.1).

Lemma patched_unchanged k h h' (o : ptr (TObject k)) v e :
  view_at k h o = Some v → h ⊆ h' → patched_as k h o (h', e) (v, e).
Proof.
  intros Hv Hs. split_and!; [done| |by eapply view_mono].
  etrans; [apply delete_subseteq|exact Hs].
Qed.

(** From the comparison on: [current] lives in [h0], which holds all there was before
    [updated], and [updated] in [hu]. *)
Lemma patch_tail k h h0 hu (o current updated : ptr (TObject k)) v cur upd :
  view_at k h o = Some v → h ⊆ h0 → hu ##ₘ h0 →
  view_at k h0 current = Some cur → view_at k hu updated = Some upd →
  prog_rel (patched_as k h o)
    ((before ← on_memory (read (view_at k) current);
      after ← on_memory (read (view_at k) updated);
      if DeepEqual (StatusValue before) (StatusValue after) then mret None
      else
        w ← on_server (CStatusPatch (kind_of k) before after);
        match w with
        | Err e => mret (Some e)
        | Ok written =>
            _ ← on_memory (decode_into k written updated);
            _ ← on_memory (AssignStatusFrom_mem o updated);
            mret None
        end) (hu ∪ h0))
    (if DeepEqual (StatusValue cur) (StatusValue upd) then Ret (v, None)
     else let_ok written := StatusPatch (kind_of k) cur upd or e return Ret (v, Some e);
          Ret (AssignStatusFrom v written, None)).
Proof.
  intros Hv Hsub Hd Hcur Hupd.
  assert (h ⊆ hu ∪ h0) as Hsub' by (etrans; [exact Hsub|by apply map_union_subseteq_r]).
  rewrite (on_memory_run _ _ (hu ∪ h0) (hu ∪ h0) cur);
    [|apply read_run; eapply view_mono; [by apply map_union_subseteq_r|exact Hcur]].
  rewrite (on_memory_run _ _ (hu ∪ h0) (hu ∪ h0) upd);
    [|apply read_run; eapply view_mono; [apply map_union_subseteq_l|exact Hupd]].
  destruct (DeepEqual _ _); [constructor; by apply patched_unchanged|].
  apply rel_server. intros [written|e]; [|constructor; by apply patched_unchanged].
  destruct (decode_into_local k written updated upd hu h0 Hd Hupd) as (hu' & Hrun & Hd' & Hw).
  rewrite (on_memory_run _ _ _ _ _ Hrun). clear Hrun.
  assert (h ⊆ hu' ∪ h0) as Hsub2 by (etrans; [exact Hsub|by apply map_union_subseteq_r]).
  destruct (assign_status_run k (hu' ∪ h0) o updated v written) as (h' & Hrun & Hs & Hv').
  { by eapply view_mono. }
  { eapply view_mono; [apply map_union_subseteq_l|exact Hw]. }
  rewrite (on_memory_run _ _ _ _ _ Hrun). constructor. split_and!; [done| |done].
  etrans; [by apply delete_mono|exact Hs].
Qed.

(** PatchStatus as it runs, on pointers into a shared memory, is PatchStatus on
    values: the same calls with the same arguments in the same order, the same error, and
    the object the caller holds ends up standing for the object the value version
    returns; nothing else the caller could reach has changed.  It holds for every object
    in memory, whatever it shares with others, every closure that writes only through
    the pointer it is given, and a client that decodes its answers into the memory of the
    struct it is passed.  The base of the patch is what was read, because the closure
    cannot reach it. *)
Lemma PatchStatus_mem_rel k h (o : ptr (TObject k)) v mutate f :
  view_at k h o = Some v → mutates k mutate f →
  prog_rel (patched_as k h o) (PatchStatus_mem k o mutate h) (PatchStatus v f).
Proof.
  intros Hv Hmut. unfold PatchStatus_mem, PatchStatus.
  destruct (copy_as_run k h o v Hv) as (current & hc & Hrun & Hdc & Hcur).
  rewrite (on_memory_run _ _ _ _ _ Hrun). clear Hrun.
  assert (h ⊆ h ∪ hc) as Hsub by apply map_union_subseteq_l.
  destruct (key_run k (h ∪ hc) o v) as (m & Hrun & Hkey); [by eapply view_mono|].
  rewrite (on_memory_run _ _ _ _ _ Hrun), Hkey. clear Hrun Hkey.
  apply rel_server. intros [answer|e]; [|constructor; by apply patched_unchanged].
  destruct (decode_into_local k answer current v hc h Hdc Hcur) as (hc' & Hrun & Hdc' & Hcur').
  rewrite (map_union_comm h hc) by done. cbn [receive from_env].
  rewrite (on_memory_run _ _ _ _ _ Hrun). clear Hrun.
  destruct (copy_as_run k (hc' ∪ h) current answer) as (updated & hu & Hrun & Hdu & Hupd).
  { eapply view_mono; [apply map_union_subseteq_l|exact Hcur']. }
  rewrite (on_memory_run _ _ _ _ _ Hrun). clear Hrun.
  rewrite (map_union_comm _ hu) by done.
  eapply prog_rel_bind; [by apply Hmut|].
  intros [h3 []] upd (hu' & Heq & Hdu' & Hupd'). simpl in Heq. subst h3.
  apply (patch_tail k h (hc' ∪ h) hu' o current updated v answer upd); try done.
  - by apply map_union_subseteq_r.
  - eapply view_mono; [apply map_union_subseteq_l|exact Hcur'].
Qed.
End patch.

(** ** A closure of the program: the status of a resource backed by a StatefulSet *)

(** [meta.SetStatusCondition] writes through the pointer to the conditions. *)
Class ConditionMemOps := set_status_condition : Z → place (option (slice TCondition)) → Condition → mem unit.

(** [o.StatusConditions()] *)
Definition StatusConditions_mem {k} (p : ptr (TObject k)) : place (option (slice TCondition)) :=
  fld Conditions_ (fld Status_ (deref p)).

Class ConditionMemLaws `{ConditionOps} `{ConditionMemOps} : Prop :=
  set_status_condition_local k (p : ptr (TObject k)) v now c ho hr :
    ho ##ₘ hr → view_at k ho p = Some v →
    ∃ ho', set_status_condition now (StatusConditions_mem p) c (ho ∪ hr) = Some (ho' ∪ hr, tt) ∧
      ho' ##ₘ hr ∧ view_at k ho' p = Some (set_Conditions v (SetStatusCondition now (StatusConditions v) c)).

Definition on_prog {A} (p : prog A) : memprog A := λ h, a ← p; Ret (h, a).

Section closure.
Context `{ConditionMemOps}.

Definition SetCondition_mem {k} (p : ptr (TObject k)) (t : string) (status : ConditionStatus)
    (reason message : string) : memprog unit :=
  m ← on_memory (load (fld ObjectMeta_ (deref p)));
  now ← on_server CNow;
  on_memory (set_status_condition now (StatusConditions_mem p)
    {| cond_Type := t; cond_Status := status; cond_ObservedGeneration := omm_Generation m;
       cond_LastTransitionTime := 0; cond_Reason := reason; cond_Message := message |}).

(** The closure of [UpdateSTSBackedStatus]; [ns] is the namespace of the caller's object,
    which nothing changes meanwhile. *)
Definition sts_status_mem {k} (ns stsName label : string) (reconcileErr : option error)
    (stsr : result StatefulSet) (p : ptr (TObject k)) : memprog unit :=
  m ← on_memory (load (fld ObjectMeta_ (deref p)));
  _ ← SetObservedGeneration_mem (omm_Generation m) p;
  match reconcileErr with
  | Some err =>
      let msg := Error err in
      _ ← SetCondition_mem p ConditionResourcesReady ConditionFalse ReasonResourceCreateFailed msg;
      _ ← SetCondition_mem p ConditionAvailable ConditionFalse ReasonResourceCreateFailed msg;
      SetCondition_mem p ConditionProgressing ConditionTrue ReasonReconciling
        "Retrying after resource creation failure"
  | None =>
      _ ← SetCondition_mem p ConditionResourcesReady ConditionTrue ReasonAsExpected
        "Child resources reconciled";
      match stsr with
      | Err e =>
          if IsNotFound e then
            _ ← SetCondition_mem p ConditionAvailable ConditionFalse ReasonChildResourceMissing
              (label +:+ " StatefulSet has not been observed yet");
            SetCondition_mem p ConditionProgressing ConditionTrue ReasonReconciling
              "Waiting for child StatefulSet to appear"
          else
            _ ← SetCondition_mem p ConditionAvailable ConditionUnknown ReasonChildResourceMissing (Error e);
            SetCondition_mem p ConditionProgressing ConditionTrue ReasonReconciling
              "Could not read child StatefulSet"
      | Ok sts =>
          if IsStatefulSetReady (Some sts) then
            _ ← SetCondition_mem p ConditionAvailable ConditionTrue ReasonAsExpected
              (label +:+ " StatefulSet is Ready");
            SetCondition_mem p ConditionProgressing ConditionFalse ReasonAsExpected
              (label +:+ " is at desired state")
          else
            d ← on_prog (sts_not_ready_detail ns stsName label);
            let '(reason, message) := d in
            _ ← SetCondition_mem p ConditionAvailable ConditionFalse reason message;
            SetCondition_mem p ConditionProgressing ConditionTrue ReasonReconciling
              ("Waiting for " +:+ label +:+ " StatefulSet readiness")
      end
  end.

Definition UpdateSTSBackedStatus_mem `{ForeignCopies} `{DecodeOps} `{SemanticEqual Status}
    (k : crd) (o : ptr (TObject k)) (stsName label : string) (reconcileErr : option error) :
    memprog (option error) :=
  m ← on_memory (load (fld ObjectMeta_ (deref o)));
  let ns := omm_Namespace m in
  stsr ← on_server (CGet KStatefulSet {| nn_Namespace := ns; nn_Name := stsName |});
  PatchStatus_mem k o (sts_status_mem ns stsName label reconcileErr stsr).
End closure.

(** The pointer stands for [v], in memory apart from [hr]. *)
Definition stands k (p : ptr (TObject k)) (hr : heap) (r : heap * unit) (v : obj (kind_of k)) : Prop :=
  ∃ ho', r.1 = ho' ∪ hr ∧ ho' ##ₘ hr ∧ view_at k ho' p = Some v.

Lemma meta_run k h (o : ptr (TObject k)) v :
  view_at k h o = Some v →
  ∃ m, load (fld ObjectMeta_ (deref o)) h = Some (h, m) ∧ omm_Generation m = om_Generation (meta v) ∧
    omm_Namespace m = om_Namespace (meta v) ∧ omm_Name m = om_Name (meta v).
Proof.
  intros (ob & Hp & m & sp & st & Hm & _ & _ & ->)%view_at_parts.
  exists (om_meta ob). split; [apply load_run; exact (pget_fld ObjectMeta_ (deref o) _ _ Hp)|].
  rewrite mk_obj_meta. unfold view_ObjectMeta in Hm.
  repeat (apply bind_Some in Hm as (? & _ & Hm)). by injection Hm as <-.
Qed.

Lemma view_frame k (ho hr : heap) (p : ptr (TObject k)) v :
  view_at k ho p = Some v → view_at k (ho ∪ hr) p = Some v.
Proof. intros Hv. eapply view_mono; [apply map_union_subseteq_l|exact Hv]. Qed.

(** A store to a field is a store to the struct. *)
Lemma store_fld {S A} (f : field S A) (p : place S) h s a :
  pget h p = Some s → store (fld f p) a h = store p (fl_set f a s) h.
Proof. intros (b & Hb & Hs)%bind_Some. unfold store. simpl. rewrite Hb. simpl. by rewrite Hs. Qed.

Lemma SetObservedGeneration_mem_local k (ho hr : heap) (p : ptr (TObject k)) v g :
  ho ##ₘ hr → view_at k ho p = Some v →
  ∃ h', store (fld ObservedGeneration_ (fld Status_ (deref p))) g (ho ∪ hr) = Some (h', tt) ∧
    stands k p hr (h', tt) (SetObservedGeneration v g).
Proof.
  intros Hd Hv. destruct (view_at_parts _ _ _ Hv) as (ob & Hp & _).
  pose proof (view_at_status _ _ _ _ Hp Hv) as Hst.
  apply bind_Some in Hst as (cs & Hcs & [= Hst]).
  destruct (store_status_run ho p v (fl_set ObservedGeneration_ g (om_status ob))
    {| st_ObservedGeneration := g; st_Conditions := st_Conditions (StatusValue v) |} Hv)
    as (ho' & Hrun & _ & Hv').
  { apply bind_Some. exists cs. split; [exact Hcs|]. by rewrite <-Hst. }
  destruct (store_frame _ _ _ _ hr Hrun Hd) as [Hrun' Hd'].
  exists (ho' ∪ hr). split; [|by exists ho'].
  rewrite (store_fld _ _ _ (om_status ob)); [done|].
  exact (pget_fld Status_ (deref p) _ _ (load_frame _ _ _ _ Hp)).
Qed.

Lemma set_Conditions_same {k} `{StatusObject k} (o : obj k) : set_Conditions o (StatusConditions o) = o.
Proof.
  unfold set_Conditions, StatusConditions. destruct (StatusValue o) as [g cs] eqn:E.
  rewrite <-(set_Status_StatusValue o) at 2. by rewrite E.
Qed.

Lemma prog_rel_ret_r {A B C} (R : A → B → Prop) (R' : A → C → Prop) p q (g : B → C) :
  prog_rel R p q → (∀ a b, R a b → R' a (g b)) → prog_rel R' p (q ≫= λ b, Ret (g b)).
Proof. intros Hpq Hg. induction Hpq; simpl; constructor; auto. Qed.

Lemma prog_rel_pure {A} (p : prog A) h : prog_rel (λ r a, r = (h, a)) (on_prog p h) p.
Proof. unfold on_prog. induction p; simpl; by constructor. Qed.

Section closure_rel.
Context `{ConditionMemLaws}.

Lemma SetCondition_mem_rel k hr (p : ptr (TObject k)) o conds t status reason message h :
  stands k p hr (h, tt) (set_Conditions o conds) →
  prog_rel (λ r conds', stands k p hr r (set_Conditions o conds'))
    (SetCondition_mem p t status reason message h) (SetCondition o conds t status reason message).
Proof.
  intros (ho & Heq & Hd & Hv). simpl in Heq. subst h. unfold SetCondition_mem, SetCondition.
  destruct (meta_run k (ho ∪ hr) p _ (view_frame _ _ _ _ _ Hv)) as (m & Hrun & Hgen & _).
  rewrite (on_memory_run _ _ _ _ _ Hrun). autorewrite with neon in Hgen. rewrite Hgen.
  apply rel_server. intros now. cbn [receive].
  destruct (set_status_condition_local k p _ now
    {| cond_Type := t; cond_Status := status; cond_ObservedGeneration := om_Generation (meta o);
       cond_LastTransitionTime := 0; cond_Reason := reason; cond_Message := message |} ho hr Hd Hv)
    as (ho' & Hrun' & Hd' & Hv').
  unfold on_memory. rewrite Hrun'. constructor. exists ho'. split_and!; [done..|].
  autorewrite with neon in Hv'. unfold set_Conditions in *. by autorewrite with neon in Hv'.
Qed.

(** The next condition, and the last one. *)
Ltac next_condition :=
  eapply prog_rel_bind; [apply SetCondition_mem_rel; eassumption|]; intros [? []] ? ?.
Ltac last_condition :=
  eapply prog_rel_ret_r; [apply SetCondition_mem_rel; eassumption|done].

Lemma sts_status_mem_mutates k ns stsName label reconcileErr stsr :
  mutates k (sts_status_mem ns stsName label reconcileErr stsr) (sts_status ns stsName label reconcileErr stsr).
Proof.
  intros ho hr p v Hd Hv. unfold sts_status_mem, sts_status.
  destruct (meta_run k (ho ∪ hr) p _ (view_frame _ _ _ _ _ Hv)) as (m & Hrun & Hgen & _).
  rewrite (on_memory_run _ _ _ _ _ Hrun), Hgen.
  destruct (SetObservedGeneration_mem_local k ho hr p v (om_Generation (meta v)) Hd Hv) as (h1 & Hrun1 & Hst).
  rewrite (on_memory_run _ _ _ _ _ Hrun1). clear Hrun Hrun1.
  set (o := SetObservedGeneration v (om_Generation (meta v))) in *.
  rewrite <-(set_Conditions_same o) in Hst.
  set (conds := StatusConditions o) in *. clearbody o conds.
  fold (stands k p hr). destruct reconcileErr as [err|].
  { next_condition. next_condition. last_condition. }
  next_condition. destruct stsr as [sts|e].
  - destruct (IsStatefulSetReady _).
    + next_condition. last_condition.
    + eapply prog_rel_bind; [apply prog_rel_pure|]. intros ? [reason message] ->.
      next_condition. last_condition.
  - destruct (IsNotFound e); next_condition; last_condition.
Qed.
End closure_rel.

Section sts_backed.
Context `{ForeignCopyLaws} `{DecodeLaws} `{ConditionMemLaws} `{SemanticEqual Status}.

(** C18. The status update of a Pageserver or Safekeeper in memory: run on pointers, with
    its closure writing conditions through the pointer it is given and every struct it
    refers to shared or not, it makes the calls of the update on values, with the same
    arguments, ends with the same error, and leaves the caller's pointer standing for the
    object the update on values returns; nothing else the caller could reach changes. *)
Theorem UpdateSTSBackedStatus_mem_refines k h (o : ptr (TObject k)) v stsName label reconcileErr :
  view_at k h o = Some v →
  prog_rel (patched_as k h o) (UpdateSTSBackedStatus_mem k o stsName label reconcileErr h)
    (UpdateSTSBackedStatus v stsName label reconcileErr).
Proof.
  intros Hv. unfold UpdateSTSBackedStatus_mem, UpdateSTSBackedStatus.
  destruct (meta_run k h o v Hv) as (m & Hrun & _ & Hns & _).
  rewrite (on_memory_run _ _ _ _ _ Hrun). cbv zeta. rewrite Hns. apply rel_server. intros stsr.
  apply PatchStatus_mem_rel; [done|]. apply sts_status_mem_mutates.
Qed.
End sts_backed.

(** ** A client and a condition writer, so that their laws are those of something *)

(** Code that makes new memory standing for [v]. *)
Definition embeds {A V} (vw : view_fun A V) (emb : V → mem A) : Prop :=
  ∀ h v, ∃ a hn, emb v h = Some (h ∪ hn, a) ∧ hn ##ₘ h ∧ vw hn a = Some v.

Section embed.
Context {t : gotype}.

Definition embed_flat (v : den t) : mem (den t) := mret v.

Definition embed_opt_ptr (o : option (den t)) : mem (option (ptr t)) :=
  match o with
  | None => mret None
  | Some x => l ← alloc (Block t [x]); mret (Some (Ptr l))
  end.

Fixpoint embed_all {V} (emb : V → mem (den t)) (vs : list V) : mem (list (den t)) :=
  match vs with
  | [] => mret []
  | v :: vs => x ← emb v; xs ← embed_all emb vs; mret (x :: xs)
  end.

Definition embed_list {V} (emb : V → mem (den t)) (vs : list V) : mem (option (slice t)) :=
  xs ← embed_all emb vs; l ← alloc (Block t xs); mret (Some (Slice l 0 (length xs))).
End embed.

Definition embed_map (m : smap) : mem (option (ptr TStringMap)) := embed_opt_ptr (t := TStringMap) (Some m).

(** One more piece next to those made since [h0]. *)
Lemma embed_next {A V} (vw : view_fun A V) `{!Mono vw} emb h0 hn v :
  embeds vw emb → hn ##ₘ h0 →
  ∃ a hn', emb v (h0 ∪ hn) = Some (h0 ∪ hn', a) ∧ hn' ##ₘ h0 ∧ hn ⊆ hn' ∧ vw hn' a = Some v.
Proof.
  intros He Hd. destruct (He (h0 ∪ hn) v) as (a & hm & Hrun & Hdm & Ha).
  apply map_disjoint_union_r in Hdm as [Hdm Hdm'].
  exists a, (hn ∪ hm). split_and!.
  - by rewrite map_union_assoc.
  - by apply map_disjoint_union_l_2.
  - apply map_union_subseteq_l.
  - eapply view_mono; [|exact Ha]. by apply map_union_subseteq_r.
Qed.

Lemma alloc_next b h0 hn :
  hn ##ₘ h0 → ∃ l, alloc b (h0 ∪ hn) = Some (h0 ∪ <[l := b]> hn, l) ∧ <[l := b]> hn ##ₘ h0 ∧ hn !! l = None.
Proof.
  intros Hd. destruct (alloc_run b (h0 ∪ hn)) as (l & [Hl Hl']%lookup_union_None & Hrun). exists l.
  split_and!; [|by apply map_disjoint_insert_l_2|done]. by rewrite Hrun, insert_union_r.
Qed.

(** Nothing has been made yet. *)
Lemma embed_start {A} (m : mem A) h (Q : heap → A → Prop) :
  (∅ ##ₘ h → ∃ a hn, m (h ∪ ∅) = Some (h ∪ hn, a) ∧ hn ##ₘ h ∧ Q hn a) →
  ∃ a hn, m h = Some (h ∪ hn, a) ∧ hn ##ₘ h ∧ Q hn a.
Proof. rewrite map_union_empty. intros Hm. apply Hm, map_disjoint_empty_l. Qed.

Ltac start_embed Q := apply (embed_start _ _ Q); intros ?.
Ltac embed_field L v a hn Hd Hs Ha :=
  let Hrun := fresh in
  match goal with
  | D : ?hm ##ₘ ?h |- _ =>
      destruct (embed_next _ _ h hm v L D) as (a & hn & Hrun & Hd & Hs & Ha); clear D; run Hrun; clear Hrun
  end.

Lemma embed_flat_embeds {t} : embeds (@view_flat (den t)) embed_flat.
Proof. intros h v. exists v, ∅. split_and!; [by rewrite map_union_empty|apply map_disjoint_empty_l|done]. Qed.

Lemma embed_opt_ptr_embeds {t} : embeds (view_opt (view_ptr (t := t) view_flat)) embed_opt_ptr.
Proof.
  intros h [x|].
  - start_embed (λ hn a, view_opt (view_ptr (t := t) view_flat) hn a = Some (Some x)). simpl.
    destruct (alloc_next (Block t [x]) h ∅) as (l & Hrun & Hd & Hl); [done|]. run Hrun.
    exists (Some (Ptr l)), (<[l := Block t [x]]> ∅). split_and!; [done..|].
    simpl. unfold view_ptr. rewrite (pget_new _ l [x] 0 x); [done|by rewrite lookup_insert_eq|done].
  - exists None, ∅. split_and!; [by rewrite map_union_empty|apply map_disjoint_empty_l|done].
Qed.

Lemma embed_map_embeds : embeds view_map embed_map.
Proof.
  intros h v. destruct (embed_opt_ptr_embeds (t := TStringMap) h (Some v)) as (a & hn & Hrun & Hd & Ha).
  exists a, hn. split_and!; [done..|]. unfold view_map. by rewrite Ha.
Qed.

Lemma embed_all_next {t V} (vw : view_fun (den t) V) `{!Mono vw} emb vs h0 hn :
  embeds vw emb → hn ##ₘ h0 →
  ∃ xs hn', embed_all emb vs (h0 ∪ hn) = Some (h0 ∪ hn', xs) ∧ hn' ##ₘ h0 ∧ hn ⊆ hn' ∧
    mapM (vw hn') xs = Some vs.
Proof.
  intros He. revert hn. induction vs as [|v vs IH]; intros hn Hd.
  - exists [], hn. by split_and!.
  - simpl. destruct (embed_next vw emb h0 hn v He Hd) as (x & h1 & Hrun & Hd1 & Hs1 & Hx). run Hrun.
    destruct (IH h1 Hd1) as (xs & h2 & Hrun2 & Hd2 & Hs2 & Hxs). run Hrun2.
    exists (x :: xs), h2. split_and!; [done|done|by etrans|].
    simpl. rewrite (view_mono _ _ _ _ Hs2 Hx). simpl. by rewrite Hxs.
Qed.

Lemma embed_list_embeds {t V} (vw : view_fun (den t) V) `{!Mono vw} emb :
  embeds vw emb → embeds (view_list vw) (embed_list emb).
Proof.
  intros He h vs. start_embed (λ hn a, view_list vw hn a = Some vs). unfold embed_list.
  destruct (embed_all_next vw emb vs h ∅ He) as (xs & h1 & Hrun & Hd & _ & Hxs); [done|]. run Hrun.
  destruct (alloc_next (Block t xs) h h1 Hd) as (l & Hrun2 & Hd2 & Hl). run Hrun2.
  eexists _, (<[l := Block t xs]> h1). split_and!; [done..|]. by apply view_list_new.
Qed.

Definition embed_OwnerReference (r : OwnerReference) : mem OwnerReferenceM :=
  c ← embed_opt_ptr (t := TBool) (or_Controller r);
  mret {| orm_APIVersion := or_APIVersion r; orm_Kind := or_Kind r; orm_Name := or_Name r;
          orm_UID := or_UID r; orm_Controller := c |}.

Definition embed_ObjectMeta (m : ObjectMeta) : mem ObjectMetaM :=
  labels ← embed_map (om_Labels m);
  annotations ← embed_map (om_Annotations m);
  owners ← embed_list (t := TOwnerReference) embed_OwnerReference (om_OwnerReferences m);
  managed ← embed_list (t := TString) (embed_flat (t := TString)) (om_ManagedFields m);
  mret {| omm_Name := om_Name m; omm_Namespace := om_Namespace m; omm_UID := om_UID m;
          omm_Generation := om_Generation m; omm_ResourceVersion := om_ResourceVersion m;
          omm_Labels := labels; omm_Annotations := annotations;
          omm_OwnerReferences := owners; omm_ManagedFields := managed |}.

Definition embed_StorageConfig (c : StorageConfig) : mem StorageConfigM :=
  class ← embed_opt_ptr (t := TString) (stc_StorageClass c);
  mret {| stcm_StorageClass := class; stcm_Size := stc_Size c |}.

Definition embed_Spec (k : crd) : SpecV k → mem (SpecM k) :=
  match k with
  | RCluster => λ s : ClusterSpec,
      bucket ← embed_opt_ptr (t := TSecretReference) (cls_BucketCredentialsSecret s);
      database ← embed_opt_ptr (t := TSecretKeySelector) (cls_StorageControllerDatabaseSecret s);
      mret {| clsm_NumSafekeepers := cls_NumSafekeepers s; clsm_DefaultPGVersion := cls_DefaultPGVersion s;
              clsm_NeonImage := cls_NeonImage s; clsm_BucketCredentialsSecret := bucket;
              clsm_StorageControllerDatabaseSecret := database |}
  | RProject => mret
  | RBranch => mret
  | RPageserver => λ s : PageserverSpec,
      bucket ← embed_opt_ptr (t := TSecretReference) (pss_BucketCredentialsSecret s);
      storage ← embed_StorageConfig (pss_StorageConfig s);
      mret {| pssm_ID := pss_ID s; pssm_Cluster := pss_Cluster s; pssm_BucketCredentialsSecret := bucket;
              pssm_StorageConfig := storage |}
  | RSafekeeper => λ s : SafekeeperSpec,
      storage ← embed_StorageConfig (sfs_StorageConfig s);
      mret {| sfsm_ID := sfs_ID s; sfsm_Cluster := sfs_Cluster s; sfsm_StorageConfig := storage |}
  end.

Definition embed_Status (s : Status) : mem StatusM :=
  conds ← embed_list (t := TCondition) (embed_flat (t := TCondition)) (st_Conditions s);
  mret {| stm_ObservedGeneration := st_ObservedGeneration s; stm_Conditions := conds |}.

Lemma embed_OwnerReference_embeds : embeds view_OwnerReference embed_OwnerReference.
Proof.
  intros h v. start_embed (λ hn a, view_OwnerReference hn a = Some v). unfold embed_OwnerReference.
  embed_field (embed_opt_ptr_embeds (t := TBool)) (or_Controller v) a hn Hd Hs Ha.
  eexists _, hn. split_and!; [done..|]. read Ha. by destruct v.
Qed.

Lemma embed_ObjectMeta_embeds : embeds view_ObjectMeta embed_ObjectMeta.
Proof.
  intros h v. start_embed (λ hn a, view_ObjectMeta hn a = Some v). unfold embed_ObjectMeta.
  embed_field embed_map_embeds (om_Labels v) a1 h1 Hd1 Hs1 Ha1.
  embed_field embed_map_embeds (om_Annotations v) a2 h2 Hd2 Hs2 Ha2.
  embed_field (embed_list_embeds (t := TOwnerReference) _ _ embed_OwnerReference_embeds)
    (om_OwnerReferences v) a3 h3 Hd3 Hs3 Ha3.
  embed_field (embed_list_embeds (t := TString) _ _ (embed_flat_embeds (t := TString)))
    (om_ManagedFields v) a4 h4 Hd4 Hs4 Ha4.
  eexists _, h4. split_and!; [done..|].
  read (view_mono _ _ _ _ (transitivity Hs2 (transitivity Hs3 Hs4)) Ha1).
  read (view_mono _ _ _ _ (transitivity Hs3 Hs4) Ha2). read (view_mono _ _ _ _ Hs4 Ha3). read Ha4.
  by destruct v.
Qed.

Lemma embed_StorageConfig_embeds : embeds view_StorageConfig embed_StorageConfig.
Proof.
  intros h v. start_embed (λ hn a, view_StorageConfig hn a = Some v). unfold embed_StorageConfig.
  embed_field (embed_opt_ptr_embeds (t := TString)) (stc_StorageClass v) a hn Hd Hs Ha.
  eexists _, hn. split_and!; [done..|]. read Ha. by destruct v.
Qed.

Lemma embed_Status_embeds : embeds view_Status embed_Status.
Proof.
  intros h v. start_embed (λ hn a, view_Status hn a = Some v). unfold embed_Status.
  embed_field (embed_list_embeds (t := TCondition) _ _ (embed_flat_embeds (t := TCondition)))
    (st_Conditions v) a hn Hd Hs Ha.
  eexists _, hn. split_and!; [done..|]. read Ha. by destruct v.
Qed.

Lemma embed_Spec_embeds k : embeds (view_Spec k) (embed_Spec k).
Proof.
  destruct k; intros h v.
  2,3: exists v, ∅; split_and!; [by rewrite map_union_empty|apply map_disjoint_empty_l|done].
  - start_embed (λ hn a, view_ClusterSpec hn a = Some v). simpl.
    embed_field (embed_opt_ptr_embeds (t := TSecretReference)) (cls_BucketCredentialsSecret v) a1 h1 Hd1 Hs1 Ha1.
    embed_field (embed_opt_ptr_embeds (t := TSecretKeySelector)) (cls_StorageControllerDatabaseSecret v)
      a2 h2 Hd2 Hs2 Ha2.
    eexists _, h2. split_and!; [done..|]. read (view_mono _ _ _ _ Hs2 Ha1). read Ha2. by destruct v.
  - start_embed (λ hn a, view_PageserverSpec hn a = Some v). simpl.
    embed_field (embed_opt_ptr_embeds (t := TSecretReference)) (pss_BucketCredentialsSecret v) a1 h1 Hd1 Hs1 Ha1.
    embed_field embed_StorageConfig_embeds (pss_StorageConfig v) a2 h2 Hd2 Hs2 Ha2.
    eexists _, h2. split_and!; [done..|]. read (view_mono _ _ _ _ Hs2 Ha1). read Ha2. by destruct v.
  - start_embed (λ hn a, view_SafekeeperSpec hn a = Some v). simpl.
    embed_field embed_StorageConfig_embeds (sfs_StorageConfig v) a2 h2 Hd2 Hs2 Ha2.
    eexists _, h2. split_and!; [done..|]. read Ha2. by destruct v.
Qed.

Definition spec_of (k : crd) : obj (kind_of k) → SpecV k :=
  match k with
  | RCluster => cl_Spec
  | RProject => pr_Spec
  | RBranch => br_Spec
  | RPageserver => pgs_Spec
  | RSafekeeper => sk_Spec
  end.

Lemma mk_obj_eta k (v : obj (kind_of k)) :
  mk_obj k (type_meta v) (meta v) (spec_of k v) (StatusValue v) = v.
Proof. by destruct k, v. Qed.

(** A client that decodes into new memory and then into the struct. *)
#[local] Instance ref_decode : DecodeOps := λ k v p,
  m ← embed_ObjectMeta (meta v);
  sp ← embed_Spec k (spec_of k v);
  st ← embed_Status (StatusValue v);
  store (deref p) {| om_type := type_meta v; om_meta := m; om_spec := sp; om_status := st |}.

(** A store to a variable in [ho], after memory [hn] was made next to [ho] and [hr]. *)
Lemma store_made {A} (pl : place A) (x s : A) (ho hr hn : heap) :
  ho ##ₘ hr → hn ##ₘ ho ∪ hr → pget ho pl = Some s →
  ∃ ho', store pl x (ho ∪ hr ∪ hn) = Some (ho' ∪ hr, tt) ∧ ho' ##ₘ hr ∧
    updates pl (ho ∪ hn) x ∅ ho' ∧ hn ⊆ ho' ∧ delete (pl_base pl) ho ⊆ ho'.
Proof.
  intros Hd [Hdo Hdr]%map_disjoint_union_r Hs.
  destruct (store_run pl (ho ∪ hn) x s) as (ho' & Hrun & Hu); [by apply load_frame|].
  destruct (store_frame _ _ _ _ hr Hrun) as [Hrun' Hd']; [by apply map_disjoint_union_l_2|].
  exists ho'. split_and!; [|done|done| |].
  - rewrite <-Hrun'. f_equal. rewrite <-!map_union_assoc. f_equal. apply map_union_comm. by apply map_disjoint_sym.
  - etrans; [|etrans; [exact (updates_sub _ _ _ _ _ Hu)|apply delete_subseteq]].
    apply map_subseteq_spec. intros i y Hi. apply lookup_delete_Some. split.
    + intros <-. apply bind_Some in Hs as (b & Hb & _). exact (proj1 (map_disjoint_spec hn ho) Hdo _ _ _ Hi Hb).
    + rewrite map_union_comm by (by apply map_disjoint_sym). by apply lookup_union_Some_l.
  - etrans; [|etrans; [exact (updates_sub _ _ _ _ _ Hu)|apply delete_subseteq]].
    apply delete_mono, map_union_subseteq_l.
Qed.

#[local] Instance ref_decode_laws : DecodeLaws.
Proof.
  intros k v p v0 ho hr Hd Hv0. destruct (view_at_parts _ _ _ Hv0) as (ob & Hp & _).
  unfold decode_into, ref_decode.
  pose proof (map_disjoint_empty_l (M := gmap nat) (A := block) (ho ∪ hr)) as Hd0.
  rewrite <-(map_union_empty (ho ∪ hr)).
  embed_field embed_ObjectMeta_embeds (meta v) m h1 Hd1 Hs1 Hm.
  embed_field (embed_Spec_embeds k) (spec_of k v) sp h2 Hd2 Hs2 Hsp.
  embed_field embed_Status_embeds (StatusValue v) st h3 Hd3 Hs3 Hst.
  set (new := {| om_type := type_meta v; om_meta := m; om_spec := sp; om_status := st |}).
  destruct (store_made (deref p) new ob ho hr h3 Hd Hd3 Hp) as (ho' & Hrun & Hd' & Hu & Hsub & _).
  exists ho'. split_and!; [exact Hrun|done|].
  apply bind_Some. exists new. split; [exact (updates_get _ _ _ _ _ Hu)|].
  rewrite <-(mk_obj_eta k v). apply view_Object_parts.
  exists (meta v), (spec_of k v), (StatusValue v). split_and!; [| | |done].
  all: eapply view_mono; [exact Hsub|]; try done.
  - by apply (view_mono _ _ _ _ (transitivity Hs2 Hs3) Hm).
  - by apply (view_mono _ _ _ _ Hs3 Hsp).
Qed.

#[local] Existing Instance ref_conditions.

(** A condition writer that makes a new list. *)
#[local] Instance ref_set_status_condition : ConditionMemOps := λ now pl c,
  o ← load pl;
  cs ← read (view_list (t := TCondition) view_flat) o;
  conds ← embed_list (t := TCondition) (embed_flat (t := TCondition)) (SetStatusCondition now cs c);
  store pl conds.

#[local] Instance ref_set_status_condition_laws : ConditionMemLaws.
Proof.
  intros k p v now c ho hr Hd Hv. unfold set_status_condition, ref_set_status_condition.
  destruct (view_at_parts _ _ _ Hv) as (ob & Hp & m & sp & st & Hm & Hsp & Hst & ->).
  destruct (pget_deref_block _ _ _ Hp) as (b & Hb & Ht).
  pose proof (pget_fld Conditions_ _ _ _ (pget_fld Status_ (deref p) _ _ Hp)) as Hc.
  run (load_run _ _ _ (load_frame _ _ hr _ Hc)).
  apply bind_Some in Hst as (cs & Hcs & [= <-]).
  assert (view_list (t := TCondition) view_flat (ho ∪ hr) (stm_Conditions (om_status ob)) = Some cs) as Hcs'
    by (eapply view_mono; [apply map_union_subseteq_l|exact Hcs]).
  run (read_run _ _ _ _ Hcs').
  pose proof (map_disjoint_empty_l (M := gmap nat) (A := block) (ho ∪ hr)) as Hd0.
  rewrite <-(map_union_empty (ho ∪ hr)).
  embed_field (embed_list_embeds (t := TCondition) _ _ (embed_flat_embeds (t := TCondition)))
    (SetStatusCondition now cs c) conds hn Hdn Hsn Hconds.
  destruct (store_made (StatusConditions_mem p) conds _ ho hr hn Hd Hdn Hc)
    as (ho' & Hrun & Hd' & Hu & Hsub & Hsub').
  exists ho'. split_and!; [exact Hrun|done|].
  apply (updates_fld Conditions_ _ _ (om_status ob)) in Hu;
    [|exact (pget_fld Status_ (deref p) _ _ (load_frame _ _ hn _ Hp))].
  apply (updates_fld Status_ _ _ ob) in Hu; [|exact (load_frame _ _ hn _ Hp)].
  apply bind_Some. eexists. split; [exact (updates_get _ _ _ _ _ Hu)|].
  unfold set_Conditions, StatusConditions. rewrite mk_obj_status, mk_obj_set_Status.
  apply view_Object_parts. eexists m, sp, _. split_and!; [| | |done].
  1,2: eapply view_mono; [exact Hsub'|]; by eapply view_skip.
  apply bind_Some. eexists. split; [|done]. exact (view_mono _ _ _ _ Hsub Hconds).
Qed.

(** A Safekeeper whose StatefulSet is not there, in a memory where a second variable
    shares its labels and conditions. *)
#[local] Existing Instances reference_copies reference_copies_laws RefInstances.status_equal.

Definition shared_safekeeper : ObjectM RSafekeeper :=
  {| om_type := no_TypeMeta; om_meta := sample_meta;
     om_spec := {| sfsm_ID := 1; sfsm_Cluster := "main";
                   sfsm_StorageConfig := {| stcm_StorageClass := None; stcm_Size := "10Gi" |} |} : SpecM RSafekeeper;
     om_status := {| stm_ObservedGeneration := 0; stm_Conditions := Some (Slice 3 0 1) |} |}.
Definition shared_heap : heap :=
  {[ 0%nat := Block (TObject RSafekeeper) [shared_safekeeper];
     1%nat := Block (TObject RSafekeeper) [shared_safekeeper];
     2%nat := Block TStringMap [ {[ "app" := "safekeeper" ]} : smap ];
     3%nat := Block TCondition [sample_condition] ]}.

Lemma UpdateSTSBackedStatus_mem_refines_witness :
  ∃ v, view_at RSafekeeper shared_heap (Ptr 0) = Some v ∧
  prog_rel (patched_as RSafekeeper shared_heap (Ptr 0))
    (UpdateSTSBackedStatus_mem RSafekeeper (Ptr 0) "main-safekeeper-1" "Safekeeper" None shared_heap)
    (UpdateSTSBackedStatus (k := KSafekeeper) v "main-safekeeper-1" "Safekeeper" None).
Proof.
  eexists. split; [vm_compute; reflexivity|].
  apply (UpdateSTSBackedStatus_mem_refines RSafekeeper shared_heap (Ptr 0)). vm_compute. reflexivity.
Defined.
